(* ===== verification/_CoqProject ===== *)
-Q . S2P
Prelude.v
Unicode.v
Domain.v
PyStr.v
Utf8.v
Hashes.v
Json.v
Format.v
RateLimit.v
Metrics.v
Logging.v
Strategies.v
Masking.v
Resolution.v
Regex.v
Validators.v
Detector.v
Policy.v
Restoration.v
World.v
StoreInterface.v
MemoryStore.v
Process.v
Service.v
Concurrent.v
Redis.v
RedisService.v
Wiring.v
Llm.v
Pipeline.v
LogSetup.v
LogLines.v
Api.v
ApiRuns.v
EndToEnd.v
Responses.v
Outcomes.v
LogSafety.v
EndToEndRuns.v
SmokeTest.v
Packaging.v
PackageRun.v
Benchmark.v
Score.v
Performance.v
Report.v
Urls.v
LoadTools.v
LoadRun.v
LoadShape.v
LoadScenario.v
LoadHarness.v
