(* ===== verification/Prelude.v ===== *)
(** * PII Security Proxy: a verification library

    The program ([src/]) is a proxy between a consumer and a language model.
    It finds personal data in a text, replaces it ("masks" it), remembers the
    original under the client's [payload_id], and gives the original back when
    the masked text returns under the same id.  Around that service are an
    HTTP API with rate limiting, metrics and safe logs, two restoration stores,
    an optional detector that asks a language model, and the scripts that
    benchmark, score, load-test and package the submission.

    This library models those parts as Rocq functions and proves what makes
    them correct.  This file is the root: the text below documents the whole
    development, the rest of the file is the shared prelude.

    ** How the program works, and where it is modelled

    A request goes through the parts in this order.

    - [Api] ([app/main.py], [app/api/]): [serve_http] is the application on one
      request - [RateLimitMiddleware] outermost ([rate_limited]), then
      [observe_http_request] ([observe_http]: request id, in-flight gauge,
      counting, the access log), the exception handlers ([handle_errors]) and
      the endpoints ([router], [process_endpoint], [readiness], ...).  Its
      state [app] is the service below, the limiter and [request.state]; the
      service runs in a world with the log and the context variable of the
      request id ([Logged]), so that every logger's lines come in the order
      and the context in which they are written.  [ApiRuns] evaluates it.
    - [RateLimit] ([app/core/ratelimit.py]): [allow] on the deques of hit times.
    - [Policy] ([app/policies/]): [load_file], [load_all] and [get_policy], which
      turn parsed YAML into the [ConsumerPolicy] of a request.
    - [Process] ([app/processing/process_service.py]): [process] with its
      stages [process_body] (lookup, [maybe_prepare], atomic transition,
      [outcome_from_state]), the callback [transition_state] and
      [prepare_mask].  It is written against two interfaces: [RestorationStore]
      with [StoreLaws] ([StoreInterface], for [app/restoration/base.py]) and
      [World] with [WorldLaws] ([World]: clocks, random tokens, Fernet, the
      logger).
    - [Resolution] ([app/detection/engine.py], [resolution.py], [base.py],
      [context/resolver.py]): [engine_detect] runs any list of detectors and
      resolves overlaps with [resolve_spans].
    - [Detector] ([app/detection/regex/detector.py]): the 23 patterns as syntax
      trees of [Regex], the tables, and [detect] with its helpers; [Validators]
      ([app/detection/validators.py]): [luhn], [inn_checksum], [parse_date],
      [is_birth_date].
    - [Llm] ([app/detection/llm_detector.py] and the client of
      [app/api/dependencies.py]): [llm_detect], [parse_response], the LRU cache
      [complete_cached], [openai_complete].
    - [Masking] and [Strategies] ([app/masking/]): [mask] with [_select_spans],
      the context rules, the warnings about both, and the four strategies.
    - [Restoration] ([app/restoration/models.py]): the stored record and its
      JSON form; [MemoryStore] ([memory.py]) and [Redis] ([redis_store.py]): the
      two stores; [Service]: the regex detector, the in-memory store and the
      process service assembled as [dependencies.py] does by default;
      [RedisService]: the process service over the Redis store.
    - [Concurrent]: worker threads running [process] against one in-memory
      store; a [move] is what a thread does between two lock operations and
      [step] lets any thread move.
    - [Pipeline] ([app/processing/secure_llm_pipeline.py], [app/llm/]): [run].
    - [Metrics], [Logging] ([app/observability/]): the calls made on the
      collectors, the records handed to the loggers, the fields of a log line
      and the context variable; [LogLines]: which code logs what; [LogSetup]:
      the logger's set-up and [RequestContextMiddleware], which [main.py] does
      not install.
    - [Packaging] and [PackageRun] ([scripts/package_submission.py]),
      [Benchmark] ([scripts/benchmark.py]), [Score] ([benchmarks/score.py]): what
      the scripts decide and print; [SmokeTest] ([scripts/smoke_test.py]): a client of
      the whole application.  The load runner ([scripts/run_performance.py])
      has five files: [Performance] (redaction, the verdict [build_result] on a
      step), [Report] (the texts of violations, [summary.md]), [Urls] (the
      target's host and port), [LoadTools] (what it reads from Docker,
      [/metrics], psutil and Locust's files) and [LoadRun] (starting Locust,
      both profiles, [main]).
    - The load itself ([tests/performance/locustfile.py]): [LoadShape] (the
      target rate over time, its integral, the scheduler), [LoadScenario] (what
      a simulated user sends, how it judges an answer, the counters and the
      files left for the runner) and [LoadHarness] (the counters against the
      runner's verdict).

    Below them: [Domain] ([app/core/]: enums, models, exceptions, and the
    dynamically typed values [pyobj]), [Hashes] ([app/core/security.py] over an
    executable SHA-256, BLAKE2b and HMAC), and the parts of Python the program
    uses: [PyStr], [Utf8], [Unicode], [Json], [Regex], and [Format], the format
    specifications of f-strings.

    ** Conventions

    A [str] is a list of code points and [bytes] a list of integers below 256.
    Fallible code returns [result exn A]; code that also mutates its receiver
    is a [stateM S exn A], which keeps the mutations made before an exception.
    A dict whose order matters is an association list with [dict_get],
    [dict_set] and [dict_del].  Third-party code is a class: [UnicodeDB],
    [HashLib], [World], [Interpreter] (the recursion limit and the rest of
    [fromisoformat]), [PyRepr] ([repr]), [RedisClient], [LLMClient],
    [LLMAdapter], [HttpClient], [BenchClient], [Framework] (FastAPI's parsing
    and fixed answers),
    [UuidSource], [Surroundings] (environment, pydantic, constructors),
    [BuildHost], [LoadHost] (processes and files of the scripts), [LocustClient]
    and [RunClock] (Locust's client and clock).  A class of laws states
    documented behaviour only, and every class has a concrete instance with
    which the witnesses evaluate.

    ** What is proved

    - From end to end ([EndToEnd], [Responses], [Outcomes], [LogSafety],
      witnesses in [EndToEndRuns]): a text masked over HTTP comes back over
      HTTP, whatever is served in between ([http_roundtrip]); no traffic hurts
      a session ([http_keeps_sessions]); every answer has the type of its route
      ([answers_typed]); every admitted request is counted once and logged
      once ([http_outcome_recorded]); nothing a request carries as text is
      logged, the masking engine's warnings included ([logs_hold_no_payload]),
      and every line of a request is written with the id its response carries
      ([log_lines_correlated]); the smoke test passes ([SmokeTest]).
    - The wiring ([Wiring]): factories called in turn build one application
      ([factories_shared]), and a filled cache is final under any
      interleaving ([warm_factory_agrees]); but a cold start under concurrent
      requests can leave two stores ([cold_start_two_stores]), and a missing
      key in production lets the application start and every request fail
      ([production_without_key]).
    - The service ([Process], witnesses in [Service]): one call implements the
      abstract [session] atomically ([process_refines_session]); what was
      masked comes back ([mask_demask_roundtrip]); a call repeated after any
      run of requests gets the answer it got before, unless its mask was
      handed in meanwhile, which makes it a mismatch ([process_idempotent]); a
      session keeps its texts, hash, mappings and owner along any run
      ([run_keeps_session]); consumers neither change each other's sessions
      nor are answered from them ([consumers_isolated]).
    - The stores: [transition] of the in-memory store refines the interface
      and refuses only when full ([MemoryStore]); the compare-and-set loop of
      the Redis store is atomic under any interference ([Redis]; of EXEC it
      is assumed only that it fails when a key watched since changed), so
      workers that share a server share sessions ([RedisService]); concurrent
      requests neither corrupt a session - what a callback makes of an entry
      that had not expired when it was read evolves from it - nor deadlock
      ([Concurrent]); the JSON form of a state is read back ([Restoration]).
    - Masking: the masked text is the text with exactly the recorded spans
      replaced ([mask_is_segmentwise], [mask_equals_right_to_left]); the full
      mask hides every letter and digit ([full_mask_policy_hides]); when the
      numeric mask raises ([numeric_edges_index_error]); further theorems on
      selection, context rules, e-mail and initials.
    - Detection: [detect] never raises on any text and reports spans of it;
      what it reports passed the checks of its type; what matches a direct
      pattern is reported whole ([Detector]); resolution returns disjoint
      candidates, loses none but to a chain of better overlapping ones, and
      what it returns the masking engine selects whole
      ([resolved_spans_all_selected], [Resolution]); Luhn detects every
      single-digit error, the INN check digit is unique, every written date is
      parsed ([Validators]); the language model detector never raises and is
      exact on well-formed answers ([Llm]).
    - The edges: the HTTP contract for every outcome, and refusals ([Api]); the
      limiter equals its specification ([RateLimit]); policies ([Policy]); log
      lines carry the listed fields only ([format_payload_fields]); the stage
      gauge is the maximum ([Metrics]); under a policy of placeholders they
      come back from a model as their originals ([Pipeline]).
    - The scripts: exactly the allowed files are packaged ([Packaging]); the
      benchmark's counters reconcile and a user stops at its deadline
      ([Benchmark]); the score partitions findings and expectations ([Score]);
      an archive is accepted only when every process of its smoke test
      succeeded ([PackageRun]); a green load step means what it says, and
      reports hold no secrets ([Performance]); the exit code of a load run is
      that of its verdicts, and a verdict to pass rests on what the step's own
      Locust process left ([LoadRun]); the Markdown report can be read back,
      and its rows say PASS exactly for what passed ([report_shows_verdict]).
    - The load test: the schedule is the profile ([cumulative_is_integral],
      [schedule_accurate]) and no interleaving of users runs ahead of it
      ([load_never_ahead]), and every wait for a slot ends
      ([organizer_pace_returns]); whatever the service answers, the counters
      satisfy the runner's reconciliations ([harness_reconciles]).

    ** Bounds and fuel

    The matcher [rx_run] of [Regex] recurses on the pattern and, inside a
    repetition, on the characters left ([rx_complete] shows that this loses no
    match).  [json_loads] and [scan_value] are fuelled by the interpreter's
    recursion limit, which is part of what Python does; [state_json_roundtrip]
    shows that the limit assumed of an [Interpreter] suffices.  [walk] and the
    file trees are structural.  [run_user] takes the number of turns as fuel:
    the loop is over at the first reading past the deadline
    ([benchmark_user_stops]), but as the clock is only known not to go back, no
    number of turns is enough for every clock.
    The wait for the end of a load run ends within its seconds
    ([organizer_pace_returns]), because it sleeps.  The loop of the
    Redis store has its own bound, [MAX_CAS_RETRIES].  Times are integers
    (clock ticks) or exact rationals where the code computes with floats;
    rounding is not modelled.

    ** Not modelled

    How pydantic reads the environment and the [.env] file (the settings are
    given); streams of [logging]; the warning of the in-memory store when it is
    built with a generated key (before the first request); the Prometheus
    collectors and their text form; FastAPI, Starlette,
    the Redis server, Fernet, HTTP clients, Locust and gevent (parameters); of
    the scripts, the processes they start and the facts of the machine they
    report (parameters), the loading of the score's data set, the progress lines
    of the load runner and the text of its [summary.json] (the fields are
    [Report.asdict]); the tests, which are clients of the program. *)

From Stdlib Require Export QArith.QArith_base ZArith Lia Sorting.Sorted Sorting.Permutation.
From stdpp Require Export base tactics numbers strings option gmap list sorting.

#[global] Open Scope Z_scope.
#[global] Set Default Goal Selector "1".

(** ** Text

    A Python [str] is a sequence of Unicode code points; [bytes] is a
    sequence of integers below 256.  Both are lists of [Z]. *)

Abbreviation pystr := (list Z).
Abbreviation bytes := (list Z).

(** ** Results of fallible code *)

Inductive result (E A : Type) : Type :=
  | Ok (a : A)
  | Err (e : E).
Arguments Ok {E A} a.
Arguments Err {E A} e.

Section Result.
Context {E : Type}.

#[export] Instance result_ret : MRet (result E) := λ A a, Ok a.
#[export] Instance result_bind : MBind (result E) := λ A B k m,
  match m with Ok a => k a | Err e => Err e end.
#[export] Instance result_fmap : FMap (result E) := λ A B f m,
  match m with Ok a => Ok (f a) | Err e => Err e end.

Definition is_ok {A} (m : result E A) : bool :=
  match m with Ok _ => true | Err _ => false end.

Definition result_of_option {A} (e : E) (o : option A) : result E A :=
  match o with Some a => Ok a | None => Err e end.

#[export] Instance Ok_inj {A} : Inj (=) (=) (@Ok E A).
Proof. by intros a b [= ->]. Qed.

Lemma bind_Ok {A B} (m : result E A) (k : A → result E B) b :
  m ≫= k = Ok b ↔ ∃ a, m = Ok a ∧ k a = Ok b.
Proof. destruct m; naive_solver. Qed.

Lemma bind_Err {A B} (m : result E A) (k : A → result E B) e :
  m ≫= k = Err e ↔ m = Err e ∨ ∃ a, m = Ok a ∧ k a = Err e.
Proof. destruct m; naive_solver. Qed.

Lemma fmap_Ok {A B} (m : result E A) (f : A → B) b :
  f <$> m = Ok b ↔ ∃ a, m = Ok a ∧ b = f a.
Proof. destruct m; naive_solver. Qed.

Lemma result_of_option_Ok {A} e (o : option A) a :
  result_of_option e o = Ok a ↔ o = Some a.
Proof. destruct o; naive_solver. Qed.

(** Sequencing a fallible function over a list, left to right, stopping at
    the first error (a Python comprehension whose body may raise). *)
Fixpoint mapR {A B} (f : A → result E B) (l : list A) : result E (list B) :=
  match l with
  | [] => Ok []
  | a :: l => b ← f a; bs ← mapR f l; Ok (b :: bs)
  end.

Lemma mapR_Ok {A B} (f : A → result E B) l bs :
  mapR f l = Ok bs ↔ Forall2 (λ a b, f a = Ok b) l bs.
Proof.
  revert bs. induction l as [|a l IH]; intros bs; simpl.
  - split; [intros [= <-]; constructor | by intros ->%Forall2_nil_inv_l].
  - split.
    + intros (b & Hb & (bs' & Hbs & [= <-])%bind_Ok)%bind_Ok.
      constructor; [done | by apply IH].
    + intros (b & bs' & Hb & Hl & ->)%Forall2_cons_inv_l.
      rewrite Hb; simpl. apply IH in Hl. by rewrite Hl.
Qed.
End Result.

(** Clears the plumbing of the result monad from the hypotheses. *)
Ltac simplify_result :=
  repeat match goal with
  | H : (_ ≫= _) = Ok _ |- _ => apply bind_Ok in H as (? & ? & ?)
  | H : (_ <$> _) = Ok _ |- _ => apply fmap_Ok in H as (? & ? & ?)
  | H : result_of_option _ _ = Ok _ |- _ => apply result_of_option_Ok in H
  | H : Ok _ = Ok _ |- _ => injection H as H
  | H : Err _ = Err _ |- _ => injection H as H
  | H : Ok _ = Err _ |- _ => discriminate H
  | H : Err _ = Ok _ |- _ => discriminate H
  end; simplify_eq/=.

(** ** State-passing computations that may raise

    A Python call that mutates its receiver and may raise is a function from
    the state to a result and the state it leaves behind: the mutations made
    before the exception are kept. *)

Section StateM.
Context {S E : Type}.

Definition stateM (A : Type) : Type := S → result E A * S.

Definition sret {A} (a : A) : stateM A := λ s, (Ok a, s).
Definition sraise {A} (e : E) : stateM A := λ s, (Err e, s).
Definition sbind {A B} (m : stateM A) (k : A → stateM B) : stateM B := λ s,
  match m s with
  | (Ok a, s') => k a s'
  | (Err e, s') => (Err e, s')
  end.
Definition slift {A} (r : result E A) : stateM A := λ s, (r, s).

Lemma sbind_Ok {A B} (m : stateM A) (k : A → stateM B) s b s' :
  sbind m k s = (Ok b, s') ↔ ∃ a s1, m s = (Ok a, s1) ∧ k a s1 = (Ok b, s').
Proof. unfold sbind. destruct (m s) as [[] ?]; naive_solver. Qed.

Lemma sbind_Err {A B} (m : stateM A) (k : A → stateM B) s e s' :
  sbind m k s = (Err e, s') ↔
    m s = (Err e, s') ∨ ∃ a s1, m s = (Ok a, s1) ∧ k a s1 = (Err e, s').
Proof. unfold sbind. destruct (m s) as [[] ?]; naive_solver. Qed.
End StateM.
Arguments stateM : clear implicits.

Declare Scope proxy_scope.
Delimit Scope proxy_scope with proxy.
Notation "x <-- m ; k" := (sbind m (λ x, k))
  (at level 20, m at level 100, k at level 200) : proxy_scope.
#[global] Open Scope proxy_scope.

(** ** Python dictionaries

    A dict keeps insertion order: setting an existing key replaces the value
    in place, setting a new key appends it. *)

Section Dict.
Context {K V : Type} `{EqDecision K}.
Implicit Types (d : list (K * V)) (k : K).

Fixpoint dict_get k d : option V :=
  match d with
  | [] => None
  | (k', v) :: d => if decide (k = k') then Some v else dict_get k d
  end.

Fixpoint dict_set k (v : V) d : list (K * V) :=
  match d with
  | [] => [(k, v)]
  | (k', v') :: d =>
      if decide (k = k') then (k', v) :: d else (k', v') :: dict_set k v d
  end.

Fixpoint dict_del k d : list (K * V) :=
  match d with
  | [] => []
  | (k', v') :: d => if decide (k = k') then d else (k', v') :: dict_del k d
  end.

Definition dict_mem k d : bool := bool_decide (is_Some (dict_get k d)).

Lemma dict_get_set_eq k v d : dict_get k (dict_set k v d) = Some v.
Proof.
  induction d as [|[k' v'] d IH]; simpl; [by rewrite decide_True|].
  case_decide; simpl; case_decide; done.
Qed.

Lemma dict_get_set_ne k k' v d : k ≠ k' → dict_get k (dict_set k' v d) = dict_get k d.
Proof.
  intros Hne. induction d as [|[k1 v1] d IH]; simpl; [by rewrite decide_False|].
  repeat (case_decide; simplify_eq/=); done.
Qed.

Lemma dict_get_del_ne k k' d : k ≠ k' → dict_get k (dict_del k' d) = dict_get k d.
Proof.
  intros Hne. induction d as [|[k1 v1] d IH]; simpl; [done|].
  repeat (case_decide; simplify_eq/=); done.
Qed.

Lemma dict_get_None k d : dict_get k d = None ↔ k ∉ d.*1.
Proof.
  induction d as [|[k1 v1] d IH]; simpl; [set_solver|].
  case_decide; set_solver.
Qed.

Lemma dict_get_elem k v d : dict_get k d = Some v → (k, v) ∈ d.
Proof.
  induction d as [|[k1 v1] d IH]; simpl; [done|].
  case_decide; intros; simplify_eq; set_solver.
Qed.

Lemma dict_elem_get k v d : NoDup (d.*1) → (k, v) ∈ d → dict_get k d = Some v.
Proof.
  induction d as [|[k1 v1] d IH]; simpl; [set_solver|].
  intros [Hn Hd]%NoDup_cons [[= -> ->]|Hin]%elem_of_cons; [by rewrite decide_True|].
  rewrite decide_False; [by apply IH|].
  intros ->. apply Hn. by apply (list_elem_of_fmap_2 fst) in Hin.
Qed.

Lemma dict_keys_set k v d :
  (dict_set k v d).*1 = if decide (k ∈ d.*1) then d.*1 else d.*1 ++ [k].
Proof.
  induction d as [|[k1 v1] d IH]; [done|]. cbn [dict_set].
  rewrite fmap_cons. cbn [fst]. destruct (decide (k = k1)) as [->|Hk]; rewrite fmap_cons; cbn [fst].
  - by rewrite (decide_True (P := k1 ∈ k1 :: d.*1)) by set_solver.
  - rewrite IH. repeat case_decide; set_solver.
Qed.

Lemma dict_set_fresh k v d : k ∉ d.*1 → dict_set k v d = d ++ [(k, v)].
Proof.
  induction d as [|[k1 v1] d IH]; intros Hk; [done|]. rewrite fmap_cons in Hk. cbn [dict_set].
  rewrite decide_False by set_solver. cbn [app]. f_equal. apply IH. set_solver.
Qed.

Lemma dict_NoDup_set k v d : NoDup (d.*1) → NoDup ((dict_set k v d).*1).
Proof.
  intros Hd. rewrite dict_keys_set. case_decide; [done|].
  apply NoDup_app. split_and!; [done|set_solver|apply NoDup_singleton].
Qed.

Lemma dict_NoDup_del k d : NoDup (d.*1) → NoDup ((dict_del k d).*1).
Proof.
  assert (Hsub : ∀ x d, x ∈ (dict_del k d).*1 → x ∈ d.*1).
  { intros x d0. induction d0 as [|[k1 v1] d0 IH]; simpl; [done|].
    case_decide; set_solver. }
  induction d as [|[k1 v1] d IH]; simpl; [done|].
  intros [Hn Hd]%NoDup_cons. case_decide; simpl; [done|].
  apply NoDup_cons; eauto 6.
Qed.

Lemma dict_get_del_eq k d : NoDup (d.*1) → dict_get k (dict_del k d) = None.
Proof.
  induction d as [|[k1 v1] d IH]; simpl; [done|].
  intros [Hn Hd]%NoDup_cons. case_decide as Hk; simplify_eq/=.
  - by apply dict_get_None.
  - rewrite decide_False by done. by apply IH.
Qed.
End Dict.

(** [dict] closes side conditions on keys; [forward] is filled by [World] and
    the components with the computations that do not turn the clock back. *)
Create HintDb dict.
Create HintDb forward.
#[export] Hint Resolve dict_NoDup_set dict_NoDup_del dict_get_elem dict_elem_get : dict.
#[export] Hint Rewrite @dict_get_set_eq : dict.
#[export] Hint Rewrite @dict_get_set_ne @dict_get_del_ne @dict_set_fresh using done : dict.

(** ** [sorted(l, key=...)]

    Python's sort is stable.  [sorted_by leb] inserts every element in front
    of the first later element it does not exceed; the lemmas below say it is
    a sorted permutation that keeps the order of equivalent elements, which
    determines it. *)

Section StableSort.
Context {A : Type} (leb : A → A → bool).

Fixpoint insert_sorted (x : A) (l : list A) : list A :=
  match l with
  | [] => [x]
  | y :: l' => if leb x y then x :: l else y :: insert_sorted x l'
  end.

Fixpoint sorted_by (l : list A) : list A :=
  match l with
  | [] => []
  | x :: l => insert_sorted x (sorted_by l)
  end.

Abbreviation le := (λ x y, leb x y = true).

Lemma insert_sorted_perm x l : Permutation (insert_sorted x l) (x :: l).
Proof.
  induction l as [|y l IH]; simpl; [done|].
  destruct (leb x y); [done|]. rewrite IH. apply perm_swap.
Qed.

Lemma sorted_by_perm l : Permutation (sorted_by l) l.
Proof. induction l as [|x l IH]; simpl; [done|]. by rewrite insert_sorted_perm, IH. Qed.

Lemma elem_of_sorted_by x l : x ∈ sorted_by l ↔ x ∈ l.
Proof. by rewrite sorted_by_perm. Qed.

Lemma Forall_sorted_by P l : Forall P (sorted_by l) ↔ Forall P l.
Proof. by rewrite sorted_by_perm. Qed.

Lemma insert_sorted_stable (p : A → Prop) `{!∀ x, Decision (p x)} x l :
  (∀ x y, p x → p y → leb x y = true) →
  filter p (insert_sorted x l) = filter p (x :: l).
Proof.
  intros Hp. induction l as [|y l IH]; simpl; [done|].
  destruct (leb x y) eqn:Hxy; [done|].
  rewrite filter_cons, IH, !filter_cons.
  repeat case_decide; try done. by rewrite Hp in Hxy.
Qed.

Lemma sorted_by_stable (p : A → Prop) `{!∀ x, Decision (p x)} l :
  (∀ x y, p x → p y → leb x y = true) →
  filter p (sorted_by l) = filter p l.
Proof.
  intros Hp. induction l as [|x l IH]; simpl; [done|].
  rewrite insert_sorted_stable by done. rewrite !filter_cons, IH. done.
Qed.

Lemma sorted_by_id l : StronglySorted le l → sorted_by l = l.
Proof.
  induction 1 as [|x l Hl IH Hx]; simpl; [done|]. rewrite IH.
  destruct Hx; simpl; [done|]. by case_match.
Qed.

Context (leb_total : ∀ x y, leb x y = true ∨ leb y x = true).
Context (leb_trans : ∀ x y z, leb x y = true → leb y z = true → leb x z = true).

Lemma insert_sorted_sorted x l :
  StronglySorted le l → StronglySorted le (insert_sorted x l).
Proof using leb_total leb_trans.
  induction 1 as [|y l Hl IH Hy]; simpl; [repeat constructor|].
  destruct (leb x y) eqn:Hxy.
  - constructor; [by constructor|]. constructor; [done|].
    eapply Forall_impl; [exact Hy|]. simpl. intros z Hz. by eapply leb_trans.
  - constructor; [done|]. rewrite insert_sorted_perm. constructor; [|done].
    destruct (leb_total x y); congruence.
Qed.

Lemma sorted_by_sorted l : StronglySorted le (sorted_by l).
Proof using leb_total leb_trans.
  induction l as [|x l IH]; simpl; [constructor|]. by apply insert_sorted_sorted.
Qed.
End StableSort.

(** Python compares key tuples lexicographically. *)
Definition lex_leb (a b : Z * Z) : bool :=
  (a.1 <? b.1) || ((a.1 =? b.1) && (a.2 <=? b.2)).

Lemma lex_leb_spec a b : lex_leb a b = true ↔ a.1 < b.1 ∨ (a.1 = b.1 ∧ a.2 <= b.2).
Proof. unfold lex_leb. rewrite orb_true_iff, andb_true_iff. lia. Qed.

Lemma lex_leb_total a b : lex_leb a b = true ∨ lex_leb b a = true.
Proof. rewrite !lex_leb_spec. lia. Qed.

Lemma lex_leb_trans a b c :
  lex_leb a b = true → lex_leb b c = true → lex_leb a c = true.
Proof. rewrite !lex_leb_spec. lia. Qed.

(** [a < b] on the rationals that stand for Python's floats. *)
Definition Qltb (a b : Q) : bool := negb (Qle_bool b a).

Lemma Qltb_false a b : Qltb a b = false ↔ (b <= a)%Q.
Proof. unfold Qltb. by rewrite negb_false_iff, Qle_bool_iff. Qed.

(** ** Lists *)

Lemma filter_keeps {A} (P : A → Prop) `{!∀ x, Decision (P x)} l : Forall P l → filter P l = l.
Proof. induction 1 as [|x l Hx Hl IH]; [done|]. rewrite filter_cons_True by done. by rewrite IH. Qed.

Lemma forallb_Forall {A} (f : A → bool) l : forallb f l = true ↔ Forall (λ x, f x = true) l.
Proof. induction l as [|x l IH]; cbn [forallb]; [by split|]. by rewrite andb_true_iff, IH, Forall_cons. Qed.

(** [StronglySorted] read with a looser relation. *)
Lemma StronglySorted_impl {A} (R R' : A → A → Prop) l :
  (∀ x y, R x y → R' x y) → StronglySorted R l → StronglySorted R' l.
Proof.
  intros HR. induction 1 as [|x l Hl IH Hx]; constructor; [done|].
  eapply Forall_impl; [exact Hx | eauto].
Qed.

Lemma StronglySorted_snoc {A} (R : A → A → Prop) l x :
  StronglySorted R (l ++ [x]) ↔ StronglySorted R l ∧ Forall (λ y, R y x) l.
Proof.
  induction l as [|y l IH]; simpl.
  - split; [intros; split; constructor | intros; repeat constructor].
  - rewrite Forall_cons. split.
    + intros Hs. inversion_clear Hs as [|?? Hl Hy]. apply IH in Hl as [Hl Hx].
      apply Forall_app in Hy as [Hy Hyx]. inversion_clear Hyx.
      split_and!; [by constructor | done | done].
    + intros [Hs [Hyx Hx]]. inversion_clear Hs as [|?? Hl Hy].
      constructor; [by apply IH|]. apply Forall_app; split; [done|]. by repeat constructor.
Qed.

Lemma StronglySorted_filter {A} (R : A → A → Prop) (P : A → Prop)
    `{!∀ x, Decision (P x)} l :
  StronglySorted R l → StronglySorted R (filter P l).
Proof.
  induction 1 as [|x l Hl IH Hx]; [constructor|].
  rewrite filter_cons. case_decide; [|done]. constructor; [done|].
  apply Forall_forall. intros y [_ Hy]%list_elem_of_filter.
  rewrite Forall_forall in Hx. eauto.
Qed.

(** How many elements satisfy [f]. *)
Fixpoint occurrences {A} (f : A → bool) (l : list A) : Z :=
  match l with [] => 0 | x :: l => (if f x then 1 else 0) + occurrences f l end.

Lemma occurrences_app {A} (f : A → bool) l l' : occurrences f (l ++ l') = occurrences f l + occurrences f l'.
Proof. induction l as [|x l IH]; [done|]. cbn [app occurrences]. lia. Qed.

Lemma occurrences_nonneg {A} (f : A → bool) l : 0 <= occurrences f l.
Proof. induction l as [|x l IH]; cbn [occurrences]; [done|]. case_match; lia. Qed.

Lemma occurrences_perm {A} (f : A → bool) l l' : l ≡ₚ l' → occurrences f l = occurrences f l'.
Proof. induction 1; cbn [occurrences]; lia. Qed.

(** ** String literals

    [u8 "..."] is the Python string a source literal denotes: Rocq keeps the
    UTF-8 bytes of the literal, [u8] decodes them to code points. *)

Fixpoint decode_utf8_literal (bs : list Z) : pystr :=
  match bs with
  | [] => []
  | b0 :: bs1 =>
      if b0 <? 128 then b0 :: decode_utf8_literal bs1 else
      match bs1 with
      | [] => []
      | b1 :: bs2 =>
          if b0 <? 224
          then ((b0 - 192) * 64 + (b1 - 128)) :: decode_utf8_literal bs2 else
          match bs2 with
          | [] => []
          | b2 :: bs3 =>
              if b0 <? 240
              then ((b0 - 224) * 4096 + (b1 - 128) * 64 + (b2 - 128))
                     :: decode_utf8_literal bs3 else
              match bs3 with
              | [] => []
              | b3 :: bs4 =>
                  ((b0 - 240) * 262144 + (b1 - 128) * 4096 + (b2 - 128) * 64
                     + (b3 - 128)) :: decode_utf8_literal bs4
              end
          end
      end
  end.

Fixpoint literal_bytes (s : string) : list Z :=
  match s with
  | EmptyString => []
  | String a s => Z.of_N (Ascii.N_of_ascii a) :: literal_bytes s
  end.

Definition u8 (s : string) : pystr := decode_utf8_literal (literal_bytes s).
