(* ===== verification/Domain.v ===== *)
(** * Domain types ([app/core])

    The enums, dataclasses and exceptions shared by every component:
    [app/core/enums.py], [app/core/models.py], [app/core/exceptions.py], and
    the dynamically typed values ([pyobj]) that policies and JSON carry. *)

From S2P Require Import Prelude.

(** ** [enums.py] *)

Inductive PIIType :=
  | PERSON_NAME | BIRTH_DATE | BIRTH_PLACE
  | PASSPORT_NUMBER | CITIZENSHIP | PASSPORT_ISSUER | PASSPORT_DIVISION_CODE
  | PASSPORT_ISSUE_DATE
  | DRIVER_LICENSE
  | ADDRESS | COUNTRY | POSTAL_CODE | CITY | STREET | HOUSE | APARTMENT
  | EMAIL | PHONE | INN
  | BANK_CARD | CVV | PIN | CARDHOLDER_NAME.

#[export] Instance PIIType_eq_dec : EqDecision PIIType.
Proof. solve_decision. Defined.

(** Types are keys of Python sets and dicts. *)
Definition pii_index (t : PIIType) : nat :=
  match t with
  | PERSON_NAME => 0 | BIRTH_DATE => 1 | BIRTH_PLACE => 2
  | PASSPORT_NUMBER => 3 | CITIZENSHIP => 4 | PASSPORT_ISSUER => 5
  | PASSPORT_DIVISION_CODE => 6 | PASSPORT_ISSUE_DATE => 7
  | DRIVER_LICENSE => 8
  | ADDRESS => 9 | COUNTRY => 10 | POSTAL_CODE => 11 | CITY => 12 | STREET => 13
  | HOUSE => 14 | APARTMENT => 15
  | EMAIL => 16 | PHONE => 17 | INN => 18
  | BANK_CARD => 19 | CVV => 20 | PIN => 21 | CARDHOLDER_NAME => 22
  end%nat.

(** The members in declaration order, as [list(PIIType)] yields them. *)
Definition all_pii_types : list PIIType :=
  [PERSON_NAME; BIRTH_DATE; BIRTH_PLACE;
   PASSPORT_NUMBER; CITIZENSHIP; PASSPORT_ISSUER; PASSPORT_DIVISION_CODE;
   PASSPORT_ISSUE_DATE; DRIVER_LICENSE;
   ADDRESS; COUNTRY; POSTAL_CODE; CITY; STREET; HOUSE; APARTMENT;
   EMAIL; PHONE; INN; BANK_CARD; CVV; PIN; CARDHOLDER_NAME].

#[export] Program Instance PIIType_countable : Countable PIIType :=
  inj_countable pii_index (λ n, all_pii_types !! n) _.
Next Obligation. by intros []. Qed.

(** [PIIType.X.value]. *)
Definition pii_value (t : PIIType) : pystr :=
  match t with
  | PERSON_NAME => u8 "PERSON_NAME"
  | BIRTH_DATE => u8 "BIRTH_DATE"
  | BIRTH_PLACE => u8 "BIRTH_PLACE"
  | PASSPORT_NUMBER => u8 "PASSPORT_NUMBER"
  | CITIZENSHIP => u8 "CITIZENSHIP"
  | PASSPORT_ISSUER => u8 "PASSPORT_ISSUER"
  | PASSPORT_DIVISION_CODE => u8 "PASSPORT_DIVISION_CODE"
  | PASSPORT_ISSUE_DATE => u8 "PASSPORT_ISSUE_DATE"
  | DRIVER_LICENSE => u8 "DRIVER_LICENSE"
  | ADDRESS => u8 "ADDRESS"
  | COUNTRY => u8 "COUNTRY"
  | POSTAL_CODE => u8 "POSTAL_CODE"
  | CITY => u8 "CITY"
  | STREET => u8 "STREET"
  | HOUSE => u8 "HOUSE"
  | APARTMENT => u8 "APARTMENT"
  | EMAIL => u8 "EMAIL"
  | PHONE => u8 "PHONE"
  | INN => u8 "INN"
  | BANK_CARD => u8 "BANK_CARD"
  | CVV => u8 "CVV"
  | PIN => u8 "PIN"
  | CARDHOLDER_NAME => u8 "CARDHOLDER_NAME"
  end.

Inductive MaskingStrategyEnum := FULL_MASK | PARTIAL_MASK | TOKENIZE | SYNTHETIC.

#[export] Instance MaskingStrategyEnum_eq_dec : EqDecision MaskingStrategyEnum.
Proof. solve_decision. Defined.

Definition all_strategies : list MaskingStrategyEnum :=
  [FULL_MASK; PARTIAL_MASK; TOKENIZE; SYNTHETIC].

Definition strategy_value (s : MaskingStrategyEnum) : pystr :=
  match s with
  | FULL_MASK => u8 "FULL_MASK"
  | PARTIAL_MASK => u8 "PARTIAL_MASK"
  | TOKENIZE => u8 "TOKENIZE"
  | SYNTHETIC => u8 "SYNTHETIC"
  end.

Inductive Operation := MASK | DEMASK.

#[export] Instance Operation_eq_dec : EqDecision Operation.
Proof. solve_decision. Defined.

Definition operation_value (o : Operation) : pystr :=
  match o with MASK => u8 "MASK" | DEMASK => u8 "DEMASK" end.

Inductive RestorationStateStatus := MASKED | DEMASKED.

#[export] Instance RestorationStateStatus_eq_dec : EqDecision RestorationStateStatus.
Proof. solve_decision. Defined.

Definition all_statuses : list RestorationStateStatus := [MASKED; DEMASKED].

Definition status_value (s : RestorationStateStatus) : pystr :=
  match s with MASKED => u8 "MASKED" | DEMASKED => u8 "DEMASKED" end.

(** ** Dynamically typed values

    What [yaml.safe_load] and [json.loads] build and [dict\[str, object\]]
    holds.  Of a float only its truth value is kept: nothing the program does
    with such a value depends on more. *)

Inductive pyobj :=
  | ONone
  | OBool (b : bool)
  | OInt (z : Z)
  | OFloat (nonzero : bool)
  | OStr (s : pystr)
  | OList (l : list pyobj)
  | ODict (d : list (pystr * pyobj)).

(** [bool(o)]. *)
Definition truthy (o : pyobj) : bool :=
  match o with
  | ONone => false
  | OBool b => b
  | OInt z => negb (z =? 0)
  | OFloat nonzero => nonzero
  | OStr s => negb (bool_decide (s = []))
  | OList l => match l with [] => false | _ => true end
  | ODict d => match d with [] => false | _ => true end
  end.

(** Enum lookup by value, [PIIType(o)]: [None] stands for the [ValueError]
    raised when [o] is not the value of a member. *)
Definition enum_of_value {A} (members : list A) (value : A → pystr) (o : pyobj) : option A :=
  match o with
  | OStr s => list_find (λ a, value a = s) members ≫= λ p, Some (p.2)
  | _ => None
  end.

Definition PIIType_of (o : pyobj) : option PIIType :=
  enum_of_value all_pii_types pii_value o.
Definition MaskingStrategy_of (o : pyobj) : option MaskingStrategyEnum :=
  enum_of_value all_strategies strategy_value o.
Definition RestorationStateStatus_of (o : pyobj) : option RestorationStateStatus :=
  enum_of_value all_statuses status_value o.

Lemma enum_of_value_sound {A} (members : list A) value o a :
  enum_of_value members value o = Some a → o = OStr (value a) ∧ a ∈ members.
Proof.
  destruct o as [| | | | s | | ]; simpl; try done.
  intros ([i a'] & Hf & [= ->])%bind_Some.
  apply list_find_Some in Hf as (Hi & <- & _).
  split; [done | by eapply list_elem_of_lookup_2].
Qed.

(** Every member is found by its own value, and by nothing else. *)
Lemma PIIType_of_value t : PIIType_of (OStr (pii_value t)) = Some t.
Proof. destruct t; vm_compute; reflexivity. Qed.

Lemma PIIType_of_Some o t : PIIType_of o = Some t ↔ o = OStr (pii_value t).
Proof.
  split; [by intros [? _]%enum_of_value_sound | intros ->; apply PIIType_of_value].
Qed.

Lemma pii_value_inj t t' : pii_value t = pii_value t' → t = t'.
Proof.
  intros H. apply (inj Some). by rewrite <-!PIIType_of_value, H.
Qed.

Lemma MaskingStrategy_of_value s : MaskingStrategy_of (OStr (strategy_value s)) = Some s.
Proof. destruct s; vm_compute; reflexivity. Qed.

Lemma RestorationStateStatus_of_value s :
  RestorationStateStatus_of (OStr (status_value s)) = Some s.
Proof. destruct s; vm_compute; reflexivity. Qed.

(** ** [exceptions.py] *)

Inductive error_class :=
  | CPIIProxyError
  | CConsumerNotAllowedError
  | CInvalidPayloadError
  | CBadRequestError
  | CRestorationStateNotFoundError
  | CProcessingError
  | CServiceOverloadedError
  | CServiceUnavailableError.

#[export] Instance error_class_eq_dec : EqDecision error_class.
Proof. solve_decision. Defined.

Definition status_code (c : error_class) : Z :=
  match c with
  | CPIIProxyError => 500
  | CConsumerNotAllowedError => 403
  | CInvalidPayloadError => 422
  | CBadRequestError => 400
  | CRestorationStateNotFoundError => 404
  | CProcessingError => 500
  | CServiceOverloadedError => 429
  | CServiceUnavailableError => 503
  end.

Definition error_type (c : error_class) : pystr :=
  match c with
  | CPIIProxyError => u8 "PROCESSING_ERROR"
  | CConsumerNotAllowedError => u8 "CONSUMER_NOT_ALLOWED"
  | CInvalidPayloadError => u8 "INVALID_PAYLOAD"
  | CBadRequestError => u8 "BAD_REQUEST"
  | CRestorationStateNotFoundError => u8 "RESTORATION_STATE_NOT_FOUND"
  | CProcessingError => u8 "PROCESSING_ERROR"
  | CServiceOverloadedError => u8 "SERVICE_OVERLOADED"
  | CServiceUnavailableError => u8 "SERVICE_UNAVAILABLE"
  end.

(** A raised domain error; [retry_after] exists on [ServiceOverloadedError]
    only. *)
Record proxy_error := ProxyError {
  err_class : error_class;
  err_message : pystr;
  err_retry_after : option Z
}.

(** The exceptions the modelled code raises or lets through: the domain errors
    and the built-in classes. *)
Inductive exn :=
  | EProxy (e : proxy_error)
  | EValueError
  | EIndexError
  | EKeyError
  | ETypeError
  | EAttributeError
  | EOverflowError
  | EUnicodeEncodeError
  | EUnicodeDecodeError
  | ERuntimeError
  | EOther (name : pystr).      (* a third-party exception class *)

#[export] Instance proxy_error_eq_dec : EqDecision proxy_error.
Proof. solve_decision. Defined.
#[export] Instance exn_eq_dec : EqDecision exn.
Proof. solve_decision. Defined.

(** [isinstance(e, ValueError)]: the Unicode errors are subclasses. *)
Definition is_value_error (e : exn) : bool :=
  match e with
  | EValueError | EUnicodeEncodeError | EUnicodeDecodeError => true
  | _ => false
  end.

Definition domain_error (c : error_class) (message : pystr) : exn :=
  EProxy (ProxyError c message None).
Definition ConsumerNotAllowedError := domain_error CConsumerNotAllowedError.
Definition InvalidPayloadError := domain_error CInvalidPayloadError.
Definition ProcessingError := domain_error CProcessingError.
Definition ServiceOverloadedError (message : pystr) (retry_after : Z) : exn :=
  EProxy (ProxyError CServiceOverloadedError message (Some retry_after)).

(** ** [models.py] *)

(** A detected span.  Confidences are only compared; they are rationals. *)
Record PIIEntity := mkPIIEntity {
  pii_type : PIIType;
  value : pystr;
  start : Z;
  end_ : Z;
  confidence : Q;
  detector : pystr;
  metadata : list (pystr * pyobj)
}.

(** The measured [processing_time] of a result is observability only and is
    left out. *)
Record DetectionResult := mkDetectionResult {
  dr_entities : list PIIEntity;
  dr_metadata : list (pystr * pyobj)
}.

Record DetectionContext := mkDetectionContext {
  ctx_consumer_id : pystr;
  ctx_language : pystr;
  ctx_metadata : list (pystr * pyobj)
}.

(** [DetectionContext(consumer_id=...)], the other fields defaulted. *)
Definition default_context (consumer_id : pystr) : DetectionContext :=
  mkDetectionContext consumer_id (u8 "ru") [].
