(* ===== verification/PyStr.v ===== *)
(** * Python string operations

    The [str] and [bytes] methods the program calls, on code point lists:
    slicing, searching, splitting, stripping, replacing, lowercasing, number
    parsing and UTF-8.  Character predicates come from [UnicodeDB]. *)

From S2P Require Import Prelude Unicode Domain.

(** ** Slicing and length *)

Definition slen {A} (s : list A) : Z := Z.of_nat (length s).

(** A slice bound: negative bounds count from the end, then clamp. *)
Definition clamp_index (n i : Z) : Z :=
  if i <? 0 then Z.max 0 (i + n) else Z.min n i.

(** [s\[a:b\]]. *)
Definition slice {A} (s : list A) (a b : Z) : list A :=
  let lo := clamp_index (slen s) a in
  let hi := clamp_index (slen s) b in
  take (Z.to_nat (hi - lo)) (drop (Z.to_nat lo) s).

(** [s\[a:\]]. *)
Definition slice_from {A} (s : list A) (a : Z) : list A := slice s a (slen s).

Definition slice_spec_def {A} (s : list A) (a b : Z) : list A :=
  take (Z.to_nat b - Z.to_nat a) (drop (Z.to_nat a) s).

Lemma slen_nonneg {A} (s : list A) : 0 <= slen s.
Proof. unfold slen. lia. Qed.

Lemma slen_app {A} (s t : list A) : slen (s ++ t) = slen s + slen t.
Proof. unfold slen. rewrite length_app. lia. Qed.

Lemma slice_in_bounds {A} (s : list A) a b :
  0 <= a → a <= b → b <= slen s → slice s a b = slice_spec_def s a b.
Proof.
  intros. unfold slice, slice_spec_def, clamp_index.
  repeat (case_match; [lia|]). rewrite !Z.min_r by lia. f_equal. lia.
Qed.

Lemma slen_slice {A} (s : list A) a b :
  0 <= a → a <= b → b <= slen s → slen (slice s a b) = b - a.
Proof.
  intros. rewrite slice_in_bounds by done. unfold slice_spec_def, slen in *.
  rewrite length_take, length_drop. lia.
Qed.

Lemma slice_empty {A} (s : list A) a : 0 <= a → a <= slen s → slice s a a = [].
Proof.
  intros. rewrite slice_in_bounds by lia. unfold slice_spec_def. by rewrite Nat.sub_diag.
Qed.

Lemma slice_full {A} (s : list A) : slice s 0 (slen s) = s.
Proof.
  rewrite slice_in_bounds by (pose proof (slen_nonneg s); lia). unfold slice_spec_def, slen.
  simpl. rewrite drop_0. apply take_ge. lia.
Qed.

Lemma slice_join {A} (s : list A) a b c :
  0 <= a → a <= b → b <= c → c <= slen s → slice s a b ++ slice s b c = slice s a c.
Proof.
  intros. rewrite !slice_in_bounds by lia. unfold slice_spec_def, slen in *.
  replace (drop (Z.to_nat b) s)
    with (drop (Z.to_nat b - Z.to_nat a) (drop (Z.to_nat a) s))
    by (rewrite drop_drop; f_equal; lia).
  rewrite take_take_drop. f_equal. lia.
Qed.

Lemma slice_from_join {A} (s : list A) a b :
  0 <= a → a <= b → b <= slen s → slice s a b ++ slice_from s b = slice_from s a.
Proof. intros. unfold slice_from. by apply slice_join. Qed.

Lemma slice_elem {A} (s : list A) a b x : x ∈ slice s a b → x ∈ s.
Proof.
  unfold slice. intros [i Hi]%list_elem_of_lookup.
  apply lookup_take_Some in Hi as [Hi _]. rewrite lookup_drop in Hi.
  by eapply list_elem_of_lookup_2.
Qed.

(** A slice is what lies between a prefix and a suffix of the right lengths. *)
Lemma slice_app_mid {A} (p m q : list A) : slice (p ++ m ++ q) (slen p) (slen p + slen m) = m.
Proof.
  pose proof (slen_nonneg p). pose proof (slen_nonneg m). pose proof (slen_nonneg q).
  rewrite slice_in_bounds by (rewrite ?slen_app; lia). unfold slice_spec_def, slen in *.
  rewrite drop_app_length' by lia. rewrite take_app_length' by lia. done.
Qed.

(** ** Prefixes and search *)

Fixpoint prefixb (p s : pystr) : bool :=
  match p, s with
  | [], _ => true
  | c :: p, d :: s => (c =? d) && prefixb p s
  | _ :: _, [] => false
  end.

Definition startswith (s p : pystr) : bool := prefixb p s.
Definition endswith (s p : pystr) : bool := prefixb (reverse p) (reverse s).

(** Offset of the first occurrence. *)
Fixpoint find_nat (needle s : pystr) : option nat :=
  if prefixb needle s then Some O else
  match s with
  | [] => None
  | _ :: s => S <$> find_nat needle s
  end.

(** [s.find(needle)]. *)
Definition str_find (s needle : pystr) : Z :=
  match find_nat needle s with Some i => Z.of_nat i | None => -1 end.

(** [needle in s]. *)
Definition str_in (needle s : pystr) : bool :=
  match find_nat needle s with Some _ => true | None => false end.

Lemma prefixb_spec p s : prefixb p s = true ↔ ∃ t, s = p ++ t.
Proof.
  revert s. induction p as [|c p IH]; intros s; simpl; [naive_solver|].
  destruct s as [|d s]; [naive_solver|].
  rewrite andb_true_iff, Z.eqb_eq, IH. naive_solver.
Qed.

Lemma find_nat_Some needle s i :
  find_nat needle s = Some i → ∃ t, drop i s = needle ++ t ∧ (i ≤ length s)%nat.
Proof.
  revert i. induction s as [|c s IH]; intros i; simpl.
  - case_match eqn:Hp; [|done]. intros [= <-]. apply prefixb_spec in Hp as [t ->].
    eexists; split; [done|lia].
  - case_match eqn:Hp.
    + intros [= <-]. apply prefixb_spec in Hp as [t Ht]. eexists; split; [done|lia].
    + intros (j & Hj & ->)%fmap_Some. apply IH in Hj as (t & Ht & ?).
      exists t. split; [done|lia].
Qed.

Lemma find_nat_None needle s i : find_nat needle s = None → prefixb needle (drop i s) = false.
Proof.
  revert i. induction s as [|c s IH]; intros i; simpl.
  - case_match eqn:Hp; [done|]. intros _. by rewrite drop_nil.
  - case_match eqn:Hp; [done|]. intros Hn%fmap_None. destruct i; [done|]. simpl. by apply IH.
Qed.

Lemma find_nat_first needle s i j :
  find_nat needle s = Some i → (j < i)%nat → prefixb needle (drop j s) = false.
Proof.
  revert i j. induction s as [|c s IH]; intros i j; simpl.
  - case_match; intros; simplify_eq; lia.
  - case_match eqn:Hp; [intros; simplify_eq; lia|].
    intros (i' & Hi & ->)%fmap_Some Hj. destruct j as [|j]; [done|].
    simpl. apply (IH i'); [done|lia].
Qed.

(** [find] returns a span of the text that equals the needle. *)
(** One-character needles. *)
Lemma char_prefixb c d s : prefixb [c] (d :: s) = (c =? d).
Proof. cbn [prefixb]. apply andb_true_r. Qed.

Lemma find_nat_char (c : Z) s t : c ∉ s → find_nat [c] (s ++ c :: t) = Some (length s).
Proof.
  induction s as [|d s IH]; simpl; [by rewrite Z.eqb_refl|].
  intros [Hcd Hc]%not_elem_of_cons.
  rewrite (proj2 (Z.eqb_neq c d)) by done. simpl. by rewrite IH.
Qed.

Lemma find_char_absent c s : c ∉ s → find_nat [c] s = None.
Proof.
  induction s as [|x s IH]; [done|]. intros [Hx Hs]%not_elem_of_cons. cbn [find_nat prefixb].
  rewrite (proj2 (Z.eqb_neq c x)) by done. cbn [andb]. by rewrite IH.
Qed.

Lemma str_find_span s needle :
  str_find s needle ≠ -1 →
  0 <= str_find s needle ∧ str_find s needle + slen needle <= slen s ∧
  slice s (str_find s needle) (str_find s needle + slen needle) = needle.
Proof.
  unfold str_find. destruct (find_nat needle s) as [i|] eqn:Hf; [|done]. intros _.
  apply find_nat_Some in Hf as (t & Ht & Hi).
  assert (Hs : s = take i s ++ needle ++ t) by (by rewrite <-Ht, take_drop).
  assert (Hlen : slen (take i s) = Z.of_nat i) by (unfold slen; rewrite length_take; lia).
  split; [lia|]. split.
  - rewrite Hs, !slen_app, Hlen. pose proof (slen_nonneg t). lia.
  - rewrite Hs at 1. rewrite <-Hlen. apply slice_app_mid.
Qed.

(** ** Splitting, joining, replacing *)

(** [s.partition(sep)\[0\]], [\[1\]], [\[2\]]. *)
Definition partition (s sep : pystr) : pystr * pystr * pystr :=
  match find_nat sep s with
  | Some i => (take i s, sep, drop (i + length sep) s)
  | None => (s, [], [])
  end.

Lemma partition_at (login domain : pystr) (c : Z) :
  c ∉ login → partition (login ++ [c] ++ domain) [c] = (login, [c], domain).
Proof.
  intros Hc. unfold partition. cbn [app]. rewrite find_nat_char by done.
  rewrite take_app_length. f_equal. change (c :: domain) with ([c] ++ domain).
  by rewrite app_assoc, drop_app_length' by by rewrite length_app.
Qed.

Lemma partition_absent (s : pystr) (c : Z) : c ∉ s → partition s [c] = (s, [], []).
Proof. intros Hc. unfold partition. by rewrite find_char_absent. Qed.

(** Offset of the last occurrence, for [rsplit(sep, 1)]. *)
Fixpoint rfind_nat (needle s : pystr) : option nat :=
  match s with
  | [] => if prefixb needle [] then Some O else None
  | _ :: s' =>
      match rfind_nat needle s' with
      | Some i => Some (S i)
      | None => if prefixb needle s then Some O else None
      end
  end.

(** [s.rsplit(sep, 1)]. *)
Definition rsplit1 (s sep : pystr) : list pystr :=
  match rfind_nat sep s with
  | Some i => [take i s; drop (i + length sep) s]
  | None => [s]
  end.

Lemma rfind_char_absent c s : c ∉ s → rfind_nat [c] s = None.
Proof.
  induction s as [|d s IH]; [done|]. intros [Hd Hs]%not_elem_of_cons. cbn [rfind_nat].
  rewrite IH, char_prefixb by done. by rewrite (proj2 (Z.eqb_neq c d)).
Qed.

Lemma rfind_nat_char (c : Z) s t : c ∉ t → rfind_nat [c] (s ++ c :: t) = Some (length s).
Proof.
  intros Ht. induction s as [|d s IH]; cbn [app rfind_nat length]; [|by rewrite IH].
  by rewrite rfind_char_absent, char_prefixb, Z.eqb_refl.
Qed.

Lemma rsplit1_at (s t : pystr) (c : Z) : c ∉ t → rsplit1 (s ++ c :: t) [c] = [s; t].
Proof.
  intros Ht. unfold rsplit1. rewrite rfind_nat_char by done. rewrite take_app_length. do 2 f_equal.
  change (c :: t) with ([c] ++ t). by rewrite app_assoc, drop_app_length' by by rewrite length_app.
Qed.

(** [s.split(sep, 1)]. *)
Definition split1 (s sep : pystr) : list pystr :=
  match find_nat sep s with
  | Some i => [take i s; drop (i + length sep) s]
  | None => [s]
  end.

(** [s.rstrip(c)] for one character. *)
Fixpoint lstrip_char (c : Z) (s : pystr) : pystr :=
  match s with
  | [] => []
  | d :: s' => if d =? c then lstrip_char c s' else s
  end.
Definition rstrip_char (c : Z) (s : pystr) : pystr := reverse (lstrip_char c (reverse s)).

(** [s.splitlines()]: the characters that end a line. *)
Definition line_break (c : Z) : bool :=
  ((10 <=? c) && (c <=? 13)) || ((28 <=? c) && (c <=? 30)) || (c =? 133) || (c =? 8232) || (c =? 8233).

(** [cur] is the line so far, reversed; a carriage return takes the line feed
    after it along. *)
Fixpoint splitlines_go (cur : pystr) (s : pystr) : list pystr :=
  match s with
  | [] => match cur with [] => [] | _ => [reverse cur] end
  | c :: s =>
      if line_break c then
        reverse cur :: match s with
                       | d :: s' => if (c =? 13) && (d =? 10) then splitlines_go [] s' else splitlines_go [] s
                       | [] => []
                       end
      else splitlines_go (c :: cur) s
  end.
Definition splitlines (s : pystr) : list pystr := splitlines_go [] s.

(** [s.split(c)] for a one-character separator. *)
Fixpoint split_char_go (c : Z) (cur : pystr) (s : pystr) : list pystr :=
  match s with
  | [] => [reverse cur]
  | d :: s =>
      if d =? c then reverse cur :: split_char_go c [] s
      else split_char_go c (d :: cur) s
  end.
Definition split_char (s : pystr) (c : Z) : list pystr := split_char_go c [] s.

(** [sep.join(parts)]. *)
Fixpoint join (sep : pystr) (parts : list pystr) : pystr :=
  match parts with
  | [] => []
  | [p] => p
  | p :: parts => p ++ sep ++ join sep parts
  end.

Lemma split_char_go_part c cur p s : c ∉ p → split_char_go c cur (p ++ s) = split_char_go c (reverse p ++ cur) s.
Proof.
  revert cur. induction p as [|x p IH]; intros cur Hc; [done|].
  apply not_elem_of_cons in Hc as [Hx Hc]. cbn [app split_char_go].
  rewrite (proj2 (Z.eqb_neq x c)) by done. rewrite IH by done. by rewrite reverse_cons, <-app_assoc.
Qed.

Lemma split_join c ps : ps ≠ [] → Forall (λ p, c ∉ p) ps → split_char (join [c] ps) c = ps.
Proof.
  intros Hne Hps. unfold split_char. induction Hps as [|p ps Hp Hps IH]; [done|].
  destruct ps as [|q ps]; cbn [join].
  - rewrite <-(app_nil_r p), split_char_go_part by done. cbn [split_char_go]. by rewrite !app_nil_r, reverse_involutive.
  - rewrite split_char_go_part by done. change ([c] ++ ?x) with (c :: x). cbn [split_char_go].
    rewrite Z.eqb_refl, app_nil_r, reverse_involutive. f_equal. by apply IH.
Qed.

(** [s.replace(old, new)]: left to right, non-overlapping; an empty [old]
    matches around every character. *)
Fixpoint replace_go (old new : pystr) (skip : nat) (s : pystr) : pystr :=
  match s with
  | [] => []
  | c :: s' =>
      match skip with
      | S skip => replace_go old new skip s'
      | O => if prefixb old s then new ++ replace_go old new (pred (length old)) s'
             else c :: replace_go old new 0 s'
      end
  end.
Definition str_replace (s old new : pystr) : pystr :=
  match old with
  | [] => new ++ (s ≫= λ c, c :: new)
  | _ => replace_go old new 0 s
  end.

Lemma join_nil_concat parts : join [] parts = concat parts.
Proof.
  induction parts as [|p [|q parts] IH]; simpl in *; [done | by rewrite app_nil_r | ].
  by rewrite IH.
Qed.

Lemma replace_go_skip old new s t :
  replace_go old new (length s) (s ++ t) = replace_go old new 0 t.
Proof. induction s as [|c s IH]; simpl; [by destruct t | done]. Qed.

(** Text before the first occurrence is copied, the occurrence replaced. *)
Lemma replace_go_absent old new s :
  find_nat old s = None → replace_go old new 0 s = s.
Proof.
  induction s as [|c s IH]; simpl; [done|].
  case_match; [done|]. intros Hf%fmap_None. by rewrite IH.
Qed.

Lemma replace_go_hit old new s t :
  old ≠ [] → find_nat old (s ++ old ++ t) = Some (length s) →
  replace_go old new 0 (s ++ old ++ t) = s ++ new ++ replace_go old new 0 t.
Proof.
  intros Hne. induction s as [|c s IH]; cbn [app length].
  - destruct old as [|o old]; [done|]. intros Hf. cbn [app replace_go].
    destruct (prefixb (o :: old) (o :: old ++ t)) eqn:Hp.
    + f_equal. apply replace_go_skip.
    + assert (prefixb (o :: old) ((o :: old) ++ t) = true) by (apply prefixb_spec; eauto).
      simpl in *. congruence.
  - cbn [find_nat]. case_match eqn:Hp; [done|]. intros (i & Hi & [= Hl])%fmap_Some.
    cbn [replace_go]. rewrite Hp, IH; [done | congruence].
Qed.

(** ** Case, whitespace and digits *)

Section WithUnicode.
Context `{U : UnicodeDB}.

(** [CPython]'s final-sigma rule looks back and ahead over case-ignorable
    characters. *)
Fixpoint skip_ignorable (s : pystr) : pystr :=
  match s with
  | c :: s' => if case_ignorable c then skip_ignorable s' else s
  | [] => []
  end.

Definition next_is_cased (s : pystr) : bool :=
  match skip_ignorable s with c :: _ => is_cased c | [] => false end.

Fixpoint lower_go (before s : pystr) : pystr :=
  match s with
  | [] => []
  | c :: s' =>
      (if c =? 931
       then [if next_is_cased before && negb (next_is_cased s') then 962 else 963]
       else lower_char c) ++ lower_go (c :: before) s'
  end.

(** [s.lower()]. *)
Definition str_lower (s : pystr) : pystr := lower_go [] s.

Fixpoint lstrip (s : pystr) : pystr :=
  match s with
  | c :: s' => if is_space c then lstrip s' else s
  | [] => []
  end.
Definition rstrip (s : pystr) : pystr := reverse (lstrip (reverse s)).
(** [s.strip()]. *)
Definition strip (s : pystr) : pystr := rstrip (lstrip s).

(** [s.split()]: the maximal runs of non-space characters. *)
Fixpoint split_ws_go (cur : pystr) (s : pystr) : list pystr :=
  match s with
  | [] => if decide (cur = []) then [] else [reverse cur]
  | c :: s =>
      if is_space c
      then (if decide (cur = []) then [] else [reverse cur]) ++ split_ws_go [] s
      else split_ws_go (c :: cur) s
  end.
Definition split_ws (s : pystr) : list pystr := split_ws_go [] s.

(** [s.isdigit()]. *)
Definition str_isdigit (s : pystr) : bool :=
  negb (bool_decide (s = [])) && forallb is_digit s.

(** [int(s)]: surrounding whitespace, a sign, decimal digits with single
    underscores between them, at most 4300 digits. *)
Fixpoint int_digits (acc : Z) (count : Z) (after_digit : bool) (s : pystr) : option Z :=
  match s with
  | [] => if after_digit && (count <=? 4300) then Some acc else None
  | c :: s =>
      if c =? 95 then (if after_digit then
                         match s with [] => None | _ => int_digits acc count false s end
                       else None)
      else if is_decimal c then int_digits (acc * 10 + decimal_value c) (count + 1) true s
      else None
  end.
Definition py_int (s : pystr) : option Z :=
  match strip s with
  | 43 :: s => int_digits 0 0 false s
  | 45 :: s => Z.opp <$> int_digits 0 0 false s
  | s => int_digits 0 0 false s
  end.

(** [re]'s \w and [\[^\W_\]]. *)
Definition is_word (c : Z) : bool := is_alnum c || (c =? 95).

(** ASCII without capitals is its own lowercase. *)
Lemma str_lower_plain s : Forall (λ c, 0 <= c < 128 ∧ (c < 65 ∨ 90 < c)) s → str_lower s = s.
Proof.
  intros Hs. unfold str_lower. generalize (@nil Z). induction Hs as [|c s [Hc Hu] _ IH]; intros b; [done|].
  cbn [lower_go]. rewrite (proj2 (Z.eqb_neq c 931)), ascii_lower, IH by lia.
  replace ((65 <=? c) && (c <=? 90)) with false; [done|]. symmetry. apply andb_false_iff. rewrite !Z.leb_gt. lia.
Qed.

Lemma lstrip_suffix s : ∃ t, s = t ++ lstrip s ∧ Forall (λ c, is_space c = true) t.
Proof.
  induction s as [|c s (t & Ht & Hs)]; simpl; [by exists []|].
  case_match; [|by exists []]. exists (c :: t). simpl. split; [congruence | by constructor].
Qed.

Lemma lstrip_id c s : is_space c = false → lstrip (c :: s) = c :: s.
Proof. simpl. by intros ->. Qed.

Lemma rstrip_prefix s : ∃ t, s = rstrip s ++ t ∧ Forall (λ c, is_space c = true) t.
Proof.
  destruct (lstrip_suffix (reverse s)) as (t & Ht & Hs). exists (reverse t). split.
  - unfold rstrip. by rewrite <-reverse_app, <-Ht, reverse_involutive.
  - by apply Forall_reverse.
Qed.

Lemma rstrip_length s : slen (rstrip s) <= slen s.
Proof.
  destruct (rstrip_prefix s) as (t & Ht & _).
  rewrite Ht at 2. rewrite slen_app. pose proof (slen_nonneg t). lia.
Qed.

Lemma int_digits_cons acc n a c s :
  is_decimal c = true → c ≠ 95 →
  int_digits acc n a (c :: s) = int_digits (acc * 10 + decimal_value c) (n + 1) true s.
Proof. intros Hd Hc. simpl. by rewrite (proj2 (Z.eqb_neq c 95)), Hd. Qed.

(** [int] of a plain run of decimal digits is the number it spells. *)
Lemma int_digits_app acc n a s t :
  Forall (λ c, is_decimal c = true ∧ c ≠ 95) s → s ≠ [] →
  int_digits acc n a (s ++ t) =
    int_digits (fold_left (λ z c, z * 10 + decimal_value c) s acc) (n + slen s) true t.
Proof.
  revert acc n a. induction s as [|c s IH]; intros acc n a Hs Hne; [done|].
  apply Forall_cons in Hs as [[Hd Hc] Hs].
  rewrite <-app_comm_cons, int_digits_cons by done.
  destruct s as [|d s].
  - done.
  - rewrite IH by done. f_equal. unfold slen. simpl. lia.
Qed.

Lemma lstrip_nonspace s : Forall (λ c, is_space c = false) s → lstrip s = s.
Proof. destruct 1 as [|c s Hc Hs]; [done|]. by apply lstrip_id. Qed.

Lemma strip_nonspace s : Forall (λ c, is_space c = false) s → strip s = s.
Proof.
  intros Hs. unfold strip, rstrip. rewrite (lstrip_nonspace s) by done.
  rewrite lstrip_nonspace by (by apply Forall_reverse). apply reverse_involutive.
Qed.

Lemma decimal_not_space c : is_decimal c = true → is_space c = false.
Proof.
  intros Hd%decimal_is_digit%digit_is_alnum. destruct (is_space c) eqn:Hs; [|done].
  apply space_not_alnum in Hs. congruence.
Qed.

(** An ASCII character that is not a digit is no decimal. *)
Lemma decimal_not_ascii c d :
  is_decimal c = true → 0 <= d < 128 → (48 <=? d) && (d <=? 57) = false → c ≠ d.
Proof. intros Hc Hd Hr ->. rewrite ascii_decimal in Hc by done. congruence. Qed.

(** The number a run of decimal digits spells. *)
Definition decimal_number (s : pystr) : Z := fold_left (λ z c, z * 10 + decimal_value c) s 0.

Lemma py_int_decimals s :
  Forall (λ c, is_decimal c = true) s → s ≠ [] → slen s <= 4300 →
  py_int s = Some (decimal_number s).
Proof.
  intros Hs Hne Hlen. unfold py_int. rewrite strip_nonspace
    by (eapply Forall_impl; [exact Hs|apply decimal_not_space]).
  assert (Hgo : int_digits 0 0 false s = Some (decimal_number s)).
  { rewrite <-(app_nil_r s) at 1. rewrite int_digits_app; [| |done].
    - simpl. by rewrite (proj2 (Z.leb_le _ _)) by lia.
    - eapply Forall_impl; [exact Hs|]. simpl. intros c Hc.
      split; [done|]. by eapply decimal_not_ascii. }
  destruct s as [|c s]; [done|]. apply Forall_cons in Hs as [Hc _].
  assert (c ≠ 43) by (by eapply decimal_not_ascii).
  assert (c ≠ 45) by (by eapply decimal_not_ascii).
  rewrite <-Hgo. by repeat case_match.
Qed.

Lemma decimal_number_bounds s : 0 <= decimal_number s < 10 ^ slen s.
Proof.
  unfold decimal_number. induction s as [|c s IH] using rev_ind; [unfold slen; simpl; lia|].
  rewrite fold_left_app, slen_app. simpl. pose proof (decimal_value_range c).
  replace (slen s + slen [c]) with (Z.succ (slen s)) by (unfold slen; simpl; lia).
  rewrite Z.pow_succ_r by apply slen_nonneg. lia.
Qed.
End WithUnicode.

Section Splitting.
Context `{U : UnicodeDB}.

Lemma split_ws_go_word cur s t :
  Forall (λ c, is_space c = false) s → split_ws_go cur (s ++ t) = split_ws_go (reverse s ++ cur) t.
Proof.
  intros Hs. revert cur. induction Hs as [|c s Hc Hs IH]; intros cur; simpl; [done|].
  rewrite Hc, IH. f_equal. by rewrite reverse_cons, <-app_assoc.
Qed.

Lemma split_ws_go_spaces s t :
  Forall (λ c, is_space c = true) s → split_ws_go [] (s ++ t) = split_ws_go [] t.
Proof. induction 1 as [|c s Hc Hs IH]; simpl; [done|]. by rewrite Hc. Qed.

(** A word, some whitespace, the rest. *)
Lemma split_ws_cons w sp t :
  Forall (λ c, is_space c = false) w → w ≠ [] →
  Forall (λ c, is_space c = true) sp → sp ≠ [] →
  split_ws (w ++ sp ++ t) = w :: split_ws t.
Proof.
  intros Hw Hwne Hsp Hspne. unfold split_ws. rewrite split_ws_go_word by done.
  destruct Hsp as [|c sp Hc Hsp]; [done|]. simpl. rewrite Hc, decide_False.
  - rewrite app_nil_r, reverse_involutive. simpl. f_equal. by apply split_ws_go_spaces.
  - rewrite app_nil_r. intros H%(f_equal reverse). by rewrite reverse_involutive in H.
Qed.

Lemma split_ws_word w : Forall (λ c, is_space c = false) w → w ≠ [] → split_ws w = [w].
Proof.
  intros Hw Hne. rewrite <-(app_nil_r w) at 1. unfold split_ws.
  rewrite split_ws_go_word by done. simpl. rewrite app_nil_r, reverse_involutive.
  rewrite decide_False; [done|]. intros H%(f_equal reverse). by rewrite reverse_involutive in H.
Qed.

Lemma strip_ends c w d :
  is_space c = false → is_space d = false → strip (c :: w ++ [d]) = c :: w ++ [d].
Proof.
  intros Hc Hd. unfold strip, rstrip. rewrite lstrip_id by done.
  rewrite app_comm_cons, reverse_app, reverse_singleton. simpl. rewrite Hd.
  change (d :: reverse (c :: w)) with ([d] ++ reverse (c :: w)).
  by rewrite reverse_app, reverse_involutive.
Qed.

Lemma lstrip_length s : slen (lstrip s) <= slen s.
Proof.
  destruct (lstrip_suffix s) as (t & Ht & _). rewrite Ht at 2. rewrite slen_app.
  pose proof (slen_nonneg t). lia.
Qed.

Lemma int_digits_bound acc n a s z :
  0 <= acc → int_digits acc n a s = Some z → 0 <= z < (acc + 1) * 10 ^ slen s.
Proof.
  revert acc n a. induction s as [|c s IH]; intros acc n a Hacc; cbn [int_digits].
  - case_match; [|done]. intros [= <-]. unfold slen. simpl. lia.
  - replace (slen (c :: s)) with (Z.succ (slen s)) by (unfold slen; simpl; lia).
    pose proof (slen_nonneg s). pose proof (Z.pow_pos_nonneg 10 (slen s)).
    rewrite Z.pow_succ_r by done. destruct (c =? 95).
    + destruct a; [|done]. destruct s as [|d s']; [done|]. intros Hz%IH; [|done]. nia.
    + case_match; [|done]. pose proof (decimal_value_range c). intros Hz%IH; [|lia]. nia.
Qed.

(** A numeral of [n] characters is below 10^n in absolute value. *)
Lemma py_int_bound s z : py_int s = Some z → Z.abs z < 10 ^ slen s.
Proof.
  unfold py_int. set (t := strip s). assert (Ht : slen t <= slen s).
  { unfold t, strip. pose proof (rstrip_length (lstrip s)). pose proof (lstrip_length s). lia. }
  assert (Hmain : ∀ u v, slen u <= slen t → int_digits 0 0 false u = Some v → 0 <= v < 10 ^ slen s).
  { intros u v Hu Hv. apply int_digits_bound in Hv; [|done].
    assert (10 ^ slen u <= 10 ^ slen s) by (apply Z.pow_le_mono_r; lia). lia. }
  assert (Hcons : ∀ (c : Z) (u : list Z), slen u <= slen (c :: u)) by (intros; unfold slen; simpl; lia).
  destruct t as [|c u]; [done|]. specialize (Hcons c u).
  destruct (decide (c = 43)) as [->|H43]; [intros Hz%Hmain; lia|].
  destruct (decide (c = 45)) as [->|H45].
  { intros (v & Hv & ->)%fmap_Some. apply Hmain in Hv; lia. }
  intros Hz. assert (int_digits 0 0 false (c :: u) = Some z) as Hgo%Hmain
    by (rewrite <-Hz; by repeat case_match); lia.
Qed.
End Splitting.

(** ** Ordering of strings: lexicographic by code point *)

Fixpoint str_leb (s t : pystr) : bool :=
  match s, t with
  | [], _ => true
  | _ :: _, [] => false
  | c :: s, d :: t => (c <? d) || ((c =? d) && str_leb s t)
  end.

Lemma str_leb_total s t : str_leb s t = true ∨ str_leb t s = true.
Proof.
  revert t. induction s as [|c s IH]; intros [|d t]; simpl; auto.
  rewrite !orb_true_iff, !andb_true_iff, !Z.ltb_lt, !Z.eqb_eq.
  destruct (IH t), (Z.lt_total c d) as [?|[?|?]]; auto.
Qed.

Lemma str_leb_trans s t u : str_leb s t = true → str_leb t u = true → str_leb s u = true.
Proof.
  revert t u. induction s as [|c s IH]; intros [|d t] [|e u]; simpl; try done.
  rewrite !orb_true_iff, !andb_true_iff, !Z.ltb_lt, !Z.eqb_eq.
  intros [?|[-> ?]] [?|[-> ?]]; eauto with lia.
Qed.

Lemma str_leb_antisym s t : str_leb s t = true → str_leb t s = true → s = t.
Proof.
  revert t. induction s as [|c s IH]; intros [|d t]; simpl; try done.
  rewrite !orb_true_iff, !andb_true_iff, !Z.ltb_lt, !Z.eqb_eq.
  intros [?|[-> ?]] [?|[? ?]]; try lia. f_equal; auto.
Qed.
