(* ===== verification/Utf8.v ===== *)
(** * UTF-8

    [str.encode("utf-8")] and [bytes.decode("utf-8")], as the hashing, the
    restoration stores and the metrics use them.  Encoding a lone surrogate
    raises [UnicodeEncodeError]; decoding is strict. *)

From S2P Require Import Prelude Domain PyStr.

Definition is_surrogate (c : Z) : bool := (55296 <=? c) && (c <=? 57343).

(** A code point a Python string can hold. *)
Definition is_code_point (c : Z) : bool := (0 <=? c) && (c <=? 1114111).

Definition encode_char (c : Z) : result exn bytes :=
  if c <? 128 then Ok [c]
  else if c <? 2048 then Ok [192 + c / 64; 128 + c mod 64]
  else if is_surrogate c then Err EUnicodeEncodeError
  else if c <? 65536 then
    Ok [224 + c / 4096; 128 + c / 64 mod 64; 128 + c mod 64]
  else Ok [240 + c / 262144; 128 + c / 4096 mod 64; 128 + c / 64 mod 64; 128 + c mod 64].

(** [s.encode("utf-8")]. *)
Fixpoint utf8_encode (s : pystr) : result exn bytes :=
  match s with
  | [] => Ok []
  | c :: s => b ← encode_char c; bs ← utf8_encode s; Ok (b ++ bs)
  end.

Definition is_cont (b : Z) : bool := (128 <=? b) && (b <? 192).

(** [b.decode("utf-8")]. *)
Fixpoint utf8_decode (bs : bytes) : result exn pystr :=
  match bs with
  | [] => Ok []
  | b0 :: bs1 =>
      if b0 <? 128 then s ← utf8_decode bs1; Ok (b0 :: s)
      else if b0 <? 194 then Err EUnicodeDecodeError
      else match bs1 with
      | [] => Err EUnicodeDecodeError
      | b1 :: bs2 =>
          if negb (is_cont b1) then Err EUnicodeDecodeError
          else if b0 <? 224 then
            s ← utf8_decode bs2; Ok ((b0 - 192) * 64 + (b1 - 128) :: s)
          else match bs2 with
          | [] => Err EUnicodeDecodeError
          | b2 :: bs3 =>
              if negb (is_cont b2) then Err EUnicodeDecodeError
              else if b0 <? 240 then
                let c := (b0 - 224) * 4096 + (b1 - 128) * 64 + (b2 - 128) in
                if (c <? 2048) || is_surrogate c then Err EUnicodeDecodeError
                else s ← utf8_decode bs3; Ok (c :: s)
              else match bs3 with
              | [] => Err EUnicodeDecodeError
              | b3 :: bs4 =>
                  let c := (b0 - 240) * 262144 + (b1 - 128) * 4096
                           + (b2 - 128) * 64 + (b3 - 128) in
                  if negb (is_cont b3) || (c <? 65536) || (1114111 <? c)
                  then Err EUnicodeDecodeError
                  else s ← utf8_decode bs4; Ok (c :: s)
              end
          end
      end
  end.

Ltac decide_ltb :=
  repeat match goal with
  | |- context [?a <? ?b] =>
      (rewrite (proj2 (Z.ltb_lt a b)) by lia) || (rewrite (proj2 (Z.ltb_ge a b)) by lia)
  | |- context [?a <=? ?b] =>
      (rewrite (proj2 (Z.leb_le a b)) by lia) || (rewrite (proj2 (Z.leb_gt a b)) by lia)
  end.

Lemma is_cont_low x : is_cont (128 + x mod 64) = true.
Proof.
  unfold is_cont. pose proof (Z.mod_pos_bound x 64). apply andb_true_iff. lia.
Qed.

(** Base-64 digits of a code point put back together. *)
Lemma join2 c : c / 64 * 64 + c mod 64 = c.
Proof. pose proof (Z.div_mod c 64). lia. Qed.
Lemma join3 c : c / 4096 * 4096 + c / 64 mod 64 * 64 + c mod 64 = c.
Proof.
  pose proof (Z.div_mod c 64). pose proof (Z.div_mod (c / 64) 64).
  replace (c / 4096) with (c / 64 / 64) by (rewrite Z.div_div; [done|lia|lia]). lia.
Qed.
Lemma join4 c :
  c / 262144 * 262144 + c / 4096 mod 64 * 4096 + c / 64 mod 64 * 64 + c mod 64 = c.
Proof.
  pose proof (join3 c). pose proof (Z.div_mod (c / 4096) 64).
  replace (c / 262144) with (c / 4096 / 64) by (rewrite Z.div_div; [done|lia|lia]). lia.
Qed.

Lemma utf8_decode_char c b bs :
  is_code_point c = true → encode_char c = Ok b →
  utf8_decode (b ++ bs) = (s ← utf8_decode bs; Ok (c :: s)).
Proof.
  unfold is_code_point, encode_char, is_surrogate. rewrite andb_true_iff, !Z.leb_le. intros Hc.
  pose proof (Z.mod_pos_bound c 64). pose proof (Z.mod_pos_bound (c / 64) 64).
  pose proof (Z.mod_pos_bound (c / 4096) 64).
  destruct (Z.ltb_spec c 128) as [?|?].
  { intros [= <-]. simpl. by decide_ltb. }
  destruct (Z.ltb_spec c 2048) as [?|?].
  { intros [= <-]. cbn [app utf8_decode]. pose proof (join2 c).
    rewrite is_cont_low. decide_ltb. cbn [negb].
    by replace ((192 + c / 64 - 192) * 64 + (128 + c mod 64 - 128)) with c by lia. }
  destruct ((55296 <=? c) && (c <=? 57343)) eqn:Hs; [done|].
  destruct (Z.ltb_spec c 65536) as [?|?]; intros [= <-]; cbn [app utf8_decode];
    rewrite !is_cont_low; cbn [negb orb].
  - pose proof (join3 c). decide_ltb. unfold is_surrogate.
    replace ((224 + c / 4096 - 224) * 4096 + (128 + c / 64 mod 64 - 128) * 64
             + (128 + c mod 64 - 128)) with c by lia.
    by rewrite Hs.
  - pose proof (join4 c). decide_ltb.
    replace ((240 + c / 262144 - 240) * 262144 + (128 + c / 4096 mod 64 - 128) * 4096
             + (128 + c / 64 mod 64 - 128) * 64 + (128 + c mod 64 - 128)) with c by lia.
    done.
Qed.

(** Decoding inverts encoding. *)
Lemma utf8_roundtrip s bs :
  forallb is_code_point s = true → utf8_encode s = Ok bs → utf8_decode bs = Ok s.
Proof.
  revert bs. induction s as [|c s IH]; intros bs; simpl; [by intros _ [= <-]|].
  intros [Hc Hs]%andb_true_iff He. simplify_result.
  erewrite utf8_decode_char by done. by erewrite IH.
Qed.

(** Encoding fails exactly on lone surrogates. *)
Lemma utf8_encode_ok s :
  is_ok (utf8_encode s) = forallb (λ c, negb (is_surrogate c)) s.
Proof.
  induction s as [|c s IH]; simpl; [done|]. rewrite <-IH.
  unfold encode_char, is_surrogate.
  repeat (case_match; simpl; try done); destruct (utf8_encode s); simpl; try done; lia.
Qed.

(** The only exception of encoding. *)
Lemma utf8_encode_error s e : utf8_encode s = Err e → e = EUnicodeEncodeError.
Proof.
  induction s as [|c s IH]; [done|]. cbn [utf8_encode]. unfold encode_char.
  repeat case_match; cbn [mbind result_bind]; try (by intros [= <-]);
    (destruct (utf8_encode s); [done|]; intros [= <-]; by apply IH).
Qed.

(** Two different encodable texts have different bytes. *)
Lemma utf8_encode_inj s t bs :
  forallb is_code_point s = true → forallb is_code_point t = true →
  utf8_encode s = Ok bs → utf8_encode t = Ok bs → s = t.
Proof.
  intros Hs Ht Hes Het. apply utf8_roundtrip in Hes; [|done].
  apply utf8_roundtrip in Het; [|done]. congruence.
Qed.

(** ASCII text is its own encoding. *)
Lemma utf8_ascii s :
  Forall (λ c, 0 <= c < 128) s → utf8_encode s = Ok s ∧ utf8_decode s = Ok s.
Proof.
  intros Hs. assert (He : utf8_encode s = Ok s).
  { induction Hs as [|c s Hc Hs IH]; [done|]. cbn [utf8_encode]. unfold encode_char.
    rewrite (proj2 (Z.ltb_lt c 128)) by lia. cbn [mbind result_bind]. by rewrite IH. }
  split; [done|]. apply utf8_roundtrip; [|done]. apply forallb_forall. intros c Hc%list_elem_of_In.
  rewrite Forall_forall in Hs. specialize (Hs c Hc). unfold is_code_point.
  apply andb_true_iff. rewrite !Z.leb_le. lia.
Qed.
