(* ===== verification/Hashes.v ===== *)
(** * Digests ([hashlib], [app/core/security.py])

    [HashLib] is what the program uses of [hashlib]: the hexadecimal digests
    of SHA-256 and of 16-byte BLAKE2b.  The theorems of the other files hold
    for every instance; [hashlib] is the real one, on 32- and 64-bit words,
    and is tied to the published test vectors.  [hash_identifier] and
    [hash_payload] are the two functions of [security.py]. *)

From S2P Require Import Prelude Domain PyStr Utf8.

(** ** Words *)

Definition word (bits : Z) (x : Z) : Z := x mod 2 ^ bits.

(** Rotation of a word to the right. *)
Definition rotr (bits n x : Z) : Z :=
  Z.lor (Z.shiftr x n) (word bits (Z.shiftl x (bits - n))).

Fixpoint be_word (acc : Z) (bs : bytes) : Z :=
  match bs with [] => acc | b :: bs => be_word (acc * 256 + b) bs end.
Definition le_word (bs : bytes) : Z := be_word 0 (reverse bs).

(** [n] bytes, most significant first. *)
Definition be_bytes (n : nat) (x : Z) : bytes :=
  reverse ((λ i, Z.shiftr x (8 * Z.of_nat i) mod 256) <$> seq 0 n).
Definition le_bytes (n : nat) (x : Z) : bytes := reverse (be_bytes n x).

(** Splits a byte string into [n] pieces of [k] bytes. *)
Fixpoint pieces (n k : nat) (bs : bytes) : list bytes :=
  match n with O => [] | S n => take k bs :: pieces n k (drop k bs) end.

Definition hex_digit (d : Z) : Z := if d <? 10 then 48 + d else 87 + d.
(** [bs.hex()]. *)
Definition hex (bs : bytes) : pystr := concat ((λ b, [hex_digit (b / 16); hex_digit (b mod 16)]) <$> bs).

Lemma length_hex bs : length (hex bs) = (2 * length bs)%nat.
Proof.
  unfold hex. induction bs as [|b bs IH]; [done|]. rewrite fmap_cons. cbn [concat app length].
  rewrite IH. lia.
Qed.

Lemma length_be_bytes n x : length (be_bytes n x) = n.
Proof. unfold be_bytes. by rewrite length_reverse, length_fmap, length_seq. Qed.

(** *** Bytes and their digits *)

Definition is_byte (b : Z) : Prop := 0 <= b < 256.

Lemma be_bytes_byte n x : Forall is_byte (be_bytes n x).
Proof.
  unfold be_bytes. rewrite Forall_reverse, Forall_fmap. apply Forall_forall. intros i _.
  unfold is_byte. simpl. apply Z.mod_pos_bound. lia.
Qed.

Lemma concat_bytes (f : Z → bytes) l : (∀ x, Forall is_byte (f x)) → Forall is_byte (concat (f <$> l)).
Proof.
  intros Hf. induction l as [|x l IH]; [constructor|]. rewrite fmap_cons. cbn [concat].
  by apply Forall_app.
Qed.

Lemma hex_digit_ascii d : 0 <= d < 16 → 0 <= hex_digit d < 128.
Proof. unfold hex_digit. case_match; lia. Qed.

Lemma hex_ascii bs : Forall is_byte bs → Forall (λ c, 0 <= c < 128) (hex bs).
Proof.
  unfold hex. induction 1 as [|b bs Hb Hbs IH]; [constructor|]. rewrite fmap_cons. cbn [concat app].
  unfold is_byte in Hb.
  repeat constructor; try exact IH; apply hex_digit_ascii; Z.div_mod_to_equations; lia.
Qed.

Definition unhex_digit (c : Z) : Z := if c <? 58 then c - 48 else c - 87.
Fixpoint unhex (s : pystr) : bytes :=
  match s with
  | a :: b :: s => unhex_digit a * 16 + unhex_digit b :: unhex s
  | _ => []
  end.

Lemma unhex_hex bs : Forall is_byte bs → unhex (hex bs) = bs.
Proof.
  assert (Hd : ∀ d, 0 <= d < 16 → unhex_digit (hex_digit d) = d).
  { intros d Hd. unfold hex_digit, unhex_digit. repeat case_match; lia. }
  induction 1 as [|b bs Hb Hbs IH]; [done|]. unfold hex in *. rewrite fmap_cons. cbn [concat app unhex].
  rewrite IH. unfold is_byte in Hb. rewrite !Hd by (Z.div_mod_to_equations; lia). f_equal.
  Z.div_mod_to_equations. lia.
Qed.

(** ** SHA-256 *)

(** The constants of the standards are the leading fractional bits of square
    and cube roots of the first primes; they are computed here once. *)
Definition is_prime (n : Z) : bool :=
  forallb (λ d, negb (n mod d =? 0)) ((λ i, Z.of_nat i + 2) <$> seq 0 (Z.to_nat (Z.sqrt n) - 1)).
Definition primes_below (n : nat) : list Z :=
  filter (λ p, is_prime p = true) ((λ i, Z.of_nat i + 2) <$> seq 0 (n - 2)).

(** The largest [r] with [r * r * r <= n], found bit by bit. *)
Fixpoint cube_root (bits : nat) (r n : Z) : Z :=
  match bits with
  | O => r
  | S b => let r' := r + 2 ^ Z.of_nat b in cube_root b (if r' * r' * r' <=? n then r' else r) n
  end.

Definition sha_k : list Z := Eval vm_compute in
  (λ p, word 32 (cube_root 36 0 (p * 2 ^ 96))) <$> primes_below 312.

Definition sha_iv : list Z := Eval vm_compute in
  (λ p, word 32 (Z.sqrt (p * 2 ^ 64))) <$> primes_below 20.

Definition add32 (x y : Z) : Z := word 32 (x + y).

(** The message schedule, newest word first: [n] more words. *)
Fixpoint sha_schedule (n : nat) (ws : list Z) : list Z :=
  match n with
  | O => ws
  | S n =>
      let w15 := nth 14 ws 0 in
      let w2 := nth 1 ws 0 in
      let s0 := Z.lxor (Z.lxor (rotr 32 7 w15) (rotr 32 18 w15)) (Z.shiftr w15 3) in
      let s1 := Z.lxor (Z.lxor (rotr 32 17 w2) (rotr 32 19 w2)) (Z.shiftr w2 10) in
      sha_schedule n (word 32 (nth 15 ws 0 + s0 + nth 6 ws 0 + s1) :: ws)
  end.

Definition sha_round (v : list Z) (kw : Z * Z) : list Z :=
  match v with
  | [a; b; c; d; e; f; g; h] =>
      let s1 := Z.lxor (Z.lxor (rotr 32 6 e) (rotr 32 11 e)) (rotr 32 25 e) in
      let ch := Z.lxor (Z.land e f) (Z.land (Z.lxor e 0xffffffff) g) in
      let t1 := word 32 (h + s1 + ch + fst kw + snd kw) in
      let s0 := Z.lxor (Z.lxor (rotr 32 2 a) (rotr 32 13 a)) (rotr 32 22 a) in
      let maj := Z.lxor (Z.lxor (Z.land a b) (Z.land a c)) (Z.land b c) in
      [add32 t1 (word 32 (s0 + maj)); a; b; c; add32 d t1; e; f; g]
  | _ => v
  end.

Definition sha_block (h : list Z) (block : bytes) : list Z :=
  let ws := reverse (sha_schedule 48 (reverse (be_word 0 <$> pieces 16 4 block))) in
  zip_with add32 h (fold_left sha_round (zip sha_k ws) h).

Definition sha_padded (msg : bytes) : bytes :=
  let len := slen msg in
  msg ++ [128] ++ replicate (Z.to_nat ((55 - len) mod 64)) 0 ++ be_bytes 8 (8 * len).

Definition sha256 (msg : bytes) : bytes :=
  let padded := sha_padded msg in
  let blocks := pieces (length padded / 64) 64 padded in
  concat (be_bytes 4 <$> fold_left sha_block blocks sha_iv).

(** ** BLAKE2b *)

Definition blake_iv : list Z := Eval vm_compute in
  (λ p, word 64 (Z.sqrt (p * 2 ^ 128))) <$> primes_below 20.

Definition blake_sigma : list (list nat) :=
  [[0; 1; 2; 3; 4; 5; 6; 7; 8; 9; 10; 11; 12; 13; 14; 15];
   [14; 10; 4; 8; 9; 15; 13; 6; 1; 12; 0; 2; 11; 7; 5; 3];
   [11; 8; 12; 0; 5; 2; 15; 13; 10; 14; 3; 6; 7; 1; 9; 4];
   [7; 9; 3; 1; 13; 12; 11; 14; 2; 6; 5; 10; 4; 0; 15; 8];
   [9; 0; 5; 7; 2; 4; 10; 15; 14; 1; 11; 12; 6; 8; 3; 13];
   [2; 12; 6; 10; 0; 11; 8; 3; 4; 13; 7; 5; 15; 14; 1; 9];
   [12; 5; 1; 15; 14; 13; 4; 10; 0; 7; 6; 3; 9; 2; 8; 11];
   [13; 11; 7; 14; 12; 1; 3; 9; 5; 0; 15; 4; 8; 6; 2; 10];
   [6; 15; 14; 9; 11; 3; 0; 8; 12; 2; 13; 7; 1; 4; 10; 5];
   [10; 2; 8; 4; 7; 6; 1; 5; 15; 11; 9; 14; 3; 12; 13; 0]]%nat.

Definition blake_g (v : list Z) (a b c d : nat) (x y : Z) : list Z :=
  let at_ v i := nth i v 0 in
  let v := <[a := word 64 (at_ v a + at_ v b + x)]> v in
  let v := <[d := rotr 64 32 (Z.lxor (at_ v d) (at_ v a))]> v in
  let v := <[c := word 64 (at_ v c + at_ v d)]> v in
  let v := <[b := rotr 64 24 (Z.lxor (at_ v b) (at_ v c))]> v in
  let v := <[a := word 64 (at_ v a + at_ v b + y)]> v in
  let v := <[d := rotr 64 16 (Z.lxor (at_ v d) (at_ v a))]> v in
  let v := <[c := word 64 (at_ v c + at_ v d)]> v in
  <[b := rotr 64 63 (Z.lxor (at_ v b) (at_ v c))]> v.

Definition blake_round (m : list Z) (v : list Z) (s : list nat) : list Z :=
  let w i := nth (nth i s O) m 0 in
  let v := blake_g v 0 4 8 12 (w 0%nat) (w 1%nat) in
  let v := blake_g v 1 5 9 13 (w 2%nat) (w 3%nat) in
  let v := blake_g v 2 6 10 14 (w 4%nat) (w 5%nat) in
  let v := blake_g v 3 7 11 15 (w 6%nat) (w 7%nat) in
  let v := blake_g v 0 5 10 15 (w 8%nat) (w 9%nat) in
  let v := blake_g v 1 6 11 12 (w 10%nat) (w 11%nat) in
  let v := blake_g v 2 7 8 13 (w 12%nat) (w 13%nat) in
  blake_g v 3 4 9 14 (w 14%nat) (w 15%nat).

(** Compression of one block; [t] bytes hashed so far. *)
Definition blake_block (h : list Z) (t : Z) (final : bool) (block : bytes) : list Z :=
  let m := le_word <$> pieces 16 8 block in
  let iv i := nth i blake_iv 0 in
  let v := h ++ [iv 0%nat; iv 1%nat; iv 2%nat; iv 3%nat;
                 Z.lxor (iv 4%nat) (word 64 t); Z.lxor (iv 5%nat) (Z.shiftr t 64);
                 (if final then Z.lxor (iv 6%nat) 0xffffffffffffffff else iv 6%nat); iv 7%nat] in
  let v := fold_left (blake_round m) (blake_sigma ++ take 2 blake_sigma) v in
  zip_with Z.lxor (zip_with Z.lxor h (take 8 v)) (drop 8 v).

Fixpoint blake_blocks (n : nat) (h : list Z) (t : Z) (msg : bytes) : list Z :=
  match n with
  | O => blake_block h (t + slen msg) true (msg ++ replicate (128 - length msg) 0)
  | S n => blake_blocks n (blake_block h (t + 128) false (take 128 msg)) (t + 128) (drop 128 msg)
  end.

(** Unkeyed BLAKE2b with a [size]-byte digest. *)
Definition blake2b (size : nat) (msg : bytes) : bytes :=
  let h0 := match blake_iv with
            | x :: h => Z.lxor x (0x01010000 + Z.of_nat size) :: h
            | [] => []
            end in
  take size (concat (le_bytes 8 <$> blake_blocks ((length msg - 1) / 128) h0 0 msg)).

(** ** HMAC *)

(** RFC 2104 over a hash with the given block size. *)
Definition hmac (hash : bytes → bytes) (block : nat) (k msg : bytes) : bytes :=
  let k := if (length k <=? block)%nat then k else hash k in
  let k := k ++ replicate (block - length k) 0 in
  let pad c := (λ b, Z.lxor b c) <$> k in
  hash (pad 0x5c ++ hash (pad 0x36 ++ msg)).

(** ** The interface *)

Class HashLib := {
  sha256_hex : bytes → pystr;       (* hashlib.sha256(b).hexdigest() *)
  blake2b_hex : bytes → pystr;      (* hashlib.blake2b(b, digest_size=16).hexdigest() *)
  hmac_sha256_hex : bytes → bytes → pystr;   (* hmac.new(key, msg, sha256).hexdigest() *)
  sha256_hex_length b : slen (sha256_hex b) = 64;
  sha256_hex_ascii b : Forall (λ c, 0 <= c < 128) (sha256_hex b);
  blake2b_hex_ascii b : Forall (λ c, 0 <= c < 128) (blake2b_hex b);
  hmac_sha256_hex_ascii k b : Forall (λ c, 0 <= c < 128) (hmac_sha256_hex k b)
}.

Lemma sha_round_length v kw : length (sha_round v kw) = length v.
Proof.
  do 9 (destruct v as [|? v]; [done|]). done.
Qed.

(** A fold whose step keeps a length keeps it. *)
Lemma fold_left_length {A} (f : list Z → A → list Z) l v :
  (∀ v a, length (f v a) = length v) → length (fold_left f l v) = length v.
Proof.
  intros Hf. revert v. induction l as [|a l IH]; intros v; simpl; [done|]. by rewrite IH, Hf.
Qed.

Lemma sha_block_length h b : length (sha_block h b) = length h.
Proof.
  unfold sha_block. rewrite length_zip_with, fold_left_length by apply sha_round_length. lia.
Qed.

Lemma sha256_length b : length (sha256 b) = 32%nat.
Proof.
  assert (Hc : ∀ l : list Z, length (concat (be_bytes 4 <$> l)) = (4 * length l)%nat).
  { induction l as [|x l IH]; [done|]. rewrite fmap_cons. cbn [concat length].
    rewrite length_app, length_be_bytes, IH. lia. }
  unfold sha256. cbv zeta. rewrite Hc, fold_left_length by apply sha_block_length. done.
Qed.

#[export] Program Instance hashlib : HashLib := {|
  sha256_hex b := hex (sha256 b);
  blake2b_hex b := hex (blake2b 16 b);
  hmac_sha256_hex k b := hex (hmac sha256 64 k b)
|}.
Next Obligation. intros b. unfold slen. rewrite length_hex, sha256_length. done. Qed.
Next Obligation. intros b. apply hex_ascii. unfold sha256. apply concat_bytes, be_bytes_byte. Qed.
Next Obligation.
  intros b. apply hex_ascii. unfold blake2b. apply Forall_take, concat_bytes. intros x.
  unfold le_bytes. rewrite Forall_reverse. apply be_bytes_byte.
Qed.
Next Obligation. intros k b. apply hex_ascii. unfold hmac, sha256. apply concat_bytes, be_bytes_byte. Qed.

(** FIPS 180-4 and RFC 7693 vectors, and a two-block message. *)
Example sha256_abc :
  hex (sha256 (u8 "abc")) = u8 "ba7816bf8f01cfea414140de5dae2223b00361a396177a9cb410ff61f20015ad".
Proof. vm_compute. reflexivity. Qed.
Example sha256_two_blocks :
  hex (sha256 (u8 "abcdbcdecdefdefgefghfghighijhijkijkljklmklmnlmnomnopnopq")) =
    u8 "248d6a61d20638b8e5c026930c3e6039a33ce45964ff2167f6ecedd419db06c1".
Proof. vm_compute. reflexivity. Qed.
(** RFC 4231, test case 2. *)
Example hmac_jefe :
  hmac_sha256_hex (u8 "Jefe") (u8 "what do ya want for nothing?") =
    u8 "5bdcc146bf60754e6a042426089575c75a003f089d2739839dec58b964ec3843".
Proof. vm_compute. reflexivity. Qed.
Example blake2b_abc :
  hex (blake2b 64 (u8 "abc")) =
    u8 "ba80a53f981c4d0d6a2797b69f12f6e94c212f14685ac4b74b12bb6fdbffa2d17d87c5392aab792dc252d5de4533cc9518d38aa8dbf1925ab92386edd4009923".
Proof. vm_compute. reflexivity. Qed.

(** ** [security.py] *)

Section Security.
Context `{H : HashLib}.

Definition hash_identifier (value : pystr) (len : Z) : result exn pystr :=
  data ← utf8_encode value;
  Ok (slice (sha256_hex data) 0 len).

Definition hash_payload (value : pystr) : result exn pystr :=
  data ← utf8_encode value;
  Ok (blake2b_hex data).
End Security.
