(* ===== verification/Json.v ===== *)
(** * JSON ([json.dumps], [json.loads])

    The serializer and the parser of Python's [json] module on the values the
    program keeps: [json_dumps] writes ASCII with the default separators,
    [json_loads] is the C scanner, with the interpreter's recursion limit as an
    argument.  [json_roundtrip]: what is dumped is read back. *)

From S2P Require Import Prelude Domain PyStr Utf8.

(** ** Numbers in decimal *)

(** The decimal digits of a non-negative number, in front of [acc]. *)
Fixpoint dec_digits (fuel : nat) (n : Z) (acc : pystr) : pystr :=
  match fuel with
  | O => acc
  | S fuel => if n <? 10 then (48 + n) :: acc else dec_digits fuel (n / 10) ((48 + n mod 10) :: acc)
  end.

(** [repr(z)] of an int; a number has fewer digits than bits. *)
Definition int_repr (z : Z) : pystr :=
  let n := Z.abs z in
  let ds := dec_digits (S (Z.to_nat (Z.log2 n))) n [] in
  if z <? 0 then 45 :: ds else ds.

Definition is_ascii_digit (c : Z) : bool := (48 <=? c) && (c <=? 57).

(** The number ASCII digits spell. *)
Definition ascii_number (ds : pystr) : Z := fold_left (λ z c, z * 10 + (c - 48)) ds 0.

(** ** [json.dumps] *)

Definition hex_char (d : Z) : Z := if d <? 10 then 48 + d else 87 + d.
(** [\uXXXX]. *)
Definition u_escape (n : Z) : pystr :=
  [92; 117; hex_char (n / 4096 mod 16); hex_char (n / 256 mod 16); hex_char (n / 16 mod 16);
   hex_char (n mod 16)].

Definition escape_char (c : Z) : pystr :=
  if c =? 34 then [92; 34]
  else if c =? 92 then [92; 92]
  else if c =? 10 then [92; 110]
  else if c =? 13 then [92; 114]
  else if c =? 9 then [92; 116]
  else if c =? 12 then [92; 102]
  else if c =? 8 then [92; 98]
  else if (32 <=? c) && (c <=? 126) then [c]
  else if c <? 65536 then u_escape c
  else u_escape (55296 + (c - 65536) / 1024) ++ u_escape (56320 + (c - 65536) mod 1024).

Definition dump_string (s : pystr) : pystr := 34 :: concat (escape_char <$> s) ++ [34].

Definition comma : pystr := u8 ", ".

(** [None]: the value holds a float; the program dumps none of those it
    stores. *)
Fixpoint json_dumps (o : pyobj) : option pystr :=
  match o with
  | ONone => Some (u8 "null")
  | OBool true => Some (u8 "true")
  | OBool false => Some (u8 "false")
  | OInt z => Some (int_repr z)
  | OFloat _ => None
  | OStr s => Some (dump_string s)
  | OList l =>
      parts ← mapM json_dumps l;
      Some (91 :: join comma parts ++ [93])
  | ODict d =>
      parts ← mapM (λ p : pystr * pyobj, v ← json_dumps (p.2);
                    Some (dump_string (p.1) ++ u8 ": " ++ v)) d;
      Some (123 :: join comma parts ++ [125])
  end.

(** ** [json.loads] *)

Definition hex_value (c : Z) : option Z :=
  if is_ascii_digit c then Some (c - 48)
  else if (97 <=? c) && (c <=? 102) then Some (c - 87)
  else if (65 <=? c) && (c <=? 70) then Some (c - 55)
  else None.

Definition hex4 (a b c d : Z) : option Z :=
  a ← hex_value a; b ← hex_value b; c ← hex_value c; d ← hex_value d;
  Some (a * 4096 + b * 256 + c * 16 + d).

Definition is_high (u : Z) : bool := (55296 <=? u) && (u <=? 56319).
Definition is_low (u : Z) : bool := (56320 <=? u) && (u <=? 57343).

Definition unescape (e : Z) : option Z :=
  if e =? 34 then Some 34 else if e =? 92 then Some 92 else if e =? 47 then Some 47
  else if e =? 98 then Some 8 else if e =? 102 then Some 12 else if e =? 110 then Some 10
  else if e =? 114 then Some 13 else if e =? 116 then Some 9 else None.

Definition cons_fst (c : Z) (o : option (pystr * pystr)) : option (pystr * pystr) :=
  '(s, rest) ← o; Some (c :: s, rest).

(** The characters of a string literal after its opening quote, and what
    follows its closing one. *)
Fixpoint scan_string (s : pystr) : option (pystr * pystr) :=
  match s with
  | [] => None
  | c :: r =>
      if c =? 34 then Some ([], r)
      else if c =? 92 then
        match r with
        | [] => None
        | e :: r1 =>
            if e =? 117 then
              match r1 with
              | h1 :: h2 :: h3 :: h4 :: r2 =>
                  match hex4 h1 h2 h3 h4 with
                  | None => None
                  | Some u =>
                      if is_high u then
                        match r2 with
                        | b :: v :: k1 :: k2 :: k3 :: k4 :: r3 =>
                            if (b =? 92) && (v =? 117) then
                              match hex4 k1 k2 k3 k4 with
                              | None => None
                              | Some u2 =>
                                  if is_low u2
                                  then cons_fst (65536 + (u - 55296) * 1024 + (u2 - 56320))
                                         (scan_string r3)
                                  else cons_fst u (scan_string r2)
                              end
                            else cons_fst u (scan_string r2)
                        | _ => cons_fst u (scan_string r2)
                        end
                      else cons_fst u (scan_string r2)
                  end
              | _ => None
              end
            else
              match unescape e with
              | Some x => cons_fst x (scan_string r1)
              | None => None
              end
        end
      else if c <=? 31 then None
      else cons_fst c (scan_string r)
  end.

Fixpoint skip_ws (s : pystr) : pystr :=
  match s with
  | c :: r => if (c =? 32) || (c =? 9) || (c =? 10) || (c =? 13) then skip_ws r else s
  | [] => []
  end.

(** The longest prefix of ASCII digits, and the rest. *)
Fixpoint span_digits (s : pystr) : pystr * pystr :=
  match s with
  | c :: r => if is_ascii_digit c then let '(ds, rest) := span_digits r in (c :: ds, rest) else ([], s)
  | [] => ([], [])
  end.

(** A fraction, when a digit follows the point. *)
Definition scan_fraction (s : pystr) : option (pystr * pystr) :=
  match s with
  | c :: r =>
      if c =? 46 then match span_digits r with ([], _) => None | p => Some p end else None
  | [] => None
  end.

(** An exponent, when it has digits. *)
Definition scan_exponent (s : pystr) : option (Z * pystr) :=
  match s with
  | c :: r =>
      if (c =? 101) || (c =? 69) then
        let '(sign, r) := match r with
                          | 43 :: r => (1, r)
                          | 45 :: r => (-1, r)
                          | _ => (1, r)
                          end in
        match span_digits r with
        | ([], _) => None
        | (ds, rest) => Some (sign * ascii_number ds, rest)
        end
      else None
  | [] => None
  end.

(** Is [m * 10^e] rounded to a double different from zero? *)
Definition float_nonzero (m e : Z) : bool :=
  if 0 <=? e then negb (m =? 0) else 10 ^ (- e) <? m * 2 ^ 1075.

Definition scan_unsigned (neg : bool) (s : pystr) : result exn (pyobj * pystr) :=
  match s with
  | [] => Err EValueError
  | c :: r =>
      if negb (is_ascii_digit c) then Err EValueError
      else
        let '(ds, rest) := if c =? 48 then ([48], r) else span_digits s in
        let '(frac, rest1) := match scan_fraction rest with
                              | Some (f, rest') => (Some f, rest')
                              | None => (None, rest)
                              end in
        let '(exponent, rest2) := match scan_exponent rest1 with
                                  | Some (x, rest') => (Some x, rest')
                                  | None => (None, rest1)
                                  end in
        match frac, exponent with
        | None, None =>
            if 4300 <? slen ds then Err EValueError
            else Ok (OInt (if neg then - ascii_number ds else ascii_number ds), rest)
        | _, _ =>
            let f := default [] frac in
            Ok (OFloat (float_nonzero (ascii_number (ds ++ f)) (default 0 exponent - slen f)), rest2)
        end
  end.

Definition scan_number (s : pystr) : result exn (pyobj * pystr) :=
  match s with
  | c :: r => if c =? 45 then scan_unsigned true r else scan_unsigned false s
  | [] => Err EValueError
  end.

Section Containers.
Context (value : pystr → result exn (pyobj * pystr)).

(** The elements of an array, from the first one on. *)
Fixpoint scan_elements (fuel : nat) (s : pystr) : result exn (list pyobj * pystr) :=
  match fuel with
  | O => Err EValueError
  | S fuel =>
      '(o, rest) ← value s;
      match skip_ws rest with
      | c :: rest =>
          if c =? 93 then Ok ([o], rest)
          else if c =? 44 then
            '(os, rest) ← scan_elements fuel (skip_ws rest);
            Ok (o :: os, rest)
          else Err EValueError
      | [] => Err EValueError
      end
  end.

(** The members of an object, added to [d]. *)
Fixpoint scan_members (fuel : nat) (d : list (pystr * pyobj)) (s : pystr)
    : result exn (list (pystr * pyobj) * pystr) :=
  match fuel with
  | O => Err EValueError
  | S fuel =>
      match s with
      | [] => Err EValueError
      | q :: s =>
          if negb (q =? 34) then Err EValueError
          else
            '(k, rest) ← result_of_option EValueError (scan_string s);
            match skip_ws rest with
            | [] => Err EValueError
            | c :: rest =>
                if negb (c =? 58) then Err EValueError
                else
                  '(o, rest) ← value (skip_ws rest);
                  let d := dict_set k o d in
                  match skip_ws rest with
                  | [] => Err EValueError
                  | c :: rest =>
                      if c =? 125 then Ok (d, rest)
                      else if c =? 44 then scan_members fuel d (skip_ws rest)
                      else Err EValueError
                  end
            end
      end
  end.
End Containers.

(** One value.  A container below the recursion limit raises
    [RecursionError], a subclass of [RuntimeError].  The loops over elements
    consume at least one character per turn. *)
Fixpoint scan_value (limit : nat) (s : pystr) : result exn (pyobj * pystr) :=
  match s with
  | [] => Err EValueError
  | c :: r =>
      if c =? 34 then
        '(v, rest) ← result_of_option EValueError (scan_string r); Ok (OStr v, rest)
      else if c =? 123 then
        match limit with
        | O => Err ERuntimeError
        | S limit =>
            match skip_ws r with
            | [] => Err EValueError
            | c :: rest =>
                if c =? 125 then Ok (ODict [], rest)
                else
                  '(d, rest) ← scan_members (scan_value limit) (S (length rest)) [] (c :: rest);
                  Ok (ODict d, rest)
            end
        end
      else if c =? 91 then
        match limit with
        | O => Err ERuntimeError
        | S limit =>
            match skip_ws r with
            | [] => Err EValueError
            | c :: rest =>
                if c =? 93 then Ok (OList [], rest)
                else
                  '(l, rest) ← scan_elements (scan_value limit) (S (length rest)) (c :: rest);
                  Ok (OList l, rest)
            end
        end
      else if prefixb (u8 "null") s then Ok (ONone, drop 4 s)
      else if prefixb (u8 "true") s then Ok (OBool true, drop 4 s)
      else if prefixb (u8 "false") s then Ok (OBool false, drop 5 s)
      else if prefixb (u8 "NaN") s then Ok (OFloat true, drop 3 s)
      else if prefixb (u8 "Infinity") s then Ok (OFloat true, drop 8 s)
      else if prefixb (u8 "-Infinity") s then Ok (OFloat true, drop 9 s)
      else scan_number s
  end.

Definition json_loads (limit : nat) (s : pystr) : result exn pyobj :=
  if prefixb [65279] s then Err EValueError
  else
    '(o, rest) ← scan_value limit (skip_ws s);
    match skip_ws rest with [] => Ok o | _ => Err EValueError end.

(** ** Strings survive *)

(** A text without surrogates: what UTF-8 encodes. *)
Definition scalar (c : Z) : Prop := is_code_point c = true ∧ is_surrogate c = false.

Lemma hex_value_char d : 0 <= d < 16 → hex_value (hex_char d) = Some d.
Proof.
  intros Hd. unfold hex_value, hex_char, is_ascii_digit. destruct (Z.ltb_spec d 10).
  - rewrite (proj2 (andb_true_iff _ _)) by lia. f_equal. lia.
  - rewrite (proj2 (andb_false_iff _ _)) by lia. rewrite (proj2 (andb_true_iff _ _)) by lia. f_equal. lia.
Qed.

Lemma hex4_escape n :
  0 <= n < 65536 →
  hex4 (hex_char (n / 4096 mod 16)) (hex_char (n / 256 mod 16)) (hex_char (n / 16 mod 16))
    (hex_char (n mod 16)) = Some n.
Proof.
  intros Hn. unfold hex4. rewrite !hex_value_char by (apply Z.mod_pos_bound; lia).
  cbn [mbind option_bind]. f_equal. Z.div_mod_to_equations. lia.
Qed.

(** An escaped character below the surrogates or above them. *)
Lemma scan_u_escape n r :
  0 <= n < 65536 → is_high n = false →
  scan_string (u_escape n ++ r) = cons_fst n (scan_string r).
Proof.
  intros Hn Hh. unfold u_escape. cbn [app scan_string].
  change (92 =? 34) with false. change (92 =? 92) with true. change (117 =? 117) with true. cbv iota.
  by rewrite hex4_escape, Hh.
Qed.

Lemma scan_pair_escape u u2 r :
  is_high u = true → is_low u2 = true →
  scan_string (u_escape u ++ u_escape u2 ++ r) =
    cons_fst (65536 + (u - 55296) * 1024 + (u2 - 56320)) (scan_string r).
Proof.
  intros Hu Hu2. pose proof Hu as Hu'. pose proof Hu2 as Hu2'.
  unfold is_high, is_low in Hu', Hu2'. rewrite andb_true_iff, !Z.leb_le in Hu', Hu2'.
  unfold u_escape. cbn [app scan_string].
  change (92 =? 34) with false. change (92 =? 92) with true. change (117 =? 117) with true. cbv iota.
  rewrite hex4_escape, Hu by lia. cbn [andb]. rewrite hex4_escape by lia. by rewrite Hu2.
Qed.

Lemma scan_escape_char c r :
  scalar c → scan_string (escape_char c ++ r) = cons_fst c (scan_string r).
Proof.
  unfold scalar, is_code_point, is_surrogate. rewrite andb_true_iff, andb_false_iff, !Z.leb_le, !Z.leb_gt.
  intros [Hc Hs]. unfold escape_char.
  repeat match goal with
  | |- context [c =? ?n] => destruct (Z.eqb_spec c n) as [->|?]; [reflexivity|]
  end.
  destruct ((32 <=? c) && (c <=? 126)) eqn:Hp.
  - apply andb_true_iff in Hp as [? ?]. cbn [app scan_string].
    rewrite !(proj2 (Z.eqb_neq _ _)) by done. rewrite (proj2 (Z.leb_gt _ _)) by lia. done.
  - destruct (Z.ltb_spec c 65536).
    + apply scan_u_escape; [lia|]. unfold is_high. apply andb_false_iff. rewrite !Z.leb_gt. lia.
    + rewrite <-app_assoc, scan_pair_escape.
      * f_equal. Z.div_mod_to_equations. lia.
      * unfold is_high. apply andb_true_iff. rewrite !Z.leb_le. Z.div_mod_to_equations. lia.
      * unfold is_low. apply andb_true_iff. rewrite !Z.leb_le. Z.div_mod_to_equations. lia.
Qed.

Lemma scan_dumped_string s rest :
  Forall scalar s → scan_string (concat (escape_char <$> s) ++ 34 :: rest) = Some (s, rest).
Proof.
  induction 1 as [|c s Hc Hs IH]; [done|]. rewrite fmap_cons. cbn [concat].
  by rewrite <-app_assoc, scan_escape_char, IH.
Qed.

(** ** Numbers survive *)

(** The first number whose decimal form [int] refuses to read. *)
Definition int_limit : Z := 10 ^ 4300.

Lemma int_limit_le k : 4300 <= k → int_limit <= 10 ^ k.
Proof. intros Hk. apply Z.pow_le_mono_r; [reflexivity|done]. Qed.

Definition digits_ok (n : Z) (ds : pystr) : Prop :=
  Forall (λ c, is_ascii_digit c = true) ds ∧ ascii_number ds = n ∧
  (n = 0 ∧ ds = [48] ∨ 0 < n ∧ head ds ≠ Some 48 ∧ ds ≠ [] ∧ 10 ^ (slen ds - 1) <= n).

Lemma digit_ok d : 0 <= d <= 9 → is_ascii_digit (48 + d) = true.
Proof. intros. unfold is_ascii_digit. apply andb_true_iff. lia. Qed.

Lemma dec_digits_spec fuel n acc :
  0 <= n → n < 2 ^ Z.of_nat fuel → (0 < fuel)%nat →
  ∃ ds, dec_digits fuel n acc = ds ++ acc ∧ digits_ok n ds.
Proof.
  revert n acc. induction fuel as [|fuel IH]; intros n acc Hn Hlt Hf; [lia|]. cbn [dec_digits].
  destruct (Z.ltb_spec n 10) as [Hs|Hb].
  - exists [48 + n]. split; [done|]. split_and!; [constructor; [by apply digit_ok; lia|constructor]| |].
    + unfold ascii_number. simpl. lia.
    + destruct (decide (n = 0)) as [->|]; [by left|right]. unfold slen. simpl.
      split_and!; [lia|intros [= ?]; lia|done|lia].
  - rewrite Nat2Z.inj_succ, Z.pow_succ_r in Hlt by lia.
    destruct fuel as [|fuel]; [simpl in Hlt; lia|].
    destruct (IH (n / 10) ((48 + n mod 10) :: acc)) as (ds & -> & Hds & Hnum & Hcase);
      [Z.div_mod_to_equations; lia|Z.div_mod_to_equations; lia|lia|].
    exists (ds ++ [48 + n mod 10]). rewrite <-app_assoc. split; [done|].
    assert (0 < n / 10) by (Z.div_mod_to_equations; lia).
    destruct Hcase as [[? _]|(_ & Hhead & Hne & Hlen)]; [lia|].
    split_and!.
    + apply Forall_app. split; [done|]. constructor; [|constructor]. apply digit_ok.
      pose proof (Z.mod_pos_bound n 10). lia.
    + unfold ascii_number in *. rewrite fold_left_app, Hnum. simpl. Z.div_mod_to_equations. lia.
    + right. split_and!; [lia|by destruct ds|by destruct ds|].
      rewrite slen_app. replace (slen ds + slen [48 + n mod 10] - 1) with (Z.succ (slen ds - 1))
        by (unfold slen; simpl; lia).
      rewrite Z.pow_succ_r by (unfold slen; destruct ds; [done|simpl; lia]).
      Z.div_mod_to_equations. lia.
Qed.

Lemma int_digits_ok n : 0 <= n → ∃ ds, dec_digits (S (Z.to_nat (Z.log2 n))) n [] = ds ∧ digits_ok n ds.
Proof.
  intros Hn. destruct (dec_digits_spec (S (Z.to_nat (Z.log2 n))) n []) as (ds & -> & Hds); [done| |lia|].
  - rewrite Nat2Z.inj_succ, Z2Nat.id by apply Z.log2_nonneg.
    destruct (decide (n = 0)) as [->|]; [done|]. apply Z.log2_spec. lia.
  - exists ds. by rewrite app_nil_r.
Qed.

(** What follows a number without continuing it. *)
Definition stops (rest : pystr) : Prop :=
  match rest with [] => True | c :: _ => is_ascii_digit c = false ∧ c ≠ 46 ∧ c ≠ 101 ∧ c ≠ 69 end.

Lemma span_digits_app ds rest :
  Forall (λ c, is_ascii_digit c = true) ds → stops rest → span_digits (ds ++ rest) = (ds, rest).
Proof.
  induction 1 as [|c ds Hc Hds IH]; intros Hst; cbn [app span_digits].
  - destruct rest as [|c rest]; [done|]. destruct Hst as [Hd _]. simpl. by rewrite Hd.
  - rewrite Hc, IH by done. done.
Qed.

Lemma stops_fraction rest : stops rest → scan_fraction rest = None.
Proof. destruct rest; simpl; [done|]. intros (_ & H & _). by rewrite (proj2 (Z.eqb_neq _ _)). Qed.
Lemma stops_exponent rest : stops rest → scan_exponent rest = None.
Proof.
  destruct rest; simpl; [done|]. intros (_ & _ & H1 & H2). by rewrite !(proj2 (Z.eqb_neq _ _)).
Qed.

Lemma scan_unsigned_digits n ds rest neg :
  digits_ok n ds → n < int_limit → stops rest →
  scan_unsigned neg (ds ++ rest) = Ok (OInt (if neg then - n else n), rest).
Proof.
  intros (Hds & Hnum & Hcase) Hn Hst.
  assert (Hspan : span_digits (ds ++ rest) = (ds, rest)) by by apply span_digits_app.
  assert (Hlen : (4300 <? slen ds) = false).
  { apply Z.ltb_ge. destruct Hcase as [[_ ->]|(Hpos & _ & _ & Hle)]; [done|].
    apply Z.le_ngt. intros Hlt. pose proof (int_limit_le (slen ds - 1)). lia. }
  destruct ds as [|c ds]; [by destruct Hcase as [[_ ?]|(_ & _ & ? & _)]|].
  apply Forall_cons in Hds as Hc. destruct Hc as [Hc _].
  cbn [app] in *. unfold scan_unsigned. rewrite Hc. cbn [negb].
  assert (Htok : (if c =? 48 then ([48], ds ++ rest) else span_digits (c :: ds ++ rest)) = (c :: ds, rest)).
  { destruct (Z.eqb_spec c 48) as [->|]; [|done].
    destruct Hcase as [[_ [= ->]]|(_ & Hh & _)]; [done|]. by destruct Hh. }
  rewrite Htok, stops_fraction, stops_exponent, Hlen, Hnum by done. done.
Qed.

Lemma int_repr_head z : ∃ c r, int_repr z = c :: r ∧ (c = 45 ∧ z < 0 ∧ (∃ d r', r = d :: r' ∧ is_ascii_digit d = true) ∨ is_ascii_digit c = true).
Proof.
  destruct (int_digits_ok (Z.abs z)) as (ds & Heq & Hds & _ & Hcase); [lia|].
  assert (∃ c r, ds = c :: r ∧ is_ascii_digit c = true) as (c & r & -> & Hc).
  { destruct ds as [|c r]; [by destruct Hcase as [[_ ?]|(_ & _ & ? & _)]|].
    apply Forall_cons in Hds as [? _]. eauto. }
  unfold int_repr. rewrite Heq. destruct (Z.ltb_spec z 0).
  - exists 45, (c :: r). split; [done|left]. eauto 10.
  - exists c, r. eauto.
Qed.

Lemma scan_int_repr z rest :
  Z.abs z < int_limit → stops rest → scan_number (int_repr z ++ rest) = Ok (OInt z, rest).
Proof.
  intros Hz Hst. destruct (int_digits_ok (Z.abs z)) as (ds & Heq & Hok); [lia|].
  pose proof (scan_unsigned_digits _ _ rest (z <? 0) Hok Hz Hst) as Hscan.
  unfold int_repr. rewrite Heq. destruct (Z.ltb_spec z 0).
  - cbn [app scan_number]. change (45 =? 45) with true. cbv iota. rewrite Hscan.
    do 3 f_equal. lia.
  - destruct Hok as (Hds & _ & Hcase).
    destruct ds as [|c ds]; [by destruct Hcase as [[_ ?]|(_ & _ & ? & _)]|].
    apply Forall_cons in Hds as [Hc _]. cbn [app scan_number] in *.
    rewrite (proj2 (Z.eqb_neq c 45)), Hscan by (intros ->; done). do 3 f_equal. lia.
Qed.

(** ** Values survive *)

(** Induction on values, with the hypothesis for every nested one. *)
Section PyobjInd.
Context (P : pyobj → Prop).
Context (Hnone : P ONone) (Hbool : ∀ b, P (OBool b)) (Hint : ∀ z, P (OInt z))
  (Hfloat : ∀ b, P (OFloat b)) (Hstr : ∀ s, P (OStr s))
  (Hlist : ∀ l, Forall P l → P (OList l)) (Hdict : ∀ d, Forall (λ p, P (p.2)) d → P (ODict d)).

Fixpoint pyobj_deep_ind (o : pyobj) : P o :=
  match o with
  | ONone => Hnone
  | OBool b => Hbool b
  | OInt z => Hint z
  | OFloat b => Hfloat b
  | OStr s => Hstr s
  | OList l =>
      Hlist l ((fix go l : Forall P l :=
        match l with [] => Forall_nil_2 _ | o :: l => Forall_cons_2 _ _ _ (pyobj_deep_ind o) (go l) end) l)
  | ODict d =>
      Hdict d ((fix go d : Forall (λ p, P (p.2)) d :=
        match d with [] => Forall_nil_2 _ | (k, o) :: d => Forall_cons_2 _ (k, o) _ (pyobj_deep_ind o) (go d) end) d)
  end.
End PyobjInd.

(** Nesting depth of containers. *)
Fixpoint depth (o : pyobj) : nat :=
  match o with
  | OList l => S (max_list (depth <$> l))
  | ODict d => S (max_list ((λ p, depth (p.2)) <$> d))
  | _ => O
  end.

(** What [json.dumps] can write and [json.loads] read back: no floats, ints
    below the conversion limit, surrogate-free texts, distinct keys. *)
Inductive serializable : pyobj → Prop :=
  | ser_none : serializable ONone
  | ser_bool b : serializable (OBool b)
  | ser_int z : Z.abs z < int_limit → serializable (OInt z)
  | ser_str s : Forall scalar s → serializable (OStr s)
  | ser_list l : Forall serializable l → serializable (OList l)
  | ser_dict d :
      NoDup d.*1 → Forall (λ p, Forall scalar (p.1) ∧ serializable (p.2)) d →
      serializable (ODict d).

Definition dump_member (p : pystr * pyobj) : option pystr :=
  v ← json_dumps (p.2); Some (dump_string (p.1) ++ u8 ": " ++ v).

Lemma dumps_list l : json_dumps (OList l) = parts ← mapM json_dumps l; Some (91 :: join comma parts ++ [93]).
Proof. done. Qed.
Lemma dumps_dict d : json_dumps (ODict d) = parts ← mapM dump_member d; Some (123 :: join comma parts ++ [125]).
Proof. done. Qed.

Lemma dumps_total o : serializable o → is_Some (json_dumps o).
Proof.
  induction o as [|[]| | | |l IH|d IH] using pyobj_deep_ind; intros Ho; inversion Ho as [| | | |? Hl|? _ Hd];
    subst; try by eexists.
  - rewrite dumps_list. assert (is_Some (mapM json_dumps l)) as (parts & ->); [|by eexists].
    apply mapM_is_Some_2. rewrite Forall_forall in IH, Hl |- *. auto.
  - rewrite dumps_dict. assert (is_Some (mapM dump_member d)) as (parts & ->); [|by eexists].
    apply mapM_is_Some_2. rewrite Forall_forall in IH, Hd |- *. intros p Hp. simpl.
    destruct (IH p Hp) as (v & Hv); [by apply Hd|]. unfold dump_member. rewrite Hv. by eexists.
Qed.

(** Characters a dumped value starts with. *)
Definition value_start (c : Z) : bool :=
  (c =? 34) || (c =? 91) || (c =? 123) || (c =? 110) || (c =? 116) || (c =? 102) || (c =? 45)
  || is_ascii_digit c.

Lemma dumps_start o s : json_dumps o = Some s → ∃ c r, s = c :: r ∧ value_start c = true.
Proof.
  destruct o as [|[]|z|b|t|l|d]; simpl; intros Hs; simplify_option_eq; try (by eexists _, _).
  destruct (int_repr_head z) as (c & r & -> & [(-> & _)|Hc]); [by eexists _, _|].
  eexists _, _. split; [done|]. unfold value_start. by rewrite Hc, orb_true_r.
Qed.

Lemma value_start_not_ws c r : value_start c = true → skip_ws (c :: r) = c :: r.
Proof.
  intros Hc. simpl. destruct (_ || _ || _ || _) eqn:Hw; [|done].
  rewrite !orb_true_iff, !Z.eqb_eq in Hw. by destruct Hw as [[[-> | ->]| ->]| ->].
Qed.

Lemma value_start_not_close c : value_start c = true → c ≠ 93 ∧ c ≠ 125.
Proof. intros Hc. by split; intros ->. Qed.

Definition reads_back (limit : nat) (o : pyobj) : Prop :=
  ∀ s rest, json_dumps o = Some s → stops rest → scan_value limit (s ++ rest) = Ok (o, rest).

Lemma stops_comma r : stops (44 :: r).
Proof. done. Qed.

Lemma skip_ws_comma r : skip_ws (44 :: r) = 44 :: r.
Proof. done. Qed.
Lemma skip_ws_space r : skip_ws (32 :: r) = skip_ws r.
Proof. done. Qed.

(** Parts that start with no whitespace. *)
Lemma skip_ws_parts s parts tail :
  (∃ c r, s = c :: r ∧ skip_ws [c] = [c]) →
  skip_ws (join comma (s :: parts) ++ tail) = join comma (s :: parts) ++ tail.
Proof.
  intros (c & r & -> & Hc). assert (Hskip : ∀ x, skip_ws (c :: x) = c :: x).
  { intros x. simpl in Hc |- *. by case_match. }
  destruct parts; cbn [join app]; apply Hskip.
Qed.

Lemma dumps_no_ws o s : json_dumps o = Some s → ∃ c r, s = c :: r ∧ skip_ws [c] = [c].
Proof. intros (c & r & -> & Hc)%dumps_start. eexists _, _. split; [done|]. by apply value_start_not_ws. Qed.

Lemma scan_elements_dump value l parts fuel rest :
  (∀ o s rest, o ∈ l → json_dumps o = Some s → stops rest → value (s ++ rest) = Ok (o, rest)) →
  l ≠ [] → Forall2 (λ o s, json_dumps o = Some s) l parts → (length l <= fuel)%nat →
  scan_elements value fuel (join comma parts ++ 93 :: rest) = Ok (l, rest).
Proof.
  intros Hval Hne Hparts. revert fuel Hval Hne.
  induction Hparts as [|o s l parts Ho Hparts IH]; intros fuel Hval Hne Hfuel; [done|].
  destruct fuel as [|fuel]; [simpl in Hfuel; lia|]. cbn [scan_elements].
  destruct Hparts as [|o2 s2 l parts Ho2 Hparts].
  - cbn [join]. rewrite (Hval o s) by (done || set_solver). reflexivity.
  - change (join comma (s :: s2 :: parts)) with (s ++ comma ++ join comma (s2 :: parts)).
    rewrite <-!app_assoc, (Hval o s) by (done || set_solver). cbn [mbind result_bind].
    change (comma ++ ?x) with (44 :: 32 :: x). rewrite skip_ws_comma.
    change (44 =? 93) with false. change (44 =? 44) with true. cbv iota.
    rewrite skip_ws_space, skip_ws_parts, IH; [done| |done|simpl in *; lia|by eapply dumps_no_ws].
    intros. apply Hval; [set_solver|done..].
Qed.

Lemma scan_members_dump value d parts fuel d0 rest :
  (∀ p s rest, p ∈ d → json_dumps (p.2) = Some s → stops rest → value (s ++ rest) = Ok (p.2, rest)) →
  Forall (λ p, Forall scalar (p.1)) d → NoDup (d0 ++ d).*1 →
  d ≠ [] → Forall2 (λ p s, dump_member p = Some s) d parts → (length d <= fuel)%nat →
  scan_members value fuel d0 (join comma parts ++ 125 :: rest) = Ok (d0 ++ d, rest).
Proof.
  intros Hval Hk Hnd Hne Hparts. revert fuel d0 Hval Hk Hnd Hne.
  induction Hparts as [|[k o] s d parts Hp Hparts IH]; intros fuel d0 Hval Hk Hnd Hne Hfuel; [done|].
  destruct fuel as [|fuel]; [simpl in Hfuel; lia|].
  apply Forall_cons in Hk as [Hk Hks]. simpl in Hk.
  unfold dump_member in Hp. cbn [fst snd] in Hp. apply bind_Some in Hp as (v & Hv & Hs).
  apply (inj Some) in Hs. rewrite <-Hs. clear Hs s.
  assert (Hset : dict_set k o d0 = d0 ++ [(k, o)]).
  { apply dict_set_fresh. intros Hin. rewrite fmap_app, fmap_cons in Hnd.
    apply NoDup_app in Hnd as (_ & Hdisj & _). apply (Hdisj k Hin). set_solver. }
  assert (Hstep : ∀ tail x, tail = x :: tl tail → stops tail → skip_ws tail = tail →
    scan_members value (S fuel) d0 ((dump_string k ++ u8 ": " ++ v) ++ tail) =
      if x =? 125 then Ok (d0 ++ [(k, o)], tl tail)
      else if x =? 44 then scan_members value fuel (d0 ++ [(k, o)]) (skip_ws (tl tail))
      else Err EValueError).
  { intros tail x Htail Hst Hws. unfold dump_string. rewrite <-!app_assoc, <-app_comm_cons. cbn [scan_members].
    change (negb (34 =? 34)) with false. cbv iota.
    rewrite <-app_assoc. change ([34] ++ ?y) with (34 :: y). rewrite scan_dumped_string by done.
    cbn [result_of_option mbind result_bind]. change (u8 ": " ++ ?y) with (58 :: 32 :: y).
    change (skip_ws (58 :: ?y)) with (58 :: y). change (negb (58 =? 58)) with false. cbv iota.
    destruct (dumps_start _ _ Hv) as (c & r & Hvc & Hc).
    rewrite skip_ws_space, Hvc, <-app_comm_cons, (value_start_not_ws c) by done.
    rewrite app_comm_cons, <-Hvc, (Hval (k, o) v) by (done || set_solver).
    cbn [mbind result_bind snd]. rewrite Hws, Htail, Hset. done. }
  destruct Hparts as [|p2 s2 d parts Hp2 Hparts].
  - cbn [join]. by rewrite (Hstep (125 :: rest) 125).
  - change (join comma (?x :: s2 :: parts)) with (x ++ comma ++ join comma (s2 :: parts)).
    rewrite <-(app_assoc _ (comma ++ _)), <-(app_assoc comma).
    change (comma ++ ?x) with (44 :: 32 :: x).
    rewrite (Hstep (44 :: 32 :: _) 44) by done. change (44 =? 125) with false.
    change (44 =? 44) with true. cbv iota. cbn [tl].
    rewrite skip_ws_space, skip_ws_parts, IH; [by rewrite <-app_assoc| |done| |done|simpl in *; lia|].
    + intros. apply Hval; [set_solver|done..].
    + by rewrite <-app_assoc.
    + unfold dump_member in Hp2. apply bind_Some in Hp2 as (v2 & _ & [= <-]). by eexists 34, _.
Qed.

Lemma max_list_elem n l : n ∈ l → (n <= max_list l)%nat.
Proof. induction l as [|m l IH]; [set_solver|]. intros [->|H]%elem_of_cons; simpl; [lia|]. specialize (IH H). lia. Qed.

Lemma length_join_ge {A} (R : A → pystr → Prop) l parts :
  (∀ a s, R a s → s ≠ []) → Forall2 R l parts → (length l <= length (join comma parts))%nat.
Proof.
  intros HR. induction 1 as [|a s l parts Ha Hl IH]; simpl; [lia|].
  apply HR in Ha. destruct s as [|c s]; [done|].
  destruct parts as [|s2 parts]; [apply Forall2_length in Hl; simpl in *; lia|].
  rewrite !length_app. simpl in *. lia.
Qed.

Lemma dumps_nonempty o s : json_dumps o = Some s → s ≠ [].
Proof. by intros (c & r & -> & _)%dumps_start. Qed.

(** A prefix whose first character is another one. *)
Lemma prefixb_head a p c s : head p = Some a → a ≠ c → prefixb p (c :: s) = false.
Proof. destruct p as [|b p]; [done|]. intros [= ->] Hac. simpl. by rewrite (proj2 (Z.eqb_neq _ _)). Qed.

Lemma scan_int_value limit z rest :
  Z.abs z < int_limit → stops rest → scan_value limit (int_repr z ++ rest) = Ok (OInt z, rest).
Proof.
  intros Hz Hst. rewrite <-(scan_int_repr z rest) by done.
  destruct (int_repr_head z) as (c & r & -> & Hcase). rewrite <-app_comm_cons.
  assert (Hne : ∀ n, is_ascii_digit n = false → n ≠ 45 → c ≠ n).
  { intros n Hn H45 ->. destruct Hcase as [(-> & _)|]; congruence. }
  assert (Hinf : prefixb (u8 "-Infinity") (c :: r ++ rest) = false).
  { destruct Hcase as [(-> & _ & d & r' & -> & Hd)|Hd].
    - change (prefixb (u8 "Infinity") (d :: r' ++ rest) = false).
      apply (prefixb_head 73); [done|]. by intros <-.
    - apply (prefixb_head 45); [done|]. by intros <-. }
  destruct limit; cbn [scan_value];
    rewrite !(proj2 (Z.eqb_neq c _)), (prefixb_head 110 (u8 "null")), (prefixb_head 116 (u8 "true")),
      (prefixb_head 102 (u8 "false")), (prefixb_head 78 (u8 "NaN")), (prefixb_head 73 (u8 "Infinity")),
      Hinf by (done || by apply Hne || by apply not_eq_sym, Hne); done.
Qed.

Lemma scan_list_value limit l :
  Forall (λ o, ∀ limit, serializable o → (depth o <= limit)%nat → reads_back limit o) l →
  Forall serializable l → (depth (OList l) <= S limit)%nat → reads_back (S limit) (OList l).
Proof.
  intros IH Hl Hd s rest Hs Hst. rewrite dumps_list in Hs.
  apply bind_Some in Hs as (parts & Hp & [= <-]). apply mapM_Some in Hp.
  rewrite <-app_comm_cons, <-app_assoc. change ([93] ++ rest) with (93 :: rest).
  cbn [scan_value]. change (91 =? 34) with false. change (91 =? 123) with false.
  change (91 =? 91) with true. cbv iota.
  destruct l as [|o l]; [by apply Forall2_nil_inv_l in Hp as ->|].
  assert (Hjoin : (length (o :: l) <= length (join comma parts))%nat)
    by (eapply length_join_ge; [|exact Hp]; intros ??; apply dumps_nonempty).
  inversion Hp as [|? s ? parts' Ho Hp']; subst.
  rewrite skip_ws_parts by (by eapply dumps_no_ws).
  assert (∃ c r, join comma (s :: parts') = c :: r ∧ value_start c = true) as (c & r & Hcr & Hc).
  { destruct (dumps_start _ _ Ho) as (c & r & -> & Hc). destruct parts'; by eexists _, _. }
  rewrite Hcr in Hjoin |- *. rewrite <-app_comm_cons.
  destruct (value_start_not_close c Hc) as [Hc93 _]. rewrite (proj2 (Z.eqb_neq c 93)) by done.
  rewrite app_comm_cons, <-Hcr.
  rewrite (scan_elements_dump _ (o :: l)); [done| |done|done|rewrite length_app; simpl in *; lia].
  intros o' s' rest' Hin. rewrite Forall_forall in IH, Hl. apply IH; [done|by apply Hl|].
  assert (depth o' <= max_list (depth <$> (o :: l)))%nat; [|simpl in *; lia].
  apply max_list_elem. by apply list_elem_of_fmap_2.
Qed.

Lemma scan_dict_value limit d :
  Forall (λ p, ∀ limit, serializable (p.2) → (depth (p.2) <= limit)%nat → reads_back limit (p.2)) d →
  NoDup d.*1 → Forall (λ p, Forall scalar (p.1) ∧ serializable (p.2)) d →
  (depth (ODict d) <= S limit)%nat → reads_back (S limit) (ODict d).
Proof.
  intros IH Hnd Hl Hd s rest Hs Hst. rewrite dumps_dict in Hs.
  apply bind_Some in Hs as (parts & Hp & [= <-]). apply mapM_Some in Hp.
  rewrite <-app_comm_cons, <-app_assoc. change ([125] ++ rest) with (125 :: rest).
  cbn [scan_value]. change (123 =? 34) with false. change (123 =? 123) with true. cbv iota.
  destruct d as [|p d]; [by apply Forall2_nil_inv_l in Hp as ->|].
  assert (Hquote : ∀ p s, dump_member p = Some s → ∃ r, s = 34 :: r).
  { intros p' s' Hs'. unfold dump_member in Hs'. apply bind_Some in Hs' as (v & _ & Hs').
    apply (inj Some) in Hs' as <-. by eexists. }
  assert (Hjoin : (length (p :: d) <= length (join comma parts))%nat)
    by (eapply length_join_ge; [|exact Hp]; by intros ?? (r & ->)%Hquote).
  inversion Hp as [|? s ? parts' Ho Hp']; subst. destruct (Hquote _ _ Ho) as (r & ->).
  rewrite skip_ws_parts by (by eexists 34, _).
  assert (∃ r', join comma ((34 :: r) :: parts') = 34 :: r') as (r' & Hcr)
    by (destruct parts'; by eexists).
  rewrite Hcr in Hjoin |- *. rewrite <-app_comm_cons. change (34 =? 125) with false. cbv iota.
  rewrite app_comm_cons, <-Hcr.
  rewrite (scan_members_dump _ (p :: d)); [done| | |done|done|done|rewrite length_app; simpl in *; lia].
  - intros p' s' rest' Hin. rewrite Forall_forall in IH, Hl. apply IH; [done|by apply Hl|].
    assert (depth (p'.2) <= max_list ((λ p, depth (p.2)) <$> (p :: d)))%nat; [|simpl in *; lia].
    apply max_list_elem. by apply (list_elem_of_fmap_2 (λ p : pystr * pyobj, depth (p.2))).
  - eapply Forall_impl; [exact Hl|]. by intros ? [? _].
Qed.

Lemma scan_value_dump o limit :
  serializable o → (depth o <= limit)%nat → reads_back limit o.
Proof.
  revert limit. induction o as [|b|z|b|t|l IH|d IH] using pyobj_deep_ind; intros limit Ho Hd;
    inversion Ho as [| |? Hz|? Ht|? Hl|? Hnd Hl]; subst.
  - intros s rest Hs Hst. injection Hs as <-. by destruct limit.
  - intros s rest Hs Hst. by destruct b, limit; injection Hs as <-.
  - intros s rest Hs Hst. injection Hs as <-. by apply scan_int_value.
  - intros s rest Hs Hst. injection Hs as <-. unfold dump_string. rewrite <-app_comm_cons, <-app_assoc.
    change ([34] ++ rest) with (34 :: rest).
    destruct limit; cbn [scan_value]; change (34 =? 34) with true; cbv iota;
      by rewrite scan_dumped_string.
  - destruct limit as [|limit]; [simpl in Hd; lia|]. by apply scan_list_value.
  - destruct limit as [|limit]; [simpl in Hd; lia|]. by apply scan_dict_value.
Qed.

(** *** Dumped text is printable ASCII *)

Definition printable (c : Z) : Prop := 32 <= c <= 126.

Ltac solve_printable :=
  repeat first [apply Forall_nil_2 | apply Forall_cons_2]; try done; unfold printable; lia.

Lemma hex_char_printable n : 0 <= n < 16 → printable (hex_char n).
Proof. intros. unfold printable, hex_char. case_match; lia. Qed.

Lemma u_escape_printable n : Forall printable (u_escape n).
Proof.
  assert (∀ m, printable (hex_char (m mod 16)))
    by (intros m; apply hex_char_printable, Z.mod_pos_bound; lia).
  unfold u_escape. solve_printable.
Qed.

Lemma escape_char_printable c : Forall printable (escape_char c).
Proof.
  unfold escape_char.
  repeat match goal with
  | |- context [c =? ?n] =>
      destruct (c =? n); [solve_printable|]
  end.
  destruct ((32 <=? c) && (c <=? 126)) eqn:Hp.
  - apply andb_true_iff in Hp as [? ?]. constructor; [unfold printable; lia|constructor].
  - case_match; [|apply Forall_app; split]; apply u_escape_printable.
Qed.

Lemma dump_string_printable s : Forall printable (dump_string s).
Proof.
  unfold dump_string. constructor; [unfold printable; lia|]. apply Forall_app. split.
  - induction s as [|c s IH]; [constructor|]. rewrite fmap_cons. cbn [concat].
    apply Forall_app. split; [apply escape_char_printable|done].
  - constructor; [unfold printable; lia|constructor].
Qed.

Lemma int_repr_printable z : Forall printable (int_repr z).
Proof.
  destruct (int_digits_ok (Z.abs z)) as (ds & Heq & Hds & _); [lia|].
  assert (Forall printable ds).
  { eapply Forall_impl; [exact Hds|]. intros c Hc. unfold is_ascii_digit in Hc.
    apply andb_true_iff in Hc as [? ?]. unfold printable. lia. }
  unfold int_repr. rewrite Heq. case_match; [|done]. constructor; [unfold printable; lia|done].
Qed.

Lemma join_printable parts : Forall (Forall printable) parts → Forall printable (join comma parts).
Proof.
  induction 1 as [|p parts Hp Hparts IH]; [constructor|].
  destruct parts as [|q parts]; [done|].
  change (join comma (p :: q :: parts)) with (p ++ comma ++ join comma (q :: parts)).
  rewrite !Forall_app. split_and!; [done| |done].
  solve_printable.
Qed.

Lemma json_dumps_printable o s : json_dumps o = Some s → Forall printable s.
Proof.
  assert (Hlit : ∀ s, forallb (λ c, (32 <=? c) && (c <=? 126)) s = true → Forall printable s).
  { intros t Ht. rewrite forallb_forall in Ht. apply Forall_forall. intros c Hc%list_elem_of_In.
    apply Ht, andb_true_iff in Hc as [? ?]. unfold printable. lia. }
  assert (Hwrap : ∀ a b l, printable a → printable b → Forall printable l → Forall printable (a :: l ++ [b])).
  { intros a b l Ha Hb Hl. constructor; [done|]. apply Forall_app. split; [done|]. by constructor. }
  revert s. induction o as [|[]|z|b|t|l IH|d IH] using pyobj_deep_ind; intros s Hs.
  - injection Hs as <-. by apply Hlit.
  - injection Hs as <-. by apply Hlit.
  - injection Hs as <-. by apply Hlit.
  - injection Hs as <-. apply int_repr_printable.
  - done.
  - injection Hs as <-. apply dump_string_printable.
  - rewrite dumps_list in Hs. apply bind_Some in Hs as (parts & Hp & [= <-]).
    apply Hwrap; [unfold printable; lia..|]. apply join_printable. apply mapM_Some in Hp.
    induction Hp as [|o p l parts Ho Hp IH']; [constructor|]. apply Forall_cons in IH as [IH1 IH2].
    constructor; [by apply IH1|by apply IH'].
  - rewrite dumps_dict in Hs. apply bind_Some in Hs as (parts & Hp & [= <-]).
    apply Hwrap; [unfold printable; lia..|]. apply join_printable. apply mapM_Some in Hp.
    induction Hp as [|o p d parts Ho Hp IH']; [constructor|]. apply Forall_cons in IH as [IH1 IH2].
    constructor; [|by apply IH'].
    unfold dump_member in Ho. apply bind_Some in Ho as (v & Hv & Ho). apply (inj Some) in Ho as <-.
    rewrite !Forall_app. split_and!; [apply dump_string_printable|by apply Hlit|by apply IH1].
Qed.

(** So encoding it to UTF-8 succeeds. *)
Lemma json_dumps_encodes o s : json_dumps o = Some s → is_ok (utf8_encode s) = true.
Proof.
  intros Hs%json_dumps_printable. rewrite utf8_encode_ok. apply forallb_forall.
  intros c Hc%list_elem_of_In. rewrite Forall_forall in Hs. specialize (Hs c Hc).
  unfold printable, is_surrogate in *. apply negb_true_iff, andb_false_iff.
  rewrite !Z.leb_gt. lia.
Qed.

Lemma json_reads_back (o : pyobj) (limit : nat) :
  serializable o → (depth o <= limit)%nat →
  ∃ s, json_dumps o = Some s ∧ json_loads limit s = Ok o.
Proof.
  intros Ho Hd. destruct (dumps_total o Ho) as (s & Hs). exists s. split; [done|].
  pose proof (scan_value_dump o limit Ho Hd s [] Hs I) as Hread. rewrite app_nil_r in Hread.
  destruct (dumps_start o s Hs) as (c & r & -> & Hc). unfold json_loads.
  rewrite value_start_not_ws, Hread by done.
  assert (prefixb [65279] (c :: r) = false) as ->; [|done].
  apply (prefixb_head 65279); [done|]. by intros <-.
Qed.

Lemma json_dumps_utf8 o s :
  json_dumps o = Some s → ∃ bs, utf8_encode s = Ok bs ∧ utf8_decode bs = Ok s.
Proof.
  intros Hs. pose proof (json_dumps_encodes o s Hs) as He.
  destruct (utf8_encode s) as [bs|] eqn:Hb; [|done]. exists bs. split; [done|].
  apply utf8_roundtrip; [|done]. apply forallb_forall. intros c Hc%list_elem_of_In.
  apply json_dumps_printable in Hs. rewrite Forall_forall in Hs. specialize (Hs c Hc).
  unfold printable, is_code_point in *. apply andb_true_iff. rewrite !Z.leb_le. lia.
Qed.

(** JSON round trip: a serializable value is dumped without an exception
    and [json.loads] of the text is the value itself, keys in order. *)
Theorem json_roundtrip (o : pyobj) (limit : nat) :
  serializable o → (depth o <= limit)%nat →
  ∃ s, json_dumps o = Some s ∧ json_loads limit s = Ok o.
Proof. apply json_reads_back. Qed.

(** ** Witness *)

Definition sample_object : pyobj :=
  ODict [(u8 "текст 😀", OList [OStr (u8 "line"); OInt (-1050); ONone; OBool true]);
         (u8 "empty", ODict [])].

Lemma sample_serializable : serializable sample_object.
Proof.
  assert (Hs : ∀ s, forallb (λ c, is_code_point c && negb (is_surrogate c)) s = true → Forall scalar s).
  { intros s Hs. rewrite forallb_forall in Hs. apply Forall_forall. intros c Hc%list_elem_of_In.
    apply Hs in Hc. apply andb_true_iff in Hc as [? ?%negb_true_iff]. done. }
  constructor.
  - apply (bool_decide_eq_true_1 _). vm_compute. reflexivity.
  - repeat constructor; simpl; try (apply Hs; vm_compute; reflexivity); done.
Qed.

Lemma json_roundtrip_witness :
  ∃ s, json_dumps sample_object = Some s ∧ json_loads 2 s = Ok sample_object.
Proof. apply (json_roundtrip sample_object 2); [exact sample_serializable|]. vm_compute. lia. Defined.
