(* ===== verification/Format.v ===== *)
(** * Numbers in reports (Python's format specifications)

    What [f"{x:.2f}"], [f"{x:.0%}"], [f"{x:g}"], [f"{s:<22}"] and
    [f"{s:>4}"] print.  A float is the exact rational it stands for, so the
    printed digits are those of the exact value rounded to the nearest, ties
    to even, as Python prints them.  [fixed_close]: what is printed reads back
    as a number within half a unit of its last digit. *)

From Stdlib Require Import QArith.Qround QArith.Qabs Lqa.
From S2P Require Import Prelude Domain PyStr Utf8 Json.

(** The integer nearest to [a / b]; of two, the even one. *)
Definition round_half_even (a b : Z) : Z :=
  let d := a / b in
  let r := 2 * (a mod b) in
  if r <? b then d else if b <? r then d + 1 else if Z.even d then d else d + 1.

Definition zero_pad (n : nat) (ds : pystr) : pystr := replicate (n - length ds) 48 ++ ds.

(** [f"{q:.nf}"]; the sign of a negative number stays when it is rounded to
    zero. *)
Definition fixed (n : nat) (q : Q) : pystr :=
  let unit := 10 ^ Z.of_nat n in
  let m := round_half_even (Z.abs (Qnum q) * unit) (Z.pos (Qden q)) in
  (if Qnum q <? 0 then [45] else [])
  ++ int_repr (m / unit)
  ++ match n with O => [] | S _ => 46 :: zero_pad n (int_repr (m mod unit)) end.

(** [f"{q:.0%}"]. *)
Definition percent (q : Q) : pystr := fixed 0 (q * 100) ++ [37].

(** [f"{s:>w}"], [f"{s:<w}"]. *)
Definition pad_left (w : nat) (s : pystr) : pystr := replicate (w - length s) 32 ++ s.
Definition pad_right (w : nat) (s : pystr) : pystr := s ++ replicate (w - length s) 32.

(** The exponent [e] of [10^e <= a / b < 10^(e + 1)]. *)
Definition decimal_exponent (a b : Z) : Z :=
  let e := slen (int_repr a) - slen (int_repr b) in
  if b * 10 ^ Z.max e 0 <=? a * 10 ^ Z.max (- e) 0 then e else e - 1.

Definition rstrip_zeros (s : pystr) : pystr := rstrip_char 48 s.
Definition with_fraction (whole fraction : pystr) : pystr :=
  match rstrip_zeros fraction with [] => whole | fraction => whole ++ 46 :: fraction end.

(** [f"{q:g}"]: six significant digits, without trailing zeros. *)
Definition general (q : Q) : pystr :=
  let a := Z.abs (Qnum q) in
  let b := Z.pos (Qden q) in
  if a =? 0 then [48]
  else
    let e := decimal_exponent a b in
    let m := round_half_even (a * 10 ^ Z.max (5 - e) 0) (b * 10 ^ Z.max (e - 5) 0) in
    let '(m, e) := if m =? 10 ^ 6 then (10 ^ 5, e + 1) else (m, e) in
    let ds := int_repr m in
    (if Qnum q <? 0 then [45] else [])
    ++ if (-4 <=? e) && (e <? 6) then
         if 0 <=? e then with_fraction (take (Z.to_nat (e + 1)) ds) (drop (Z.to_nat (e + 1)) ds)
         else with_fraction [48] (replicate (Z.to_nat (- e - 1)) 48 ++ ds)
       else
         with_fraction (take 1 ds) (drop 1 ds)
         ++ 101 :: (if e <? 0 then 45 else 43) :: zero_pad 2 (int_repr (Z.abs e)).

(** The number a fixed-point text spells. *)
Definition fixed_value (s : pystr) : Q :=
  let '(neg, s) := match s with 45 :: s => (true, s) | _ => (false, s) end in
  let '(whole, _, fraction) := partition s [46] in
  let v := (inject_Z (ascii_number (whole ++ fraction)) / inject_Z (10 ^ slen fraction))%Q in
  if neg then (- v)%Q else v.

Example fixed_example :
  (fixed 2 (1 # 8), fixed 1 (- (1 # 100)), fixed 0 (5 # 2), percent (1 # 100), fixed 3 (2 # 3))
  = (u8 "0.12", u8 "-0.0", u8 "2", u8 "1%", u8 "0.667").
Proof. vm_compute. reflexivity. Qed.

Example general_example :
  (general 330, general (1000001 # 10), general (1234567 # 1), general (1 # 100000), general (999999995 # 1000))
  = (u8 "330", u8 "100000", u8 "1.23457e+06", u8 "1e-05", u8 "1e+06").
Proof. vm_compute. reflexivity. Qed.

(** ** Rounding *)

Lemma round_half_even_close a b : 0 < b → - b <= 2 * (round_half_even a b * b - a) <= b.
Proof.
  intros Hb. unfold round_half_even. pose proof (Z.mod_pos_bound a b Hb). pose proof (Z.div_mod a b ltac:(lia)).
  repeat case_match; nia.
Qed.

Lemma round_half_even_nonneg a b : 0 <= a → 0 < b → 0 <= round_half_even a b.
Proof.
  intros Ha Hb. unfold round_half_even. pose proof (Z.div_pos a b Ha Hb). repeat case_match; lia.
Qed.

(** ** Digits *)

Lemma int_repr_nonneg z : 0 <= z → digits_ok z (int_repr z).
Proof.
  intros Hz. unfold int_repr. rewrite Z.abs_eq, (proj2 (Z.ltb_ge z 0)) by done.
  destruct (int_digits_ok z Hz) as (ds & Hds & Hok). by rewrite Hds.
Qed.

Lemma ascii_number_app a b : ascii_number (a ++ b) = ascii_number a * 10 ^ slen b + ascii_number b.
Proof.
  unfold ascii_number. rewrite fold_left_app. generalize (fold_left (λ z c, z * 10 + (c - 48)) a 0).
  induction b as [|c b IH] using rev_ind; intros n; [change (10 ^ slen []) with 1; cbn [fold_left]; lia|].
  rewrite !fold_left_app, slen_app, IH. cbn [fold_left].
  rewrite Z.pow_add_r by (unfold slen; simpl; lia). change (10 ^ slen [c]) with 10. ring.
Qed.

Lemma ascii_number_zeros n : ascii_number (replicate n 48) = 0.
Proof.
  induction n as [|n IH]; [done|]. change (replicate (S n) 48) with ([48] ++ replicate n 48).
  by rewrite ascii_number_app, IH.
Qed.

Lemma ascii_number_zero_pad n ds : ascii_number (zero_pad n ds) = ascii_number ds.
Proof. unfold zero_pad. by rewrite ascii_number_app, ascii_number_zeros. Qed.

Lemma digits_length n ds (w : nat) : digits_ok n ds → n < 10 ^ Z.of_nat w → (0 < w)%nat → (length ds ≤ w)%nat.
Proof.
  intros (_ & _ & [[_ ->]|(Hn & _ & Hne & Hle)]) Hlt Hw; [simpl; lia|].
  destruct (decide (length ds ≤ w)%nat) as [|Hlong]; [done|]. exfalso. apply (Z.lt_irrefl n).
  eapply Z.lt_le_trans; [exact Hlt|]. etrans; [|exact Hle]. apply Z.pow_le_mono_r; [done|]. unfold slen. lia.
Qed.

Lemma zero_pad_length n ds : (length ds ≤ n)%nat → length (zero_pad n ds) = n.
Proof. intros Hl. unfold zero_pad. rewrite length_app, length_replicate. lia. Qed.

Definition is_numeral (c : Z) : bool := is_ascii_digit c || (c =? 45) || (c =? 46).

Lemma numeral_digit c : is_ascii_digit c = true → is_numeral c = true.
Proof. unfold is_numeral. by intros ->. Qed.

Lemma int_repr_digits z : 0 <= z → Forall (λ c, is_ascii_digit c = true) (int_repr z).
Proof. intros Hz. by destruct (int_repr_nonneg z Hz). Qed.

Lemma zero_pad_digits n ds : Forall (λ c, is_ascii_digit c = true) ds → Forall (λ c, is_ascii_digit c = true) (zero_pad n ds).
Proof. intros Hds. apply Forall_app. split; [by apply Forall_replicate|done]. Qed.

Lemma no_dot ds : Forall (λ c, is_ascii_digit c = true) ds → 46 ∉ ds.
Proof. intros Hds Hin. rewrite Forall_forall in Hds. by specialize (Hds _ Hin). Qed.

Lemma int_repr_numerals z : Forall (λ c, is_numeral c = true) (int_repr z).
Proof.
  destruct (int_digits_ok (Z.abs z)) as (ds & Heq & Hds & _); [lia|]. unfold int_repr. rewrite Heq.
  assert (Forall (λ c, is_numeral c = true) ds) by (eapply Forall_impl; [exact Hds|apply numeral_digit]).
  case_match; [|done]. by constructor.
Qed.

(** Only digits, the sign and the point are printed. *)
Lemma fixed_numerals n q : Forall (λ c, is_numeral c = true) (fixed n q).
Proof.
  unfold fixed. apply Forall_app. split; [case_match; by repeat constructor|].
  apply Forall_app. split; [apply int_repr_numerals|]. destruct n as [|n]; [done|].
  constructor; [done|]. eapply Forall_impl; [|apply numeral_digit].
  apply zero_pad_digits, int_repr_digits. apply Z.mod_pos_bound. lia.
Qed.

(** ** Reading back *)

Lemma fixed_value_digits neg whole fraction :
  whole ≠ [] → Forall (λ c, is_ascii_digit c = true) whole → Forall (λ c, is_ascii_digit c = true) fraction →
  let v := (inject_Z (ascii_number (whole ++ fraction)) / inject_Z (10 ^ slen fraction))%Q in
  fixed_value ((if neg : bool then [45] else []) ++ whole ++ (if decide (fraction = []) then [] else 46 :: fraction))
  = if neg then (- v)%Q else v.
Proof.
  intros Hne Hw Hf. cbv zeta. unfold fixed_value.
  assert (Hp : partition (whole ++ (if decide (fraction = []) then [] else 46 :: fraction)) [46] =
    (whole, (if decide (fraction = []) then [] else [46]), fraction)).
  { destruct (decide (fraction = [])) as [->|].
    - rewrite app_nil_r. by apply partition_absent, no_dot.
    - change (46 :: fraction) with ([46] ++ fraction). by apply partition_at, no_dot. }
  destruct neg; cbn [app].
  - by rewrite Hp.
  - destruct whole as [|c whole]; [done|]. apply Forall_cons in Hw as [Hc Hw].
    cbn [app] in *. assert (Hc45 : c ≠ 45) by by intros ->.
    destruct c as [|p|p]; try (by rewrite Hp).
    do 6 (destruct p as [p|p|]; try (by rewrite Hp); try done).
Qed.

(** What a fixed-point text spells: the rounded number of units. *)
Lemma fixed_value_fixed n q :
  let unit := 10 ^ Z.of_nat n in
  let m := round_half_even (Z.abs (Qnum q) * unit) (Z.pos (Qden q)) in
  fixed_value (fixed n q) =
    if Qnum q <? 0 then (- (inject_Z m / inject_Z unit))%Q else (inject_Z m / inject_Z unit)%Q.
Proof.
  cbv zeta. set (unit := 10 ^ Z.of_nat n). set (m := round_half_even _ _).
  assert (Hu : 0 < unit) by (unfold unit; lia).
  assert (Hm : 0 <= m) by (apply round_half_even_nonneg; lia).
  pose proof (Z.div_pos m unit Hm Hu) as Hd. pose proof (Z.mod_pos_bound m unit Hu) as Hr.
  pose proof (int_repr_nonneg _ Hd) as (Hw & Hwn & Hwc).
  assert (Hne : int_repr (m / unit) ≠ []) by (destruct Hwc as [[_ ->]|(_ & _ & ? & _)]; done).
  set (fraction := match n with O => [] | S _ => zero_pad n (int_repr (m mod unit)) end).
  assert (Hf : Forall (λ c, is_ascii_digit c = true) fraction)
    by (unfold fraction; destruct n; [constructor|apply zero_pad_digits, int_repr_digits; lia]).
  assert (Hlen : length fraction = n).
  { unfold fraction. destruct n as [|n']; [done|]. apply zero_pad_length.
    apply (digits_length (m mod unit)); [apply int_repr_nonneg; lia|exact (proj2 Hr)|lia]. }
  assert (Hnum : ascii_number (int_repr (m / unit) ++ fraction) = m).
  { rewrite ascii_number_app, Hwn. unfold slen. rewrite Hlen. fold unit.
    assert (ascii_number fraction = m mod unit) as ->; [|pose proof (Z.div_mod m unit); lia].
    unfold fraction. destruct n as [|n']; [unfold unit in *; cbn in *; by rewrite Z.mod_1_r|].
    rewrite ascii_number_zero_pad. by destruct (int_repr_nonneg (m mod unit) (proj1 Hr)) as (_ & -> & _). }
  pose proof (fixed_value_digits (Qnum q <? 0) _ fraction Hne Hw Hf) as Hv. cbv zeta in Hv.
  rewrite Hnum in Hv. unfold slen in Hv. rewrite Hlen in Hv. fold unit in Hv. rewrite <-Hv. f_equal.
  unfold fixed. fold unit. fold m. f_equal. f_equal. unfold fraction.
  destruct n as [|n']; [done|]. rewrite decide_False; [done|]. intros Hnil. unfold fraction in Hlen. by rewrite Hnil in Hlen.
Qed.

Lemma inject_Z_pos z : 0 < z → (0 < inject_Z z)%Q.
Proof. intros Hz. unfold Qlt. cbn. lia. Qed.

(** The printed number is within half a unit of its last digit. *)
Lemma fixed_close n q : (2 * Qabs (fixed_value (fixed n q) - q) * inject_Z (10 ^ Z.of_nat n) <= 1)%Q.
Proof.
  rewrite fixed_value_fixed. set (unit := 10 ^ Z.of_nat n). set (m := round_half_even _ _).
  assert (Hu : 0 < unit) by (unfold unit; lia).
  destruct q as [a b]. cbn [Qnum Qden] in *.
  pose proof (round_half_even_close (Z.abs a * unit) (Z.pos b) eq_refl) as Hm. fold m in Hm.
  set (x := (inject_Z m / inject_Z unit - (Z.abs a # b))%Q).
  assert (Habs : (Qabs ((if a <? 0 then - (inject_Z m / inject_Z unit) else inject_Z m / inject_Z unit) - (a # b))
      == Qabs x)%Q).
  { unfold x. destruct (Z.ltb_spec a 0).
    - rewrite <-Qabs_opp. apply Qabs_wd. rewrite (Z.abs_neq a) by lia.
      change (- a # b)%Q with (- (a # b))%Q. ring.
    - by rewrite (Z.abs_eq a). }
  rewrite Habs. clear Habs.
  pose proof (inject_Z_pos unit Hu) as Hup. pose proof (inject_Z_pos (Z.pos b) eq_refl) as Hbp.
  assert (Hscale : (x * inject_Z unit * inject_Z (Z.pos b) == inject_Z (m * Z.pos b - Z.abs a * unit))%Q).
  { unfold x. unfold Z.sub. rewrite (Qmake_Qdiv (Z.abs a) b), inject_Z_plus, inject_Z_opp, !inject_Z_mult.
    field. split; lra. }
  assert (Hlo : (- inject_Z (Z.pos b) <= 2 * (x * inject_Z unit * inject_Z (Z.pos b)) <= inject_Z (Z.pos b))%Q).
  { rewrite Hscale. change 2%Q with (inject_Z 2). rewrite <-inject_Z_mult, <-inject_Z_opp, <-!Zle_Qle. lia. }
  apply (Qmult_le_r _ _ _ Hbp). apply Qabs_case; intros _; nra.
Qed.
