(* ===== verification/RateLimit.v ===== *)
(** * Rate limiting ([app/core/ratelimit.py])

    [SlidingWindowRateLimiter]: the accepted request times of each key in a
    deque.  Times are exact numbers of clock ticks (the rounding of Python's
    floats is not modelled); the clock is read before the lock is taken, so
    [allow] takes the reading as an argument and a run is the list of readings
    in lock order. *)

From S2P Require Import Prelude PyStr.

Record SlidingWindowRateLimiter := mkLimiter {
  max_requests : Z;
  window_seconds : Z;
  hits : gmap pystr (list Z)
}.

(** [while window and now - window\[0\] >= self._window_seconds: popleft()]. *)
Fixpoint expire (window_size now : Z) (window : list Z) : list Z :=
  match window with
  | [] => []
  | t :: rest => if window_size <=? now - t then expire window_size now rest else window
  end.

Definition with_hits (h : gmap pystr (list Z)) (l : SlidingWindowRateLimiter) :=
  mkLimiter (max_requests l) (window_seconds l) h.

Definition allow (key : pystr) (now : Z) (l : SlidingWindowRateLimiter)
    : bool * SlidingWindowRateLimiter :=
  let window := default [] (hits l !! key) in
  let window := expire (window_seconds l) now window in
  if max_requests l <=? slen window
  then (false, with_hits (<[key := window]> (hits l)) l)
  else (true, with_hits (<[key := window ++ [now]]> (hits l)) l).

(** A run: requests in the order they take the lock. *)
Fixpoint run (l : SlidingWindowRateLimiter) (reqs : list (pystr * Z))
    : list bool * SlidingWindowRateLimiter :=
  match reqs with
  | [] => ([], l)
  | (key, now) :: reqs =>
      let '(ok, l) := allow key now l in
      let '(oks, l) := run l reqs in
      (ok :: oks, l)
  end.

Definition new_limiter (max window : Z) : SlidingWindowRateLimiter := mkLimiter max window ∅.

(** ** Specification: count the accepted requests of the key in the window *)

Section Spec.
Context (max window : Z).

(** The accepted requests of [key] less than a window old at [now]. *)
Definition recent (accepted : list (pystr * Z)) (key : pystr) (now : Z) : list (pystr * Z) :=
  filter (λ p, p.1 = key ∧ now - p.2 < window) accepted.

Fixpoint spec_run (accepted reqs : list (pystr * Z)) : list bool :=
  match reqs with
  | [] => []
  | (key, now) :: reqs =>
      let ok := slen (recent accepted key now) <? max in
      ok :: spec_run (if ok then accepted ++ [(key, now)] else accepted) reqs
  end.

(** The requests a run accepted. *)
Definition accepted_of (reqs : list (pystr * Z)) (oks : list bool) : list (pystr * Z) :=
  (filter (λ p, p.2 = true) (zip reqs oks)).*1.

Definition in_order (reqs : list (pystr * Z)) : Prop := StronglySorted (λ p q, p.2 <= q.2) reqs.

(** The deques hold, for each key, the accepted times that some past reading
    did not expire. *)
Definition represents (accepted : list (pystr * Z)) (bound : Z) (h : gmap pystr (list Z)) : Prop :=
  (∀ p, p ∈ accepted → p.2 <= bound) ∧
  ∀ key, StronglySorted Z.le (default [] (h !! key)) ∧
    ∃ old, (filter (λ p, p.1 = key) accepted).*2 = old ++ default [] (h !! key) ∧
           Forall (λ t, window <= bound - t) old.

Lemma filter_nested key now accepted :
  (recent accepted key now).*2 = filter (λ t, now - t < window) (filter (λ p, p.1 = key) accepted).*2.
Proof.
  unfold recent. induction accepted as [|[k t] l IH]; [done|].
  rewrite !filter_cons. simpl. destruct (decide (k = key)) as [->|Hk].
  - destruct (decide (now - t < window)).
    + rewrite decide_True by done. rewrite !fmap_cons, filter_cons_True by done. simpl. by f_equal.
    + rewrite decide_False by naive_solver. rewrite fmap_cons, filter_cons_False by done. done.
  - by rewrite decide_False by naive_solver.
Qed.

Lemma filter_none now l : Forall (λ t, window <= now - t) l → filter (λ t, now - t < window) l = [].
Proof.
  induction 1 as [|t l Ht Hl IH]; [done|]. rewrite filter_cons_False by lia. done.
Qed.

(** Expiry drops exactly the times a window old. *)
Lemma expire_spec now l :
  StronglySorted Z.le l →
  ∃ old, l = old ++ expire window now l ∧ Forall (λ t, window <= now - t) old ∧
         Forall (λ t, now - t < window) (expire window now l) ∧ StronglySorted Z.le (expire window now l).
Proof.
  induction 1 as [|t l Hl IH Ht]; [by exists []; split_and!; constructor|]. cbn [expire].
  destruct (Z.leb_spec window (now - t)).
  - destruct IH as (old & Heq & Hold & Hnew & Hs). exists (t :: old).
    split_and!; [exact (f_equal (cons t) Heq)|by constructor|done|done].
  - exists []. split_and!; [done|constructor| |by constructor].
    constructor; [lia|]. eapply Forall_impl; [exact Ht|]. simpl. lia.
Qed.

Lemma slen_fmap {A B} (f : A → B) l : slen (f <$> l) = slen l.
Proof. unfold slen. by rewrite length_fmap. Qed.

Lemma represents_recent accepted bound h key now :
  represents accepted bound h → bound <= now →
  slen (recent accepted key now) = slen (expire window now (default [] (h !! key))).
Proof.
  intros [_ Hr] Hb. destruct (Hr key) as (Hs & old & Heq & Hold).
  destruct (expire_spec now _ Hs) as (old' & Heq' & Hold' & Hnew & _).
  rewrite <-(slen_fmap snd), filter_nested, Heq, Heq', app_assoc, filter_app.
  rewrite filter_none, filter_keeps by done || (apply Forall_app; split; [|done];
    eapply Forall_impl; [exact Hold|]; simpl; lia).
  rewrite <-Heq'. done.
Qed.

(** The entry of the requested key after a call, accepted or not. *)
Lemma represents_step accepted bound h key now (ok : bool) :
  represents accepted bound h → bound <= now →
  represents (if ok then accepted ++ [(key, now)] else accepted) now
    (<[key := expire window now (default [] (h !! key)) ++ (if ok then [now] else [])]> h).
Proof.
  intros [Hb Hr] Hn. split.
  { intros p Hp. destruct ok; [apply elem_of_app in Hp as [Hp|Hp]|].
    - specialize (Hb p Hp). lia.
    - apply list_elem_of_singleton in Hp as ->. simpl. lia.
    - specialize (Hb p Hp). lia. }
  intros k. destruct (Hr k) as (Hs & old & Heq & Hold).
  assert (Hold' : Forall (λ t, window <= now - t) old)
    by (eapply Forall_impl; [exact Hold|]; simpl; lia).
  destruct (decide (k = key)) as [->|Hk].
  - rewrite lookup_insert_eq. cbn [default].
    destruct (expire_spec now _ Hs) as (gone & Hgone & Hg & Hnew & Hs').
    split.
    + destruct ok; [|by rewrite app_nil_r]. apply StronglySorted_snoc. split; [done|].
      assert (Hle : Forall (λ t, t <= bound) (default [] (h !! key))).
      { apply Forall_forall. intros t Ht.
        assert (t ∈ (filter (λ p, p.1 = key) accepted).*2) as Hin by (rewrite Heq; set_solver).
        apply list_elem_of_fmap in Hin as (p & -> & [_ Hp]%list_elem_of_filter). by apply Hb. }
      rewrite Hgone in Hle. apply Forall_app in Hle as [_ Hle].
      eapply Forall_impl; [exact Hle|]. simpl. lia.
    + exists (old ++ gone). split; [|by apply Forall_app].
      assert (Hf : (filter (λ p, p.1 = key) (if ok then accepted ++ [(key, now)] else accepted)).*2 =
        (old ++ default [] (h !! key)) ++ (if ok then [now] else [])).
      { rewrite <-Heq. destruct ok; [|by rewrite app_nil_r].
        by rewrite filter_app, filter_cons_True, filter_nil, fmap_app. }
      rewrite Hf. clear Hf. cbn [from_option]. set (e := expire _ _ _) in *.
      rewrite Hgone. unfold id. by rewrite !app_assoc.
  - rewrite lookup_insert_ne by done. split; [done|]. exists old. split; [|done].
    destruct ok; [|done]. rewrite filter_app, filter_cons_False, filter_nil, app_nil_r by (simpl; congruence).
    done.
Qed.

Lemma run_spec l accepted bound reqs :
  max_requests l = max → window_seconds l = window →
  represents accepted bound (hits l) → in_order reqs → (∀ p, p ∈ reqs → bound <= p.2) →
  (run l reqs).1 = spec_run accepted reqs.
Proof.
  revert l accepted bound. induction reqs as [|[key now] reqs IH]; intros l accepted bound Hm Hw Hr Hs Hb;
    [done|]. inversion_clear Hs as [|?? Hs' Hnow].
  cbn [run spec_run]. assert (Hbn : bound <= now) by (apply (Hb (key, now)); set_solver).
  rewrite (represents_recent _ _ _ _ _ Hr Hbn).
  pose proof (represents_step _ _ _ key now (slen (expire window now (default [] (hits l !! key))) <? max)
    Hr Hbn) as Hstep.
  unfold allow. rewrite Hm, Hw in *.
  destruct (Z.leb_spec max (slen (expire window now (default [] (hits l !! key))))) as [Hle|Hlt].
  - rewrite (proj2 (Z.ltb_ge _ _)) in Hstep |- * by done. cbv zeta in *. rewrite app_nil_r in Hstep.
    specialize (IH (with_hits (<[key:=expire window now (default [] (hits l !! key))]> (hits l)) l)
      accepted now Hm Hw Hstep Hs').
    destruct (run _ reqs) as [oks l'] eqn:Hrun. simpl in *. f_equal. apply IH.
    rewrite Forall_forall in Hnow. intros p Hp. by apply (Hnow p).
  - rewrite (proj2 (Z.ltb_lt _ _)) in Hstep |- * by done. cbv zeta in *.
    specialize (IH (with_hits (<[key:=expire window now (default [] (hits l !! key)) ++ [now]]> (hits l)) l)
      (accepted ++ [(key, now)]) now Hm Hw Hstep Hs').
    destruct (run _ reqs) as [oks l'] eqn:Hrun. simpl in *. f_equal. apply IH.
    rewrite Forall_forall in Hnow. intros p Hp. by apply (Hnow p).
Qed.
End Spec.

(** ** Properties *)

Lemma run_new_spec max window reqs :
  in_order reqs → (run (new_limiter max window) reqs).1 = spec_run max window [] reqs.
Proof.
  intros Hs. destruct reqs as [|[key now] reqs]; [done|].
  apply (run_spec max window _ [] now); [done|done| |done|].
  - split; [set_solver|]. intros k. simpl. rewrite lookup_empty. simpl.
    split; [constructor|]. by exists [].
  - inversion_clear Hs as [|?? Hs' Hn]. rewrite Forall_forall in Hn.
    intros p [-> | Hp]%elem_of_cons; [done|]. by apply (Hn p).
Qed.

(** C25: the deques are exact: when requests take the lock in clock order, a
    request is allowed exactly when fewer than [max_requests] requests of its
    key were allowed less than a window earlier; keys do not influence each
    other. *)
Theorem rate_limit_exact (max window : Z) (reqs : list (pystr * Z)) :
  in_order reqs → (run (new_limiter max window) reqs).1 = spec_run max window [] reqs.
Proof. apply run_new_spec. Qed.

(** The accepted requests, in order. *)
Fixpoint spec_accepted (max window : Z) (accepted reqs : list (pystr * Z)) : list (pystr * Z) :=
  match reqs with
  | [] => accepted
  | (key, now) :: reqs =>
      if slen (recent window accepted key now) <? max
      then spec_accepted max window (accepted ++ [(key, now)]) reqs
      else spec_accepted max window accepted reqs
  end.

Definition in_window (window : Z) (key : pystr) (from : Z) (l : list (pystr * Z)) : list (pystr * Z) :=
  filter (λ p, p.1 = key ∧ from <= p.2 < from + window) l.

Lemma in_window_recent window key from now accepted :
  (∀ p, p ∈ accepted → p.2 <= now) → now < from + window →
  slen (in_window window key from accepted) <= slen (recent window accepted key now).
Proof.
  intros Hle Hn. unfold in_window, recent, slen. apply inj_le.
  induction accepted as [|[k t] l IH]; [done|]. rewrite !filter_cons. simpl.
  assert (Hl : ∀ p, p ∈ l → p.2 <= now) by (intros; apply Hle; set_solver). specialize (IH Hl).
  destruct (decide (k = key ∧ from <= t < from + window)) as [[-> ?]|].
  - rewrite decide_True by (split; [done|lia]). simpl. lia.
  - case_decide; simpl; lia.
Qed.

Lemma spec_accepted_bounded max window accepted reqs key from :
  0 <= max → in_order reqs → (∀ p q, p ∈ accepted → q ∈ reqs → p.2 <= q.2) →
  slen (in_window window key from accepted) <= max →
  slen (in_window window key from (spec_accepted max window accepted reqs)) <= max.
Proof.
  intros Hmax. revert accepted. induction reqs as [|[k now] reqs IH]; intros accepted Hs Hle Hin; [done|].
  inversion_clear Hs as [|?? Hs' Hnow]. cbn [spec_accepted]. rewrite Forall_forall in Hnow.
  destruct (Z.ltb_spec (slen (recent window accepted k now)) max) as [Hlt|Hge].
  - apply IH; [done| |].
    + intros p q Hp Hq. apply elem_of_app in Hp as [Hp| ->%list_elem_of_singleton].
      * apply Hle; [done|set_solver].
      * by apply (Hnow q).
    + unfold in_window in *. rewrite filter_app, slen_app, filter_cons, filter_nil. simpl.
      case_decide as Hc; [|unfold slen in *; simpl; lia]. destruct Hc as [-> Hc].
      pose proof (in_window_recent window key from now accepted) as Hr. unfold in_window in Hr.
      replace (slen [(key, now)]) with 1 by done.
      assert (∀ p, p ∈ accepted → p.2 <= now) as Hp by (intros; apply (Hle _ (key, now)); set_solver).
      specialize (Hr Hp). lia.
  - apply IH; [done| |done]. intros p q Hp Hq. apply Hle; [done|set_solver].
Qed.

Lemma accepted_spec max window accepted reqs :
  spec_accepted max window accepted reqs =
    accepted ++ accepted_of reqs (spec_run max window accepted reqs).
Proof.
  revert accepted. induction reqs as [|[k now] reqs IH]; intros accepted.
  - by rewrite app_nil_r.
  - cbn [spec_accepted spec_run]. unfold accepted_of. cbn [zip zip_with].
    destruct (_ <? max).
    + rewrite IH, filter_cons_True, fmap_cons, <-app_assoc by done. done.
    + rewrite IH, filter_cons_False by done. done.
Qed.

(** C26: the limit is a limit: of the requests a run allows, at most
    [max_requests] of one key fall in any half-open interval one window
    long. *)
Theorem rate_limit_bound (max window : Z) (reqs : list (pystr * Z)) (key : pystr) (from : Z) :
  0 <= max → in_order reqs →
  slen (in_window window key from
          (accepted_of reqs (run (new_limiter max window) reqs).1)) <= max.
Proof.
  intros Hmax Hs. rewrite run_new_spec by done.
  rewrite <-(app_nil_l (accepted_of _ _)), <-accepted_spec.
  apply spec_accepted_bounded; [done|done|set_solver|done].
Qed.

(** ** Witnesses *)

Definition burst : list (pystr * Z) :=
  [(u8 "a", 0); (u8 "a", 3); (u8 "b", 4); (u8 "a", 5); (u8 "a", 10); (u8 "a", 11)].

Lemma burst_in_order : in_order burst.
Proof. repeat constructor; simpl; lia. Qed.

(** Two per ten ticks: the third request of "a" is refused, the one at tick 10
    takes the place of the one at tick 0. *)
Lemma rate_limit_exact_witness :
  in_order burst ∧ (run (new_limiter 2 10) burst).1 = [true; true; true; false; true; false] ∧
  (run (new_limiter 2 10) burst).1 = spec_run 2 10 [] burst.
Proof.
  split; [exact burst_in_order|]. split; [vm_compute; reflexivity|].
  exact (rate_limit_exact 2 10 burst burst_in_order).
Defined.

Lemma rate_limit_bound_witness :
  slen (in_window 10 (u8 "a") 0 (accepted_of burst (run (new_limiter 2 10) burst).1)) <= 2.
Proof. apply (rate_limit_bound 2 10 burst); [lia|exact burst_in_order]. Defined.
