(* ===== verification/Metrics.v ===== *)
(** * Metrics ([app/observability/metrics.py])

    The program's part of the metrics: which calls it makes on the Prometheus
    collectors, in order, and the per-stage maxima it keeps itself.  The
    collectors are third-party objects; what the program does to them is the
    log [mt_calls].  [_safe] drops any exception a collector raises, so a call
    is an entry of the log whether or not the collector accepts it.  Durations
    are exact rationals (floating-point rounding is not modelled). *)

From S2P Require Import Prelude Domain PyStr.

Inductive collector :=
  | http_requests | http_request_duration | inflight_requests
  | operations | operation_duration | errors | detected_entities
  | payload_size | stage_duration | stage_max.

#[export] Instance collector_eq_dec : EqDecision collector.
Proof. solve_decision. Defined.

Definition labels : Type := list (pystr * pystr).

Inductive metric_call :=
  | Inc (c : collector) (l : labels) (amount : Q)
  | Dec (c : collector) (l : labels)
  | Observe (c : collector) (l : labels) (v : Q)
  | SetTo (c : collector) (l : labels) (v : Q).

Record Metrics := mkMetrics {
  mt_calls : list metric_call;             (* oldest first *)
  mt_stage_max : list (pystr * Q)          (* _stage_max_values *)
}.

Definition empty_metrics : Metrics := mkMetrics [] [].

(** [self._safe(collector, method, ...)]. *)
Definition safe (call : metric_call) (m : Metrics) : Metrics :=
  mkMetrics (mt_calls m ++ [call]) (mt_stage_max m).

Definition observe_http_request (method path status : pystr) (duration : Q) (m : Metrics) : Metrics :=
  safe (Observe http_request_duration [(u8 "method", method); (u8 "path", path)] duration)
    (safe (Inc http_requests [(u8 "method", method); (u8 "path", path); (u8 "status", status)] 1) m).

Definition record_operation (operation : pystr) (duration : Q) (m : Metrics) : Metrics :=
  safe (Observe operation_duration [(u8 "operation", operation)] duration)
    (safe (Inc operations [(u8 "operation", operation)] 1%Q) m).

Definition record_error (error_type : pystr) (m : Metrics) : Metrics :=
  safe (Inc errors [(u8 "error_type", error_type)] 1) m.

Definition record_entities (count : Z) (m : Metrics) : Metrics :=
  safe (Inc detected_entities [] (inject_Z count)) m.

Definition record_payload_size (size : Z) (m : Metrics) : Metrics :=
  safe (Observe payload_size [] (inject_Z size)) m.

Definition Qgtb (a b : Q) : bool := negb (Qle_bool a b).

Definition stage_value (stage : pystr) (m : Metrics) : Q := default 0%Q (dict_get stage (mt_stage_max m)).

Definition record_stage (stage : pystr) (duration : Q) (m : Metrics) : Metrics :=
  let m := safe (Observe stage_duration [(u8 "stage", stage)] duration) m in
  if Qgtb duration (stage_value stage m) then
    safe (SetTo stage_max [(u8 "stage", stage)] duration)
      (mkMetrics (mt_calls m) (dict_set stage duration (mt_stage_max m)))
  else m.

(** [MetricsRecorder]: milliseconds in, seconds out. *)
Definition seconds (ms : Q) : Q := (ms / 1000)%Q.
Definition recorder_request (operation : pystr) (duration_ms : Q) : Metrics → Metrics :=
  record_operation operation (seconds duration_ms).
Definition recorder_stage (stage : pystr) (duration_ms : Q) : Metrics → Metrics :=
  record_stage stage (seconds duration_ms).

(** [with metrics.track_inflight(): body]: the gauge is decremented whether the
    body returns or raises. *)
Definition track_inflight {E A} (body : stateM Metrics E A) : stateM Metrics E A := λ m,
  let '(r, m) := body (safe (Inc inflight_requests [] 1) m) in
  (r, safe (Dec inflight_requests []) m).

(** ** The clock behind [Timer] *)

(** [time.perf_counter()]. *)
Class PerfCounter (W : Type) := perf_counter : W → Q * W.

(** [with Timer() as timer: body], with [timer.elapsed_ms]; when the body
    raises, the time is not used. *)
Definition timed {W E A} `{!PerfCounter W} (body : stateM W E A) : stateM W E (A * Q) := λ w,
  let '(started, w) := perf_counter w in
  match body w with
  | (Ok a, w) => let '(stopped, w) := perf_counter w in (Ok (a, ((stopped - started) * 1000)%Q), w)
  | (Err e, w) => let '(_, w) := perf_counter w in (Err e, w)
  end.

(** ** What the gauges show *)

(** The level of the in-flight gauge after a log, and the last value a
    maximum gauge was set to. *)
Definition inflight_level (calls : list metric_call) : Z :=
  foldr (λ c z, match c with
                | Inc inflight_requests [] _ => z + 1
                | Dec inflight_requests [] => z - 1
                | _ => z
                end) 0 calls.

Definition last_set (stage : pystr) (calls : list metric_call) : option Q :=
  last (omap (λ c, match c with
                   | SetTo stage_max [(_, s)] v => if decide (s = stage) then Some v else None
                   | _ => None
                   end) calls).

Lemma inflight_level_app l l' : inflight_level (l ++ l') = inflight_level l + inflight_level l'.
Proof.
  induction l as [|c l IH]; simpl; [done|]. repeat case_match; lia.
Qed.

(** What is recorded: stages with their durations. *)
Definition record_stages (l : list (pystr * Q)) (m : Metrics) : Metrics :=
  fold_left (λ m p, record_stage (p.1) (p.2) m) l m.

Definition Qmax_of (stage : pystr) (l : list (pystr * Q)) : Q :=
  fold_left (λ q p, if decide (p.1 = stage) then (if Qgtb (p.2) q then p.2 else q) else q) l 0%Q.

(** The gauge agrees with the kept maximum. *)
Definition gauges_ok (m : Metrics) : Prop :=
  ∀ stage, last_set stage (mt_calls m) = dict_get stage (mt_stage_max m).

Lemma last_set_snoc stage calls c :
  last_set stage (calls ++ [c]) =
    match c with
    | SetTo stage_max [(_, s)] v => if decide (s = stage) then Some v else last_set stage calls
    | _ => last_set stage calls
    end.
Proof.
  unfold last_set. rewrite omap_app, last_app. simpl. repeat case_match; simpl in *; simplify_eq; done.
Qed.

Lemma record_stage_ok stage d m : gauges_ok m → gauges_ok (record_stage stage d m).
Proof.
  intros Hm s. unfold record_stage. case_match; simpl.
  - rewrite !last_set_snoc. case_decide as Hs.
    + subst. by rewrite dict_get_set_eq.
    + rewrite dict_get_set_ne by done. apply Hm.
  - rewrite last_set_snoc. apply Hm.
Qed.

Lemma record_stage_value stage d m s :
  stage_value s (record_stage stage d m) =
    if decide (stage = s) then (if Qgtb d (stage_value s m) then d else stage_value s m)
    else stage_value s m.
Proof.
  unfold record_stage. unfold stage_value at 1 3 4 5. destruct (decide (stage = s)) as [->|Hs].
  - unfold stage_value. simpl. case_match; simpl; [by rewrite dict_get_set_eq|done].
  - case_match; simpl; [|done]. by rewrite dict_get_set_ne.
Qed.

(** The stage gauges show running maxima: from fresh metrics, after any
    sequence of recorded stages the kept value of each stage is the largest
    positive duration recorded for it, and the gauge was last set to exactly
    that value. *)
Theorem stage_gauge_is_maximum (l : list (pystr * Q)) (stage : pystr) :
  let m := record_stages l empty_metrics in
  stage_value stage m = Qmax_of stage l ∧
  last_set stage (mt_calls m) = dict_get stage (mt_stage_max m).
Proof.
  cbv zeta. split.
  - assert (H : ∀ m, stage_value stage (record_stages l m) =
      fold_left (λ q p, if decide (p.1 = stage) then (if Qgtb (p.2) q then p.2 else q) else q) l
        (stage_value stage m)).
    { induction l as [|[s d] l IH]; intros m; [done|]. cbn [record_stages fold_left].
      fold (record_stages l (record_stage s d m)). rewrite IH. f_equal. simpl.
      by rewrite record_stage_value. }
    apply H.
  - assert (H : ∀ m, gauges_ok m → gauges_ok (record_stages l m)).
    { induction l as [|[s d] l IH]; intros m Hm; [done|]. cbn [record_stages fold_left].
      fold (record_stages l (record_stage s d m)). by apply IH, record_stage_ok. }
    by apply H.
Qed.

(** The in-flight gauge balances: tracking a body that leaves the gauge
    level as it found it leaves it so too, whether the body returns or
    raises. *)
Theorem inflight_balanced {E A} (body : stateM Metrics E A) (m : Metrics) :
  (∀ m0, inflight_level (mt_calls (body m0).2) = inflight_level (mt_calls m0)) →
  inflight_level (mt_calls (track_inflight body m).2) = inflight_level (mt_calls m) ∧
  (track_inflight body m).1 = (body (safe (Inc inflight_requests [] 1) m)).1.
Proof.
  intros Hb. unfold track_inflight. specialize (Hb (safe (Inc inflight_requests [] 1) m)).
  destruct (body _) as [r m'] eqn:Hr. simpl in *. split; [|done].
  rewrite inflight_level_app in *. simpl in *. lia.
Qed.

(** ** Witness *)

Lemma inflight_balanced_witness :
  let body : stateM Metrics exn unit := λ m, (Err EValueError, record_error (u8 "INTERNAL_ERROR") m) in
  inflight_level (mt_calls (track_inflight body empty_metrics).2) = 0 ∧
  (track_inflight body empty_metrics).1 = Err EValueError.
Proof.
  cbv zeta. apply (inflight_balanced (λ m, (Err EValueError, record_error (u8 "INTERNAL_ERROR") m))).
  intros m0. cbn -[u8]. rewrite inflight_level_app. simpl. lia.
Defined.
