(* ===== verification/Logging.v ===== *)
(** * Logging ([app/observability/logging.py])

    What the program hands to its loggers, the lines its handler is given
    (a record with the request id of the context it is logged in),
    [JsonFormatter.format] as the object it dumps, and the request ids that
    may be echoed to clients.  Handlers and streams are [logging]'s own. *)

From S2P Require Import Prelude Domain PyStr.

(** What the program hands to a logger: the level's name, the logger's name,
    the message and its arguments, [extra] (which [logging] turns into
    attributes of the record), and the name of the exception class when there
    is an exception. *)
Record log_record := mkLogRecord {
  levelname : pystr;
  logger_name : pystr;
  log_message : pystr;
  log_args : list pyobj;
  log_extra : list (pystr * pyobj);
  exc_class : option pystr
}.

(** [repr(o)], of which [str(o)] differs on strings only. *)
Class PyRepr := py_repr : pyobj → pystr.
Definition py_str `{PyRepr} (o : pyobj) : pystr := match o with OStr s => s | _ => py_repr o end.

(** [msg % args], for the directives the program's messages have ([%s] and
    [%r], one for each argument). *)
Fixpoint interpolate `{PyRepr} (msg : pystr) (args : list pyobj) : pystr :=
  match msg, args with
  | [], _ => []
  | 37 :: 115 :: msg, a :: args => py_str a ++ interpolate msg args
  | 37 :: 114 :: msg, a :: args => py_repr a ++ interpolate msg args
  | c :: msg, _ => c :: interpolate msg args
  end.

(** [record.getMessage()]: a message without arguments is not looked into. *)
Definition getMessage `{PyRepr} (r : log_record) : pystr :=
  match log_args r with [] => log_message r | args => interpolate (log_message r) args end.

(** [logger.warning(...)] and the like, for code that runs in the state [R]. *)
Class Logger (R : Type) := emit : log_record → R → R.
Definition emit_all {R} `{!Logger R} (rs : list log_record) (r : R) : R := fold_left (λ r l, emit l r) rs r.

(** A logger nobody reads. *)
Definition quiet_logger {R} : Logger R := λ _ r, r.

(** Code that only logs. *)
#[export] Instance list_logger : Logger (list log_record) := λ l ls, ls ++ [l].
Definition warn {A} (l : log_record) (result : A) : stateM (list log_record) exn A := λ ls, (Ok result, emit l ls).

(** [_STRUCTURED_FIELDS]. *)
Definition STRUCTURED_FIELDS : list pystr :=
  [u8 "event"; u8 "request_id"; u8 "method"; u8 "path"; u8 "status_code"; u8 "operation"; u8 "consumer_id";
   u8 "payload_id_hash"; u8 "detected_types"; u8 "entity_count"; u8 "duration_ms"; u8 "error_type";
   u8 "exception_type"].

(** [getattr(record, field, default)] for a field of [extra]. *)
Definition attribute (r : log_record) (field : pystr) (dflt : pyobj) : pyobj :=
  default dflt (dict_get field (log_extra r)).

Definition is_none (o : pyobj) : bool := match o with ONone => true | _ => false end.

(** One turn of [for field in _STRUCTURED_FIELDS]. *)
Definition add_field (r : log_record) (payload : list (pystr * pyobj)) (field : pystr) : list (pystr * pyobj) :=
  let value := attribute r field ONone in
  if is_none value then payload else dict_set field value payload.

(** [JsonFormatter.format]: the object that is dumped, given the time and the
    request id of the context variable. *)
Definition format_payload `{PyRepr} (timestamp : pystr) (context_request_id : pyobj) (r : log_record)
    : list (pystr * pyobj) :=
  let payload := [(u8 "timestamp", OStr timestamp); (u8 "level", OStr (levelname r));
                  (u8 "logger", OStr (logger_name r));
                  (u8 "event", attribute r (u8 "event") (OStr (getMessage r)))] in
  let own := attribute r (u8 "request_id") ONone in
  let request_id := if truthy own then own else context_request_id in
  let payload := if is_none request_id then payload else dict_set (u8 "request_id") request_id payload in
  let payload := fold_left (add_field r) STRUCTURED_FIELDS payload in
  match exc_class r with
  | Some name => dict_set (u8 "exception_type") (OStr name) payload
  | None => payload
  end.

(** [get_logger(name)]: the name of the child logger. *)
Definition get_logger (name : pystr) : pystr := u8 "pii_security_proxy." ++ name.

(** ** The context variable and the lines of the log *)

Module RequestIdVar.
(** The value, and the token [set] gives for [reset]. *)
Definition set_request_id (request_id : pystr) (var : option pystr) : option pystr * option pystr :=
  (var, Some request_id).
Definition reset_request_id (token : option pystr) (var : option pystr) : option pystr := token.
End RequestIdVar.

(** What the application's handler is given: the records of all its loggers
    (they are children of one), each formatted as it is logged, with the value
    the context variable [_REQUEST_ID] has then. *)
Definition log_line : Type := option pystr * log_record.

(** A world in which requests are served: the outside, the context variable
    and the log. *)
Record Logged (V : Type) := mkLogged {
  outside : V;
  context_id : option pystr;
  lines : list log_line
}.
Arguments mkLogged {V}.
Arguments outside {V}.
Arguments context_id {V}.
Arguments lines {V}.

#[export] Instance logged_logger {V} : Logger (Logged V) := λ r w,
  mkLogged (outside w) (context_id w) (lines w ++ [(context_id w, r)]).

(** An effect of the outside world. *)
Definition outer {V A} (f : V → A * V) : Logged V → A * Logged V := λ w,
  let '(x, v) := f (outside w) in (x, mkLogged v (context_id w) (lines w)).

(** ** Request ids *)

(** The class [\[A-Za-z0-9._-\]]. *)
Definition request_id_char (c : Z) : bool :=
  ((65 <=? c) && (c <=? 90)) || ((97 <=? c) && (c <=? 122)) || ((48 <=? c) && (c <=? 57)) ||
  (c =? 46) || (c =? 95) || (c =? 45).

(** [_REQUEST_ID_RE.fullmatch(candidate)]. *)
Definition request_id_match (s : pystr) : bool :=
  (1 <=? slen s) && (slen s <=? 64) && forallb request_id_char s.

(** [str(uuid.uuid4())]. *)
Class UuidSource (W : Type) := uuid4 : W → pystr * W.
#[export] Instance logged_uuid {V} `{!UuidSource V} : UuidSource (Logged V) | 50 := outer uuid4.

Definition normalize_request_id {W} `{!UuidSource W} (candidate : option pystr) : stateM W exn pystr := λ w,
  match candidate with
  | Some s => if request_id_match s then (Ok s, w) else let '(u, w) := uuid4 w in (Ok u, w)
  | None => let '(u, w) := uuid4 w in (Ok u, w)
  end.

(** ** What a log line can hold *)

Definition line_keys : list pystr := [u8 "timestamp"; u8 "level"; u8 "logger"] ++ STRUCTURED_FIELDS.

Lemma dict_set_keys (k : pystr) (v : pyobj) d x : x ∈ (dict_set k v d).*1 ↔ x = k ∨ x ∈ d.*1.
Proof.
  rewrite (dict_keys_set k v d). case_match; [|set_solver].
  split; [by right|]. intros [->|?]; [|done]. set_solver.
Qed.

Lemma add_fields_get r fields d k :
  dict_get k (fold_left (add_field r) fields d) =
    if decide (k ∈ fields) then
      (if is_none (attribute r k ONone) then dict_get k d else Some (attribute r k ONone))
    else dict_get k d.
Proof.
  revert d. induction fields as [|f fields IH]; intros d; cbn [fold_left]; [done|].
  rewrite IH. assert (Hset : dict_get k (add_field r d f) =
    if decide (k = f) then (if is_none (attribute r k ONone) then dict_get k d else Some (attribute r k ONone))
    else dict_get k d).
  { unfold add_field. destruct (decide (k = f)) as [<-|Hk].
    - destruct (is_none (attribute r k ONone)); [done | apply dict_get_set_eq].
    - destruct (is_none (attribute r f ONone)); [done | by apply dict_get_set_ne]. }
  rewrite Hset. destruct (decide (k = f)) as [->|Hk].
  - rewrite (decide_True (P := f ∈ f :: fields)) by set_solver. repeat case_match; done.
  - destruct (decide (k ∈ fields)).
    + by rewrite (decide_True (P := k ∈ f :: fields)) by set_solver.
    + by rewrite (decide_False (P := k ∈ f :: fields)) by set_solver.
Qed.

(** A log line holds the time, the level, the logger, and of the record
    only the listed fields: the class name of an exception, never its text;
    the request id of the record before that of the context; every other
    attribute handed to the logger stays out. *)
Theorem format_payload_fields `{PyRepr} timestamp context_request_id (r : log_record) (k : pystr) :
  dict_get k (format_payload timestamp context_request_id r) =
    match exc_class r, decide (k = u8 "exception_type") with
    | Some name, left _ => Some (OStr name)
    | _, _ =>
        if decide (k ∈ STRUCTURED_FIELDS ∧ is_none (attribute r k ONone) = false) then Some (attribute r k ONone)
        else if decide (k = u8 "request_id" ∧ is_none context_request_id = false) then Some context_request_id
        else dict_get k [(u8 "timestamp", OStr timestamp); (u8 "level", OStr (levelname r));
                         (u8 "logger", OStr (logger_name r));
                         (u8 "event", attribute r (u8 "event") (OStr (getMessage r)))]
    end.
Proof.
  unfold format_payload. set (base := [_; _; _; _]).
  set (d := if is_none _ then base else _).
  assert (Hreq : u8 "request_id" ∈ STRUCTURED_FIELDS) by (apply (bool_decide_eq_true_1 _); vm_compute; reflexivity).
  assert (Hd : dict_get k (fold_left (add_field r) STRUCTURED_FIELDS d) =
    if decide (k ∈ STRUCTURED_FIELDS ∧ is_none (attribute r k ONone) = false) then Some (attribute r k ONone)
    else if decide (k = u8 "request_id" ∧ is_none context_request_id = false) then Some context_request_id
    else dict_get k base).
  { rewrite add_fields_get. destruct (decide (k = u8 "request_id")) as [->|Hne].
    - rewrite (decide_True (P := _ ∈ _)) by done. unfold d.
      destruct (attribute r (u8 "request_id") ONone) eqn:Hown; cbn [is_none truthy];
        try (rewrite (decide_True (P := _ ∧ _)) by done; done).
      rewrite (decide_False (P := _ ∈ _ ∧ _)) by naive_solver. destruct (is_none context_request_id) eqn:Hc.
      + by rewrite (decide_False (P := _ ∧ _)) by naive_solver.
      + rewrite (decide_True (P := _ ∧ _)) by done. apply dict_get_set_eq.
    - assert (dict_get k d = dict_get k base) as ->.
      { unfold d. destruct (is_none _); [done|]. by apply dict_get_set_ne. }
      rewrite (decide_False (P := k = _ ∧ _)) by naive_solver.
      destruct (is_none (attribute r k ONone)).
      + rewrite (decide_False (P := _ ∧ _)) by naive_solver. by case_decide.
      + destruct (decide (k ∈ STRUCTURED_FIELDS));
          [by rewrite (decide_True (P := _ ∧ _)) | by rewrite (decide_False (P := _ ∧ _)) by naive_solver]. }
  destruct (exc_class r) as [name|]; [|exact Hd]. destruct (decide (k = u8 "exception_type")) as [->|Hne].
  - apply dict_get_set_eq.
  - by rewrite dict_get_set_ne.
Qed.

(** The request id that is logged and echoed is always a short safe token:
    the client's own when it is one, and a fresh UUID otherwise. *)
Theorem normalize_request_id_safe {W} `{!UuidSource W} (uuid4_safe : ∀ w : W, request_id_match (uuid4 w).1 = true)
    (candidate : option pystr) (w : W) :
  ∃ id w', normalize_request_id candidate w = (Ok id, w') ∧ 1 <= slen id <= 64 ∧
    Forall (λ c, request_id_char c = true) id ∧
    (∀ s, candidate = Some s → request_id_match s = true → id = s ∧ w' = w) ∧
    (∀ s, candidate = Some s → normalize_request_id (Some id) w' = (Ok id, w')).
Proof.
  assert (Hm : ∀ s, request_id_match s = true → 1 <= slen s <= 64 ∧ Forall (λ c, request_id_char c = true) s).
  { intros s. unfold request_id_match. rewrite !andb_true_iff, !Z.leb_le, forallb_forall.
    intros [[? ?] Hc]. split; [lia|]. apply Forall_forall. intros c Hin%list_elem_of_In. auto. }
  unfold normalize_request_id. pose proof (uuid4_safe w) as Hu.
  destruct (uuid4 w) as [u w1]. cbn [fst] in Hu.
  destruct candidate as [s|]; [destruct (request_id_match s) eqn:Hs|].
  - exists s, w. destruct (Hm s Hs). refine (conj eq_refl (conj _ (conj _ (conj _ _)))); [done|done|..].
    + by intros s' [= <-].
    + intros s' _. by rewrite Hs.
  - exists u, w1. destruct (Hm u Hu). refine (conj eq_refl (conj _ (conj _ (conj _ _)))); [done|done|..].
    + intros s' [= <-] ?. congruence.
    + intros s' _. by rewrite Hu.
  - exists u, w1. by destruct (Hm u Hu).
Qed.

(** ** Witnesses *)

#[local] Instance counted_uuid : UuidSource Z := λ w,
  (u8 "00000000-0000-4000-8000-00000000000" ++ [48 + w mod 10], w + 1).

Lemma counted_uuid_safe (w : Z) : request_id_match (uuid4 w).1 = true.
Proof.
  assert (Hd : request_id_char (48 + w mod 10) = true).
  { pose proof (Z.mod_pos_bound w 10 ltac:(lia)). unfold request_id_char.
    apply orb_true_iff; left; apply orb_true_iff; left; apply orb_true_iff; left; apply orb_true_iff; right.
    apply andb_true_iff. rewrite !Z.leb_le. lia. }
  change (uuid4 w).1 with (u8 "00000000-0000-4000-8000-00000000000" ++ [48 + w mod 10]).
  unfold request_id_match. rewrite slen_app, forallb_app. cbn [forallb]. by rewrite Hd.
Qed.

Lemma normalize_request_id_safe_witness :
  ∃ id w', normalize_request_id (Some (u8 "bad id")) 3 = (Ok id, w') ∧ 1 <= slen id <= 64 ∧
    normalize_request_id (Some id) w' = (Ok id, w').
Proof.
  destruct (normalize_request_id_safe counted_uuid_safe (Some (u8 "bad id")) 3) as (id & w' & Hn & Hl & _ & _ & Hi).
  exists id, w'. split; [exact Hn|]. split; [exact Hl|]. exact (Hi _ eq_refl).
Defined.
