(* ===== verification/Strategies.v ===== *)
(** * Masking strategies ([app/masking/strategies/impl.py], [app/masking/base.py])

    What replaces one PII span.  The format functions are pure on the span's
    text; [FullMaskStrategy], [PartialMaskStrategy], [TokenizeStrategy] and
    [SyntheticStrategy] choose among them, the last two drawing random hex
    tokens from a [TokenSource]. *)

From S2P Require Import Prelude Unicode Domain PyStr.

(** [secrets.token_hex(n)]: each call draws [2 n] hex digits and moves the
    generator on. *)
Class TokenSource (R : Type) := token_hex : Z → R → pystr * R.

Section Formats.
Context `{U : UnicodeDB}.

(** [_FULL_MASK_CHAR]. *)
Definition mask_char : Z := 42.
(** [_NUMERIC_VISIBLE_EDGE] and [_NUMERIC_MIN_DIGITS]. *)
Definition numeric_visible_edge : Z := 2.
Definition numeric_min_digits : Z := 4.

(** [_INITIALS_TYPES], [_NUMERIC_EDGE_TYPES], [_DIGITS_ONLY_TYPES],
    [_EMAIL_TYPES]. *)
Definition initials_types : list PIIType := [PERSON_NAME; CARDHOLDER_NAME].
Definition numeric_edge_types : list PIIType :=
  [PASSPORT_NUMBER; BANK_CARD; INN; DRIVER_LICENSE; PHONE].
Definition digits_only_types : list PIIType := [PASSPORT_DIVISION_CODE].
Definition email_types : list PIIType := [EMAIL].

(** [_ALNUM_RE.sub("*", value)]. *)
Definition mask_all_alnum (value : pystr) : pystr :=
  (λ c, if is_word c && negb (c =? 95) then mask_char else c) <$> value.

(** [_DIGIT_RE.sub("*", value)]. *)
Definition mask_digits (value : pystr) : pystr :=
  (λ c, if is_decimal c then mask_char else c) <$> value.

(** The loop of [_mask_numeric_edges]: [digits] is what [\d] found, while
    the loop itself tests [ch.isdigit()]. *)
Fixpoint numeric_edges_loop (digits : pystr) (total digit_index : Z) (value : pystr)
    : result exn pystr :=
  match value with
  | [] => Ok []
  | ch :: value =>
      if is_digit ch then
        out ← (if (digit_index <? numeric_visible_edge)
                    || (total - numeric_visible_edge <=? digit_index)
               then result_of_option EIndexError (digits !! Z.to_nat digit_index)
               else Ok mask_char);
        rest ← numeric_edges_loop digits total (digit_index + 1) value;
        Ok (out :: rest)
      else
        rest ← numeric_edges_loop digits total digit_index value;
        Ok (ch :: rest)
  end.

Definition mask_numeric_edges (value : pystr) : result exn pystr :=
  let digits := filter (λ c, is_decimal c = true) value in
  if slen digits <=? numeric_min_digits then Ok (mask_digits value)
  else numeric_edges_loop digits (slen digits) 0 value.

(** [_WORD_RE.findall(value)]: the maximal runs of \w. *)
Fixpoint word_runs_go (cur : pystr) (s : pystr) : list pystr :=
  match s with
  | [] => if decide (cur = []) then [] else [reverse cur]
  | c :: s =>
      if is_word c then word_runs_go (c :: cur) s
      else (if decide (cur = []) then [] else [reverse cur]) ++ word_runs_go [] s
  end.
Definition word_runs (s : pystr) : list pystr := word_runs_go [] s.

Definition initial (word : pystr) : pystr := take 1 word ++ [46].

Definition mask_initials (value : pystr) : pystr :=
  let words := word_runs value in
  if decide (words = []) then value else join [32] (initial <$> words).

Definition mask_email (value : pystr) : pystr :=
  if negb (str_in [64] value) then mask_all_alnum value
  else
    let '(login, _, domain) := partition value [64] in
    match login with
    | [] => [mask_char] ++ [64] ++ domain
    | c :: _ => [c] ++ [mask_char; mask_char; mask_char] ++ [64] ++ domain
    end.

(** [PartialMaskStrategy.mask]. *)
Definition partial_mask (entity : PIIEntity) : result exn pystr :=
  let t := pii_type entity in
  if decide (t ∈ initials_types) then Ok (mask_initials (value entity))
  else if decide (t ∈ numeric_edge_types) then mask_numeric_edges (value entity)
  else if decide (t ∈ digits_only_types) then Ok (mask_digits (value entity))
  else if decide (t ∈ email_types) then Ok (mask_email (value entity))
  else Ok (mask_all_alnum (value entity)).

(** [FullMaskStrategy.mask]. *)
Definition full_mask (entity : PIIEntity) : pystr := mask_all_alnum (value entity).

Section Tokens.
Context {R : Type} `{!TokenSource R}.

(** [TokenizeStrategy.mask] and [SyntheticStrategy.mask]. *)
Definition tokenize_mask (entity : PIIEntity) (r : R) : pystr * R :=
  let '(tok, r) := token_hex 8 r in
  (u8 "<TOKEN:" ++ pii_value (pii_type entity) ++ u8 ":" ++ tok ++ u8 ">", r).
Definition synthetic_mask (entity : PIIEntity) (r : R) : pystr * R :=
  let '(tok, r) := token_hex 8 r in
  (u8 "<SYNTHETIC:" ++ pii_value (pii_type entity) ++ u8 ":" ++ tok ++ u8 ">", r).

(** [DefaultMaskingStrategyFactory.get_strategy(strategy).mask(entity)]. *)
Definition strategy_mask (strategy : MaskingStrategyEnum) (entity : PIIEntity)
    : stateM R exn pystr := λ r,
  match strategy with
  | FULL_MASK => (Ok (full_mask entity), r)
  | PARTIAL_MASK => (partial_mask entity, r)
  | TOKENIZE => let '(s, r) := tokenize_mask entity r in (Ok s, r)
  | SYNTHETIC => let '(s, r) := synthetic_mask entity r in (Ok s, r)
  end.
End Tokens.

(** ** Helper facts *)

Lemma star_not_alnum : is_alnum mask_char = false.
Proof. by rewrite ascii_alnum. Qed.
Lemma star_not_decimal : is_decimal mask_char = false.
Proof. by rewrite ascii_decimal. Qed.
Lemma underscore_not_alnum : is_alnum 95 = false.
Proof. by rewrite ascii_alnum. Qed.

(** [\[^\W_\]] is exactly [str.isalnum]. *)
Lemma alnum_class c : is_word c && negb (c =? 95) = is_alnum c.
Proof.
  unfold is_word. destruct (Z.eqb_spec c 95) as [->|?]; simpl.
  - by rewrite underscore_not_alnum.
  - by rewrite orb_false_r, andb_true_r.
Qed.

Lemma decimal_not_sep c : is_decimal c = true → is_digit c = true ∧ is_alnum c = true.
Proof. intros Hd%decimal_is_digit. split; [done | by apply digit_is_alnum]. Qed.

Lemma mask_all_alnum_cons c v :
  mask_all_alnum (c :: v) = (if is_alnum c then mask_char else c) :: mask_all_alnum v.
Proof. unfold mask_all_alnum. by rewrite fmap_cons, alnum_class. Qed.

Lemma length_mask_all_alnum v : length (mask_all_alnum v) = length v.
Proof. apply length_fmap. Qed.

Lemma mask_all_alnum_clean v : forallb (λ c, negb (is_alnum c)) (mask_all_alnum v) = true.
Proof.
  induction v as [|c v IH]; [done|]. rewrite mask_all_alnum_cons. simpl. rewrite IH.
  destruct (is_alnum c) eqn:Hc; [by rewrite star_not_alnum | by rewrite Hc].
Qed.

(** ** Numeric edge masking *)

Definition count_digits (v : pystr) : Z := slen (filter (λ c, is_digit c = true) v).
Definition count_decimals (v : pystr) : Z := slen (filter (λ c, is_decimal c = true) v).

(** Every digit of [v] is one [\d] matches. *)
Definition digits_decimal (v : pystr) : bool :=
  forallb (λ c, implb (is_digit c) (is_decimal c)) v.

(** Is the [k]-th of [n] digits left visible? *)
Definition edge_visible (n k : Z) : bool := (4 <? n) && ((k <? 2) || (n - 2 <=? k)).

(** What the masking must produce, digit by digit. *)
Fixpoint edges_spec (n k : Z) (v : pystr) : pystr :=
  match v with
  | [] => []
  | c :: v =>
      if is_digit c
      then (if edge_visible n k then c else mask_char) :: edges_spec n (k + 1) v
      else c :: edges_spec n k v
  end.

Lemma count_digits_cons c v :
  count_digits (c :: v) = (if is_digit c then 1 else 0) + count_digits v.
Proof.
  unfold count_digits, slen. rewrite filter_cons.
  destruct (is_digit c); [rewrite decide_True by done | rewrite decide_False by done];
    simpl; lia.
Qed.

Lemma count_decimals_cons c v :
  count_decimals (c :: v) = (if is_decimal c then 1 else 0) + count_decimals v.
Proof.
  unfold count_decimals, slen. rewrite filter_cons.
  destruct (is_decimal c); [rewrite decide_True by done | rewrite decide_False by done];
    simpl; lia.
Qed.

Lemma count_digits_nonneg v : 0 <= count_digits v.
Proof. apply slen_nonneg. Qed.

Lemma decimals_le_digits v : count_decimals v <= count_digits v.
Proof.
  induction v as [|c v IH]; [done|]. rewrite count_digits_cons, count_decimals_cons.
  pose proof (decimal_is_digit c). destruct (is_decimal c), (is_digit c); naive_solver lia.
Qed.

Lemma digits_decimal_count v :
  digits_decimal v = (count_digits v =? count_decimals v).
Proof.
  induction v as [|c v IH]; [done|]. simpl. rewrite IH, count_digits_cons, count_decimals_cons.
  pose proof (decimal_is_digit c). pose proof (decimals_le_digits v).
  destruct (is_decimal c) eqn:Hd, (is_digit c) eqn:Hg; simpl; try lia.
  all: naive_solver.
Qed.

Lemma filter_decimal_cons c v :
  filter (λ c, is_decimal c = true) (c :: v) =
    (if is_decimal c then [c] else []) ++ filter (λ c, is_decimal c = true) v.
Proof.
  rewrite filter_cons. destruct (is_decimal c);
    [by rewrite decide_True | by rewrite decide_False].
Qed.

(** The loop, started after [pre], agrees with the specification as long as
    every digit it meets was found by [\d]. *)
Lemma numeric_edges_loop_ok pre v total :
  digits_decimal v = true → 4 < total →
  numeric_edges_loop (pre ++ filter (λ c, is_decimal c = true) v) total (slen pre) v
    = Ok (edges_spec total (slen pre) v).
Proof.
  intros Hv Ht. revert pre Hv. induction v as [|c v IH]; intros pre; [done|].
  cbn [digits_decimal forallb]. intros [Hc Hv]%andb_true_iff. rewrite filter_decimal_cons.
  cbn [numeric_edges_loop edges_spec]. destruct (is_digit c) eqn:Hg.
  - simpl in Hc. rewrite Hc. specialize (IH (pre ++ [c]) Hv).
    rewrite <-app_assoc, slen_app in IH. change (slen [c]) with 1 in IH. rewrite IH.
    unfold edge_visible, numeric_visible_edge. rewrite (proj2 (Z.ltb_lt 4 total)) by done.
    cbn [andb]. destruct (_ || _); [|done].
    assert ((pre ++ [c] ++ filter (λ c, is_decimal c = true) v)
              !! Z.to_nat (slen pre) = Some c) as ->; [|done].
    unfold slen. rewrite Nat2Z.id, lookup_app_r, Nat.sub_diag by done. done.
  - destruct (is_decimal c) eqn:Hd; [by rewrite decimal_is_digit in Hg|].
    cbn [app]. by rewrite IH.
Qed.

(** The loop succeeds exactly when the index never runs past [digits]. *)
Lemma numeric_edges_loop_total digits i v :
  0 <= i → 4 < slen digits →
  numeric_edges_loop digits (slen digits) i v = Err EIndexError ∧
    slen digits < i + count_digits v ∧ 0 < count_digits v ∨
  is_ok (numeric_edges_loop digits (slen digits) i v) = true ∧
    (i + count_digits v <= slen digits ∨ count_digits v = 0).
Proof.
  intros Hi Ht. revert i Hi. induction v as [|c v IH]; intros i Hi; [right; naive_solver|].
  rewrite count_digits_cons. pose proof (count_digits_nonneg v).
  cbn [numeric_edges_loop]. destruct (is_digit c).
  - destruct (Z.lt_ge_cases i (slen digits)) as [Hlt|Hge].
    + assert (Hout : is_ok (if (i <? numeric_visible_edge)
                  || (slen digits - numeric_visible_edge <=? i)
         then result_of_option EIndexError (digits !! Z.to_nat i) else Ok mask_char) = true).
      { case_match; [|done].
        destruct (lookup_lt_is_Some_2 digits (Z.to_nat i)) as [x ->]; [unfold slen in *; lia|done]. }
      destruct (if _ || _ then _ else _) as [out|]; [|done]. simpl.
      destruct (IH (i + 1)) as [(-> & ? & ?)|(Hok & ?)]; [lia|left; split; [done|lia]|].
      right. destruct (numeric_edges_loop digits _ (i + 1) v); [|done]. split; [done|lia].
    + left. unfold numeric_visible_edge.
      rewrite (proj2 (Z.leb_le (slen digits - 2) i)), orb_true_r by lia.
      rewrite lookup_ge_None_2 by (unfold slen in *; lia). split; [done|lia].
  - destruct (IH i) as [(-> & ? & ?)|(Hok & ?)]; [done|left; split; [done|lia]|].
    right. destruct (numeric_edges_loop digits _ i v); [|done]. split; [done|lia].
Qed.

Lemma edges_spec_length n k v : length (edges_spec n k v) = length v.
Proof.
  revert k. induction v as [|c v IH]; intros k; [done|].
  simpl. case_match; simpl; by rewrite IH.
Qed.

(** With at most four digits the specification masks them all. *)
Lemma edges_spec_small n k v :
  n <= 4 → digits_decimal v = true → edges_spec n k v = mask_digits v.
Proof.
  intros Hn. revert k. induction v as [|c v IH]; intros k; [done|].
  cbn [digits_decimal forallb]. intros [Hc Hv]%andb_true_iff.
  unfold mask_digits. rewrite fmap_cons. cbn [edges_spec].
  unfold edge_visible at 1. rewrite (proj2 (Z.ltb_ge 4 n)) by done. cbn [andb].
  pose proof (decimal_is_digit c). pose proof star_not_decimal.
  destruct (is_digit c); simpl in Hc; [rewrite Hc|]; rewrite IH by done; [done|].
  by destruct (is_decimal c); [naive_solver|].
Qed.

Lemma mask_numeric_edges_spec v :
  digits_decimal v = true →
  mask_numeric_edges v = Ok (edges_spec (count_decimals v) 0 v).
Proof.
  intros Hv. unfold mask_numeric_edges, numeric_min_digits.
  change (slen (filter _ v)) with (count_decimals v).
  destruct (Z.leb_spec (count_decimals v) 4).
  - by rewrite edges_spec_small.
  - apply (numeric_edges_loop_ok [] v); [done|lia].
Qed.
End Formats.

(** ** Properties *)

Section Properties.
Context `{U : UnicodeDB}.

Lemma star_not_digit : is_digit mask_char = false.
Proof. by rewrite ascii_digit. Qed.

Lemma edges_spec_lookup n k v i c :
  v !! i = Some c →
  edges_spec n k v !! i =
    Some (if is_digit c && negb (edge_visible n (k + count_digits (take i v)))
          then mask_char else c).
Proof.
  revert k i. induction v as [|d v IH]; intros k [|i] Hi; simplify_eq/=.
  - unfold count_digits, slen. simpl. rewrite Z.add_0_r.
    destruct (is_digit c); simpl; [|done]. by destruct (edge_visible n k).
  - rewrite count_digits_cons. destruct (is_digit d); simpl.
    + rewrite IH by done. by rewrite Z.add_assoc.
    + by rewrite IH.
Qed.

(** Digits left of [n], from the [k]-th on. *)
Lemma edges_spec_count n k v :
  0 <= k → 4 < n → k + count_digits v = n →
  count_digits (edges_spec n k v) =
    if k <=? n - 2 then Z.max 0 (2 - k) + 2 else n - k.
Proof.
  intros Hk Hn. revert k Hk. induction v as [|c v IH]; intros k Hk Hc.
  - change (count_digits []) with 0 in *. simpl. change (count_digits []) with 0.
    destruct (Z.leb_spec k (n - 2)); lia.
  - rewrite count_digits_cons in Hc. cbn [edges_spec].
    pose proof (count_digits_nonneg v).
    destruct (is_digit c) eqn:Hd; rewrite count_digits_cons.
    + rewrite (IH (k + 1)) by lia. unfold edge_visible.
      rewrite (proj2 (Z.ltb_lt 4 n)) by done. simpl.
      destruct (Z.ltb_spec k 2), (Z.leb_spec (n - 2) k); simpl;
        rewrite ?Hd, ?star_not_digit;
        destruct (Z.leb_spec (k + 1) (n - 2)), (Z.leb_spec k (n - 2)); lia.
    + rewrite Hd, IH by lia. done.
Qed.

Lemma mask_digits_count v : digits_decimal v = true → count_digits (mask_digits v) = 0.
Proof.
  induction v as [|c v IH]; [done|]. cbn [digits_decimal forallb].
  intros [Hc Hv]%andb_true_iff. unfold mask_digits. rewrite fmap_cons, count_digits_cons.
  change (_ <$> v) with (mask_digits v). rewrite IH by done.
  destruct (is_decimal c) eqn:Hd; [by rewrite star_not_digit|].
  by destruct (is_digit c).
Qed.

(** [FullMaskStrategy] hides a span: the output has the span's length,
    every letter or digit is replaced by ['*'], every other character stays
    where it was, and no letter or digit is left. *)
Theorem full_mask_hides_value (e : PIIEntity) :
  length (full_mask e) = length (value e) ∧
  (∀ i c, value e !! i = Some c →
     full_mask e !! i = Some (if is_alnum c then mask_char else c)) ∧
  forallb (λ c, negb (is_alnum c)) (full_mask e) = true.
Proof.
  unfold full_mask. split_and!; [apply length_mask_all_alnum | | apply mask_all_alnum_clean].
  intros i c Hi. unfold mask_all_alnum. by rewrite list_lookup_fmap, Hi, <-alnum_class.
Qed.

(** Numeric edge masking of a value whose digits are all decimal
    digits succeeds; position by position it keeps separators, keeps the
    first two and last two digits when there are more than four and
    replaces all other digits by ['*'], so at most four digits survive. *)
Theorem numeric_edges_keep_four (v : pystr) :
  digits_decimal v = true →
  ∃ out, mask_numeric_edges v = Ok out ∧ length out = length v ∧
    (∀ i c, v !! i = Some c →
       out !! i = Some (if is_digit c &&
                           negb (edge_visible (count_digits v) (count_digits (take i v)))
                        then mask_char else c)) ∧
    count_digits out = if 4 <? count_digits v then 4 else 0.
Proof.
  intros Hv. exists (edges_spec (count_decimals v) 0 v).
  assert (Hn : count_decimals v = count_digits v)
    by (rewrite digits_decimal_count in Hv; lia).
  split_and!; [by apply mask_numeric_edges_spec | apply edges_spec_length | |].
  - intros i c Hi. rewrite Hn. by apply edges_spec_lookup.
  - rewrite Hn. destruct (Z.ltb_spec 4 (count_digits v)).
    + rewrite edges_spec_count by lia. rewrite (proj2 (Z.leb_le 0 _)) by lia. lia.
    + rewrite edges_spec_small by done. by apply mask_digits_count.
Qed.

(** The exact failure condition of numeric edge masking.  It raises
    [IndexError] precisely when the value has more than four [\d] digits
    and some character that [str.isdigit] accepts and [\d] does not (such as
    a superscript); it raises nothing else. *)
Theorem numeric_edges_index_error (v : pystr) :
  mask_numeric_edges v =
    if count_decimals v <=? 4 then Ok (mask_digits v)
    else if digits_decimal v then Ok (edges_spec (count_decimals v) 0 v)
    else Err EIndexError.
Proof.
  unfold mask_numeric_edges, numeric_min_digits.
  change (slen (filter _ v)) with (count_decimals v).
  destruct (Z.leb_spec (count_decimals v) 4) as [?|Hlt]; [done|].
  destruct (digits_decimal v) eqn:Hv.
  - apply (numeric_edges_loop_ok [] v); done.
  - rewrite digits_decimal_count in Hv. pose proof (decimals_le_digits v).
    destruct (numeric_edges_loop_total (filter (λ c, is_decimal c = true) v) 0 v)
      as [(Herr & _)|(_ & Hle)]; [lia|done|done|].
    change (slen (filter _ v)) with (count_decimals v) in Hle. lia.
Qed.

(** An e-mail address is masked to its first login character, ["***@"]
    and the untouched domain; nothing else of the login is revealed, not
    even its length. *)
Theorem email_mask_keeps_domain (c : Z) (login domain : pystr) :
  64 ∉ c :: login →
  mask_email ((c :: login) ++ [64] ++ domain) = [c] ++ u8 "***@" ++ domain.
Proof.
  intros Hl. unfold mask_email, str_in.
  change ([64] ++ domain) with (64 :: domain).
  rewrite (find_nat_char 64 (c :: login) domain) by done.
  change (64 :: domain) with ([64] ++ domain).
  cbn [negb]. by rewrite (partition_at (c :: login) domain 64).
Qed.

Lemma word_runs_go_word cur w s :
  Forall (λ c, is_word c = true) w →
  word_runs_go cur (w ++ s) = word_runs_go (reverse w ++ cur) s.
Proof.
  revert cur. induction w as [|c w IH]; intros cur Hw; [done|].
  apply Forall_cons in Hw as [Hc Hw]. simpl. rewrite Hc, IH by done.
  by rewrite reverse_cons, <-app_assoc.
Qed.

Lemma space_not_word : is_word 32 = false.
Proof. unfold is_word. by rewrite ascii_alnum. Qed.

Lemma word_runs_join ws :
  Forall (λ w, w ≠ [] ∧ Forall (λ c, is_word c = true) w) ws →
  word_runs (join [32] ws) = ws.
Proof.
  unfold word_runs. induction ws as [|w ws IH]; [done|].
  intros [[Hne Hw] Hws]%Forall_cons.
  assert (Hrev : reverse w ≠ []) by (intros Hr; apply Hne; by rewrite <-(reverse_involutive w), Hr).
  destruct ws as [|w' ws].
  - simpl. rewrite <-(app_nil_r w) at 1. rewrite word_runs_go_word by done. simpl.
    rewrite app_nil_r, decide_False by done. by rewrite reverse_involutive.
  - change (join [32] (w :: w' :: ws)) with (w ++ [32] ++ join [32] (w' :: ws)).
    rewrite word_runs_go_word by done. cbn [app word_runs_go]. rewrite space_not_word.
    rewrite app_nil_r, decide_False by done. rewrite reverse_involutive.
    cbn [app]. f_equal. by apply IH.
Qed.

(** A full name is reduced to initials: of every word exactly the first
    character is kept, followed by a dot, whatever the words are. *)
Theorem initials_of_full_name (ws : list pystr) :
  ws ≠ [] → Forall (λ w, w ≠ [] ∧ Forall (λ c, is_word c = true) w) ws →
  mask_initials (join [32] ws) = join [32] ((λ w, take 1 w ++ [46]) <$> ws).
Proof.
  intros Hne Hws. unfold mask_initials. rewrite word_runs_join by done.
  by rewrite decide_False.
Qed.
End Properties.

(** ** The formats on the documented examples *)

Example numeric_edges_passport :
  mask_numeric_edges (u8 "4509 123456") = Ok (u8 "45** ****56").
Proof. vm_compute. reflexivity. Qed.
Example division_code_example : mask_digits (u8 "123-456") = u8 "***-***".
Proof. vm_compute. reflexivity. Qed.
Example birth_date_example : mask_all_alnum (u8 "12.03.1990") = u8 "**.**.****".
Proof. vm_compute. reflexivity. Qed.
Example superscript_raises : mask_numeric_edges (u8 "12345²") = Err EIndexError.
Proof. vm_compute. reflexivity. Qed.

(** ** Witnesses *)

Lemma numeric_edges_keep_four_witness :
  digits_decimal (u8 "4567 8901 2345 6756") = true ∧
  ∃ out, mask_numeric_edges (u8 "4567 8901 2345 6756") = Ok out ∧ count_digits out = 4.
Proof.
  split; [vm_compute; reflexivity|].
  destruct (numeric_edges_keep_four (u8 "4567 8901 2345 6756")) as (out & Hout & _ & _ & Hc);
    [vm_compute; reflexivity|].
  exists out. split; [exact Hout | exact Hc].
Defined.

Lemma email_mask_keeps_domain_witness :
  mask_email (u8 "test@example.com") = u8 "t***@example.com".
Proof.
  apply (email_mask_keeps_domain 116 (u8 "est") (u8 "example.com")).
  apply (bool_decide_eq_true_1 (64 ∉ _)). vm_compute. reflexivity.
Defined.

Lemma initials_of_full_name_witness :
  mask_initials (u8 "Иванов Иван Иванович") = u8 "И. И. И.".
Proof.
  apply (initials_of_full_name [u8 "Иванов"; u8 "Иван"; u8 "Иванович"]); [done|].
  repeat (apply Forall_cons; split; [split; [done | repeat constructor]|]). constructor.
Defined.

(** ** Characters of a replacement *)

(** Every strategy writes only characters of the value, ASCII characters and
    its token. *)
Section ReplacementChars.
Context `{U : UnicodeDB} {R : Type} `{!TokenSource R}.
Context (P : Z → Prop) (P_ascii : ∀ c, 0 <= c < 128 → P c).
Context (P_token : ∀ n r, Forall P (token_hex (R := R) n r).1).

Lemma literal_chars s : forallb (λ c, (0 <=? c) && (c <? 128)) s = true → Forall P s.
Proof using P_ascii.
  intros Hs. rewrite forallb_forall in Hs. apply Forall_forall. intros c Hc%list_elem_of_In.
  apply P_ascii. apply Hs, andb_true_iff in Hc. lia.
Qed.

Lemma mask_fmap_chars (f : Z → bool) v :
  Forall P v → Forall P ((λ c, if f c then mask_char else c) <$> v).
Proof using P_ascii.
  intros Hv. apply Forall_fmap. eapply Forall_impl; [exact Hv|]. intros c Hc. simpl.
  case_match; [by apply P_ascii|done].
Qed.

Lemma numeric_edges_chars ds n i v s :
  Forall P ds → Forall P v → numeric_edges_loop ds n i v = Ok s → Forall P s.
Proof using P_ascii.
  intros Hds Hv. revert i s. induction Hv as [|c v Hc Hv IH]; intros i s; cbn [numeric_edges_loop].
  - by intros [= <-].
  - case_match.
    + intros (out & Hout & (rest & Hrest & [= <-])%bind_Ok)%bind_Ok.
      constructor; [|by eapply IH]. case_match.
      * apply result_of_option_Ok in Hout. rewrite Forall_lookup in Hds. by eapply Hds.
      * injection Hout as <-. by apply P_ascii.
    + intros (rest & Hrest & [= <-])%bind_Ok. constructor; [done|by eapply IH].
Qed.

Lemma word_runs_chars cur s w : Forall P cur → Forall P s → w ∈ word_runs_go cur s → Forall P w.
Proof using U.
  revert cur. induction s as [|c s IH]; intros cur Hcur Hs; cbn [word_runs_go].
  - case_decide; [by intros ?%elem_of_nil|]. intros ->%list_elem_of_singleton. by apply Forall_reverse.
  - apply Forall_cons in Hs as [Hc Hs]. case_match; [apply IH; [by constructor|done]|].
    intros [Hw|Hw]%elem_of_app; [|by eapply (IH [])].
    case_decide; [by apply elem_of_nil in Hw|]. apply list_elem_of_singleton in Hw as ->. by apply Forall_reverse.
Qed.

Lemma join_chars sep parts : Forall P sep → Forall (Forall P) parts → Forall P (join sep parts).
Proof.
  intros Hsep. induction 1 as [|p parts Hp Hparts IH]; [constructor|].
  destruct parts as [|q parts]; [done|].
  change (join sep (p :: q :: parts)) with (p ++ sep ++ join sep (q :: parts)).
  rewrite !Forall_app. done.
Qed.

Lemma initials_chars v : Forall P v → Forall P (mask_initials v).
Proof using P_ascii.
  intros Hv. unfold mask_initials. case_decide; [done|].
  apply join_chars; [by repeat constructor; apply P_ascii|]. apply Forall_fmap, Forall_forall.
  intros w Hw. unfold word_runs in Hw. apply word_runs_chars in Hw; [|constructor|done].
  simpl. unfold initial. apply Forall_app. split; [by apply Forall_take|]. by repeat constructor; apply P_ascii.
Qed.

Lemma email_chars v : Forall P v → Forall P (mask_email v).
Proof using P_ascii.
  intros Hv. unfold mask_email. case_match; [by apply mask_fmap_chars|].
  unfold partition. destruct (find_nat [64] v) as [i|].
  - assert (Hdom : Forall P (drop (i + length [64]) v)) by by apply Forall_drop.
    assert (Hlog : Forall P (take i v)) by by apply Forall_take.
    destruct (take i v) as [|c login]; rewrite !Forall_app; split_and!; try done.
    all: try (by repeat constructor; apply P_ascii).
    apply Forall_cons in Hlog as [? _]. by repeat constructor.
  - destruct v as [|c v]; rewrite !Forall_app; split_and!; try constructor.
    all: try (by repeat constructor; apply P_ascii).
    all: try (apply Forall_cons in Hv as [? _]; by repeat constructor).
Qed.

Lemma partial_chars e s : Forall P (value e) → partial_mask e = Ok s → Forall P s.
Proof using P_ascii.
  intros Hv. unfold partial_mask. repeat case_decide.
  - intros [= <-]. by apply initials_chars.
  - unfold mask_numeric_edges. case_match; [intros [= <-]; by apply mask_fmap_chars|].
    apply numeric_edges_chars; [|done]. apply Forall_forall.
    intros c [_ Hc]%list_elem_of_filter. rewrite Forall_forall in Hv. auto.
  - intros [= <-]. by apply mask_fmap_chars.
  - intros [= <-]. by apply email_chars.
  - intros [= <-]. by apply mask_fmap_chars.
Qed.

Lemma strategy_chars strategy e r s r' :
  Forall P (value e) → strategy_mask strategy e r = (Ok s, r') → Forall P s.
Proof using P_ascii P_token.
  intros Hv. assert (Ht : ∀ t, Forall P (pii_value t))
    by (intros t; apply literal_chars; by destruct t).
  destruct strategy; cbn [strategy_mask].
  - intros [= <- _]. by apply mask_fmap_chars.
  - intros [= Hs _]. by eapply partial_chars.
  - unfold tokenize_mask. pose proof (P_token 8 r). destruct (token_hex 8 r) as [tok r1].
    intros Hs%(f_equal fst)%(inj Ok). subst s. rewrite !Forall_app.
    split_and!; try done; by apply literal_chars.
  - unfold synthetic_mask. pose proof (P_token 8 r). destruct (token_hex 8 r) as [tok r1].
    intros Hs%(f_equal fst)%(inj Ok). subst s. rewrite !Forall_app.
    split_and!; try done; by apply literal_chars.
Qed.
End ReplacementChars.
