(* ===== verification/Masking.v ===== *)
(** * Masking engine ([app/masking/engine.py])

    [MaskingEngine.mask] selects non-overlapping valid spans, decides per type
    whether the consumer's context rules let it be masked, and rebuilds the
    text from the gaps between the spans and the strategies' replacements.
    Spans and rules it drops are named in warnings. *)

From S2P Require Import Prelude Unicode Domain PyStr Logging Strategies.

(** [logger.warning(message, args...)]. *)
Definition engine_warning (message : pystr) (args : list pyobj) : log_record :=
  mkLogRecord (u8 "WARNING") (u8 "pii_security_proxy.masking.engine") message args [] None.

(** A step of the engine that logs and has no other effect. *)
Abbreviation engineM := (stateM (list log_record) exn).

(** [MaskingResult] (without its timing field). *)
Record MaskingResult := mkMaskingResult {
  masked_text : pystr;
  mr_entities : list PIIEntity;
  mappings : list (pystr * pystr)
}.

(** ** Span selection *)

(** The two guards of [_select_spans], and what they log. *)
Definition check_span (text : pystr) (e : PIIEntity) : option log_record :=
  if (start e <? 0) || (slen text <? end_ e) || (end_ e <=? start e) then
    Some (engine_warning (u8 "dropping invalid span type=%s") [OStr (pii_value (pii_type e))])
  else if negb (bool_decide (slice text (start e) (end_ e) = value e)) then
    Some (engine_warning (u8 "dropping mismatched span type=%s") [OStr (pii_value (pii_type e))])
  else None.

Definition span_valid (text : pystr) (e : PIIEntity) : bool := bool_decide (check_span text e = None).

(** The loop that collects the valid spans. *)
Fixpoint valid_spans (text : pystr) (entities valid : list PIIEntity) : engineM (list PIIEntity) :=
  match entities with
  | [] => sret valid
  | e :: entities =>
      match check_span text e with
      | Some warning => _ <-- warn warning tt; valid_spans text entities valid
      | None => valid_spans text entities (valid ++ [e])
      end
  end.

Definition span_key_leb (a b : PIIEntity) : bool :=
  lex_leb (start a, - (end_ a - start a)) (start b, - (end_ b - start b)).

Definition select_step (selected : list PIIEntity) (e : PIIEntity) : list PIIEntity :=
  match last selected with
  | Some p => if start e <? end_ p then selected else selected ++ [e]
  | None => selected ++ [e]
  end.

Definition _select_spans (text : pystr) (entities : list PIIEntity) : engineM (list PIIEntity) :=
  valid <-- valid_spans text entities [];
  sret (fold_left select_step (sorted_by span_key_leb valid) []).

(** What [_select_spans] returns, and what it logs ([_select_spans_eq]). *)
Definition select_spans (text : pystr) (entities : list PIIEntity) : list PIIEntity :=
  fold_left select_step
    (sorted_by span_key_leb (filter (λ e, span_valid text e = true) entities)) [].
Definition span_warnings (text : pystr) (entities : list PIIEntity) : list log_record :=
  omap (check_span text) entities.

(** ** Context rules *)

Abbreviation rule_map := (list (PIIType * gset PIIType)).

(** [CONTEXT_REQUIRES]. *)
Definition CONTEXT_REQUIRES : rule_map := [].

(** [rule.get(key, default)]; anything but a dict has no [get]. *)
Definition obj_get (rule : pyobj) (key : pystr) (dflt : pyobj) : result exn pyobj :=
  match rule with
  | ODict d => Ok (default dflt (dict_get key d))
  | _ => Err EAttributeError
  end.

(** [None] when the rule is skipped. *)
Definition _parse_rule_type (rule : pyobj) : engineM (option PIIType) :=
  raw_type <-- slift (obj_get rule (u8 "type") ONone);
  match raw_type with
  | OStr _ =>
      match PIIType_of raw_type with
      | Some t => sret (Some t)
      | None => warn (engine_warning (u8 "context rule has unknown PII type %r; skipped") [raw_type]) None
      end
  | _ => warn (engine_warning (u8 "context rule missing 'type'; skipped") []) None
  end.

(** The loop of [_parse_required_types]. *)
Fixpoint required_types (raw_required : list pyobj) (raw_type : pystr) (required : gset PIIType)
    : engineM (option (gset PIIType)) :=
  match raw_required with
  | [] => sret (Some required)
  | raw_req :: rest =>
      match PIIType_of raw_req with
      | Some t => required_types rest raw_type ({[t]} ∪ required)
      | None =>
          warn (engine_warning (u8 "context rule for %s has unknown required type %r; skipped")
                  [OStr raw_type; raw_req]) None
      end
  end.

Definition _parse_required_types (raw_required : pyobj) (raw_type : pystr) : engineM (option (gset PIIType)) :=
  match raw_required with
  | OList (r :: rs) => required_types (r :: rs) raw_type ∅
  | _ => warn (engine_warning (u8 "context rule for %s has no 'requires' list; skipped") [OStr raw_type]) None
  end.

(** [for x in o]. *)
Definition py_iter (o : pyobj) : result exn (list pyobj) :=
  match o with
  | OList l => Ok l
  | ODict d => Ok ((λ kv, OStr kv.1) <$> d)
  | OStr s => Ok ((λ c, OStr [c]) <$> s)
  | _ => Err ETypeError
  end.

(** One iteration of the loop of [_resolve_context_rules]. *)
Definition resolve_rule (rules : rule_map) (rule : pyobj) : engineM rule_map :=
  pii_type <-- _parse_rule_type rule;
  match pii_type with
  | None => sret rules
  | Some t =>
      enabled <-- slift (obj_get rule (u8 "enabled") (OBool true));
      match enabled with
      | OBool false => sret (dict_set t ∅ rules)
      | _ =>
          requires <-- slift (obj_get rule (u8 "requires") ONone);
          required <-- _parse_required_types requires (pii_value t);
          match required with
          | Some required => sret (dict_set t required rules)
          | None => sret rules
          end
      end
  end.

Fixpoint resolve_rules (rules : rule_map) (l : list pyobj) : engineM rule_map :=
  match l with
  | [] => sret rules
  | rule :: l => rules <-- resolve_rule rules rule; resolve_rules rules l
  end.

Definition _resolve_context_rules (context_rules : pyobj) : engineM rule_map :=
  if negb (truthy context_rules) then sret CONTEXT_REQUIRES
  else
    l <-- slift (py_iter context_rules);
    rules <-- resolve_rules [] l;
    sret (match rules with [] => CONTEXT_REQUIRES | _ => rules end).

(** What it returns or raises, and what it logs. *)
Definition resolve_context_rules (context_rules : pyobj) : result exn rule_map :=
  (_resolve_context_rules context_rules []).1.
Definition rule_warnings (context_rules : pyobj) : list log_record := (_resolve_context_rules context_rules []).2.

(** [_context_allows]. *)
Definition context_allows (t : PIIType) (present_types : gset PIIType) (rules : rule_map)
    : bool :=
  match dict_get t rules with
  | None => true
  | Some required =>
      bool_decide (required = ∅) || negb (bool_decide (required ∩ present_types = ∅))
  end.

(** ** Rebuilding the text *)

Section Mask.
Context `{U : UnicodeDB} {R : Type} `{!TokenSource R, !Logger R}.

(** A step of the engine in the state of its caller, which has the logger. *)
Definition engine_step {A} (m : engineM A) : stateM R exn A := λ r,
  let '(result, warnings) := m [] in (result, emit_all warnings r).

Definition strategy_for (strategy_by_type : list (PIIType * MaskingStrategyEnum))
    (t : PIIType) : MaskingStrategyEnum :=
  default FULL_MASK (dict_get t strategy_by_type).

(** The loop of [mask] over the ordered spans. *)
Fixpoint mask_loop (text : pystr) (present_types : gset PIIType) (rules : rule_map)
    (strategy_by_type : list (PIIType * MaskingStrategyEnum)) (ordered : list PIIEntity)
    (pieces : list pystr) (mappings : list (pystr * pystr)) (cursor : Z)
    : stateM R exn (list pystr * list (pystr * pystr) * Z) :=
  match ordered with
  | [] => sret (pieces, mappings, cursor)
  | entity :: ordered =>
      if negb (context_allows (pii_type entity) present_types rules)
      then mask_loop text present_types rules strategy_by_type ordered
             pieces mappings cursor
      else
        replacement <-- strategy_mask (strategy_for strategy_by_type (pii_type entity)) entity;
        mask_loop text present_types rules strategy_by_type ordered
          (pieces ++ [slice text cursor (start entity); replacement])
          (mappings ++ [(replacement, value entity)])
          (end_ entity)
  end.

Definition start_leb (a b : PIIEntity) : bool := start a <=? start b.

Definition types_of (l : list PIIEntity) : gset PIIType := list_to_set (pii_type <$> l).

(** [MaskingEngine.mask]. *)
Definition mask (text : pystr) (entities : list PIIEntity)
    (strategy_by_type : list (PIIType * MaskingStrategyEnum)) (context_rules : pyobj)
    : stateM R exn MaskingResult :=
  valid <-- engine_step (_select_spans text entities);
  rules <-- engine_step (_resolve_context_rules context_rules);
  let present_types := types_of valid in
  let ordered := sorted_by start_leb valid in
  out <-- mask_loop text present_types rules strategy_by_type ordered [] [] 0;
  let '(pieces, mappings, cursor) := out in
  sret (mkMaskingResult (join [] (pieces ++ [slice_from text cursor])) valid mappings).
End Mask.

(** ** Facts about span selection *)

Lemma valid_spans_eq text entities valid ls :
  valid_spans text entities valid ls =
    (Ok (valid ++ filter (λ e, span_valid text e = true) entities), ls ++ span_warnings text entities).
Proof.
  revert valid ls. induction entities as [|e entities IH]; intros valid ls; cbn [valid_spans].
  { unfold span_warnings. cbn. by rewrite !app_nil_r. }
  unfold span_warnings, span_valid in *. rewrite filter_cons. cbn [omap list_omap].
  destruct (check_span text e) as [w|] eqn:Hc.
  - rewrite decide_False by (by rewrite bool_decide_eq_false_2). unfold sbind, warn, emit, list_logger.
    rewrite IH. by rewrite <-app_assoc.
  - rewrite decide_True by (by rewrite bool_decide_eq_true_2). rewrite IH. by rewrite <-app_assoc.
Qed.

Lemma _select_spans_eq text entities :
  _select_spans text entities [] = (Ok (select_spans text entities), span_warnings text entities).
Proof. unfold _select_spans, sbind. rewrite valid_spans_eq. done. Qed.

Definition disjoint_sorted (l : list PIIEntity) : Prop :=
  StronglySorted (λ a b, end_ a <= start b) l.

(** [e] is a non-empty span of [text] holding its recorded value. *)
Definition span_ok (text : pystr) (e : PIIEntity) : Prop :=
  0 <= start e ∧ start e < end_ e ∧ end_ e <= slen text ∧
  slice text (start e) (end_ e) = value e.

Lemma span_valid_spec text e : span_valid text e = true ↔ span_ok text e.
Proof.
  unfold span_valid, span_ok, check_span. rewrite bool_decide_eq_true.
  destruct (_ || _) eqn:Hb; [split; [done|intros (? & ? & ? & ?); exfalso; lia]|].
  rewrite !orb_false_iff in Hb. destruct Hb as [[? ?] ?].
  destruct (bool_decide_reflect (slice text (start e) (end_ e) = value e)); cbn [negb]; split; try done.
  - intros _. split_and!; done || lia.
  - by intros (? & ? & ? & ?).
Qed.

(** Nothing is said about valid spans. *)
Lemma span_warnings_none text l : Forall (span_ok text) l → span_warnings text l = [].
Proof.
  induction 1 as [|e l He _ IH]; [done|]. apply span_valid_spec in He. unfold span_valid in He.
  apply bool_decide_eq_true in He. unfold span_warnings in *. cbn [omap list_omap]. by rewrite He.
Qed.

Lemma span_key_total a b : span_key_leb a b = true ∨ span_key_leb b a = true.
Proof. apply lex_leb_total. Qed.
Lemma span_key_trans a b c :
  span_key_leb a b = true → span_key_leb b c = true → span_key_leb a c = true.
Proof. apply lex_leb_trans. Qed.
Lemma span_key_start a b : span_key_leb a b = true → start a <= start b.
Proof. unfold span_key_leb. rewrite lex_leb_spec. simpl. lia. Qed.

Lemma select_step_cases acc e :
  (∃ p, last acc = Some p ∧ start e < end_ p ∧ select_step acc e = acc) ∨
  ((∀ p, last acc = Some p → end_ p <= start e) ∧ select_step acc e = acc ++ [e]).
Proof.
  unfold select_step. destruct (last acc) as [p|]; [|right; naive_solver].
  destruct (Z.ltb_spec (start e) (end_ p)); [left; eauto|].
  right. split; [|done]. by intros ? [= <-].
Qed.

(** The last span of a disjoint sorted list ends last. *)
Lemma disjoint_sorted_last text l p e :
  Forall (span_ok text) l → disjoint_sorted l → last l = Some p → e ∈ l → end_ e <= end_ p.
Proof.
  intros Hok Hs Hl He. apply last_Some in Hl as [l' ->].
  apply StronglySorted_snoc in Hs as [_ Hp]. rewrite Forall_forall in Hp, Hok.
  apply elem_of_app in He as [He|He%list_elem_of_singleton]; [|by subst].
  specialize (Hp e He). destruct (Hok p) as (? & ? & _); [set_solver|]. lia.
Qed.

Section Select.
Context (text : pystr).

(** Everything the greedy pass guarantees, for any accumulator. *)
Lemma select_fold_spec l acc :
  Forall (span_ok text) (acc ++ l) → disjoint_sorted acc →
  StronglySorted (λ a b, start a <= start b) l →
  (∀ p e, p ∈ acc → e ∈ l → start p <= start e) →
  let out := fold_left select_step l acc in
  disjoint_sorted out ∧ (∀ e, e ∈ acc → e ∈ out) ∧ (∀ e, e ∈ out → e ∈ acc ++ l) ∧
  (∀ e, e ∈ l → e ∈ out ∨ ∃ p, p ∈ out ∧ start p <= start e < end_ p).
Proof.
  revert acc. induction l as [|e l IH]; intros acc Hok Hacc Hl Hle; cbn [fold_left].
  { rewrite app_nil_r. split_and!; [done|done|done|set_solver]. }
  inversion_clear Hl as [|?? Hl' He]. rewrite Forall_forall in He.
  destruct (select_step_cases acc e) as [(p & Hp & Hlt & ->)|[Hend ->]].
  - destruct (IH acc) as (Hd & Hin & Hout & Hcov); [| |done|..].
    + rewrite Forall_forall in Hok |- *. set_solver.
    + done.
    + set_solver.
    + split_and!; [done|done|set_solver|]. intros e' [He'|He']%elem_of_cons; [subst e'|by apply Hcov].
      right. apply last_Some in Hp as Hp'. destruct Hp' as [acc' ->].
      exists p. split; [apply Hin; set_solver|]. split; [apply Hle; set_solver|done].
  - destruct (IH (acc ++ [e])) as (Hd & Hin & Hout & Hcov); [| |done|..].
    + by rewrite <-app_assoc.
    + apply StronglySorted_snoc. split; [done|]. apply Forall_forall. intros q Hq.
      destruct (last acc) as [p|] eqn:Hp; [|by apply last_None in Hp as ->; set_solver].
      transitivity (end_ p); [|by apply Hend].
      apply Forall_app in Hok as [Hok _]. by eapply disjoint_sorted_last.
    + intros p q Hp Hq. apply elem_of_app in Hp as [Hp|Hp%list_elem_of_singleton]; [|subst; by apply He].
      apply Hle; set_solver.
    + split_and!; [done|set_solver|set_solver|]. intros e' [He'|He']%elem_of_cons; [subst e'|by apply Hcov].
      left. apply Hin. set_solver.
Qed.

Lemma select_spans_spec entities :
  let out := select_spans text entities in
  disjoint_sorted out ∧ Forall (λ e, e ∈ entities ∧ span_ok text e) out ∧
  (∀ e, e ∈ entities → span_ok text e →
     e ∈ out ∨ ∃ p, p ∈ out ∧ start p <= start e < end_ p).
Proof.
  cbv zeta. unfold select_spans. set (l := sorted_by _ _).
  assert (Hin : ∀ e, e ∈ l ↔ e ∈ entities ∧ span_ok text e).
  { intros e. unfold l. rewrite elem_of_sorted_by, list_elem_of_filter, span_valid_spec. naive_solver. }
  destruct (select_fold_spec l []) as (Hd & _ & Hout & Hcov).
  - apply Forall_forall. intros e He. by apply Hin.
  - constructor.
  - eapply StronglySorted_impl; [|apply sorted_by_sorted];
      [exact span_key_start | exact span_key_total | exact span_key_trans].
  - set_solver.
  - split_and!; [done| |].
    + apply Forall_forall. intros e He. by apply Hin, Hout.
    + intros e He Hok. apply Hcov, Hin. done.
Qed.

(** A list that is already disjoint, sorted and valid is selected whole. *)
Lemma select_fold_id l acc :
  disjoint_sorted (acc ++ l) → fold_left select_step l acc = acc ++ l.
Proof.
  revert acc. induction l as [|e l IH]; intros acc Hd; cbn [fold_left]; [by rewrite app_nil_r|].
  destruct (select_step_cases acc e) as [(p & Hp & Hlt & _)|[_ ->]].
  - exfalso. apply last_Some in Hp as [acc' ->].
    apply (StronglySorted_app_1_elem_of _ _ _ p e) in Hd; [simpl in Hd; lia|set_solver|set_solver].
  - rewrite (IH (acc ++ [e])); rewrite <-app_assoc; done.
Qed.
End Select.

Lemma select_spans_id text l :
  Forall (span_ok text) l → disjoint_sorted l → select_spans text l = l.
Proof.
  intros Hok Hd. unfold select_spans.
  assert (filter (λ e, span_valid text e = true) l = l) as ->.
  { induction Hok as [|e l He Hok IH]; [done|]. inversion_clear Hd as [|?? Hd' _].
    rewrite filter_cons, decide_True by (by apply span_valid_spec). by rewrite IH. }
  rewrite sorted_by_id; [by apply (select_fold_id l [])|].
  induction Hd as [|e l Hd IH He]; constructor.
  - inversion_clear Hok. by apply IH.
  - apply Forall_cons in Hok as [(? & ? & _) Hok].
    rewrite Forall_forall in He, Hok |- *. intros x Hx.
    specialize (He x Hx). destruct (Hok x Hx) as (? & ? & _).
    unfold span_key_leb. apply lex_leb_spec. simpl. lia.
Qed.

(** Sorting the selection by start changes nothing. *)
Lemma sorted_selection text l :
  Forall (span_ok text) l → disjoint_sorted l → sorted_by start_leb l = l.
Proof.
  intros Hok Hd. apply sorted_by_id.
  induction Hd as [|e l Hd IH He]; constructor.
  - inversion_clear Hok. by apply IH.
  - apply Forall_cons in Hok as [(? & ? & _) Hok].
    rewrite Forall_forall in He |- *. intros x Hx.
    specialize (He x Hx). unfold start_leb. simpl in *. lia.
Qed.

(** ** The masked text as a sequence of segments *)

(** A gap of untouched text, then a masked span. *)
Record segment := mkSegment { gap : pystr; repl : pystr; orig : pystr }.

Fixpoint plain_of (segs : list segment) : pystr :=
  match segs with [] => [] | s :: segs => gap s ++ orig s ++ plain_of segs end.
Fixpoint masked_of (segs : list segment) : pystr :=
  match segs with [] => [] | s :: segs => gap s ++ repl s ++ masked_of segs end.

(** Where the spans lie in the plain text, the first gap starting at [base]. *)
Fixpoint spans_of (base : Z) (segs : list segment) : list (Z * Z) :=
  match segs with
  | [] => []
  | s :: segs =>
      let a := base + slen (gap s) in
      let b := a + slen (orig s) in
      (a, b) :: spans_of b segs
  end.

Definition pair_of (s : segment) : pystr * pystr := (repl s, orig s).
Definition span_of (e : PIIEntity) : Z * Z := (start e, end_ e).

Section Segments.
Context `{U : UnicodeDB} {R : Type} `{!TokenSource R}.
Context (text : pystr) (present : gset PIIType) (rules : rule_map).
Context (strat : list (PIIType * MaskingStrategyEnum)).

Definition allowed (l : list PIIEntity) : list PIIEntity :=
  filter (λ e, context_allows (pii_type e) present rules = true) l.

Lemma mask_loop_segments ordered pieces maps cursor r pieces' maps' cursor' r' :
  Forall (span_ok text) ordered → disjoint_sorted ordered →
  0 <= cursor <= slen text → Forall (λ e, cursor <= start e) ordered →
  mask_loop text present rules strat ordered pieces maps cursor r
    = (Ok (pieces', maps', cursor'), r') →
  ∃ segs,
    join [] pieces' = join [] pieces ++ masked_of segs ∧
    maps' = maps ++ (pair_of <$> segs) ∧
    slice_from text cursor = plain_of segs ++ slice_from text cursor' ∧
    spans_of cursor segs = span_of <$> allowed ordered ∧
    orig <$> segs = value <$> allowed ordered ∧
    Forall2 (λ s e, ∃ r1 r2, strategy_mask (strategy_for strat (pii_type e)) e r1
                             = (Ok (repl s), r2)) segs (allowed ordered).
Proof.
  revert pieces maps cursor r. induction ordered as [|e ordered IH];
    intros pieces maps cursor r Hok Hd Hcur Hle; cbn [mask_loop].
  { intros [= <- <- <- <-]. exists []. simpl. rewrite !app_nil_r. split_and!; done || constructor. }
  apply Forall_cons in Hok as [(? & ? & ? & Hval) Hok].
  apply Forall_cons in Hle as [Hle1 Hle].
  inversion_clear Hd as [|?? Hd' He].
  unfold allowed. rewrite filter_cons.
  destruct (context_allows _ _ _) eqn:Hctx; cbn [negb].
  - rewrite decide_True by done.
    intros (replacement & r1 & Hrep & Hloop)%sbind_Ok.
    apply IH in Hloop as (segs & Hj & -> & Hpl & Hsp & Hor & Hf); [|done|done|lia|done].
    exists (mkSegment (slice text cursor (start e)) replacement (value e) :: segs).
    cbn [masked_of plain_of spans_of gap repl orig]. rewrite !fmap_cons.
    assert (Hlen : slen (value e) = end_ e - start e) by (rewrite <-Hval; apply slen_slice; lia).
    rewrite Hlen, slen_slice by lia.
    replace (cursor + (start e - cursor) + (end_ e - start e)) with (end_ e) by lia.
    replace (cursor + (start e - cursor)) with (start e) by lia.
    split_and!.
    + rewrite Hj, !join_nil_concat, concat_app. simpl. by rewrite app_nil_r, <-!app_assoc.
    + rewrite <-app_assoc. reflexivity.
    + rewrite <-!app_assoc, <-Hpl, <-Hval, !slice_from_join by lia. reflexivity.
    + rewrite Hsp. reflexivity.
    + rewrite Hor. reflexivity.
    + constructor; [eauto|exact Hf].
  - rewrite decide_False by congruence. intros Hloop.
    by apply IH in Hloop.
Qed.
End Segments.

(** ** Facts about segments *)

Lemma spans_of_bound base segs p : p ∈ spans_of base segs → base <= p.1 ∧ p.1 <= p.2.
Proof.
  revert base. induction segs as [|s segs IH]; intros base; [by intros ?%elem_of_nil|].
  cbn [spans_of]. pose proof (slen_nonneg (gap s)). pose proof (slen_nonneg (orig s)).
  intros [->|Hp]%elem_of_cons; [simpl; lia|]. apply IH in Hp. lia.
Qed.

(** Replace the characters [a..b) of [t] by [r]. *)
Definition splice (t : pystr) (x : Z * Z * pystr) : pystr :=
  let '(a, b, r) := x in slice t 0 a ++ r ++ slice_from t b.

(** The reference masking: replacements applied one at a time, the rightmost
    first, so that the offsets still to be used stay valid. *)
Definition splice_right_to_left (t : pystr) (xs : list (Z * Z * pystr)) : pystr :=
  foldr (λ x t, splice t x) t xs.

Lemma splice_mid pre mid post r :
  splice (pre ++ mid ++ post) (slen pre, slen pre + slen mid, r) = pre ++ r ++ post.
Proof.
  pose proof (slen_nonneg pre). pose proof (slen_nonneg mid). pose proof (slen_nonneg post).
  unfold splice, slice_from.
  rewrite !slice_in_bounds by (rewrite ?slen_app; lia).
  unfold slice_spec_def, slen in *. rewrite !length_app.
  rewrite drop_0, take_app_length' by lia. f_equal. f_equal.
  rewrite app_assoc, drop_app_length' by (rewrite length_app; lia).
  apply take_ge. lia.
Qed.

Lemma splice_segments base pre segs tail :
  slen pre = base →
  splice_right_to_left (pre ++ plain_of segs ++ tail)
    (zip_with (λ ab m, (ab, m.1)) (spans_of base segs) (pair_of <$> segs))
  = pre ++ masked_of segs ++ tail.
Proof.
  revert base pre. induction segs as [|s segs IH]; intros base pre Hpre; [done|].
  cbn [plain_of masked_of spans_of]. rewrite fmap_cons. cbn [zip_with].
  set (a := base + slen (gap s)). set (b := a + slen (orig s)).
  specialize (IH b (pre ++ gap s ++ orig s)).
  unfold splice_right_to_left in *. cbn [foldr].
  rewrite <-!app_assoc in IH. rewrite <-!app_assoc, IH; [|rewrite !slen_app; lia].
  replace (pre ++ gap s ++ orig s ++ masked_of segs ++ tail)
    with ((pre ++ gap s) ++ orig s ++ (masked_of segs ++ tail)) by (by rewrite <-!app_assoc).
  assert (Ha : a = slen (pre ++ gap s)) by (rewrite slen_app; lia).
  unfold b. rewrite Ha, splice_mid. by rewrite <-!app_assoc.
Qed.

(** Is position [i] inside one of the spans? *)
Definition covered (spans : list (Z * Z)) (i : Z) : bool :=
  existsb (λ '(a, b), (a <=? i) && (i <? b)) spans.

Lemma covered_before spans i base :
  (∀ p, p ∈ spans → base <= p.1) → i < base → covered spans i = false.
Proof.
  intros Hs Hi. apply not_true_is_false. unfold covered.
  rewrite existsb_exists. intros ([a b] & Hin%list_elem_of_In & [? ?]%andb_true_iff).
  specialize (Hs _ Hin). simpl in Hs. lia.
Qed.

Section FullMask.
Context `{U : UnicodeDB}.

Definition fully_masked (segs : list segment) : Prop :=
  Forall (λ s, repl s = mask_all_alnum (orig s)) segs.

Lemma full_mask_length segs tail :
  fully_masked segs → length (masked_of segs ++ tail) = length (plain_of segs ++ tail).
Proof.
  unfold fully_masked. rewrite !length_app. induction 1 as [|s segs Hr Hs IH]; [done|].
  cbn [masked_of plain_of]. rewrite Hr, !length_app, length_mask_all_alnum. lia.
Qed.

(** If every replacement is the full mask of its span, the masked text is the
    plain text with the covered letters and digits turned into ['*']. *)
Lemma full_mask_segments base segs tail i c :
  fully_masked segs →
  (plain_of segs ++ tail) !! i = Some c →
  (masked_of segs ++ tail) !! i =
    Some (if covered (spans_of base segs) (base + Z.of_nat i) && is_alnum c
          then mask_char else c).
Proof.
  intros Hs. revert base i. induction Hs as [|s segs Hr Hs IH]; intros base i; [done|].
  cbn [masked_of plain_of spans_of]. rewrite <-!app_assoc, Hr.
  cbn [covered existsb]. fold (covered (spans_of (base + slen (gap s) + slen (orig s)) segs)
                                  (base + Z.of_nat i)).
  assert (Hlater : ∀ p, p ∈ spans_of (base + slen (gap s) + slen (orig s)) segs →
            base + slen (gap s) + slen (orig s) <= p.1)
    by (intros p Hp; apply spans_of_bound in Hp; lia).
  destruct (decide (i < length (gap s))%nat) as [Hg|Hg].
  { rewrite !(lookup_app_l (gap s)) by done. intros ->.
    rewrite (covered_before _ _ _ Hlater) by (unfold slen; lia).
    replace (base + slen (gap s) <=? base + Z.of_nat i) with false; [done|].
    symmetry. apply Z.leb_gt. unfold slen. lia. }
  rewrite !(lookup_app_r (gap s)) by lia.
  destruct (decide (i - length (gap s) < length (orig s))%nat) as [Ho|Ho].
  { rewrite (lookup_app_l (orig s)), (lookup_app_l (mask_all_alnum _))
      by (rewrite ?length_mask_all_alnum; lia). intros Hi.
    unfold mask_all_alnum. rewrite list_lookup_fmap, Hi. cbn [fmap option_fmap option_map].
    rewrite alnum_class. replace (base + slen (gap s) <=? base + Z.of_nat i) with true
      by (symmetry; apply Z.leb_le; unfold slen; lia).
    replace (base + Z.of_nat i <? base + slen (gap s) + slen (orig s)) with true
      by (symmetry; apply Z.ltb_lt; unfold slen; lia).
    done. }
  rewrite (lookup_app_r (orig s)), (lookup_app_r (mask_all_alnum _))
    by (rewrite ?length_mask_all_alnum; lia).
  rewrite length_mask_all_alnum. intros Hi.
  rewrite (IH (base + slen (gap s) + slen (orig s)) _ Hi).
  replace (base + Z.of_nat i <? base + slen (gap s) + slen (orig s)) with false
    by (symmetry; apply Z.ltb_ge; unfold slen; lia).
  rewrite andb_false_r. cbn [orb].
  replace (base + slen (gap s) + slen (orig s)
           + Z.of_nat (i - length (gap s) - length (orig s)))
    with (base + Z.of_nat i) by (unfold slen; lia).
  done.
Qed.
End FullMask.

(** ** Properties *)

Section Properties.
Context `{U : UnicodeDB} {R : Type} `{!TokenSource R, !Logger R}.

(** The spans [mask] replaces: the selected ones whose type the context
    rules allow. *)
Definition masked_entities (text : pystr) (entities : list PIIEntity) (rules : rule_map)
    : list PIIEntity :=
  allowed (types_of (select_spans text entities)) rules (select_spans text entities).

Lemma select_spans_ok text entities :
  Forall (span_ok text) (select_spans text entities) ∧
  disjoint_sorted (select_spans text entities).
Proof.
  destruct (select_spans_spec text entities) as (Hd & Hok & _). split; [|done].
  eapply Forall_impl; [exact Hok|]. by intros e [_ ?].
Qed.

Lemma step_select_spans text entities (r : R) :
  engine_step (_select_spans text entities) r =
    (Ok (select_spans text entities), emit_all (span_warnings text entities) r).
Proof. unfold engine_step. by rewrite _select_spans_eq. Qed.

Lemma step_context_rules context_rules (r : R) :
  engine_step (_resolve_context_rules context_rules) r =
    (resolve_context_rules context_rules, emit_all (rule_warnings context_rules) r).
Proof. unfold engine_step, resolve_context_rules, rule_warnings. by destruct (_resolve_context_rules _ _). Qed.

(** What a successful call computes, as segments. *)
Lemma mask_segments text entities strat context_rules r res r' :
  mask text entities strat context_rules r = (Ok res, r') →
  ∃ rules segs tail,
    resolve_context_rules context_rules = Ok rules ∧
    mr_entities res = select_spans text entities ∧
    text = plain_of segs ++ tail ∧
    masked_text res = masked_of segs ++ tail ∧
    mappings res = pair_of <$> segs ∧
    spans_of 0 segs = span_of <$> masked_entities text entities rules ∧
    orig <$> segs = value <$> masked_entities text entities rules ∧
    Forall2 (λ s e, ∃ r1 r2, strategy_mask (strategy_for strat (pii_type e)) e r1
                             = (Ok (repl s), r2)) segs (masked_entities text entities rules).
Proof.
  destruct (select_spans_ok text entities) as [Hok Hd]. unfold mask.
  intros (valid & r0 & Hvalid & (rules & r1 & Hrules & ([[pieces maps] cursor] & r2 & Hloop & Hres)%sbind_Ok)%sbind_Ok)%sbind_Ok.
  rewrite step_select_spans in Hvalid. injection Hvalid as <- <-.
  rewrite step_context_rules in Hrules. injection Hrules as Hrules <-.
  unfold sret in Hres. injection Hres as <- <-.
  erewrite sorted_selection in Hloop by done.
  pose proof (slen_nonneg text).
  apply mask_loop_segments in Hloop as (segs & Hj & Hm & Hpl & Hsp & Hor & Hf);
    [|done|done|lia|by eapply Forall_impl; [exact Hok|intros e (? & _)]].
  exists rules, segs, (slice_from text cursor). cbn [masked_text mr_entities mappings].
  unfold slice_from in Hpl at 1. rewrite slice_full in Hpl.
  split_and!; try done.
  rewrite join_nil_concat in Hj |- *. rewrite concat_app, Hj. cbn [concat app join].
  by rewrite app_nil_r.
Qed.

(** Span selection is sound and keeps as much as a left-to-right greedy
    pass can: the result is sorted and pairwise disjoint, holds only valid
    input spans (in bounds, non-empty, matching their recorded value), and
    every valid input span is either kept or starts inside a kept one. *)
Theorem select_spans_disjoint_cover (text : pystr) (entities : list PIIEntity) :
  disjoint_sorted (select_spans text entities) ∧
  (∀ e, e ∈ select_spans text entities → e ∈ entities ∧ span_ok text e) ∧
  (∀ e, e ∈ entities → span_ok text e →
     e ∈ select_spans text entities ∨
     ∃ p, p ∈ select_spans text entities ∧ start p <= start e < end_ p).
Proof.
  destruct (select_spans_spec text entities) as (Hd & Hok & Hcov).
  rewrite Forall_forall in Hok. done.
Qed.

(** C9: masking is reversible segment by segment.  The text and the masked
    text are the same sequence of gaps, with each masked span's value in one
    and its replacement in the other; the result's [mappings] are exactly
    those pairs, in order, and the spans are those of the selected entities
    that the context rules allow. *)
Theorem mask_is_segmentwise (text : pystr) entities strat context_rules r res r' :
  mask text entities strat context_rules r = (Ok res, r') →
  ∃ rules segs tail,
    resolve_context_rules context_rules = Ok rules ∧
    text = plain_of segs ++ tail ∧ masked_text res = masked_of segs ++ tail ∧
    mappings res = pair_of <$> segs ∧
    spans_of 0 segs = span_of <$> masked_entities text entities rules ∧
    orig <$> segs = value <$> masked_entities text entities rules.
Proof. intros (rules & segs & tail & ? & ? & ? & ? & ? & ? & ? & _)%mask_segments. eauto 10. Qed.

(** The engine's single left-to-right pass with a cursor computes the
    same text as the reference that splices the replacements into the text
    one at a time, rightmost first. *)
Theorem mask_equals_right_to_left (text : pystr) entities strat context_rules r res r' :
  mask text entities strat context_rules r = (Ok res, r') →
  ∃ rules, resolve_context_rules context_rules = Ok rules ∧
    masked_text res = splice_right_to_left text
      (zip_with (λ ab m, (ab, m.1)) (span_of <$> masked_entities text entities rules)
         (mappings res)).
Proof.
  intros (rules & segs & tail & ? & ? & Ht & -> & -> & Hsp & _)%mask_segments.
  exists rules. split; [done|]. rewrite <-Hsp, Ht. symmetry. by apply (splice_segments 0 []).
Qed.

(** *** A policy that fully masks every type *)

Definition full_mask_policy (strat : list (PIIType * MaskingStrategyEnum)) : Prop :=
  Forall (λ kv, kv.2 = FULL_MASK) strat.

Lemma full_mask_policy_strategy strat t :
  full_mask_policy strat → strategy_for strat t = FULL_MASK.
Proof.
  unfold strategy_for. intros Hs. destruct (dict_get t strat) as [s|] eqn:Hg; [|done].
  apply dict_get_elem in Hg. unfold full_mask_policy in Hs. rewrite Forall_forall in Hs.
  exact (Hs _ Hg).
Qed.

Lemma mask_loop_full text present rules strat ordered pieces maps cursor r :
  full_mask_policy strat →
  ∃ out, mask_loop text present rules strat ordered pieces maps cursor r = (Ok out, r).
Proof.
  intros Hs. revert pieces maps cursor.
  induction ordered as [|e ordered IH]; intros pieces maps cursor; [by eexists|].
  cbn [mask_loop]. destruct (context_allows _ _ _); [|apply IH]. cbn [negb].
  rewrite full_mask_policy_strategy by done. apply IH.
Qed.

(** C10: under a policy whose strategies are all [FULL_MASK], masking never
    raises, draws no randomness (it has no effect but the warnings about
    dropped spans and rules), keeps the text's length, leaves every character
    outside the masked spans as it is, and leaves no letter or digit inside
    them. *)
Theorem full_mask_policy_hides (text : pystr) entities strat context_rules rules r :
  full_mask_policy strat → resolve_context_rules context_rules = Ok rules →
  ∃ res, mask text entities strat context_rules r =
      (Ok res, emit_all (rule_warnings context_rules) (emit_all (span_warnings text entities) r)) ∧
    length (masked_text res) = length text ∧
    ∀ i c, text !! i = Some c →
      masked_text res !! i =
        Some (if covered (span_of <$> masked_entities text entities rules) (Z.of_nat i)
                 && is_alnum c then mask_char else c).
Proof.
  intros Hs Hrules.
  set (r' := emit_all _ (emit_all _ r)).
  assert (∃ res, mask text entities strat context_rules r = (Ok res, r')) as [res Hres].
  { unfold mask, sbind. rewrite step_select_spans, step_context_rules, Hrules.
    edestruct mask_loop_full as [[[pieces maps] cursor] ->]; [done|]. by eexists. }
  exists res. split; [done|].
  apply mask_segments in Hres as (rules' & segs & tail & Hr & _ & Ht & -> & _ & Hsp & Hor & Hf).
  rewrite Hrules in Hr. injection Hr as <-.
  assert (Hfull : fully_masked segs).
  { clear Ht Hsp. revert Hor. unfold fully_masked. induction Hf as [|s e segs es Hse Hf IH];
      [constructor|]. rewrite !fmap_cons. intros [= Hoe Hor].
    constructor; [|by apply IH]. destruct Hse as (r1 & r2 & Hse).
    rewrite full_mask_policy_strategy in Hse by done. simpl in Hse.
    injection Hse as <- _. unfold full_mask. by rewrite Hoe. }
  rewrite Ht. split; [by apply full_mask_length|]. intros i c Hi.
  rewrite <-Ht, <-Hsp. exact (full_mask_segments 0 segs tail i c Hfull Hi).
Qed.

(** *** Context rules *)

(** The rule of [configs/consumers/*.yaml]: PIN requires BANK_CARD. *)
Definition pin_rule (enabled : bool) : pyobj :=
  OList [ODict [(u8 "type", OStr (u8 "PIN"));
                (u8 "requires", OList [OStr (u8 "BANK_CARD")]);
                (u8 "enabled", OBool enabled)]].

Lemma resolve_pin_rule enabled :
  resolve_context_rules (pin_rule enabled)
    = Ok [(PIN, if enabled then {[BANK_CARD]} ∪ ∅ else ∅)].
Proof. by destruct enabled; vm_compute. Qed.

Lemma elem_of_types_of t l : t ∈ types_of l ↔ ∃ e, e ∈ l ∧ pii_type e = t.
Proof. unfold types_of. rewrite elem_of_list_to_set, list_elem_of_fmap. naive_solver. Qed.

(** The shipped PIN rule.  When enabled, a selected PIN span is masked
    exactly if some selected span is a BANK_CARD; when disabled, it is always
    masked.  Spans of every other type are masked either way. *)
Theorem pin_rule_meaning (enabled : bool) (text : pystr) entities :
  ∃ rules, resolve_context_rules (pin_rule enabled) = Ok rules ∧
    ∀ e, e ∈ select_spans text entities →
      (e ∈ masked_entities text entities rules ↔
         (pii_type e = PIN → enabled = true →
            ∃ card, card ∈ select_spans text entities ∧ pii_type card = BANK_CARD)).
Proof.
  eexists. split; [apply resolve_pin_rule|]. intros e He.
  unfold masked_entities, allowed. rewrite list_elem_of_filter.
  assert (Hiff : context_allows (pii_type e) (types_of (select_spans text entities))
     [(PIN, if enabled then {[BANK_CARD]} ∪ ∅ else ∅)] = true ↔
     (pii_type e = PIN → enabled = true → BANK_CARD ∈ types_of (select_spans text entities))).
  { unfold context_allows. cbn [dict_get]. case_decide as Hpin; [|naive_solver].
    destruct enabled; [|by rewrite bool_decide_true]. rewrite bool_decide_false by set_solver.
    cbn [orb]. rewrite negb_true_iff, bool_decide_eq_false.
    set (ts := types_of _).
    destruct (decide (BANK_CARD ∈ ts)); split; [done|set_solver|set_solver|naive_solver]. }
  rewrite Hiff, elem_of_types_of. naive_solver.
Qed.

(** [m] does not raise. *)
Definition returns {A} (m : engineM A) : Prop := ∀ ls, ∃ x ls', m ls = (Ok x, ls').

Lemma returns_ret {A} (x : A) : returns (sret x). Proof. intros ls. by do 2 eexists. Qed.
Lemma returns_lift {A} (x : A) : returns (slift (Ok x)). Proof. intros ls. by do 2 eexists. Qed.
Lemma returns_warn {A} l (x : A) : returns (warn l x). Proof. intros ls. by do 2 eexists. Qed.
Lemma returns_bind {A B} (m : engineM A) (k : A → engineM B) :
  returns m → (∀ x, returns (k x)) → returns (sbind m k).
Proof. intros Hm Hk ls. destruct (Hm ls) as (x & ls' & Hx). unfold sbind. rewrite Hx. apply Hk. Qed.
#[local] Hint Resolve returns_ret returns_lift returns_warn returns_bind : core.

Lemma required_types_returns raw t required : returns (required_types raw t required).
Proof.
  revert required. induction raw as [|q raw IH]; intros required; cbn [required_types]; [auto|].
  by case_match.
Qed.
#[local] Hint Resolve required_types_returns : core.

Lemma resolve_rule_returns rules d : returns (resolve_rule rules (ODict d)).
Proof.
  unfold resolve_rule, _parse_rule_type, obj_get. apply returns_bind; [apply returns_bind; [auto|]|].
  - intros raw. repeat case_match; auto.
  - intros [t|]; [|auto]. apply returns_bind; [auto|]. intros enabled.
    assert (Hrest : returns (requires <-- slift (Ok (default ONone (dict_get (u8 "requires") d)));
      required <-- _parse_required_types requires (pii_value t);
      match required with Some required => sret (dict_set t required rules) | None => sret rules end)).
    { apply returns_bind; [auto|]. intros requires. apply returns_bind; [|by intros []; auto].
      unfold _parse_required_types. repeat case_match; auto. }
    repeat case_match; auto.
Qed.

Lemma resolve_rules_returns rules l : Forall (λ o, ∃ d, o = ODict d) l → returns (resolve_rules rules l).
Proof.
  intros Hl. revert rules. induction Hl as [|o l [d ->] Hl IH]; intros rules; cbn [resolve_rules]; [auto|].
  apply returns_bind; [apply resolve_rule_returns|auto].
Qed.

(** *** What the engine logs *)

(** A value the engine reads from the rules of a policy. *)
Definition rule_value (context_rules v : pyobj) : Prop :=
  ∃ l rule, py_iter context_rules = Ok l ∧ rule ∈ l ∧
    (obj_get rule (u8 "type") ONone = Ok v ∨ ∃ rs, obj_get rule (u8 "requires") ONone = Ok (OList rs) ∧ v ∈ rs).

(** Its warnings: their arguments are names of PII types and values of the
    rules, never a text or the value of an entity. *)
Inductive engine_line (context_rules : pyobj) : log_record → Prop :=
  | line_invalid t :
      engine_line context_rules (engine_warning (u8 "dropping invalid span type=%s") [OStr (pii_value t)])
  | line_mismatched t :
      engine_line context_rules (engine_warning (u8 "dropping mismatched span type=%s") [OStr (pii_value t)])
  | line_no_type : engine_line context_rules (engine_warning (u8 "context rule missing 'type'; skipped") [])
  | line_unknown_type v : rule_value context_rules v →
      engine_line context_rules (engine_warning (u8 "context rule has unknown PII type %r; skipped") [v])
  | line_no_requires t :
      engine_line context_rules
        (engine_warning (u8 "context rule for %s has no 'requires' list; skipped") [OStr (pii_value t)])
  | line_unknown_required t v : rule_value context_rules v →
      engine_line context_rules
        (engine_warning (u8 "context rule for %s has unknown required type %r; skipped") [OStr (pii_value t); v]).

Lemma span_warnings_lines context_rules text entities :
  Forall (engine_line context_rules) (span_warnings text entities).
Proof.
  apply Forall_forall. intros r (e & _ & Hr)%list_elem_of_omap. unfold check_span in Hr.
  repeat case_match; try discriminate Hr; injection Hr as <-; [apply line_invalid|apply line_mismatched].
Qed.

(** [m] logs only lines of [P]. *)
Definition logs_only {A} (P : log_record → Prop) (m : engineM A) : Prop := ∀ ls, ∃ x rs, m ls = (x, ls ++ rs) ∧ Forall P rs.

Section LogsOnly.
Context (P : log_record → Prop).
Lemma logs_only_ret {A} (x : A) : logs_only P (sret x).
Proof. intros ls. exists (Ok x), []. by rewrite app_nil_r. Qed.
Lemma logs_only_lift {A} (x : result exn A) : logs_only P (slift x).
Proof. intros ls. exists x, []. by rewrite app_nil_r. Qed.
Lemma logs_only_warn {A} l (x : A) : P l → logs_only P (warn l x).
Proof. intros Hl ls. exists (Ok x), [l]. by repeat constructor. Qed.
Lemma logs_only_bind {A B} (m : engineM A) (k : A → engineM B) (Q : A → Prop) :
  logs_only P m → (∀ ls x ls', m ls = (Ok x, ls') → Q x) → (∀ x, Q x → logs_only P (k x)) → logs_only P (sbind m k).
Proof.
  intros Hm HQ Hk ls. destruct (Hm ls) as ([x|e] & rs & Hx & Hrs); unfold sbind; rewrite Hx; [|by eauto].
  destruct (Hk x (HQ _ _ _ Hx) (ls ++ rs)) as (y & rs' & -> & Hrs'). exists y, (rs ++ rs').
  rewrite <-app_assoc. split; [done|]. by apply Forall_app.
Qed.
End LogsOnly.
#[local] Hint Resolve logs_only_ret logs_only_lift logs_only_warn : core.

Section RuleLines.
Context (context_rules : pyobj).
Abbreviation rule_logs := (logs_only (engine_line context_rules)).

Lemma required_types_logs raw t required :
  (∀ v, v ∈ raw → rule_value context_rules v) → rule_logs (required_types raw (pii_value t) required).
Proof.
  revert required. induction raw as [|q raw IH]; intros required Hv; cbn [required_types]; [auto|].
  case_match; [apply IH; set_solver|]. apply logs_only_warn, line_unknown_required. set_solver.
Qed.

Lemma resolve_rule_logs rules l rule :
  py_iter context_rules = Ok l → rule ∈ l → rule_logs (resolve_rule rules rule).
Proof.
  intros Hl Hin. unfold resolve_rule, _parse_rule_type.
  apply (logs_only_bind _ _ _ (λ _, True)); [|done|].
  - apply (logs_only_bind _ _ _ (λ raw, obj_get rule (u8 "type") ONone = Ok raw)); [auto|by intros ??? [= ? _]|].
    intros raw Hraw. assert (rule_value context_rules raw) by (exists l, rule; auto).
    destruct raw as [|b|z|b|text|ts|d]; [apply logs_only_warn, line_no_type..| | |];
      [|apply logs_only_warn, line_no_type..].
    case_match; [auto|by apply logs_only_warn, line_unknown_type].
  - intros [t|] _; [|auto]. apply (logs_only_bind _ _ _ (λ _, True)); [auto|done|]. intros enabled _.
    assert (Hrest : rule_logs (requires <-- slift (obj_get rule (u8 "requires") ONone);
      required <-- _parse_required_types requires (pii_value t);
      match required with Some required => sret (dict_set t required rules) | None => sret rules end)).
    { apply (logs_only_bind _ _ _ (λ raw, obj_get rule (u8 "requires") ONone = Ok raw)); [auto|by intros ??? [= ? _]|].
      intros raw Hraw. apply (logs_only_bind _ _ _ (λ _, True)); [|done|by intros []; auto].
      unfold _parse_required_types.
      destruct raw as [|b|z|b|text|[|r rs]|d]; [apply logs_only_warn, line_no_requires..| |];
        [|apply logs_only_warn, line_no_requires].
      apply required_types_logs. intros v Hv. exists l, rule. split_and!; [done|done|right; eauto]. }
    repeat case_match; auto.
Qed.

Lemma rule_warnings_lines : Forall (engine_line context_rules) (rule_warnings context_rules).
Proof.
  assert (Hall : rule_logs (_resolve_context_rules context_rules)).
  { unfold _resolve_context_rules. case_match; [auto|].
    apply (logs_only_bind _ _ _ (λ l, py_iter context_rules = Ok l)); [auto|by intros ??? [= ? _]|].
    intros l Hl. apply (logs_only_bind _ _ _ (λ _, True)); [|done|auto].
    assert (Hsub : l ⊆ l) by done. revert Hsub. generalize l at 1 3 as l1. generalize (@nil (PIIType * gset PIIType)).
    intros rules l1. revert rules. induction l1 as [|rule l1 IH]; intros rules Hsub; cbn [resolve_rules]; [auto|].
    apply (logs_only_bind _ _ _ (λ _, True)); [|done|intros rules' _; apply IH; set_solver].
    apply (resolve_rule_logs _ l); set_solver. }
  destruct (Hall []) as (x & rs & Hx & Hrs). unfold rule_warnings. by rewrite Hx.
Qed.
End RuleLines.

(** A policy whose [context_rules] is a list of mappings never makes
    masking fail, whatever the mappings hold: rules with a missing or unknown
    type, or without a usable [requires] list, are skipped. *)
Theorem context_rules_never_fail (ds : list (list (pystr * pyobj))) :
  ∃ rules, resolve_context_rules (OList (ODict <$> ds)) = Ok rules.
Proof.
  assert (Hds : Forall (λ o, ∃ d, o = ODict d) (ODict <$> ds))
    by (apply Forall_fmap, Forall_forall; by eexists).
  destruct (resolve_rules_returns [] _ Hds []) as (rules & ls & Hr).
  unfold resolve_context_rules, _resolve_context_rules. destruct (negb _); [by eexists|].
  unfold sbind, slift. cbn [py_iter]. rewrite Hr. by eexists.
Qed.
End Properties.

(** ** The engine on concrete texts *)


#[local] Existing Instance quiet_logger.

(** A token source for evaluation: a counter spelled with ['0'..'9']. *)
#[export] Instance counter_tokens : TokenSource Z :=
  λ n c, (replicate (Z.to_nat (2 * n)) (48 + c mod 10), c + 1).

Definition mk_entity (t : PIIType) (v : pystr) (s : Z) : PIIEntity :=
  mkPIIEntity t v s (s + slen v) 1 (u8 "regex") [].

Definition sample_text : pystr := u8 "PIN 1234, a@b.ru".
Definition sample_entities : list PIIEntity :=
  [mk_entity EMAIL (u8 "a@b.ru") 10; mk_entity PIN (u8 "1234") 4].

(** When spans overlap, the one that starts first is kept, not the longest
      one: the shorter span [0..5) suppresses the longer one [3..20). *)
Theorem overlap_keeps_first_not_longest :
  let text := u8 "abcdefghijklmnopqrstuvwxyz" in
  let short := mkPIIEntity PERSON_NAME (u8 "abcde") 0 5 1 [] [] in
  let long := mkPIIEntity ADDRESS (u8 "defghijklmnopqrst") 3 20 1 [] [] in
  end_ short - start short < end_ long - start long ∧
  select_spans text [long; short] = [short].
Proof. split; vm_compute; reflexivity. Qed.

(** ** Witnesses *)

Definition sample_mask (strat : list (PIIType * MaskingStrategyEnum)) (rules : pyobj) :=
  mask sample_text sample_entities strat rules 0.

Lemma mask_is_segmentwise_witness :
  ∃ segs tail, sample_text = plain_of segs ++ tail ∧
               u8 "PIN ****, a***@b.ru" = masked_of segs ++ tail.
Proof.
  destruct (mask_is_segmentwise sample_text sample_entities
              [(EMAIL, PARTIAL_MASK)] (pin_rule false) 0
              (mkMaskingResult (u8 "PIN ****, a***@b.ru")
                 [mk_entity PIN (u8 "1234") 4; mk_entity EMAIL (u8 "a@b.ru") 10]
                 [(u8 "****", u8 "1234"); (u8 "a***@b.ru", u8 "a@b.ru")]) 0)
    as (_ & segs & tail & _ & Ht & Hm & _); [vm_compute; reflexivity|].
  exists segs, tail. split; [exact Ht | exact Hm].
Defined.

Lemma mask_equals_right_to_left_witness :
  ∃ rules, resolve_context_rules (pin_rule true) = Ok rules ∧
    u8 "PIN 1234, a***@b.ru" = splice_right_to_left sample_text
      (zip_with (λ ab m, (ab, m.1))
         (span_of <$> masked_entities sample_text sample_entities rules)
         [(u8 "a***@b.ru", u8 "a@b.ru")]).
Proof.
  apply (mask_equals_right_to_left sample_text sample_entities
           [(EMAIL, PARTIAL_MASK)] (pin_rule true) 0
           (mkMaskingResult (u8 "PIN 1234, a***@b.ru")
              [mk_entity PIN (u8 "1234") 4; mk_entity EMAIL (u8 "a@b.ru") 10]
              [(u8 "a***@b.ru", u8 "a@b.ru")]) 0).
  vm_compute. reflexivity.
Defined.

Lemma full_mask_policy_hides_witness :
  full_mask_policy [(EMAIL, FULL_MASK)] ∧
  resolve_context_rules ONone = Ok [] ∧
  ∃ res, mask sample_text sample_entities [(EMAIL, FULL_MASK)] ONone 0 = (Ok res, 0) ∧
    length (masked_text res) = length sample_text.
Proof.
  assert (Hp : full_mask_policy [(EMAIL, FULL_MASK)]) by (repeat constructor).
  split; [exact Hp|]. split; [reflexivity|].
  destruct (full_mask_policy_hides sample_text sample_entities _ ONone [] 0 Hp)
    as (res & Hres & Hlen & _); [reflexivity|].
  exists res. split; [exact Hres | exact Hlen].
Defined.

(** ** Characters of the masked text *)

Section MaskedChars.
Context `{U : UnicodeDB} {R : Type} `{!TokenSource R, !Logger R}.
Context (P : Z → Prop) (P_ascii : ∀ c, 0 <= c < 128 → P c).
Context (P_token : ∀ n r, Forall P (token_hex (R := R) n r).1).

(** Masking writes only characters of the text, ASCII characters and tokens,
    in the masked text and in the mappings. *)
Lemma mask_chars text entities strat context_rules r res r' :
  Forall P text → mask text entities strat context_rules r = (Ok res, r') →
  Forall P (masked_text res) ∧ Forall (λ p, Forall P (p.1) ∧ Forall P (p.2)) (mappings res).
Proof using P_ascii P_token.
  intros Ht Hm. apply mask_segments in Hm as (rules & segs & tail & _ & _ & Htext & -> & -> & _ & Hor & Hrepl).
  rewrite Htext in Ht. apply Forall_app in Ht as [Ht Htail].
  assert (Hsegs : Forall (λ s, Forall P (gap s) ∧ Forall P (orig s)) segs).
  { clear -Ht. induction segs as [|s segs IH]; [constructor|]. simpl in Ht.
    rewrite !Forall_app in Ht. destruct Ht as (? & ? & ?). constructor; [done|]. by apply IH. }
  assert (Hall : Forall (λ s, Forall P (gap s) ∧ Forall P (orig s) ∧ Forall P (repl s)) segs).
  { clear -Hsegs Hor Hrepl P_ascii P_token.
    revert Hor Hsegs. induction Hrepl as [|s e segs es (r1 & r2 & Hs) Hrepl IH]; intros Hor Hsegs; [constructor|].
    injection Hor as Ho Hor. apply Forall_cons in Hsegs as [[Hg Hoc] Hsegs].
    constructor; [|by apply IH]. split_and!; [done|done|].
    rewrite Ho in Hoc. by eapply strategy_chars. }
  split.
  - apply Forall_app. split; [|done]. clear -Hall.
    induction Hall as [|s segs (? & ? & ?) Hall IH]; simpl; [constructor|]. by rewrite !Forall_app.
  - apply Forall_fmap. eapply Forall_impl; [exact Hall|]. by intros s (? & ? & ?).
Qed.
End MaskedChars.
