(* ===== verification/Resolution.v ===== *)
(** * Overlap resolution and the detection engine
    ([app/detection/resolution.py], [app/detection/engine.py],
    [app/detection/context/resolver.py], [app/detection/base.py])

    [DetectionEngine.detect] concatenates the candidates of its detectors,
    passes them through the context resolver and resolves overlaps by type
    priority, confidence and length. *)

From S2P Require Import Prelude Unicode Domain PyStr Strategies Masking.

(** ** [resolution.py] *)

(** [_PRIORITIES]. *)
Definition PRIORITIES : list (PIIType * Z) :=
  [(BANK_CARD, 90); (INN, 90); (PASSPORT_NUMBER, 90); (PASSPORT_DIVISION_CODE, 90);
   (DRIVER_LICENSE, 90); (PHONE, 80); (EMAIL, 80); (ADDRESS, 70); (PERSON_NAME, 60);
   (CARDHOLDER_NAME, 60); (BIRTH_PLACE, 60); (CITIZENSHIP, 60); (COUNTRY, 60);
   (CITY, 60); (STREET, 60); (POSTAL_CODE, 60); (PASSPORT_ISSUER, 60);
   (PASSPORT_ISSUE_DATE, 60); (CVV, 30); (PIN, 30); (HOUSE, 30); (APARTMENT, 30)].

Definition DEFAULT_PRIORITY : Z := 50.

Definition priority (t : PIIType) : Z := default DEFAULT_PRIORITY (dict_get t PRIORITIES).

Definition overlaps (a b : PIIEntity) : bool := (start a <? end_ b) && (start b <? end_ a).

(** [a.confidence > b.confidence]. *)
Definition conf_gtb (a b : PIIEntity) : bool := negb (Qle_bool (confidence a) (confidence b)).

Definition better (a b : PIIEntity) : PIIEntity :=
  let pa := priority (pii_type a) in
  let pb := priority (pii_type b) in
  if negb (pa =? pb) then (if pb <? pa then a else b)
  else if negb (Qeq_bool (confidence a) (confidence b)) then (if conf_gtb a b then a else b)
  else
    let la := end_ a - start a in
    let lb := end_ b - start b in
    if lb <=? la then a else b.

Abbreviation span_key := (PIIType * Z * Z)%type.
Definition key_of (e : PIIEntity) : span_key := (pii_type e, start e, end_ e).

(** The first loop of [resolve_spans]: the most confident entity per key. *)
Definition dedup_step (best : list (span_key * PIIEntity)) (e : PIIEntity)
    : list (span_key * PIIEntity) :=
  match dict_get (key_of e) best with
  | None => dict_set (key_of e) e best
  | Some current => if conf_gtb e current then dict_set (key_of e) e best else best
  end.

Definition start_end_leb (a b : PIIEntity) : bool :=
  lex_leb (start a, end_ a) (start b, end_ b).

(** [l\[-1\] = x]. *)
Definition set_last {A} (x : A) (l : list A) : list A := take (pred (length l)) l ++ [x].

(** The second loop. *)
Definition resolve_step (resolved : list PIIEntity) (e : PIIEntity) : list PIIEntity :=
  match last resolved with
  | Some p => if overlaps p e then set_last (better p e) resolved else resolved ++ [e]
  | None => resolved ++ [e]
  end.

Definition resolve_spans (entities : list PIIEntity) : list PIIEntity :=
  let best := fold_left dedup_step entities [] in
  let unique := sorted_by start_end_leb (best.*2) in
  fold_left resolve_step unique [].

(** ** [context/resolver.py] and [engine.py] *)

(** [ContextResolver.resolve]: no rule is applied yet. *)
Definition context_resolve (entities : list PIIEntity) (context : DetectionContext)
    : list PIIEntity := entities.

Section Engine.
Context {E : Type}.

(** The [PIIDetector] interface. *)
Definition PIIDetector : Type := pystr → DetectionContext → stateM E exn (list PIIEntity).

Fixpoint run_detectors (detectors : list PIIDetector) (text : pystr)
    (context : DetectionContext) (candidates : list PIIEntity) : stateM E exn (list PIIEntity) :=
  match detectors with
  | [] => sret candidates
  | d :: detectors =>
      found <-- d text context;
      run_detectors detectors text context (candidates ++ found)
  end.

(** [DetectionEngine.detect]. *)
Definition engine_detect (detectors : list PIIDetector) (text : pystr)
    (context : DetectionContext) : stateM E exn DetectionResult :=
  candidates <-- run_detectors detectors text context [];
  sret (mkDetectionResult (resolve_spans (context_resolve candidates context))
          [(u8 "detector_count", OInt (slen detectors))]).
End Engine.
Arguments PIIDetector : clear implicits.

(** ** The ranking behind [_better] *)

(** [a] is at least as good as [b]: higher priority, else higher confidence,
    else at least as long. *)
Definition rank_geb (a b : PIIEntity) : bool :=
  let pa := priority (pii_type a) in
  let pb := priority (pii_type b) in
  (pb <? pa) ||
  ((pa =? pb) &&
   (conf_gtb a b ||
    (Qeq_bool (confidence a) (confidence b) && (end_ b - start b <=? end_ a - start a)))).

Lemma rank_refl a : rank_geb a a = true.
Proof.
  unfold rank_geb. rewrite Z.eqb_refl, Qeq_bool_refl, Z.leb_refl. by rewrite !orb_true_r.
Qed.

Lemma Qeq_bool_false_cases x y :
  Qeq_bool x y = false → Qle_bool x y = true ∧ Qle_bool y x = false ∨
                         Qle_bool x y = false ∧ Qle_bool y x = true.
Proof.
  intros Hne. apply Qeq_bool_neq in Hne.
  destruct (Qle_bool x y) eqn:Hxy, (Qle_bool y x) eqn:Hyx; auto.
  - apply Qle_bool_iff in Hxy, Hyx. destruct Hne. by apply Qle_antisym.
  - exfalso. destruct (Qlt_le_dec x y) as [H%Qlt_le_weak|H]; apply Qle_bool_iff in H; congruence.
Qed.

Lemma better_cases a b :
  (better a b = a ∧ rank_geb a b = true) ∨ (better a b = b ∧ rank_geb b a = true).
Proof.
  unfold better, rank_geb, conf_gtb.
  destruct (Z.eqb_spec (priority (pii_type a)) (priority (pii_type b))) as [Heq|Hne]; simpl.
  - rewrite <-Heq, Z.ltb_irrefl, Z.eqb_refl. simpl.
    destruct (Qeq_bool (confidence a) (confidence b)) eqn:Hq; simpl.
    + destruct (Z.leb_spec (end_ b - start b) (end_ a - start a)).
      * left. by rewrite orb_true_r.
      * right. rewrite Qeq_bool_comm, Hq by done.
        rewrite (proj2 (Z.leb_le _ _)) by lia. by rewrite orb_true_r.
    + apply Qeq_bool_false_cases in Hq as [[-> ->]|[-> ->]]; simpl; auto.
  - destruct (Z.ltb_spec (priority (pii_type b)) (priority (pii_type a))); [by left|right].
    rewrite (proj2 (Z.ltb_lt (priority (pii_type a)) _)) by lia. done.
Qed.

Lemma set_last_snoc {A} (x p : A) l : set_last x (l ++ [p]) = l ++ [x].
Proof. unfold set_last. rewrite length_app, Nat.add_1_r. simpl. by rewrite take_app_length. Qed.

Definition nonempty_span (e : PIIEntity) : Prop := start e < end_ e.

(** [e] loses to [o]: they overlap and [o] ranks at least as high. *)
Definition beaten_by (e o : PIIEntity) : Prop :=
  overlaps o e = true ∧ rank_geb o e = true.

(** [e] is in [l], or has lost to some member of [l] through a chain of
    overlaps, every link of which is one of the candidates [cs]. *)
Definition represented (cs l : list PIIEntity) (e : PIIEntity) : Prop :=
  ∃ o, o ∈ l ∧ rtc (λ a b, beaten_by a b ∧ b ∈ cs) e o.

Lemma overlaps_spec a b : overlaps a b = true ↔ start a < end_ b ∧ start b < end_ a.
Proof. unfold overlaps. rewrite andb_true_iff. lia. Qed.

Lemma represented_self cs l e : e ∈ l → represented cs l e.
Proof. intros He. exists e. split; [done | apply rtc_refl]. Qed.

Lemma represented_step cs l e o : o ∈ cs → beaten_by e o → represented cs l o → represented cs l e.
Proof. intros Hc Hb (o' & Ho & Hr). exists o'. split; [done | by eapply rtc_l]. Qed.

(** If every member of [l] is represented in [l'], so is whatever [l] represents. *)
Lemma represented_trans cs l l' e :
  (∀ o, o ∈ l → represented cs l' o) → represented cs l e → represented cs l' e.
Proof.
  intros Hll (o & Ho & Hr). destruct (Hll o Ho) as (o' & Ho' & Hr').
  exists o'. split; [done | by etrans].
Qed.

(** ** Deduplication *)

Section Dedup.
Context (cs : list PIIEntity).
Implicit Types (best : list (span_key * PIIEntity)) (l : list PIIEntity).

Definition keyed best : Prop := Forall (λ p, p.1 = key_of p.2) best.

Lemma dict_set_values k (v : PIIEntity) best x :
  x ∈ (dict_set k v best).*2 → x = v ∨ x ∈ best.*2.
Proof.
  induction best as [|[k' v'] best IH]; simpl; [set_solver|].
  case_decide; simpl; set_solver.
Qed.

Lemma dict_set_value_in k (v : PIIEntity) best : v ∈ (dict_set k v best).*2.
Proof.
  induction best as [|[k' v'] best IH]; simpl; [set_solver|]. case_decide; simpl; set_solver.
Qed.

Lemma dict_set_other k (v x : PIIEntity) best :
  x ∈ best.*2 → dict_get k best = Some x ∨ x ∈ (dict_set k v best).*2.
Proof.
  induction best as [|[k' v'] best IH]; simpl; [set_solver|].
  intros [->|Hx]%elem_of_cons; case_decide; simpl; set_solver.
Qed.

Lemma keyed_set e best : keyed best → keyed (dict_set (key_of e) e best).
Proof.
  unfold keyed. induction 1 as [|[k v] best Hk Hb IH]; simpl; [by repeat constructor|].
  case_decide; by constructor.
Qed.

Lemma same_key_beaten e o :
  nonempty_span e → key_of e = key_of o → conf_gtb e o = false → beaten_by e o.
Proof.
  unfold nonempty_span, key_of, conf_gtb. intros Hne [= Ht Hs He] Hc%negb_false_iff.
  split; [apply overlaps_spec; lia|]. unfold rank_geb, conf_gtb.
  rewrite Ht, Z.eqb_refl, Z.ltb_irrefl. cbn [orb andb].
  destruct (Qle_bool (confidence o) (confidence e)) eqn:Hc'; [|done].
  apply Qle_bool_iff in Hc, Hc'. cbn [negb orb]. apply andb_true_iff. split; [|lia].
  apply Qeq_bool_iff, Qle_antisym; done.
Qed.

Lemma conf_gtb_asym e o : conf_gtb e o = true → conf_gtb o e = false.
Proof.
  unfold conf_gtb. rewrite negb_true_iff, negb_false_iff. intros Hc.
  destruct (Qle_bool (confidence o) (confidence e)) eqn:Ho; [done|].
  exfalso. destruct (Qlt_le_dec (confidence e) (confidence o)) as [H%Qlt_le_weak|H];
    apply Qle_bool_iff in H; congruence.
Qed.

Lemma dedup_step_spec e best :
  nonempty_span e → keyed best → Forall nonempty_span (best.*2) → (∀ x, x = e ∨ x ∈ best.*2 → x ∈ cs) →
  let best' := dedup_step best e in
  keyed best' ∧ represented cs (best'.*2) e ∧
  (∀ x, x ∈ best.*2 → represented cs (best'.*2) x) ∧
  (∀ x, x ∈ best'.*2 → x = e ∨ x ∈ best.*2).
Proof.
  intros Hne Hk Hb Hcs. cbv zeta. unfold dedup_step.
  destruct (dict_get (key_of e) best) as [c|] eqn:Hg.
  - apply dict_get_elem in Hg as Hin. unfold keyed in Hk. rewrite Forall_forall in Hk.
    pose proof (Hk _ Hin) as Hkey. simpl in Hkey.
    assert (Hc : c ∈ best.*2) by (by apply (list_elem_of_fmap_2 snd) in Hin).
    destruct (conf_gtb e c) eqn:Hcf.
    + split_and!.
      * by apply keyed_set, Forall_forall.
      * apply represented_self, dict_set_value_in.
      * intros x Hx. destruct (dict_set_other (key_of e) e x best Hx) as [Hgx|Hgx].
        -- rewrite Hg in Hgx. injection Hgx as ->.
           eapply represented_step; [apply Hcs; by left| |apply represented_self, dict_set_value_in].
           apply same_key_beaten; [|done|by apply conf_gtb_asym].
           rewrite Forall_forall in Hb. by apply Hb.
        -- by apply represented_self.
      * apply dict_set_values.
    + split_and!; [by apply Forall_forall| |by intros; apply represented_self|by auto].
      eapply represented_step; [apply Hcs; by right|by apply same_key_beaten|]. by apply represented_self.
  - split_and!; [by apply keyed_set| apply represented_self, dict_set_value_in | |
                 apply dict_set_values].
    intros x Hx. apply represented_self.
    destruct (dict_set_other (key_of e) e x best Hx); [congruence|done].
Qed.

Lemma dedup_fold_spec l best :
  Forall nonempty_span l → keyed best → Forall nonempty_span (best.*2) → (∀ x, x ∈ l ∨ x ∈ best.*2 → x ∈ cs) →
  let best' := fold_left dedup_step l best in
  (∀ x, x ∈ l ∨ x ∈ best.*2 → represented cs (best'.*2) x) ∧
  (∀ x, x ∈ best'.*2 → x ∈ l ∨ x ∈ best.*2).
Proof.
  revert best. induction l as [|e l IH]; intros best Hl Hk Hb Hcs; cbn [fold_left]; cbv zeta.
  { split; [intros x [?%elem_of_nil|?]; [done|by apply represented_self] | by right]. }
  apply Forall_cons in Hl as [He Hl].
  destruct (dedup_step_spec e best He Hk Hb) as (Hk' & Hre & Hrx & Hsub).
  { intros x Hx. apply Hcs. set_solver. }
  assert (Hb' : Forall nonempty_span (dedup_step best e).*2).
  { rewrite Forall_forall in Hb |- *. intros x Hx. destruct (Hsub x Hx) as [->|?]; auto. }
  destruct (IH _ Hl Hk' Hb') as [Hrep Hin].
  { intros x [Hx|Hx%Hsub]; apply Hcs; set_solver. }
  assert (Htr : ∀ x, represented cs ((dedup_step best e).*2) x →
                 represented cs ((fold_left dedup_step l (dedup_step best e)).*2) x).
  { intros x Hx. eapply represented_trans; [|exact Hx]. intros o Ho. apply Hrep. by right. }
  split.
  - intros x [[->|Hx]%elem_of_cons|Hx]; [by apply Htr | apply Hrep; by left | by apply Htr, Hrx].
  - intros x [Hx|Hx]%Hin; [left; set_solver|].
    destruct (Hsub x Hx) as [->|?]; [left; set_solver|by right].
Qed.

End Dedup.

(** ** The resolution pass *)

Lemma resolve_step_cases acc e :
  (∃ acc' p, acc = acc' ++ [p] ∧ overlaps p e = true ∧
             resolve_step acc e = acc' ++ [better p e]) ∨
  ((∀ p, last acc = Some p → overlaps p e = false) ∧ resolve_step acc e = acc ++ [e]).
Proof.
  unfold resolve_step. destruct (last acc) as [p|] eqn:Hl; [|right; naive_solver].
  apply last_Some in Hl as [acc' ->]. destruct (overlaps p e) eqn:Ho.
  - left. exists acc', p. by rewrite set_last_snoc.
  - right. split; [by intros ? [= <-] | done].
Qed.

(** What the pass maintains about the spans resolved so far, the next
    candidate starting at or after [bound]. *)
Definition resolve_inv (acc : list PIIEntity) (bound : Z) : Prop :=
  Forall nonempty_span acc ∧ disjoint_sorted acc ∧ (∀ p, last acc = Some p → start p <= bound).

Lemma resolve_inv_end acc bound :
  resolve_inv acc bound → (∀ p, last acc = Some p → end_ p <= bound) →
  Forall (λ q, end_ q <= bound) acc.
Proof.
  intros (Hne & Hd & _) Hend. destruct (last acc) as [p|] eqn:Hp;
    [|by apply last_None in Hp as ->].
  specialize (Hend p eq_refl). apply last_Some in Hp as [acc' ->].
  apply StronglySorted_snoc in Hd as [_ Hp]. apply Forall_app in Hne as [_ [Hnp _]%Forall_cons].
  unfold nonempty_span in Hnp. apply Forall_app. split; [|by apply Forall_singleton].
  eapply Forall_impl; [exact Hp|]. simpl. lia.
Qed.

Lemma better_beats p e :
  nonempty_span p → nonempty_span e → start p <= start e → overlaps p e = true →
  beaten_by p (better p e) ∧ beaten_by e (better p e) ∧
  start p <= start (better p e) <= start e ∧ nonempty_span (better p e) ∧
  (better p e = p ∨ better p e = e).
Proof.
  unfold beaten_by, nonempty_span. intros Hp He Hpe Ho%overlaps_spec.
  destruct (better_cases p e) as [[-> Hr]|[-> Hr]]; rewrite ?rank_refl, ?overlaps_spec;
    split_and!; auto; lia.
Qed.

Lemma resolve_step_spec cs e acc :
  nonempty_span e → resolve_inv acc (start e) → (∀ x, x = e ∨ x ∈ acc → x ∈ cs) →
  resolve_inv (resolve_step acc e) (start e) ∧
  (∀ x, x = e ∨ x ∈ acc → represented cs (resolve_step acc e) x) ∧
  (∀ x, x ∈ resolve_step acc e → x = e ∨ x ∈ acc).
Proof.
  intros He Hinv Hcs. destruct (resolve_step_cases acc e) as [(acc' & p & -> & Ho & ->)|[Hno ->]].
  - destruct Hinv as (Hne & Hd & Hle).
    apply StronglySorted_snoc in Hd as [Hd Hp]. apply Forall_app in Hne as [Hne [Hnp _]%Forall_cons].
    assert (Hpe : start p <= start e) by (apply Hle, last_snoc).
    destruct (better_beats p e Hnp He Hpe Ho) as (Hb1 & Hb2 & Hst & Hnb & Hor).
    split_and!; [split_and!| |].
    + apply Forall_app. split; [done|by apply Forall_singleton].
    + apply StronglySorted_snoc. split; [done|]. eapply Forall_impl; [exact Hp|]. simpl. lia.
    + intros q. rewrite last_snoc. intros [= <-]. lia.
    + assert (Hin : better p e ∈ acc' ++ [better p e]) by set_solver.
      assert (Hbc : better p e ∈ cs) by (apply Hcs; destruct Hor as [-> | ->]; set_solver).
      intros x [->|[Hx|Hx%list_elem_of_singleton]%elem_of_app].
      * eapply represented_step; [done|done|]. by apply represented_self.
      * apply represented_self. set_solver.
      * subst. eapply represented_step; [done|done|]. by apply represented_self.
    + intros x [Hx|Hx%list_elem_of_singleton]%elem_of_app; [set_solver|]. subst.
      destruct Hor as [-> | ->]; set_solver.
  - assert (Hend : Forall (λ q, end_ q <= start e) acc).
    { eapply resolve_inv_end; [done|]. destruct Hinv as (Hne & _ & Hle). intros p Hp.
      pose proof (Hno p Hp) as Ho. specialize (Hle p Hp).
      unfold overlaps, nonempty_span in *. apply andb_false_iff in Ho. lia. }
    destruct Hinv as (Hne & Hd & Hle). split_and!; [split_and!| |].
    + apply Forall_app. split; [done|by apply Forall_singleton].
    + by apply StronglySorted_snoc.
    + intros q. rewrite last_snoc. by intros [= <-].
    + intros x Hx. apply represented_self. set_solver.
    + set_solver.
Qed.

Lemma resolve_fold_spec cs l acc :
  Forall nonempty_span l → StronglySorted (λ a b, start a <= start b) l →
  Forall (λ e, resolve_inv acc (start e)) l → Forall nonempty_span acc → disjoint_sorted acc →
  (∀ x, x ∈ l ∨ x ∈ acc → x ∈ cs) →
  let out := fold_left resolve_step l acc in
  disjoint_sorted out ∧
  (∀ x, x ∈ l ∨ x ∈ acc → represented cs out x) ∧ (∀ x, x ∈ out → x ∈ l ∨ x ∈ acc).
Proof.
  revert acc. induction l as [|e l IH]; intros acc Hl Hs Hinv Hne Hd Hcs; cbn [fold_left]; cbv zeta.
  { split_and!; [done| |by right].
    intros x [?%elem_of_nil|?]; [done|by apply represented_self]. }
  apply Forall_cons in Hl as [He Hl]. inversion_clear Hs as [|?? Hs' Hse].
  apply Forall_cons in Hinv as [Hie _].
  destruct (resolve_step_spec cs e acc He Hie) as (Hinv' & Hrep & Hsub).
  { intros x Hx. apply Hcs. set_solver. }
  destruct (IH (resolve_step acc e)) as (Hdo & Hro & Hso);
    [done|done| |by apply Hinv'|by apply Hinv'| |].
  { eapply Forall_impl; [exact Hse|]. simpl. intros x Hx.
    destruct Hinv' as (? & ? & Hlast). split_and!; [done|done|].
    intros p Hp. specialize (Hlast p Hp). lia. }
  { intros x [Hx|Hx%Hsub]; apply Hcs; set_solver. }
  split_and!; [done| |].
  - intros x Hx.
    assert (x ∈ l ∨ (x = e ∨ x ∈ acc)) as [Hxl|Hxa] by set_solver; [apply Hro; by left|].
    eapply represented_trans; [|by apply Hrep]. intros o Ho. apply Hro. by right.
  - intros x [Hx|Hx]%Hso; [set_solver|]. apply Hsub in Hx. set_solver.
Qed.

Lemma start_end_total a b : start_end_leb a b = true ∨ start_end_leb b a = true.
Proof. apply lex_leb_total. Qed.
Lemma start_end_trans a b c :
  start_end_leb a b = true → start_end_leb b c = true → start_end_leb a c = true.
Proof. apply lex_leb_trans. Qed.
Lemma start_end_start a b : start_end_leb a b = true → start a <= start b.
Proof. unfold start_end_leb. rewrite lex_leb_spec. simpl. lia. Qed.

Lemma resolve_spans_spec l :
  Forall nonempty_span l →
  disjoint_sorted (resolve_spans l) ∧
  (∀ e, e ∈ l → represented l (resolve_spans l) e) ∧ (∀ e, e ∈ resolve_spans l → e ∈ l).
Proof.
  intros Hl. unfold resolve_spans.
  destruct (dedup_fold_spec l l []) as [Hrep Hsub]; [done|by constructor|by constructor|set_solver|].
  set (best := fold_left dedup_step l []) in *.
  set (unique := sorted_by start_end_leb (best.*2)).
  assert (Hu : ∀ x, x ∈ unique → x ∈ l).
  { intros x. unfold unique. rewrite elem_of_sorted_by. intros [?|?%elem_of_nil]%Hsub; done. }
  destruct (resolve_fold_spec l unique []) as (Hd & Hr & Hs).
  - apply Forall_forall. intros x Hx. rewrite Forall_forall in Hl. by apply Hl, Hu.
  - eapply StronglySorted_impl; [|apply sorted_by_sorted];
      [exact start_end_start | exact start_end_total | exact start_end_trans].
  - apply Forall_forall. intros x _. split_and!; [constructor|constructor|done].
  - constructor.
  - constructor.
  - intros x [Hx|Hx%elem_of_nil]; [by apply Hu|done].
  - split_and!; [done| |].
    + intros e He. eapply represented_trans; [|apply Hrep; by left].
      intros o Ho. apply Hr. left. by apply elem_of_sorted_by.
    + intros e [He|He%elem_of_nil]%Hs; [by apply Hu|done].
Qed.

(** Disjoint spans in order survive resolution unchanged. *)
Lemma dedup_fold_id l best :
  NoDup (best.*1 ++ (key_of <$> l)) →
  fold_left dedup_step l best = best ++ ((λ e, (key_of e, e)) <$> l).
Proof.
  revert best. induction l as [|e l IH]; intros best Hnd; cbn [fold_left].
  { by rewrite app_nil_r. }
  assert (Hk : key_of e ∉ best.*1).
  { apply NoDup_app in Hnd as (_ & Hdis & _). intros Hin. apply (Hdis _ Hin).
    rewrite fmap_cons. set_solver. }
  assert (Hstep : dedup_step best e = best ++ [(key_of e, e)]).
  { unfold dedup_step. rewrite (proj2 (dict_get_None _ _)) by done. clear -Hk.
    induction best as [|[k v] best IH]; [done|]. simpl in *.
    rewrite decide_False by set_solver. rewrite IH by set_solver. done. }
  rewrite Hstep, IH, fmap_cons, <-app_assoc; [done|].
  rewrite fmap_app, <-app_assoc. done.
Qed.

Lemma resolve_fold_id l acc :
  Forall nonempty_span (acc ++ l) → disjoint_sorted (acc ++ l) →
  fold_left resolve_step l acc = acc ++ l.
Proof.
  revert acc. induction l as [|e l IH]; intros acc Hne Hd; cbn [fold_left]; [by rewrite app_nil_r|].
  destruct (resolve_step_cases acc e) as [(acc' & p & -> & Ho%overlaps_spec & _)|[_ ->]].
  - exfalso. apply (StronglySorted_app_1_elem_of _ _ _ p e) in Hd; [|set_solver..].
    simpl in Hd. lia.
  - rewrite (IH (acc ++ [e])); rewrite <-app_assoc; done.
Qed.

Lemma disjoint_keys_NoDup l :
  Forall nonempty_span l → disjoint_sorted l → NoDup (key_of <$> l).
Proof.
  intros Hne Hd. induction Hd as [|e l Hd IH He]; [constructor|].
  apply Forall_cons in Hne as [Hn Hne]. rewrite fmap_cons. apply NoDup_cons. split; [|by apply IH].
  intros (x & [= _ Hs _] & Hx)%list_elem_of_fmap. rewrite Forall_forall in He.
  specialize (He x Hx). unfold nonempty_span in Hn. simpl in He. lia.
Qed.

Lemma resolve_spans_id l :
  Forall nonempty_span l → disjoint_sorted l → resolve_spans l = l.
Proof.
  intros Hne Hd. unfold resolve_spans.
  rewrite dedup_fold_id by (by apply disjoint_keys_NoDup).
  rewrite app_nil_l, <-list_fmap_compose.
  assert (snd ∘ (λ e, (key_of e, e)) <$> l = l) as -> by (by apply list_fmap_id).
  rewrite sorted_by_id; [by apply (resolve_fold_id l [])|].
  induction Hd as [|e l Hd IH He]; constructor.
  - inversion_clear Hne. by apply IH.
  - apply Forall_cons in Hne as [Hn Hne]. unfold nonempty_span in *.
    rewrite Forall_forall in He, Hne |- *. intros x Hx. specialize (He x Hx). specialize (Hne x Hx).
    unfold start_end_leb. apply lex_leb_spec. simpl in *. lia.
Qed.

(** ** Properties *)

(** C23: overlap resolution of non-empty candidate spans returns a subset of
    them, sorted by start and pairwise disjoint. *)
Theorem resolve_spans_disjoint (l : list PIIEntity) :
  Forall nonempty_span l →
  disjoint_sorted (resolve_spans l) ∧ (∀ e, e ∈ resolve_spans l → e ∈ l).
Proof. intros Hl. by destruct (resolve_spans_spec l Hl) as (? & _ & ?). Qed.

(** C24: no candidate is dropped without cause: each one is in the result or
    lost, through a chain of overlapping members of the given list each
    ranked at least as high as the one before (priority, then confidence,
    then length), to one that is.  So a candidate that overlaps no other one
    is in the result. *)
Theorem resolve_spans_represents (l : list PIIEntity) (e : PIIEntity) :
  Forall nonempty_span l → e ∈ l →
  represented l (resolve_spans l) e ∧
  ((∀ o, o ∈ l → overlaps o e = true → o = e) → e ∈ resolve_spans l).
Proof.
  intros Hl He. destruct (resolve_spans_spec l Hl) as (_ & Hr & _). pose proof (Hr e He) as Hrep.
  split; [done|]. intros Halone. destruct Hrep as (o & Ho & Hc).
  enough (o = e) by congruence. clear Ho. induction Hc as [x|x y z [[Hov _] Hy] _ IH]; [done|].
  assert (y = x) as -> by by apply Halone. by apply IH.
Qed.

(** Overlap resolution is idempotent. *)
Theorem resolve_spans_idempotent (l : list PIIEntity) :
  Forall nonempty_span l → resolve_spans (resolve_spans l) = resolve_spans l.
Proof.
  intros Hl. destruct (resolve_spans_spec l Hl) as (Hd & _ & Hin).
  apply resolve_spans_id; [|done].
  rewrite Forall_forall in Hl |- *. auto.
Qed.

(** C35: the masking engine drops nothing the detection engine reports.  If
    every candidate is a valid span of the text, then after resolution and any
    filtering by type the masking engine's own span selection returns the
    entities as they are and warns about none, so every reported entity of an
    enabled type reaches the context rules. *)
Theorem resolved_spans_all_selected (text : pystr) (candidates : list PIIEntity)
    (enabled_types : list PIIType) :
  Forall (span_ok text) candidates →
  let entities := filter (λ e, pii_type e ∈ enabled_types) (resolve_spans candidates) in
  _select_spans text entities [] = (Ok entities, []).
Proof.
  intros Hok. cbv zeta. rewrite _select_spans_eq.
  destruct (resolve_spans_spec candidates) as (Hd & _ & Hin).
  { eapply Forall_impl; [exact Hok|]. by intros e (? & ? & _). }
  set (l := filter _ _).
  assert (Hl : Forall (span_ok text) l).
  { rewrite Forall_forall in Hok |- *. intros e [_ He]%list_elem_of_filter. by apply Hok, Hin. }
  f_equal; [f_equal; apply select_spans_id; [done|by apply StronglySorted_filter]|by apply span_warnings_none].
Qed.

(** ** Witnesses *)

Definition phone_over_pin : list PIIEntity :=
  [mk_entity PIN (u8 "9991") 1; mk_entity PHONE (u8 "89991234567") 0;
   mk_entity PHONE (u8 "89991234567") 0].

Lemma phone_over_pin_nonempty : Forall nonempty_span phone_over_pin.
Proof. repeat constructor. Qed.

Lemma resolve_spans_disjoint_witness :
  Forall nonempty_span phone_over_pin ∧ disjoint_sorted (resolve_spans phone_over_pin).
Proof.
  split; [exact phone_over_pin_nonempty|].
  destruct (resolve_spans_disjoint phone_over_pin phone_over_pin_nonempty) as [Hd _]. exact Hd.
Defined.

Lemma resolve_spans_represents_witness :
  resolve_spans phone_over_pin = [mk_entity PHONE (u8 "89991234567") 0] ∧
  represented phone_over_pin (resolve_spans phone_over_pin) (mk_entity PIN (u8 "9991") 1).
Proof.
  split; [vm_compute; reflexivity|].
  apply (resolve_spans_represents phone_over_pin); [exact phone_over_pin_nonempty|].
  apply list_elem_of_here.
Defined.

Lemma resolve_spans_idempotent_witness :
  resolve_spans (resolve_spans phone_over_pin) = resolve_spans phone_over_pin.
Proof. exact (resolve_spans_idempotent phone_over_pin phone_over_pin_nonempty). Defined.

Lemma resolved_spans_all_selected_witness :
  Forall (span_ok sample_text) sample_entities ∧
  _select_spans sample_text (filter (λ e, pii_type e ∈ [EMAIL; PIN]) (resolve_spans sample_entities)) []
    = (Ok (filter (λ e, pii_type e ∈ [EMAIL; PIN]) (resolve_spans sample_entities)), []).
Proof.
  assert (Hok : Forall (span_ok sample_text) sample_entities)
    by (repeat (apply Forall_cons; split; [apply span_valid_spec; vm_compute; reflexivity|]);
        constructor).
  split; [exact Hok|]. exact (resolved_spans_all_selected sample_text sample_entities [EMAIL; PIN] Hok).
Defined.
