(* ===== verification/Regex.v ===== *)
(** * Regular expressions

    The part of Python's [re] the program uses: literals, case-insensitive
    groups, character classes, alternation, greedy and lazy bounded
    repetition, capturing groups, one-character lookarounds, [\b] and [$].
    [rx_run] is the backtracking matcher in [re]'s order of alternatives;
    [denote] is what a pattern means; [rx_sound] and [rx_complete] relate the
    two.  [finditer], [search], [match_] and [fullmatch] are [re]'s entry
    points. *)

From S2P Require Import Prelude Unicode Domain PyStr.

(** ** Syntax *)

Inductive class_item :=
  | IRange (lo hi : Z)
  | IDigit                        (* \d *)
  | ISpace                        (* \s *)
  | IWord.                        (* \w *)

Inductive charset :=
  | CLit (c : Z)                  (* a literal character *)
  | CLitI (c : Z)                 (* a literal inside (?i:...) *)
  | CClass (negated : bool) (items : list class_item).

Inductive regex :=
  | REps
  | RSet (cs : charset)
  | RSeq (r1 r2 : regex)
  | RAlt (r1 r2 : regex)
  | RRepeat (greedy : bool) (min : nat) (max : option nat) (r : regex)
  | RGroup (n : nat) (r : regex)
  | RNotBehind (cs : charset)     (* (?<!c) *)
  | RNotAhead (cs : charset)      (* (?!c) *)
  | RWordBoundary                 (* \b *)
  | RDollar.                      (* $ *)

Definition rseq (l : list regex) : regex := foldr RSeq REps l.
Fixpoint ralt (l : list regex) : regex :=
  match l with
  | [] => REps
  | [r] => r
  | r :: l => RAlt r (ralt l)
  end.
Definition lit (s : pystr) : regex := rseq (RSet ∘ CLit <$> s).
Definition liti (s : pystr) : regex := rseq (RSet ∘ CLitI <$> s).
Definition cls (items : list class_item) : regex := RSet (CClass false items).
Definition star (r : regex) : regex := RRepeat true 0 None r.
Definition plus (r : regex) : regex := RRepeat true 1 None r.
Definition opt (r : regex) : regex := RRepeat true 0 (Some 1%nat) r.
Definition times (n : nat) (r : regex) : regex := RRepeat true n (Some n) r.
Definition between (n m : nat) (r : regex) : regex := RRepeat true n (Some m) r.
Definition ch (c : Z) : class_item := IRange c c.

(** ** Character classes *)

(** [re]'s extra case pairs ([re._casefix._EXTRA_CASES]): lowercase letters
    that match each other although lowercasing does not identify them. *)
Definition extra_cases : list (Z * list Z) := [
   (105, [305]); (115, [383]); (181, [956]); (305, [105]);
   (383, [115]); (837, [953; 8126]); (912, [8147]); (944, [8163]);
   (946, [976]); (949, [1013]); (952, [977]); (953, [837; 8126]);
   (954, [1008]); (956, [181]); (960, [982]); (961, [1009]);
   (962, [963]); (963, [962]); (966, [981]); (976, [946]);
   (977, [952]); (981, [966]); (982, [960]); (1008, [954]);
   (1009, [961]); (1013, [949]); (1074, [7296]); (1076, [7297]);
   (1086, [7298]); (1089, [7299]); (1090, [7300; 7301]); (1098, [7302]);
   (1123, [7303]); (7296, [1074]); (7297, [1076]); (7298, [1086]);
   (7299, [1089]); (7300, [1090; 7301]); (7301, [1090; 7300]); (7302, [1098]);
   (7303, [1123]); (7304, [42571]); (7777, [7835]); (7835, [7777]);
   (8126, [837; 953]); (8147, [912]); (8163, [944]); (42571, [7304]);
   (64261, [64262]); (64262, [64261])].

(** ** Matching *)

(** A position in a text: how many characters precede it, the last of them, the
    characters that follow, and the groups captured so far, newest first. *)
Record mstate := mkMState {
  ms_pos : Z;
  ms_prev : option Z;
  ms_rest : pystr;
  ms_caps : list (nat * (Z * Z))
}.

Definition advance (c : Z) (rest : pystr) (s : mstate) : mstate :=
  mkMState (ms_pos s + 1) (Some c) rest (ms_caps s).

Definition capture (n : nat) (from : Z) (s : mstate) : mstate :=
  mkMState (ms_pos s) (ms_prev s) (ms_rest s) ((n, (from, ms_pos s)) :: ms_caps s).

Abbreviation kont := (mstate → option mstate).

(** [n] mandatory iterations of a body, then [k]. *)
Fixpoint run_times (body : kont → kont) (n : nat) (k : kont) : kont :=
  match n with
  | O => k
  | S n => body (run_times body n k)
  end.

(** Up to [n] further iterations: a greedy loop tries one more first, a lazy
    one tries to leave first. *)
Fixpoint run_optional (body : kont → kont) (greedy : bool) (n : nat) (k : kont) (s : mstate)
    : option mstate :=
  match n with
  | O => k s
  | S n =>
      if greedy then
        match body (run_optional body greedy n k) s with
        | Some x => Some x
        | None => k s
        end
      else
        match k s with
        | Some x => Some x
        | None => body (run_optional body greedy n k) s
        end
  end.

Section Matcher.
Context `{U : UnicodeDB}.

Definition lower1 (c : Z) : Z := default c (head (lower_char c)).

Definition item_match (i : class_item) (c : Z) : bool :=
  match i with
  | IRange lo hi => (lo <=? c) && (c <=? hi)
  | IDigit => is_decimal c
  | ISpace => is_space c
  | IWord => is_word c
  end.

Definition set_match (cs : charset) (c : Z) : bool :=
  match cs with
  | CLit d => c =? d
  | CLitI d =>
      let lo := lower1 d in
      (lower1 c =? lo) ||
      existsb (Z.eqb (lower1 c)) (default [] (dict_get lo extra_cases))
  | CClass negated items => xorb negated (existsb (λ i, item_match i c) items)
  end.

Definition opt_match (cs : charset) (o : option Z) : bool :=
  match o with Some c => set_match cs c | None => false end.

Definition at_word (o : option Z) : bool :=
  match o with Some c => is_word c | None => false end.

(** [$] without [re.MULTILINE]: the end, or before a final newline. *)
Definition at_dollar (rest : pystr) : bool :=
  match rest with
  | [] => true
  | [c] => c =? 10
  | _ => false
  end.

Fixpoint rx_run (r : regex) (k : kont) (s : mstate) : option mstate :=
  match r with
  | REps => k s
  | RSet cs =>
      match ms_rest s with
      | c :: rest => if set_match cs c then k (advance c rest s) else None
      | [] => None
      end
  | RSeq r1 r2 => rx_run r1 (rx_run r2 k) s
  | RAlt r1 r2 =>
      match rx_run r1 k s with
      | Some x => Some x
      | None => rx_run r2 k s
      end
  | RRepeat greedy min max r =>
      run_times (rx_run r) min
        (λ s, run_optional (rx_run r) greedy
                (match max with Some m => m - min | None => length (ms_rest s) end)%nat k s) s
  | RGroup n r => rx_run r (λ s', k (capture n (ms_pos s) s')) s
  | RNotBehind cs => if opt_match cs (ms_prev s) then None else k s
  | RNotAhead cs => if opt_match cs (head (ms_rest s)) then None else k s
  | RWordBoundary =>
      if xorb (at_word (ms_prev s)) (at_word (head (ms_rest s))) then k s else None
  | RDollar => if at_dollar (ms_rest s) then k s else None
  end.

(** ** Entry points *)

Definition start_state (text : pystr) : mstate := mkMState 0 None text [].

(** [re.match(p, text)]. *)
Definition match_ (r : regex) (text : pystr) : option mstate :=
  rx_run r Some (start_state text).

(** [re.fullmatch(p, text)]. *)
Definition fullmatch (r : regex) (text : pystr) : option mstate :=
  rx_run r (λ s, match ms_rest s with [] => Some s | _ => None end) (start_state text).

(** A match object: where it starts, and the state it ended in. *)
Record match_obj := mkMatch { mo_start : Z; mo_end : mstate }.

(** [re.search(p, text)], from a position on. *)
Fixpoint search_from (r : regex) (pos : Z) (prev : option Z) (rest : pystr) : option match_obj :=
  match rx_run r Some (mkMState pos prev rest []) with
  | Some s => Some (mkMatch pos s)
  | None =>
      match rest with
      | [] => None
      | c :: rest => search_from r (pos + 1) (Some c) rest
      end
  end.
Definition search (r : regex) (text : pystr) : option match_obj := search_from r 0 None text.

(** [p.finditer(text)] for a pattern that matches no empty string: after a
    match of length [n], [skip = n - 1] further characters are passed over. *)
Fixpoint finditer_from (r : regex) (skip : nat) (pos : Z) (prev : option Z) (rest : pystr)
    : list match_obj :=
  match rest with
  | [] => []
  | c :: rest' =>
      match skip with
      | S skip => finditer_from r skip (pos + 1) (Some c) rest'
      | O =>
          match rx_run r Some (mkMState pos prev rest []) with
          | Some s =>
              mkMatch pos s
                :: finditer_from r (pred (Z.to_nat (ms_pos s - pos))) (pos + 1) (Some c) rest'
          | None => finditer_from r O (pos + 1) (Some c) rest'
          end
      end
  end.
Definition finditer (r : regex) (text : pystr) : list match_obj :=
  finditer_from r O 0 None text.

(** [m.span(n)]. *)
Definition group_span (n : nat) (m : match_obj) : option (Z * Z) :=
  dict_get n (ms_caps (mo_end m)).

(** ** Meaning *)

Fixpoint denote (r : regex) (s s' : mstate) : Prop :=
  match r with
  | REps => s' = s
  | RSet cs => ∃ c rest, ms_rest s = c :: rest ∧ set_match cs c = true ∧ s' = advance c rest s
  | RSeq r1 r2 => ∃ s1, denote r1 s s1 ∧ denote r2 s1 s'
  | RAlt r1 r2 => denote r1 s s' ∨ denote r2 s s'
  | RRepeat _ min max r =>
      ∃ n, (min ≤ n)%nat ∧ (match max with Some m => n ≤ Nat.max m min | None => True end)%nat ∧
           nsteps (denote r) n s s'
  | RGroup n r => ∃ s1, denote r s s1 ∧ s' = capture n (ms_pos s) s1
  | RNotBehind cs => opt_match cs (ms_prev s) = false ∧ s' = s
  | RNotAhead cs => opt_match cs (head (ms_rest s)) = false ∧ s' = s
  | RWordBoundary => xorb (at_word (ms_prev s)) (at_word (head (ms_rest s))) = true ∧ s' = s
  | RDollar => at_dollar (ms_rest s) = true ∧ s' = s
  end.

(** Can the pattern match without consuming? *)
Fixpoint nullable (r : regex) : bool :=
  match r with
  | RSet _ => false
  | RSeq r1 r2 => nullable r1 && nullable r2
  | RAlt r1 r2 => nullable r1 || nullable r2
  | RRepeat _ min _ r => (min =? 0)%nat || nullable r
  | RGroup _ r => nullable r
  | _ => true
  end.

(** Every unbounded repetition has a body that consumes. *)
Fixpoint well_formed (r : regex) : bool :=
  match r with
  | RSeq r1 r2 | RAlt r1 r2 => well_formed r1 && well_formed r2
  | RRepeat _ _ max r =>
      well_formed r && (match max with None => negb (nullable r) | Some _ => true end)
  | RGroup _ r => well_formed r
  | _ => true
  end.
End Matcher.

(** ** Soundness and completeness of the matcher *)

Section Loops.
Context (body : kont → kont) (D : mstate → mstate → Prop).

Definition body_sound : Prop :=
  ∀ k s x, body k s = Some x → ∃ s', D s s' ∧ k s' = Some x.
Definition body_complete : Prop :=
  ∀ k s s', D s s' → k s' ≠ None → body k s ≠ None.

Lemma run_times_sound n k s x :
  body_sound → run_times body n k s = Some x → ∃ s', nsteps D n s s' ∧ k s' = Some x.
Proof.
  intros Hb. revert s. induction n as [|n IH]; intros s; simpl.
  - intros Hk. exists s. split; [constructor|done].
  - intros (s1 & Hd & (s2 & Hn & Hk)%IH)%Hb. exists s2. split; [by econstructor|done].
Qed.

Lemma run_optional_sound greedy n k s x :
  body_sound → run_optional body greedy n k s = Some x →
  ∃ j s', (j ≤ n)%nat ∧ nsteps D j s s' ∧ k s' = Some x.
Proof.
  intros Hb. revert s. induction n as [|n IH]; intros s; simpl.
  - intros Hk. exists 0%nat, s. split_and!; [done|constructor|done].
  - assert (Hstay : k s = Some x → ∃ j s', (j ≤ S n)%nat ∧ nsteps D j s s' ∧ k s' = Some x).
    { intros Hk. exists 0%nat, s. split_and!; [lia|constructor|done]. }
    assert (Hgo : body (run_optional body greedy n k) s = Some x →
              ∃ j s', (j ≤ S n)%nat ∧ nsteps D j s s' ∧ k s' = Some x).
    { intros (s1 & Hd & (j & s2 & ? & Hn & Hk)%IH)%Hb.
      exists (S j), s2. split_and!; [lia|by econstructor|done]. }
    destruct greedy; case_match; naive_solver.
Qed.

Lemma run_times_complete n k s s' :
  body_complete → nsteps D n s s' → k s' ≠ None → run_times body n k s ≠ None.
Proof.
  intros Hb Hn Hk. induction Hn as [s|n s1 s2 s3 Hd Hn IH]; simpl; [done|].
  eapply Hb; [done|]. by apply IH.
Qed.

Lemma run_optional_complete greedy n j k s s' :
  body_complete → (j ≤ n)%nat → nsteps D j s s' → k s' ≠ None →
  run_optional body greedy n k s ≠ None.
Proof.
  intros Hb Hj Hn Hk. revert n Hj. induction Hn as [s|j s1 s2 s3 Hd Hn IH]; intros n Hj.
  - destruct n as [|n]; simpl; [done|]. destruct greedy; [by case_match|].
    by destruct (k s).
  - destruct n as [|n]; [lia|]. simpl.
    assert (body (run_optional body greedy n k) s1 ≠ None)
      by (eapply Hb; [done|]; apply IH; [done|lia]).
    destruct greedy; by case_match.
Qed.
End Loops.

Section Correctness.
Context `{U : UnicodeDB}.

Lemma rx_sound r k s x :
  rx_run r k s = Some x → ∃ s', denote r s s' ∧ k s' = Some x.
Proof.
  revert k s x. induction r as [|cs|r1 IH1 r2 IH2|r1 IH1 r2 IH2|g mn mx r IH|n r IH|cs|cs| |];
    intros k s x; cbn [rx_run denote].
  - eauto.
  - destruct (ms_rest s) as [|c rest] eqn:Hr; [done|].
    destruct (set_match cs c) eqn:Hc; [|done]. naive_solver.
  - intros (s1 & H1 & (s2 & H2 & Hk)%IH2)%IH1. eauto 10.
  - destruct (rx_run r1 k s) as [y|] eqn:H1.
    + intros [= <-]. apply IH1 in H1. naive_solver.
    + intros H2%IH2. naive_solver.
  - intros (s1 & Hn & Hopt)%(run_times_sound _ (denote r)); [|exact IH].
    apply (run_optional_sound _ (denote r)) in Hopt as (j & s2 & Hj & Hn' & Hk); [|exact IH].
    exists s2. split; [|done]. exists (mn + j)%nat. split_and!; [lia| |by eapply nsteps_trans].
    destruct mx; [lia|done].
  - intros (s1 & Hd & Hk)%IH. eauto 10.
  - destruct (opt_match _ _) eqn:Ho; [done|]. eauto.
  - destruct (opt_match _ _) eqn:Ho; [done|]. eauto.
  - destruct (xorb _ _) eqn:Ho; [|done]. eauto.
  - destruct (at_dollar _) eqn:Ho; [|done]. eauto.
Qed.

(** Matching moves forward over a prefix of what follows. *)
Definition consumed (s s' : mstate) (w : pystr) : Prop :=
  ms_rest s = w ++ ms_rest s' ∧ ms_pos s' = ms_pos s + slen w ∧
  ms_prev s' = (match last w with Some c => Some c | None => ms_prev s end).

Lemma consumed_nil s : consumed s s [].
Proof. unfold consumed, slen. simpl. split_and!; [done|lia|done]. Qed.

Lemma consumed_trans s1 s2 s3 w1 w2 :
  consumed s1 s2 w1 → consumed s2 s3 w2 → consumed s1 s3 (w1 ++ w2).
Proof.
  intros (H1 & H2 & H3) (H4 & H5 & H6). unfold consumed. rewrite slen_app, last_app.
  split_and!; [by rewrite H1, H4, app_assoc | lia | ].
  rewrite H6, H3. by destruct (last w2).
Qed.

Lemma nsteps_consumed (D : mstate → mstate → Prop) n s s' :
  (∀ s s', D s s' → ∃ w, consumed s s' w) → nsteps D n s s' → ∃ w, consumed s s' w.
Proof.
  intros HD. induction 1 as [s|n s1 s2 s3 Hd Hn (w2 & Hw2)]; [exists []; apply consumed_nil|].
  destruct (HD _ _ Hd) as [w1 Hw1]. exists (w1 ++ w2). by eapply consumed_trans.
Qed.

Lemma denote_consumed r s s' : denote r s s' → ∃ w, consumed s s' w.
Proof.
  revert s s'. induction r as [|cs|r1 IH1 r2 IH2|r1 IH1 r2 IH2|g mn mx r IH|n r IH|cs|cs| |];
    intros s s'; cbn [denote].
  - intros ->. exists []. apply consumed_nil.
  - intros (c & rest & Hr & _ & ->). exists [c]. unfold consumed, slen. simpl. by rewrite Hr.
  - intros (s1 & (w1 & H1)%IH1 & (w2 & H2)%IH2). exists (w1 ++ w2). by eapply consumed_trans.
  - intros [H|H]; eauto.
  - intros (n & _ & _ & Hn). by eapply nsteps_consumed.
  - intros (s1 & (w & Hw)%IH & ->). exists w. exact Hw.
  - intros [_ ->]. exists []. apply consumed_nil.
  - intros [_ ->]. exists []. apply consumed_nil.
  - intros [_ ->]. exists []. apply consumed_nil.
  - intros [_ ->]. exists []. apply consumed_nil.
Qed.

Lemma denote_pos_le r s s' : denote r s s' → ms_pos s <= ms_pos s'.
Proof. intros (w & _ & -> & _)%denote_consumed. pose proof (slen_nonneg w). lia. Qed.

Lemma nsteps_pos_le r n s s' : nsteps (denote r) n s s' → ms_pos s <= ms_pos s'.
Proof.
  induction 1 as [|n s1 s2 s3 Hd Hn IH]; [lia|]. apply denote_pos_le in Hd. lia.
Qed.

Lemma denote_progress r s s' : nullable r = false → denote r s s' → ms_pos s < ms_pos s'.
Proof.
  revert s s'. induction r as [|cs|r1 IH1 r2 IH2|r1 IH1 r2 IH2|g mn mx r IH|n r IH|cs|cs| |];
    intros s s'; cbn [denote nullable]; try done.
  - intros _ (c & rest & _ & _ & ->). simpl. lia.
  - intros [Hn|Hn]%andb_false_iff (s1 & H1 & H2).
    + apply IH1 in H1; [|done]. apply denote_pos_le in H2. lia.
    + apply denote_pos_le in H1. apply IH2 in H2; [|done]. lia.
  - intros [Hn1 Hn2]%orb_false_iff [H|H]; auto.
  - intros [Hmn Hn]%orb_false_iff (n & Hmin & _ & Hs). apply Nat.eqb_neq in Hmn.
    inversion Hs as [|n' s1 s2 s3 Hd Hs']; subst; [lia|].
    apply IH in Hd; [|done]. apply nsteps_pos_le in Hs'. lia.
  - intros Hn (s1 & H1 & ->). by apply IH in H1.
Qed.

(** A consuming body runs at most once per remaining character. *)
Lemma nsteps_bound r n s s' :
  nullable r = false → nsteps (denote r) n s s' → (n ≤ length (ms_rest s))%nat.
Proof.
  intros Hr. induction 1 as [|n s1 s2 s3 Hd Hn IH]; [lia|].
  pose proof (denote_progress r _ _ Hr Hd). apply denote_consumed in Hd as (w & Hw & Hp & _).
  rewrite Hw, length_app. unfold slen in Hp. lia.
Qed.

Lemma rx_complete r k s s' :
  well_formed r = true → denote r s s' → k s' ≠ None → rx_run r k s ≠ None.
Proof.
  revert k s s'. induction r as [|cs|r1 IH1 r2 IH2|r1 IH1 r2 IH2|g mn mx r IH|n r IH|cs|cs| |];
    intros k s s'; cbn [well_formed denote rx_run].
  - by intros _ ->.
  - intros _ (c & rest & -> & -> & ->). done.
  - intros [Hw1 Hw2]%andb_true_iff (s1 & H1 & H2) Hk.
    eapply IH1; [done|done|]. by eapply IH2.
  - intros [Hw1 Hw2]%andb_true_iff [H|H] Hk.
    + pose proof (IH1 k s s' Hw1 H Hk). by destruct (rx_run r1 k s).
    + pose proof (IH2 k s s' Hw2 H Hk). by destruct (rx_run r1 k s).
  - intros [Hw Hmx]%andb_true_iff (n & Hmin & Hmax & Hn) Hk.
    replace n with (mn + (n - mn))%nat in Hn by lia.
    apply nsteps_add_inv in Hn as (s1 & Hn1 & Hn2).
    assert (Hb : body_complete (rx_run r) (denote r)) by (intros k' ?? Hd Hk'; by eapply IH).
    eapply run_times_complete; [done|done|].
    eapply run_optional_complete; [done| |exact Hn2|done].
    destruct mx as [m|]; [lia|]. eapply nsteps_bound; [by apply negb_true_iff|done].
  - intros Hw (s1 & H1 & ->) Hk. by eapply IH.
  - by intros _ [-> ->].
  - by intros _ [-> ->].
  - by intros _ [-> ->].
  - by intros _ [-> ->].
Qed.
End Correctness.

(** ** Positions, spans and groups *)

Section Spans.
Context `{U : UnicodeDB}.

(** [s] is a position inside [text]. *)
Definition coherent (text : pystr) (s : mstate) : Prop :=
  ∃ pre, text = pre ++ ms_rest s ∧ ms_pos s = slen pre ∧ ms_prev s = last pre.

Lemma coherent_start text : coherent text (start_state text).
Proof. by exists []. Qed.

Lemma coherent_consumed text s s' w : coherent text s → consumed s s' w → coherent text s'.
Proof.
  intros (pre & Ht & Hp & Hl) (Hr & Hp' & Hl'). exists (pre ++ w).
  rewrite slen_app, last_app. split_and!; [by rewrite <-app_assoc, <-Hr | lia |].
  rewrite Hl', Hl. by destruct (last w).
Qed.

Lemma coherent_denote text r s s' : coherent text s → denote r s s' → coherent text s'.
Proof. intros Hc (w & Hw)%denote_consumed. by eapply coherent_consumed. Qed.

Lemma coherent_bounds text s : coherent text s → 0 <= ms_pos s <= slen text.
Proof.
  intros (pre & -> & -> & _). rewrite slen_app.
  pose proof (slen_nonneg pre). pose proof (slen_nonneg (ms_rest s)). lia.
Qed.

Lemma consumed_slice text s s' w :
  coherent text s → consumed s s' w → slice text (ms_pos s) (ms_pos s') = w.
Proof.
  intros (pre & Ht & Hp & _) (Hr & Hp' & _). rewrite Ht, Hr, Hp', Hp. apply slice_app_mid.
Qed.

Lemma consumed_capture n p s : consumed s (capture n p s) [].
Proof. unfold consumed, slen. simpl. split_and!; [done|lia|done]. Qed.

Lemma consumed_capture_r n p s s' w : consumed s s' w → consumed s (capture n p s') w.
Proof. done. Qed.

(** Is group [n] set by every match of [r]? *)
Fixpoint captures (n : nat) (r : regex) : bool :=
  match r with
  | RSeq r1 r2 => captures n r1 || captures n r2
  | RAlt r1 r2 => captures n r1 && captures n r2
  | RRepeat _ min _ r => (1 <=? min)%nat && captures n r
  | RGroup m r => (m =? n)%nat || captures n r
  | _ => false
  end.

(** The bodies of group [n] in [r]. *)
Fixpoint group_bodies (n : nat) (r : regex) : list regex :=
  match r with
  | RSeq r1 r2 | RAlt r1 r2 => group_bodies n r1 ++ group_bodies n r2
  | RRepeat _ _ _ r => group_bodies n r
  | RGroup m r => if (m =? n)%nat then r :: group_bodies n r else group_bodies n r
  | _ => []
  end.

(** Group [n] of [s'] was captured by [body] between [s] and [s']. *)
Definition captured_by (n : nat) (bodies : list regex) (s s' : mstate) : Prop :=
  ∃ body s1 s2, body ∈ bodies ∧ denote body s1 s2 ∧
    dict_get n (ms_caps s') = Some (ms_pos s1, ms_pos s2) ∧
    (∃ w, consumed s s1 w) ∧ (∃ w, consumed s2 s' w).

Lemma captured_by_mono n bodies bodies' s0 s s' :
  (∃ w, consumed s0 s w) → (∀ b, b ∈ bodies → b ∈ bodies') →
  captured_by n bodies s s' → captured_by n bodies' s0 s'.
Proof.
  intros (w0 & H0) Hb (body & s1 & s2 & Hin & Hd & Hg & (w & Hw) & Hw').
  exists body, s1, s2. split_and!; eauto using consumed_trans.
Qed.

(** After matching, group [n] keeps its value or was captured on the way. *)
Definition kept_or_captured (n : nat) (bodies : list regex) (s s' : mstate) : Prop :=
  dict_get n (ms_caps s') = dict_get n (ms_caps s) ∨ captured_by n bodies s s'.

Lemma kept_or_captured_trans n bs bs1 bs2 s1 s2 s3 w1 w2 :
  consumed s1 s2 w1 → consumed s2 s3 w2 →
  (∀ b, b ∈ bs1 → b ∈ bs) → (∀ b, b ∈ bs2 → b ∈ bs) →
  kept_or_captured n bs1 s1 s2 → kept_or_captured n bs2 s2 s3 → kept_or_captured n bs s1 s3.
Proof.
  intros Hc1 Hc2 Hb1 Hb2 H1 [H2|H2].
  - destruct H1 as [H1|(body & t1 & t2 & Hin & Hd & Hg & Hw & (w' & Hw'))];
      [left; congruence|right].
    exists body, t1, t2. rewrite H2. split_and!; eauto using consumed_trans.
  - right. eapply captured_by_mono; [by exists w1|exact Hb2|done].
Qed.

Lemma nsteps_kept r n bodies k s s' :
  (∀ s s', denote r s s' → kept_or_captured n bodies s s') →
  nsteps (denote r) k s s' → kept_or_captured n bodies s s'.
Proof.
  intros Hr. induction 1 as [s|k s1 s2 s3 Hd Hn IH]; [by left|].
  destruct (denote_consumed _ _ _ Hd) as [w1 Hw1].
  destruct (nsteps_consumed _ _ _ _ (denote_consumed r) Hn) as [w2 Hw2].
  apply (kept_or_captured_trans n bodies bodies bodies s1 s2 s3 w1 w2); auto.
Qed.

Lemma denote_kept n r s s' : denote r s s' → kept_or_captured n (group_bodies n r) s s'.
Proof.
  revert s s'. induction r as [|cs|r1 IH1 r2 IH2|r1 IH1 r2 IH2|g mn mx r IH|m r IH|cs|cs| |];
    intros s s'; cbn [denote group_bodies].
  - intros ->. by left.
  - intros (c & rest & _ & _ & ->). by left.
  - intros (s1 & H1 & H2).
    destruct (denote_consumed _ _ _ H1) as [w1 Hw1], (denote_consumed _ _ _ H2) as [w2 Hw2].
    apply (kept_or_captured_trans n _ (group_bodies n r1) (group_bodies n r2) s s1 s' w1 w2);
      auto; set_solver.
  - intros [H%IH1|H%IH2]; (destruct H as [H|H]; [by left|right]);
      (eapply captured_by_mono; [exists []; apply consumed_nil| |exact H]; set_solver).
  - intros (k & _ & _ & Hn). by eapply nsteps_kept.
  - intros (s1 & H1 & ->). destruct (Nat.eqb_spec m n) as [->|Hne].
    + right. exists r, s, s1. split_and!; [set_solver|done| |exists []; apply consumed_nil|].
      * cbn [capture ms_caps dict_get]. by rewrite decide_True.
      * exists []. apply consumed_capture.
    + apply IH in H1 as [H1|(body & t1 & t2 & Hin & Hd & Hg & Hw & Hw')].
      * left. cbn [capture ms_caps dict_get]. by rewrite decide_False.
      * right. exists body, t1, t2. split_and!; try done.
        cbn [capture ms_caps dict_get]. by rewrite decide_False.
  - intros [_ ->]. by left.
  - intros [_ ->]. by left.
  - intros [_ ->]. by left.
  - intros [_ ->]. by left.
Qed.

(** A group that every match sets was captured by one of its bodies. *)
Lemma denote_captures n r s s' :
  captures n r = true → denote r s s' → captured_by n (group_bodies n r) s s'.
Proof.
  revert s s'. induction r as [|cs|r1 IH1 r2 IH2|r1 IH1 r2 IH2|g mn mx r IH|m r IH|cs|cs| |];
    intros s s'; cbn [denote captures group_bodies]; try done.
  - intros Hc (s1 & H1 & H2).
    destruct (denote_consumed _ _ _ H1) as [w1 Hw1], (denote_consumed _ _ _ H2) as [w2 Hw2].
    destruct (denote_kept n _ _ _ H2) as [Hkept|Hcap].
    + apply orb_true_iff in Hc as [Hc|Hc].
      * destruct (IH1 _ _ Hc H1) as (body & t1 & t2 & Hin & Hd & Hg & Hw & (w' & Hw')).
        exists body, t1, t2. rewrite Hkept. split_and!; eauto using consumed_trans. set_solver.
      * eapply captured_by_mono; [by exists w1| |by apply IH2]. set_solver.
    + eapply captured_by_mono; [by exists w1| |done]. set_solver.
  - intros [Hc1 Hc2]%andb_true_iff [H|H];
      (eapply captured_by_mono; [exists []; apply consumed_nil| |by eauto]; set_solver).
  - intros [Hmn Hc]%andb_true_iff (k & Hk & _ & Hn). apply Nat.leb_le in Hmn.
    inversion Hn as [|k' s1 s2 s3 Hd Hn']; subst; [lia|].
    destruct (denote_consumed _ _ _ Hd) as [w1 Hw1].
    destruct (nsteps_consumed _ _ _ _ (denote_consumed r) Hn') as [w2 Hw2].
    destruct (nsteps_kept r n (group_bodies n r) _ _ _ (denote_kept n r) Hn') as [Hkept|Hcap].
    + destruct (IH _ _ Hc Hd) as (body & t1 & t2 & Hin & Hdb & Hg & Hw & (w' & Hw')).
      exists body, t1, t2. rewrite Hkept. split_and!; eauto using consumed_trans.
    + eapply captured_by_mono; [by exists w1| |done]. auto.
  - intros Hc (s1 & H1 & ->). destruct (Nat.eqb_spec m n) as [->|Hne].
    + exists r, s, s1. cbn [capture ms_caps dict_get]. rewrite decide_True by done.
      split_and!; [set_solver|done|done|exists []; apply consumed_nil|exists []; apply consumed_capture].
    + destruct (IH _ _ Hc H1) as (body & t1 & t2 & Hin & Hd & Hg & Hw & Hw').
      exists body, t1, t2. cbn [capture ms_caps dict_get]. by rewrite decide_False.
Qed.

(** ** [search] and [finditer] *)

Lemma coherent_next text pos prev c rest :
  coherent text (mkMState pos prev (c :: rest) []) →
  coherent text (mkMState (pos + 1) (Some c) rest []).
Proof.
  intros (pre & Ht & Hp & Hl). exists (pre ++ [c]). simpl in *.
  rewrite slen_app, last_snoc, <-app_assoc. split_and!; [done|unfold slen in *; simpl; lia|done].
Qed.

(** [m] is a match of [r] somewhere in [text]. *)
Definition match_in (text : pystr) (r : regex) (m : match_obj) : Prop :=
  ∃ s0, coherent text s0 ∧ ms_caps s0 = [] ∧ ms_pos s0 = mo_start m ∧ denote r s0 (mo_end m).

Lemma rx_run_match_in text r s s' :
  coherent text s → ms_caps s = [] → rx_run r Some s = Some s' →
  match_in text r (mkMatch (ms_pos s) s').
Proof.
  intros Hc Hcaps (s1 & Hd & [= ->])%rx_sound. by exists s.
Qed.

Lemma search_from_sound text r pos prev rest m :
  coherent text (mkMState pos prev rest []) →
  search_from r pos prev rest = Some m → match_in text r m.
Proof.
  revert pos prev. induction rest as [|c rest IH]; intros pos prev Hc; cbn [search_from];
    case_match eqn:Hr; try done.
  - intros [= <-]. by eapply rx_run_match_in in Hr.
  - intros [= <-]. by eapply rx_run_match_in in Hr.
  - apply IH. by eapply coherent_next.
Qed.

Lemma search_sound text r m : search r text = Some m → match_in text r m.
Proof. apply search_from_sound, coherent_start. Qed.

Lemma finditer_from_sound text r skip pos prev rest m :
  coherent text (mkMState pos prev rest []) →
  m ∈ finditer_from r skip pos prev rest → match_in text r m ∧ pos <= mo_start m.
Proof.
  revert skip pos prev. induction rest as [|c rest IH]; intros skip pos prev Hc;
    cbn [finditer_from]; [by intros ?%elem_of_nil|].
  pose proof (coherent_next _ _ _ _ _ Hc) as Hc'.
  destruct skip as [|skip]; [case_match eqn:Hr|].
  - intros [->|Hm]%elem_of_cons.
    + split; [by eapply rx_run_match_in in Hr|simpl; lia].
    + apply IH in Hm as [? ?]; [split; [done|lia]|done].
  - intros Hm. apply IH in Hm as [? ?]; [split; [done|lia]|done].
  - intros Hm. apply IH in Hm as [? ?]; [split; [done|lia]|done].
Qed.

Lemma finditer_sound text r m : m ∈ finditer r text → match_in text r m.
Proof.
  intros Hm. apply (finditer_from_sound text) in Hm; [apply Hm | apply coherent_start].
Qed.

(** What is reported is the match the engine itself finds at that position. *)
Definition found_at (text : pystr) (r : regex) (m : match_obj) : Prop :=
  ∃ pre rest, text = pre ++ rest ∧ mo_start m = slen pre ∧
    rx_run r Some (mkMState (slen pre) (last pre) rest []) = Some (mo_end m).

Lemma finditer_from_found text r skip pos prev rest m :
  coherent text (mkMState pos prev rest []) →
  m ∈ finditer_from r skip pos prev rest → found_at text r m.
Proof.
  revert skip pos prev. induction rest as [|c rest IH]; intros skip pos prev Hc;
    cbn [finditer_from]; [by intros ?%elem_of_nil|].
  pose proof (coherent_next _ _ _ _ _ Hc) as Hc'.
  destruct skip as [|skip]; [case_match eqn:Hr; [|by apply IH]|by apply IH].
  intros [->|Hm]%elem_of_cons; [|by eapply IH].
  destruct Hc as (pre & Ht & Hp & Hl). cbn [ms_pos ms_prev ms_rest] in *. subst. by exists pre, (c :: rest).
Qed.

Lemma finditer_found text r m : m ∈ finditer r text → found_at text r m.
Proof. apply finditer_from_found, coherent_start. Qed.

Lemma finditer_from_beyond r skip pos prev rest :
  (length rest <= skip)%nat → finditer_from r skip pos prev rest = [].
Proof.
  revert skip pos prev. induction rest as [|c rest IH]; intros [|skip] pos prev Hs;
    simpl in *; try done; try lia. apply IH. lia.
Qed.

Lemma finditer_from_start r skip pos prev rest m :
  m ∈ finditer_from r skip pos prev rest → pos + Z.of_nat skip <= mo_start m.
Proof.
  revert skip pos prev. induction rest as [|c rest IH]; intros skip pos prev;
    cbn [finditer_from]; [by intros ?%elem_of_nil|].
  destruct skip as [|skip]; [case_match|].
  - intros [->|Hm%IH]%elem_of_cons; simpl; lia.
  - intros Hm%IH. lia.
  - intros Hm%IH. lia.
Qed.

Lemma finditer_from_sorted text r skip pos prev rest :
  nullable r = false → coherent text (mkMState pos prev rest []) →
  StronglySorted (λ a b, ms_pos (mo_end a) <= mo_start b) (finditer_from r skip pos prev rest).
Proof.
  intros Hr. revert skip pos prev. induction rest as [|c rest IH]; intros skip pos prev Hc;
    cbn [finditer_from]; [constructor|].
  pose proof (coherent_next _ _ _ _ _ Hc) as Hc'.
  destruct skip as [|skip]; [case_match eqn:Hrun|]; [|by apply IH|by apply IH].
  constructor; [by apply IH|]. apply Forall_forall. intros m' Hm'%finditer_from_start.
  apply rx_sound in Hrun as (s' & Hd & [= ->]). apply denote_progress in Hd; [|done].
  simpl in *. lia.
Qed.

(** Matches are disjoint and in order. *)
Lemma finditer_sorted r text :
  nullable r = false →
  StronglySorted (λ a b, ms_pos (mo_end a) <= mo_start b) (finditer r text).
Proof. intros Hr. by apply (finditer_from_sorted text), coherent_start. Qed.

(** The position [i] characters further on. *)
Fixpoint state_at (i : nat) (pos : Z) (prev : option Z) (rest : pystr) : mstate :=
  match i, rest with
  | S i, c :: rest => state_at i (pos + 1) (Some c) rest
  | _, _ => mkMState pos prev rest []
  end.

Lemma finditer_from_covers r i skip pos prev rest s' :
  nullable r = false → well_formed r = true → (skip <= i < length rest)%nat →
  denote r (state_at i pos prev rest) s' →
  ∃ m, m ∈ finditer_from r skip pos prev rest ∧
       mo_start m <= pos + Z.of_nat i < ms_pos (mo_end m).
Proof.
  intros Hn Hw. revert i skip pos prev.
  induction rest as [|c rest IH]; intros i skip pos prev Hi Hd; simpl in Hi; [lia|].
  cbn [finditer_from]. destruct skip as [|skip].
  - destruct (rx_run r Some (mkMState pos prev (c :: rest) [])) as [s|] eqn:Hrun.
    + destruct (Z.lt_ge_cases (pos + Z.of_nat i) (ms_pos s)) as [Hlt|Hge].
      { eexists. split; [apply list_elem_of_here|]. simpl. lia. }
      apply rx_sound in Hrun as (s1 & Hd1 & [= ->]). apply denote_progress in Hd1; [|done].
      simpl in Hd1. destruct i as [|i]; [lia|]. cbn [state_at] in Hd.
      destruct (IH i (pred (Z.to_nat (ms_pos s - pos))) (pos + 1) (Some c)) as (m & Hm & ?);
        [lia|done|]. exists m. split; [by apply list_elem_of_further|lia].
    + destruct i as [|i].
      * exfalso. by eapply (rx_complete r Some).
      * cbn [state_at] in Hd. destruct (IH i 0%nat (pos + 1) (Some c)) as (m & Hm & ?);
          [lia|done|]. exists m. split; [done|lia].
  - destruct i as [|i]; [lia|]. cbn [state_at] in Hd.
    destruct (IH i skip (pos + 1) (Some c)) as (m & Hm & ?); [lia|done|].
    exists m. split; [done|lia].
Qed.

Lemma state_at_app pre rest pos prev :
  state_at (length pre) pos prev (pre ++ rest) =
    mkMState (pos + slen pre) (match last pre with Some c => Some c | None => prev end) rest [].
Proof.
  revert pos prev. induction pre as [|c pre IH]; intros pos prev; cbn [length state_at app].
  - unfold slen. simpl. by rewrite Z.add_0_r.
  - rewrite IH. unfold slen. simpl length. f_equal; [lia|].
    rewrite last_cons. by destruct (last pre).
Qed.

(** Every position where the pattern matches lies inside a reported match. *)
Lemma finditer_covers r text s s' :
  nullable r = false → well_formed r = true →
  coherent text s → ms_caps s = [] → denote r s s' →
  ∃ m, m ∈ finditer r text ∧ mo_start m <= ms_pos s < ms_pos (mo_end m).
Proof.
  intros Hn Hw (pre & Ht & Hp & Hl) Hcaps Hd.
  pose proof (denote_progress r s s' Hn Hd). apply denote_consumed in Hd as Hc.
  destruct Hc as (w & Hr & Hp' & _).
  destruct (finditer_from_covers r (length pre) 0 0 None text s') as (m & Hm & Hb);
    [done|done| | |].
  - rewrite Ht, length_app, Hr, length_app. unfold slen in *. lia.
  - rewrite Ht, state_at_app. destruct s as [spos sprev srest scaps]. simpl in *. subst.
    by destruct (last pre).
  - exists m. split; [done|]. rewrite Hp. unfold slen. lia.
Qed.
End Spans.

(** *** Characters a match must contain, and characters it is made of *)

Section Alphabet.
Context `{U : UnicodeDB}.

(** Every match of [r] contains the literal [c]. *)
Fixpoint requires_char (c : Z) (r : regex) : bool :=
  match r with
  | RSet (CLit d) => d =? c
  | RSeq r1 r2 => requires_char c r1 || requires_char c r2
  | RAlt r1 r2 => requires_char c r1 && requires_char c r2
  | RRepeat _ min _ r => (1 <=? min)%nat && requires_char c r
  | RGroup _ r => requires_char c r
  | _ => false
  end.

Lemma consumed_app_inv s s1 s' w w1 w2 :
  consumed s s' w → consumed s s1 w1 → consumed s1 s' w2 → w = w1 ++ w2.
Proof.
  intros (H & _) (H1 & _) (H2 & _). rewrite H1, H2, app_assoc in H.
  by apply app_inv_tail in H.
Qed.

Lemma requires_char_elem c r s s' w :
  requires_char c r = true → denote r s s' → consumed s s' w → c ∈ w.
Proof.
  revert s s' w. induction r as [|cs|r1 IH1 r2 IH2|r1 IH1 r2 IH2|g mn mx r IH|n r IH|cs|cs| |];
    intros s s' w; cbn [requires_char denote]; try done.
  - destruct cs as [d| |]; try done. intros ->%Z.eqb_eq (e & rest & Hr & ->%Z.eqb_eq & ->) (Hw & _).
    simpl in Hw. rewrite Hr in Hw. change (c :: rest) with ([c] ++ rest) in Hw.
    apply app_inv_tail in Hw as <-. apply list_elem_of_here.
  - intros Hc (s1 & H1 & H2) Hw.
    destruct (denote_consumed _ _ _ H1) as [w1 Hw1], (denote_consumed _ _ _ H2) as [w2 Hw2].
    rewrite (consumed_app_inv _ _ _ _ _ _ Hw Hw1 Hw2). apply elem_of_app.
    apply orb_true_iff in Hc as [Hc|Hc]; eauto.
  - intros [Hc1 Hc2]%andb_true_iff [H|H] Hw; eauto.
  - intros [Hmn Hc]%andb_true_iff (k & Hk & _ & Hn) Hw. apply Nat.leb_le in Hmn.
    inversion Hn as [|k' s1 s2 s3 Hd Hn']; subst; [lia|].
    destruct (denote_consumed _ _ _ Hd) as [w1 Hw1].
    destruct (nsteps_consumed _ _ _ _ (denote_consumed r) Hn') as [w2 Hw2].
    rewrite (consumed_app_inv _ _ _ _ _ _ Hw Hw1 Hw2). apply elem_of_app. eauto.
  - intros Hc (s1 & H1 & ->) Hw. by eapply IH.
Qed.

Lemma match_requires c r text :
  requires_char c r = true → c ∉ text → match_ r text = None.
Proof.
  intros Hc Ht. destruct (match_ r text) as [x|] eqn:Hm; [|done]. exfalso. apply Ht.
  apply rx_sound in Hm as (s' & Hd & _). destruct (denote_consumed _ _ _ Hd) as [w Hw].
  pose proof (requires_char_elem _ _ _ _ _ Hc Hd Hw). destruct Hw as (Hw & _).
  simpl in Hw. rewrite Hw. set_solver.
Qed.

(** The character sets a match consumes characters from. *)
Fixpoint charsets (r : regex) : list charset :=
  match r with
  | RSet cs => [cs]
  | RSeq r1 r2 | RAlt r1 r2 => charsets r1 ++ charsets r2
  | RRepeat _ _ _ r | RGroup _ r => charsets r
  | _ => []
  end.

Lemma denote_alphabet (P : Z → Prop) r s s' w :
  (∀ cs c, cs ∈ charsets r → set_match cs c = true → P c) →
  denote r s s' → consumed s s' w → Forall P w.
Proof.
  revert s s' w. induction r as [|cs|r1 IH1 r2 IH2|r1 IH1 r2 IH2|g mn mx r IH|n r IH|cs|cs| |];
    intros s s' w HP; cbn [charsets denote] in *.
  all: try (by intros [_ ->] (Hw & _); apply (app_inv_tail _ [] w) in Hw as <-; constructor).
  - intros -> (Hw & _). apply (app_inv_tail _ [] w) in Hw as <-. constructor.
  - intros (e & rest & Hr & He & ->) (Hw & _). simpl in Hw. rewrite Hr in Hw.
    change (e :: rest) with ([e] ++ rest) in Hw. apply app_inv_tail in Hw as <-.
    constructor; [|constructor]. eapply HP; [|done]. apply list_elem_of_here.
  - intros (s1 & H1 & H2) Hw.
    destruct (denote_consumed _ _ _ H1) as [w1 Hw1], (denote_consumed _ _ _ H2) as [w2 Hw2].
    rewrite (consumed_app_inv _ _ _ _ _ _ Hw Hw1 Hw2). apply Forall_app. split.
    + eapply IH1; [|done|done]. intros cs c Hin. apply HP. set_solver.
    + eapply IH2; [|done|done]. intros cs c Hin. apply HP. set_solver.
  - intros [H|H] Hw.
    + eapply IH1; [|done|done]. intros cs c Hin. apply HP. set_solver.
    + eapply IH2; [|done|done]. intros cs c Hin. apply HP. set_solver.
  - intros (k & _ & _ & Hn). revert w. induction Hn as [s|k s1 s2 s3 Hd Hn IHn]; intros w Hw.
    + destruct Hw as (Hw & _). apply (app_inv_tail _ [] w) in Hw as <-. constructor.
    + destruct (denote_consumed _ _ _ Hd) as [w1 Hw1].
      destruct (nsteps_consumed _ _ _ _ (denote_consumed r) Hn) as [w2 Hw2].
      rewrite (consumed_app_inv _ _ _ _ _ _ Hw Hw1 Hw2). apply Forall_app.
      split; [by eapply IH|by apply IHn].
  - intros (s1 & H1 & ->) Hw. by eapply IH.
Qed.
End Alphabet.

(** *** First characters and widths *)

Section Shape.
Context `{U : UnicodeDB}.

(** The character sets the first character of a match may come from. *)
Fixpoint firsts (r : regex) : list charset :=
  match r with
  | RSet cs => [cs]
  | RSeq r1 r2 => firsts r1 ++ (if nullable r1 then firsts r2 else [])
  | RAlt r1 r2 => firsts r1 ++ firsts r2
  | RRepeat _ _ _ r | RGroup _ r => firsts r
  | _ => []
  end.

Definition first_from (css : list charset) (w : pystr) : Prop :=
  match w with [] => True | c :: _ => ∃ cs, cs ∈ css ∧ set_match cs c = true end.

Lemma first_from_mono css css' w :
  (∀ cs, cs ∈ css → cs ∈ css') → first_from css w → first_from css' w.
Proof. destruct w; simpl; naive_solver. Qed.

Lemma consumed_self_nil s w : consumed s s w → w = [].
Proof. intros (Hw & _). by apply (app_inv_tail _ [] w) in Hw as <-. Qed.

(** Splits what a composite match consumes. *)
Lemma denote_split r s s1 s' w :
  denote r s s1 → consumed s s' w → (∃ w2, consumed s1 s' w2) →
  ∃ w1 w2, consumed s s1 w1 ∧ consumed s1 s' w2 ∧ w = w1 ++ w2.
Proof.
  intros (w1 & H1)%denote_consumed Hw (w2 & H2). exists w1, w2.
  split_and!; [done|done|by eapply consumed_app_inv].
Qed.

Lemma denote_first r s s' w : denote r s s' → consumed s s' w → first_from (firsts r) w.
Proof.
  revert s s' w. induction r as [|cs|r1 IH1 r2 IH2|r1 IH1 r2 IH2|g mn mx r IH|n r IH|cs|cs| |];
    intros s s' w; cbn [firsts denote].
  all: try (by intros [_ ->] ->%consumed_self_nil).
  - by intros -> ->%consumed_self_nil.
  - intros (e & rest & Hr & He & ->) (Hw & _). simpl in Hw. rewrite Hr in Hw.
    change (e :: rest) with ([e] ++ rest) in Hw. apply app_inv_tail in Hw as <-.
    exists cs. split; [apply list_elem_of_here|done].
  - intros (s1 & H1 & H2) Hw.
    destruct (denote_split r1 s s1 s' w H1 Hw (denote_consumed _ _ _ H2)) as (w1 & w2 & Hw1 & Hw2 & ->).
    destruct w1 as [|c w1].
    + destruct (nullable r1) eqn:Hn.
      * eapply first_from_mono; [|by eapply IH2]. set_solver.
      * apply denote_progress in H1; [|done]. destruct Hw1 as (_ & Hp & _).
        unfold slen in Hp. simpl in Hp. lia.
    + apply (first_from_mono (firsts r1)); [set_solver|]. by apply (IH1 _ _ (c :: w1) H1).
  - intros [H|H] Hw; (eapply first_from_mono; [|by eauto]; set_solver).
  - intros (k & _ & _ & Hn). revert w. induction Hn as [s|k s1 s2 s3 Hd Hn IHn]; intros w Hw.
    + by apply consumed_self_nil in Hw as ->.
    + destruct (denote_split r s1 s2 s3 w Hd Hw) as (w1 & w2 & Hw1 & Hw2 & ->).
      { eapply nsteps_consumed; [apply denote_consumed|done]. }
      destruct w1 as [|c w1]; [by apply IHn|]. by apply (IH _ _ (c :: w1) Hd).
  - intros (s1 & H1 & ->) Hw. by eapply IH.
Qed.

(** The longest match, when there is one. *)
Fixpoint max_width (r : regex) : option Z :=
  match r with
  | RSet _ => Some 1
  | RSeq r1 r2 => a ← max_width r1; b ← max_width r2; Some (a + b)
  | RAlt r1 r2 => a ← max_width r1; b ← max_width r2; Some (Z.max a b)
  | RRepeat _ min (Some max) r => a ← max_width r; Some (Z.of_nat (Nat.max max min) * a)
  | RRepeat _ _ None _ => None
  | RGroup _ r => max_width r
  | _ => Some 0
  end.

Lemma max_width_nonneg r n : max_width r = Some n → 0 <= n.
Proof.
  revert n. induction r as [|cs|r1 IH1 r2 IH2|r1 IH1 r2 IH2|g mn [mx|] r IH|k r IH|cs|cs| |];
    intros n; simpl; intros; simplify_option_eq; try lia.
  - specialize (IH1 _ eq_refl). specialize (IH2 _ eq_refl). lia.
  - specialize (IH1 _ eq_refl). specialize (IH2 _ eq_refl). lia.
  - specialize (IH _ eq_refl). lia.
  - by apply IH.
Qed.

Lemma denote_width r s s' n : max_width r = Some n → denote r s s' → ms_pos s' <= ms_pos s + n.
Proof.
  revert s s' n. induction r as [|cs|r1 IH1 r2 IH2|r1 IH1 r2 IH2|g mn [mx|] r IH|k r IH|cs|cs| |];
    intros s s' n; cbn [max_width denote]; intros Hn; simplify_option_eq.
  all: try (by intros [_ ->]; lia).
  - intros ->. lia.
  - intros (e & rest & _ & _ & ->). simpl. lia.
  - intros (s1 & H1 & H2). eapply IH1 in H1; [|done]. eapply IH2 in H2; [|done]. lia.
  - intros [Hd|Hd]; [eapply IH1 in Hd; [|done]|eapply IH2 in Hd; [|done]]; lia.
  - intros (k & _ & Hk & Hs). rename select (max_width r = Some _) into Hr.
    pose proof (max_width_nonneg _ _ Hr). rename select Z into a.
    assert (ms_pos s' <= ms_pos s + Z.of_nat k * a).
    { clear Hk. induction Hs as [s|k s1 s2 s3 Hd Hs IHs]; [lia|].
      eapply IH in Hd; [|done]. lia. }
    nia.
  - intros (s1 & H1 & ->). eapply IH in H1; [|done]. simpl. lia.
Qed.

(** A piece of a match: its characters, and how many there are. *)
Lemma denote_piece (P : Z → Prop) r s s' :
  (∀ cs c, cs ∈ charsets r → set_match cs c = true → P c) → denote r s s' →
  ∃ w, consumed s s' w ∧ Forall P w ∧ (nullable r = false → w ≠ []) ∧
       (∀ n, max_width r = Some n → slen w <= n).
Proof.
  intros HP Hd. destruct (denote_consumed _ _ _ Hd) as (w & Hw). exists w.
  pose proof Hw as (_ & Hp & _). split_and!; [done|by eapply denote_alphabet| |].
  - intros Hn ->. apply denote_progress in Hd; [|done]. unfold slen in Hp. simpl in Hp. lia.
  - intros n Hn. eapply denote_width in Hn; [|done]. lia.
Qed.
End Shape.
