(* ===== verification/Validators.v ===== *)
(** * Validators ([app/detection/validators.py])

    The checksum and date validators the regex detector applies to its
    candidates: Luhn for card numbers, the INN check digits, the birth-date
    window.  [datetime.strptime] is modelled for the three formats used, with
    the patterns [_strptime] compiles them to; [date.today()] reads a world of
    type [W], so that a result may depend on the day each call is made. *)

From S2P Require Import Prelude Unicode Domain PyStr Regex.

(** ** Dates *)

Record date := mkDate { d_year : Z; d_month : Z; d_day : Z }.

#[export] Instance date_eq_dec : EqDecision date.
Proof. solve_decision. Defined.

(** [d1 < d2] on dates. *)
Definition date_ltb (a b : date) : bool :=
  (d_year a <? d_year b) ||
  ((d_year a =? d_year b) &&
    ((d_month a <? d_month b) || ((d_month a =? d_month b) && (d_day a <? d_day b)))).

Definition is_leap (y : Z) : bool :=
  (y mod 4 =? 0) && (negb (y mod 100 =? 0) || (y mod 400 =? 0)).

Definition days_in_month (y m : Z) : Z :=
  if m =? 2 then (if is_leap y then 29 else 28)
  else if (m =? 4) || (m =? 6) || (m =? 9) || (m =? 11) then 30 else 31.

Definition valid_date (y m d : Z) : bool :=
  (1 <=? y) && (y <=? 9999) && (1 <=? m) && (m <=? 12) && (1 <=? d) && (d <=? days_in_month y m).

Definition fits_c_int (z : Z) : bool := (- 2147483648 <=? z) && (z <=? 2147483647).

(** The [datetime.date] constructor: its arguments are C ints, then checked. *)
Definition make_date (y m d : Z) : result exn date :=
  if negb (fits_c_int y && fits_c_int m && fits_c_int d) then Err EOverflowError
  else if valid_date y m d then Ok (mkDate y m d) else Err EValueError.

(** The world [date.today()] reads. *)
Class Calendar (W : Type) := date_today : W → date * W.

Section Validators.
Context `{U : UnicodeDB}.

(** [int(s)]. *)
Definition int_of (s : pystr) : result exn Z := result_of_option EValueError (py_int s).

(** [s\[i\]] on a sequence, for a non-negative index. *)
Definition item {A} (l : list A) (i : nat) : result exn A :=
  result_of_option EIndexError (l !! i).

Definition digits (s : pystr) : pystr := filter (λ ch, is_digit ch = true) s.

(** ** [luhn] *)

Fixpoint luhn_loop (i : Z) (total : Z) (l : pystr) : result exn Z :=
  match l with
  | [] => Ok total
  | ch :: l =>
      d ← int_of [ch];
      let d := if i mod 2 =? 1
               then let d := d * 2 in if 9 <? d then d - 9 else d
               else d in
      luhn_loop (i + 1) (total + d) l
  end.

Definition luhn (s : pystr) : result exn bool :=
  let num := digits s in
  if negb ((13 <=? slen num) && (slen num <=? 19)) then Ok false
  else
    total ← luhn_loop 0 0 (reverse num);
    Ok (total mod 10 =? 0).

(** ** [inn_checksum] *)

Definition weights_10 : list Z := [2; 4; 10; 3; 5; 9; 4; 6; 8].
Definition weights_1 : list Z := [7; 2; 4; 10; 3; 5; 9; 4; 6; 8].
Definition weights_2 : list Z := [3; 7; 2; 4; 10; 3; 5; 9; 4; 6; 8].

(** [sum(int(num\[i\]) * weights\[i\] for i in range(n)) % 11 % 10]. *)
Definition check_digit (num : pystr) (weights : list Z) (n : nat) : result exn Z :=
  terms ← mapR (λ i, c ← item num i; d ← int_of [c]; w ← item weights i; Ok (d * w)) (seq 0 n);
  Ok (foldr Z.add 0 terms mod 11 mod 10).

Definition digit_at (num : pystr) (i : nat) : result exn Z :=
  c ← item num i; int_of [c].

Definition inn_checksum (s : pystr) : result exn bool :=
  let num := digits s in
  if slen num =? 10 then
    check ← check_digit num weights_10 9;
    last ← digit_at num 9;
    Ok (check =? last)
  else if slen num =? 12 then
    check_1 ← check_digit num weights_1 10;
    check_2 ← check_digit num weights_2 11;
    last_1 ← digit_at num 10;
    if negb (check_1 =? last_1) then Ok false
    else
      last_2 ← digit_at num 11;
      Ok (check_2 =? last_2)
  else Ok false.

(** ** [parse_date] *)

Definition digit_range (lo hi : Z) : regex := cls [IRange lo hi].

(** The patterns [_strptime.TimeRE] gives the directives, in groups 1 (day),
    2 (month) and 3 (year). *)
Definition directive_d : regex :=
  RGroup 1 (ralt [rseq [lit (u8 "3"); digit_range 48 49];
                  rseq [digit_range 49 50; cls [IDigit]];
                  rseq [lit (u8 "0"); digit_range 49 57];
                  digit_range 49 57;
                  rseq [lit (u8 " "); digit_range 49 57]]).
Definition directive_m : regex :=
  RGroup 2 (ralt [rseq [lit (u8 "1"); digit_range 48 50];
                  rseq [lit (u8 "0"); digit_range 49 57];
                  digit_range 49 57]).
Definition directive_Y : regex :=
  RGroup 3 (rseq [cls [IDigit]; cls [IDigit]; cls [IDigit]; cls [IDigit]]).

Definition fmt_dots : regex :=
  rseq [directive_d; lit (u8 "."); directive_m; lit (u8 "."); directive_Y].
Definition fmt_slashes : regex :=
  rseq [directive_d; lit (u8 "/"); directive_m; lit (u8 "/"); directive_Y].
Definition fmt_iso : regex :=
  rseq [directive_Y; lit (u8 "-"); directive_m; lit (u8 "-"); directive_d].
Definition date_formats : list regex := [fmt_dots; fmt_slashes; fmt_iso].

(** [int(m.group(n))]. *)
Definition group_int (n : nat) (text : pystr) (m : mstate) : result exn Z :=
  match dict_get n (ms_caps m) with
  | Some (a, b) => int_of (slice text a b)
  | None => Err ETypeError
  end.

(** [datetime.strptime(text, fmt)] followed by taking its date: the pattern
    must match at the start and reach the end. *)
Definition strptime (text : pystr) (fmt : regex) : result exn date :=
  match match_ fmt text with
  | None => Err EValueError
  | Some m =>
      if negb (ms_pos m =? slen text) then Err EValueError
      else
        day ← group_int 1 text m;
        month ← group_int 2 text m;
        year ← group_int 3 text m;
        make_date year month day
  end.

Definition months : list (pystr * Z) :=
  [(u8 "января", 1); (u8 "февраля", 2); (u8 "марта", 3); (u8 "апреля", 4);
   (u8 "мая", 5); (u8 "июня", 6); (u8 "июля", 7); (u8 "августа", 8);
   (u8 "сентября", 9); (u8 "октября", 10); (u8 "ноября", 11); (u8 "декабря", 12)].

(** [try: ... except ValueError: return None]. *)
Definition none_on_value_error {A} (m : result exn A) : result exn (option A) :=
  match m with
  | Ok a => Ok (Some a)
  | Err e => if is_value_error e then Ok None else Err e
  end.

Fixpoint try_formats (text : pystr) (fmts : list regex) : result exn (option date) :=
  match fmts with
  | [] => Ok None
  | fmt :: fmts =>
      parsed ← none_on_value_error (strptime text fmt);
      match parsed with
      | Some d => Ok (Some d)
      | None => try_formats text fmts
      end
  end.

Definition parse_date (s : pystr) : result exn (option date) :=
  let text := strip s in
  parsed ← try_formats text date_formats;
  match parsed with
  | Some d => Ok (Some d)
  | None =>
      match split_ws text with
      | [day; month_name; year] =>
          match dict_get (str_lower month_name) months with
          | None => Ok None
          | Some month =>
              none_on_value_error
                (y ← int_of year; d ← int_of day; make_date y month d)
          end
      | _ => Ok None
      end
  end.

(** ** [is_birth_date] *)

(** Full years from [parsed] to [today]. *)
Definition age_at (today parsed : date) : Z :=
  d_year today - d_year parsed -
    (if (d_month today <? d_month parsed)
        || ((d_month today =? d_month parsed) && (d_day today <? d_day parsed))
     then 1 else 0).

Context {W : Type} `{!Calendar W}.

Definition is_birth_date (s : pystr) : stateM W exn bool :=
  parsed <-- slift (parse_date s);
  match parsed with
  | None => sret false
  | Some parsed =>
      today <-- (λ w, let '(d, w) := date_today w in (Ok d, w));
      if negb (date_ltb parsed today) then sret false
      else sret (age_at today parsed <=? 120)
  end.
End Validators.

(** The modelled calendar that always shows the same day. *)
Definition fixed_day (d : date) : Calendar unit := λ w, (d, w).

(** ** Facts about the digit loops *)

Section DigitFacts.
Context `{U : UnicodeDB}.

Lemma digits_app s t : digits (s ++ t) = digits s ++ digits t.
Proof. unfold digits. by rewrite filter_app. Qed.

Lemma digits_decimal c : is_decimal c = true → digits [c] = [c].
Proof.
  intros Hc%decimal_is_digit. unfold digits. by rewrite filter_cons_True, filter_nil.
Qed.

(** Every digit character of [s] is a decimal one: what [int] needs. *)
Definition plain_digits (s : pystr) : Prop :=
  Forall (λ c, is_digit c = true → is_decimal c = true) s.

Lemma digits_decimals s : plain_digits s → Forall (λ c, is_decimal c = true) (digits s).
Proof.
  intros Hs. unfold plain_digits in Hs. rewrite Forall_forall in Hs.
  apply Forall_forall. intros c [Hd Hc]%list_elem_of_filter. by apply Hs.
Qed.

Lemma int_of_decimal c : is_decimal c = true → int_of [c] = Ok (decimal_value c).
Proof.
  intros Hc. unfold int_of. rewrite py_int_decimals.
  - done.
  - by repeat constructor.
  - done.
  - by unfold slen.
Qed.

Lemma int_of_decimals_ok s :
  Forall (λ c, is_decimal c = true) s → s ≠ [] → slen s <= 4300 →
  int_of s = Ok (decimal_number s).
Proof. intros. unfold int_of. by rewrite py_int_decimals. Qed.

Lemma decimal_value_bound c : 0 <= decimal_value c <= 9.
Proof. apply decimal_value_range. Qed.

(** The contribution of a digit at an even or odd position from the right. *)
Definition luhn_term (i d : Z) : Z :=
  if i mod 2 =? 1 then let d := d * 2 in if 9 <? d then d - 9 else d else d.

Fixpoint luhn_sum (i : Z) (ds : list Z) : Z :=
  match ds with
  | [] => 0
  | d :: ds => luhn_term i d + luhn_sum (i + 1) ds
  end.

Lemma luhn_loop_sum i total l :
  Forall (λ c, is_decimal c = true) l →
  luhn_loop i total l = Ok (total + luhn_sum i (decimal_value <$> l)).
Proof.
  intros Hl. revert i total. induction Hl as [|c l Hc Hl IH]; intros i total.
  - simpl. f_equal. lia.
  - cbn [luhn_loop]. rewrite int_of_decimal by done. cbn [mbind result_bind].
    fold (luhn_term i (decimal_value c)). rewrite IH. cbn [fmap list_fmap luhn_sum]. f_equal. lia.
Qed.

Lemma luhn_sum_app i ds ds' : luhn_sum i (ds ++ ds') = luhn_sum i ds + luhn_sum (i + slen ds) ds'.
Proof.
  revert i. induction ds as [|d ds IH]; intros i; cbn [app luhn_sum].
  - unfold slen. simpl. by rewrite Z.add_0_r.
  - rewrite IH. replace (i + slen (d :: ds)) with (i + 1 + slen ds) by (unfold slen; simpl; lia). lia.
Qed.

Lemma luhn_sum_mid a x b :
  luhn_sum 0 (reverse (a ++ x :: b)) =
    luhn_sum 0 (reverse b) + luhn_sum (slen b + 1) (reverse a) + luhn_term (slen b) x.
Proof.
  rewrite reverse_app, reverse_cons, <-app_assoc, luhn_sum_app. cbn [app luhn_sum].
  replace (slen (reverse b)) with (slen b) by (unfold slen; by rewrite length_reverse).
  rewrite Z.add_0_l. lia.
Qed.

Lemma luhn_plain s :
  plain_digits s →
  luhn s = Ok ((13 <=? slen (digits s)) && (slen (digits s) <=? 19) &&
               (luhn_sum 0 (reverse (decimal_value <$> digits s)) mod 10 =? 0)).
Proof.
  intros Hs. unfold luhn. destruct (_ && _) eqn:Hlen; cbn [negb]; [|done].
  rewrite luhn_loop_sum by (apply Forall_reverse, digits_decimals, Hs).
  cbn [mbind result_bind]. by rewrite fmap_reverse.
Qed.

Lemma luhn_term_inj i d d' :
  0 <= d <= 9 → 0 <= d' <= 9 → (luhn_term i d - luhn_term i d') mod 10 = 0 → d = d'.
Proof.
  intros Hd Hd'. unfold luhn_term.
  assert (Hcase : i mod 2 =? 1 = true ∨ i mod 2 =? 1 = false) by (destruct (_ =? 1); auto).
  assert (Hbounds : ∀ x, -10 < x < 10 → x mod 10 = 0 → x = 0).
  { intros x Hx Hm. pose proof (Z.div_mod x 10). lia. }
  destruct Hcase as [-> | ->]; intros Hm%Hbounds; repeat case_match; lia.
Qed.

Lemma mod10_swap a b c : (a + b) mod 10 = 0 → (a + c) mod 10 = 0 → (b - c) mod 10 = 0.
Proof.
  intros H1 H2. replace (b - c) with ((a + b) - (a + c)) by lia.
  by rewrite Zminus_mod, H1, H2.
Qed.

Lemma plain_digits_app s t : plain_digits (s ++ t) ↔ plain_digits s ∧ plain_digits t.
Proof. apply Forall_app. Qed.

Lemma plain_digits_decimal c : is_decimal c = true → plain_digits [c].
Proof. intros Hc. by repeat constructor. Qed.

Lemma luhn_true s :
  luhn s = Ok true → 13 <= slen (digits s) <= 19.
Proof.
  unfold luhn. destruct (_ && _) eqn:Hlen; cbn [negb]; [|done].
  apply andb_true_iff in Hlen. lia.
Qed.
End DigitFacts.

Section Checksums.
Context `{U : UnicodeDB}.

(** Luhn catches every single wrong digit: replacing one decimal digit of
    an accepted card number by a different one, whatever the separators and
    the position, gives a number [luhn] rejects without an exception. *)
Theorem luhn_detects_single_error (p q : pystr) (c c' : Z) :
  plain_digits p → plain_digits q → is_decimal c = true → is_decimal c' = true →
  decimal_value c ≠ decimal_value c' →
  luhn (p ++ c :: q) = Ok true → luhn (p ++ c' :: q) = Ok false.
Proof.
  intros Hp Hq Hc Hc' Hne Hok.
  assert (Hplain : ∀ x, is_decimal x = true → plain_digits (p ++ x :: q)).
  { intros x Hx. apply plain_digits_app. split; [done|]. by constructor. }
  rewrite luhn_plain in Hok |- * by auto.
  assert (Hdig : ∀ x, is_decimal x = true → digits (p ++ x :: q) = digits p ++ x :: digits q).
  { intros x Hx. rewrite digits_app. f_equal.
    change (x :: q) with ([x] ++ q). by rewrite digits_app, digits_decimal. }
  rewrite Hdig in Hok |- * by done. injection Hok as Hok.
  assert (Hlen : slen (digits p ++ c' :: digits q) = slen (digits p ++ c :: digits q))
    by (unfold slen; rewrite !length_app; done).
  rewrite Hlen. apply andb_true_iff in Hok as [-> Hsum]. simpl. f_equal.
  apply Z.eqb_neq. apply Z.eqb_eq in Hsum. intros Hsum'.
  rewrite fmap_app, fmap_cons, luhn_sum_mid in Hsum, Hsum'.
  eapply Hne, luhn_term_inj; [apply decimal_value_bound..|].
  eapply (mod10_swap _ _ _ Hsum Hsum').
Qed.

(** *** The check digits of an INN *)

Definition weighted (ws vs : list Z) : Z := foldr Z.add 0 (zip_with Z.mul vs ws).
Definition inn_check (ws vs : list Z) : Z := weighted ws vs mod 11 mod 10.

Lemma inn_check_range ws vs : 0 <= inn_check ws vs <= 9.
Proof. unfold inn_check. pose proof (Z.mod_pos_bound (weighted ws vs mod 11) 10). lia. Qed.

Lemma item_app_l {A} (l l' : list A) i : (i < length l)%nat → item (l ++ l') i = item l i.
Proof. intros Hi. unfold item. by rewrite lookup_app_l. Qed.

Lemma check_terms num ws tl :
  Forall (λ c, is_decimal c = true) num → length num = length ws →
  mapR (λ i, c ← item (num ++ tl) i; d ← int_of [c]; w ← item ws i; Ok (d * w))
    (seq 0 (length num)) = Ok (zip_with Z.mul (decimal_value <$> num) ws).
Proof.
  intros Hnum Hlen. apply mapR_Ok. apply Forall2_same_length_lookup_2.
  { rewrite length_seq, length_zip_with, length_fmap. lia. }
  intros i j v Hi Hv. apply lookup_seq in Hi as [-> Hi]. cbn [Nat.add].
  apply lookup_zip_with_Some in Hv as (d & w & -> & Hd & Hw).
  rewrite list_lookup_fmap in Hd. apply fmap_Some in Hd as (c & Hc & ->).
  rewrite item_app_l by lia. unfold item. rewrite Hc, Hw. simpl.
  rewrite Forall_lookup in Hnum. by rewrite int_of_decimal by eauto.
Qed.

Lemma check_digit_plain num ws tl n :
  Forall (λ c, is_decimal c = true) num → length num = length ws → n = length num →
  check_digit (num ++ tl) ws n = Ok (inn_check ws (decimal_value <$> num)).
Proof.
  intros Hnum Hlen ->. unfold check_digit. by rewrite check_terms.
Qed.

Lemma digit_at_plain num i c :
  num !! i = Some c → is_decimal c = true → digit_at num i = Ok (decimal_value c).
Proof. intros Hi Hc. unfold digit_at, item. rewrite Hi. simpl. by apply int_of_decimal. Qed.

Lemma inn_10_plain s num c :
  digits s = num ++ [c] → plain_digits s → length num = 9%nat →
  inn_checksum s = Ok (inn_check weights_10 (decimal_value <$> num) =? decimal_value c).
Proof.
  intros Hs Hp Hlen. pose proof (digits_decimals s Hp) as Hd. rewrite Hs in Hd.
  apply Forall_app in Hd as [Hnum [Hc _]%Forall_cons].
  unfold inn_checksum. rewrite Hs, slen_app. unfold slen at 1 2. rewrite Hlen. simpl length.
  cbn [Z.of_nat Z.add Z.eqb]. rewrite check_digit_plain by done. simpl.
  rewrite (digit_at_plain _ 9 c); [done| |done].
  by rewrite lookup_app_r, Hlen by lia.
Qed.

Lemma inn_12_plain s num c d :
  digits s = num ++ [c; d] → plain_digits s → length num = 10%nat →
  inn_checksum s = Ok ((inn_check weights_1 (decimal_value <$> num) =? decimal_value c) &&
    (inn_check weights_2 (decimal_value <$> num ++ [c]) =? decimal_value d)).
Proof.
  intros Hs Hp Hlen. pose proof (digits_decimals s Hp) as Hd. rewrite Hs in Hd.
  apply Forall_app in Hd as [Hnum [Hc [Hd _]%Forall_cons]%Forall_cons].
  assert (H12 : slen (num ++ [c; d]) = 12) by (unfold slen; rewrite length_app, Hlen; done).
  unfold inn_checksum. rewrite Hs, H12. simpl Z.eqb. cbv iota.
  rewrite (check_digit_plain num weights_1) by (done || by rewrite Hlen). cbn [mbind result_bind].
  replace (num ++ [c; d]) with ((num ++ [c]) ++ [d]) by by rewrite <-app_assoc.
  rewrite (check_digit_plain (num ++ [c]) weights_2); [|by apply Forall_app; repeat constructor
    |by rewrite length_app, Hlen|by rewrite length_app, Hlen].
  cbn [mbind result_bind].
  rewrite (digit_at_plain _ 10 c); [|by rewrite <-app_assoc, lookup_app_r, Hlen by lia|done].
  cbn [mbind result_bind]. destruct (_ =? _); simpl; [|done].
  rewrite (digit_at_plain _ 11 d); [done| |done].
  rewrite <-app_assoc, lookup_app_r, Hlen by lia. done.
Qed.

Lemma digits_snoc s c : is_decimal c = true → digits (s ++ [c]) = digits s ++ [c].
Proof. intros Hc. by rewrite digits_app, digits_decimal. Qed.

Lemma ascii_digit_char (v : Z) :
  0 <= v <= 9 → is_decimal (48 + v) = true ∧ decimal_value (48 + v) = v.
Proof.
  intros Hv. rewrite ascii_decimal by lia. rewrite ascii_decimal_value by lia. lia.
Qed.

(** An INN of ten digits is accepted for exactly one value of its last
    digit: some check digit completes any nine digits to an accepted number,
    and two accepted completions have the same value. *)
Theorem inn_check_digit_unique (s : pystr) :
  plain_digits s → slen (digits s) = 9 →
  ∃ v, 0 <= v <= 9 ∧ inn_checksum (s ++ [48 + v]) = Ok true ∧
       ∀ c, is_decimal c = true →
            inn_checksum (s ++ [c]) = Ok (bool_decide (decimal_value c = v)).
Proof.
  intros Hp Hlen. set (v := inn_check weights_10 (decimal_value <$> digits s)).
  assert (Hall : ∀ c, is_decimal c = true →
    inn_checksum (s ++ [c]) = Ok (v =? decimal_value c)).
  { intros c Hc. apply inn_10_plain; [by apply digits_snoc| |unfold slen in Hlen; lia].
    apply plain_digits_app. split; [done|]. by apply plain_digits_decimal. }
  pose proof (inn_check_range weights_10 (decimal_value <$> digits s)) as Hv. fold v in Hv.
  destruct (ascii_digit_char v Hv) as [Hd Hval].
  exists v. split_and!; [lia|lia| |].
  - by rewrite Hall, Hval, Z.eqb_refl.
  - intros c Hc. rewrite Hall by done. f_equal.
    destruct (Z.eqb_spec v (decimal_value c)); by case_bool_decide.
Qed.
End Checksums.

(** ** Dates: formats and the birth-date window *)

Definition digit_char (v : Z) : Z := 48 + v.
Definition two (n : Z) : pystr := [digit_char (n / 10); digit_char (n mod 10)].
Definition four (n : Z) : pystr :=
  [digit_char (n / 1000); digit_char (n / 100 mod 10); digit_char (n / 10 mod 10); digit_char (n mod 10)].

Section Dates.
Context `{U : UnicodeDB}.

Lemma digit_char_decimal v : 0 <= v <= 9 → is_decimal (digit_char v) = true.
Proof. apply ascii_digit_char. Qed.

Lemma digit_char_value v : 0 <= v <= 9 → decimal_value (digit_char v) = v.
Proof. apply ascii_digit_char. Qed.

Lemma two_digits n : 0 <= n <= 99 → 0 <= n / 10 <= 9 ∧ 0 <= n mod 10 <= 9.
Proof. intros. Z.div_mod_to_equations. lia. Qed.

Lemma four_digits n :
  0 <= n <= 9999 →
  0 <= n / 1000 <= 9 ∧ 0 <= n / 100 mod 10 <= 9 ∧ 0 <= n / 10 mod 10 <= 9 ∧ 0 <= n mod 10 <= 9.
Proof.
  intros. assert (∀ m, 0 <= m mod 10 <= 9) by (intros m; Z.div_mod_to_equations; lia).
  split_and!; try done; Z.div_mod_to_equations; lia.
Qed.

Lemma two_decimals n : 0 <= n <= 99 → Forall (λ c, is_decimal c = true) (two n).
Proof. intros [? ?]%two_digits. by repeat constructor; apply digit_char_decimal. Qed.

Lemma four_decimals n : 0 <= n <= 9999 → Forall (λ c, is_decimal c = true) (four n).
Proof. intros (? & ? & ? & ?)%four_digits. by repeat constructor; apply digit_char_decimal. Qed.

Lemma int_of_two n : 0 <= n <= 99 → int_of (two n) = Ok n.
Proof.
  intros Hn. rewrite int_of_decimals_ok; [|by apply two_decimals|done|by unfold slen].
  destruct (two_digits n Hn). f_equal. unfold decimal_number, two. simpl.
  rewrite !digit_char_value by done. pose proof (Z.div_mod n 10). lia.
Qed.

Lemma int_of_four n : 0 <= n <= 9999 → int_of (four n) = Ok n.
Proof.
  intros Hn. rewrite int_of_decimals_ok; [|by apply four_decimals|done|by unfold slen].
  destruct (four_digits n Hn) as (? & ? & ? & ?). f_equal. unfold decimal_number, four. simpl.
  rewrite !digit_char_value by done.
  Z.div_mod_to_equations. lia.
Qed.

(** One step of the matcher over a decimal digit. *)
Lemma run_digit k pos prev c rest caps :
  is_decimal c = true →
  rx_run (cls [IDigit]) k (mkMState pos prev (c :: rest) caps) =
    k (mkMState (pos + 1) (Some c) rest caps).
Proof. intros Hc. simpl. by rewrite Hc. Qed.

Lemma run_seq l r k s : rx_run (rseq (r :: l)) k s = rx_run r (rx_run (rseq l) k) s.
Proof. done. Qed.

Lemma run_char c k pos prev rest caps :
  rx_run (lit [c]) k (mkMState pos prev (c :: rest) caps) =
    k (mkMState (pos + 1) (Some c) rest caps).
Proof. simpl. by rewrite Z.eqb_refl. Qed.

(** Evaluates the closed patterns and digits of a goal. *)
Ltac eval_digits :=
  repeat match goal with
  | |- context [directive_d] => let t := eval vm_compute in directive_d in change directive_d with t
  | |- context [directive_m] => let t := eval vm_compute in directive_m in change directive_m with t
  | |- context [two ?v] => let t := eval vm_compute in (two v) in change (two v) with t
  | |- context [digit_char ?v] =>
      let t := eval vm_compute in (digit_char v) in progress change (digit_char v) with t
  end.

Lemma forall_range (P : Z → Prop) lo n :
  Forall P ((λ i, lo + Z.of_nat i) <$> seq 0 n) → ∀ v, lo <= v < lo + Z.of_nat n → P v.
Proof.
  rewrite Forall_forall. intros HP v Hv. apply HP, list_elem_of_fmap.
  exists (Z.to_nat (v - lo)). split; [lia|]. apply elem_of_seq. lia.
Qed.

Lemma run_directive_Y k pos prev y rest caps :
  0 <= y <= 9999 →
  rx_run directive_Y k (mkMState pos prev (four y ++ rest) caps) =
    k (mkMState (pos + 1 + 1 + 1 + 1) (Some (digit_char (y mod 10))) rest
         ((3%nat, (pos, pos + 1 + 1 + 1 + 1)) :: caps)).
Proof.
  intros (? & ? & ? & ?)%four_digits. unfold four. cbn.
  by rewrite !digit_char_decimal by done.
Qed.

Lemma run_directive_d k pos prev d rest caps x :
  1 <= d <= 31 →
  k (mkMState (pos + 1 + 1) (Some (digit_char (d mod 10))) rest
       ((1%nat, (pos, pos + 1 + 1)) :: caps)) = Some x →
  rx_run directive_d k (mkMState pos prev (two d ++ rest) caps) = Some x.
Proof.
  intros Hd. revert k pos prev rest caps x. pattern d.
  apply (forall_range _ 1 31); [|lia]. clear d Hd. let l := eval vm_compute in ((λ i, 1 + Z.of_nat i) <$> seq 0 31) in
    change ((λ i, 1 + Z.of_nat i) <$> seq 0 31) with l.
  repeat (apply Forall_cons_2; [intros k pos prev rest caps x; eval_digits; intros Hk; cbn;
    rewrite ?ascii_decimal by lia; cbn; unfold capture, advance; cbn; by rewrite Hk|]). apply Forall_nil_2.
Qed.

Lemma run_directive_m k pos prev m rest caps x :
  1 <= m <= 12 →
  k (mkMState (pos + 1 + 1) (Some (digit_char (m mod 10))) rest
       ((2%nat, (pos, pos + 1 + 1)) :: caps)) = Some x →
  rx_run directive_m k (mkMState pos prev (two m ++ rest) caps) = Some x.
Proof.
  intros Hm. revert k pos prev rest caps x. pattern m.
  apply (forall_range _ 1 12); [|lia]. clear m Hm. let l := eval vm_compute in ((λ i, 1 + Z.of_nat i) <$> seq 0 12) in
    change ((λ i, 1 + Z.of_nat i) <$> seq 0 12) with l.
  repeat (apply Forall_cons_2; [intros k pos prev rest caps x; eval_digits; intros Hk; cbn; unfold capture, advance; cbn; by rewrite Hk|]).
  apply Forall_nil_2.
Qed.

Definition fmt_dmy (c : Z) : regex :=
  rseq [directive_d; lit [c]; directive_m; lit [c]; directive_Y].
Definition dmy_text (c y m d : Z) : pystr := two d ++ [c] ++ two m ++ [c] ++ four y.
Definition iso_text (y m d : Z) : pystr := four y ++ u8 "-" ++ two m ++ u8 "-" ++ two d.

Lemma valid_date_bounds y m d :
  valid_date y m d = true → 1 <= y <= 9999 ∧ 1 <= m <= 12 ∧ 1 <= d <= 31.
Proof.
  unfold valid_date, days_in_month. rewrite !andb_true_iff, !Z.leb_le.
  intros [[[[[? ?] ?] ?] ?] Hd]. split_and!; try done. repeat case_match; lia.
Qed.

Lemma make_date_valid y m d : valid_date y m d = true → make_date y m d = Ok (mkDate y m d).
Proof.
  intros Hv. destruct (valid_date_bounds _ _ _ Hv) as (? & ? & ?).
  unfold make_date, fits_c_int. rewrite Hv, !(proj2 (Z.leb_le _ _)) by lia. done.
Qed.

Lemma group_int_span n text m a b :
  dict_get n (ms_caps m) = Some (a, b) → group_int n text m = int_of (slice text a b).
Proof. unfold group_int. by intros ->. Qed.

Lemma strptime_dmy c y m d :
  valid_date y m d = true → strptime (dmy_text c y m d) (fmt_dmy c) = Ok (mkDate y m d).
Proof.
  intros Hv. destruct (valid_date_bounds _ _ _ Hv) as (Hy & Hm & Hd).
  assert (Hmatch : match_ (fmt_dmy c) (dmy_text c y m d) =
    Some (mkMState 10 (Some (digit_char (y mod 10))) []
            [(3%nat, (6, 10)); (2%nat, (3, 5)); (1%nat, (0, 2))])).
  { unfold match_, fmt_dmy, dmy_text, start_state. rewrite run_seq. apply run_directive_d; [done|].
    rewrite run_seq. cbn [app]. rewrite run_char, run_seq. apply run_directive_m; [done|].
    rewrite run_seq. cbn [app]. rewrite run_char, run_seq, <-(app_nil_r (four y)).
    by rewrite run_directive_Y by lia. }
  unfold strptime. rewrite Hmatch. change (negb _) with false. cbv iota.
  rewrite (group_int_span 1 _ _ 0 2), (group_int_span 2 _ _ 3 5),
    (group_int_span 3 _ _ 6 10) by reflexivity.
  change (slice _ 0 2) with (two d). change (slice _ 3 5) with (two m).
  change (slice _ 6 10) with (four y).
  rewrite !int_of_two, int_of_four by lia. cbn [mbind result_bind]. by apply make_date_valid.
Qed.
Lemma strptime_iso y m d :
  valid_date y m d = true → strptime (iso_text y m d) fmt_iso = Ok (mkDate y m d).
Proof.
  intros Hv. destruct (valid_date_bounds _ _ _ Hv) as (Hy & Hm & Hd).
  assert (Hmatch : match_ fmt_iso (iso_text y m d) =
    Some (mkMState 10 (Some (digit_char (d mod 10))) []
            [(1%nat, (8, 10)); (2%nat, (5, 7)); (3%nat, (0, 4))])).
  { unfold match_, fmt_iso, iso_text, start_state.
    rewrite run_seq, run_directive_Y, run_seq by lia. change (u8 "-") with [45].
    cbn [app]. rewrite run_char, run_seq. apply run_directive_m; [done|].
    rewrite run_seq. cbn [app]. rewrite run_char, run_seq, <-(app_nil_r (two d)). by apply run_directive_d. }
  unfold strptime. rewrite Hmatch. change (negb _) with false. cbv iota.
  rewrite (group_int_span 1 _ _ 8 10), (group_int_span 2 _ _ 5 7),
    (group_int_span 3 _ _ 0 4) by reflexivity.
  change (slice _ 8 10) with (two d). change (slice _ 5 7) with (two m).
  change (slice _ 0 4) with (four y).
  rewrite !int_of_two, int_of_four by lia. cbn [mbind result_bind]. by apply make_date_valid.
Qed.

Lemma strptime_requires c fmt text :
  requires_char c fmt = true → c ∉ text → strptime text fmt = Err EValueError.
Proof. intros Hr Hc. unfold strptime. by rewrite (match_requires c). Qed.

Lemma parse_date_formatted text d :
  Forall (λ c, is_space c = false) text →
  try_formats text date_formats = Ok (Some d) → parse_date text = Ok (Some d).
Proof. intros Hs Ht. unfold parse_date. by rewrite strip_nonspace, Ht. Qed.

Lemma decimals_lack s c :
  Forall (λ c, is_decimal c = true) s → 0 <= c < 48 → c ∉ s.
Proof.
  intros Hs Hc Hin. rewrite Forall_forall in Hs. specialize (Hs c Hin).
  rewrite ascii_decimal in Hs by lia. apply andb_true_iff in Hs. lia.
Qed.

(** Dates in words: the day, the name of the month and the year. *)
Definition word_text (day name : pystr) (y : Z) : pystr := day ++ [32] ++ name ++ [32] ++ four y.

Lemma parse_word_date day name y m d :
  valid_date y m d = true → day ≠ [] → Forall (λ c, is_decimal c = true) day → int_of day = Ok d →
  Forall (λ c, 128 <= c ∧ is_space c = false) name → dict_get (str_lower name) months = Some m →
  parse_date (word_text day name y) = Ok (Some (mkDate y m d)).
Proof.
  intros Hv Hne Hday Hint Hname Hm. destruct (valid_date_bounds _ _ _ Hv) as (Hy & _ & _).
  assert (H4 : Forall (λ c, is_decimal c = true) (four y)) by (apply four_decimals; lia).
  assert (Hsp : ∀ s, Forall (λ c, is_decimal c = true) s → Forall (λ c, is_space c = false) s)
    by (intros s Hs; eapply Forall_impl; [exact Hs|apply decimal_not_space]).
  assert (Hspace : Forall (λ c, is_space c = true) [32]) by (constructor; [by rewrite ascii_space by lia|done]).
  assert (Hn : Forall (λ c, is_space c = false) name) by (eapply Forall_impl; [exact Hname|by intros c [_ ?]]).
  assert (Hlack : ∀ c, 45 <= c < 48 → c ∉ word_text day name y).
  { intros c Hc. unfold word_text. rewrite !elem_of_app, !list_elem_of_singleton. rewrite Forall_forall in Hname.
    intros [Hin|[?|[Hin|[?|Hin]]]]; [|lia|specialize (Hname c Hin); lia|lia|];
      revert Hin; apply decimals_lack; auto with lia. }
  assert (Hstrip : strip (word_text day name y) = word_text day name y).
  { unfold word_text. destruct day as [|c day]; [done|]. inversion_clear Hday as [|? ? Hc _].
    change (four y) with (take 3 (four y) ++ drop 3 (four y)).
    rewrite !app_assoc. cbn [app]. apply strip_ends; apply decimal_not_space; [done|].
    rewrite Forall_forall in H4. apply H4. unfold four. set_solver. }
  unfold parse_date. rewrite Hstrip. cbn [try_formats date_formats].
  rewrite (strptime_requires 46 fmt_dots), (strptime_requires 47 fmt_slashes), (strptime_requires 45 fmt_iso)
    by (reflexivity || apply Hlack; lia).
  cbn [none_on_value_error is_value_error mbind result_bind].
  assert (Hname0 : name ≠ []) by (intros ->; change (str_lower []) with (@nil Z) in Hm; vm_compute in Hm; discriminate).
  unfold word_text. rewrite (split_ws_cons day [32]) by (auto || done).
  rewrite (split_ws_cons name [32]), split_ws_word by (auto || done).
  rewrite Hm, Hint, int_of_four by lia. cbn [mbind result_bind]. by rewrite make_date_valid.
Qed.

Lemma day_texts day d :
  1 <= d <= 31 → day = two d ∨ d < 10 ∧ day = [digit_char d] →
  day ≠ [] ∧ Forall (λ c, is_decimal c = true) day ∧ int_of day = Ok d.
Proof.
  intros Hd [->|[Hlt ->]].
  - split; [done|]. split; [apply two_decimals; lia|apply int_of_two; lia].
  - assert (Hc : 48 <= digit_char d <= 57) by (unfold digit_char; lia).
    assert (Hdec : is_decimal (digit_char d) = true) by (rewrite ascii_decimal by lia; lia).
    split; [done|]. split; [by constructor|]. rewrite int_of_decimal, ascii_decimal_value by done.
    f_equal. unfold digit_char. lia.
Qed.

(** C30: a calendar date survives being written down: for every valid date,
    [parse_date] reads back its dd.mm.yyyy, dd/mm/yyyy and yyyy-mm-dd forms,
    and its form in words: the day with one digit or two, the Russian name
    of the month in the genitive, in whatever letter case, and the year. *)
Theorem parse_date_formats (y m d : Z) :
  valid_date y m d = true →
  parse_date (dmy_text 46 y m d) = Ok (Some (mkDate y m d)) ∧
  parse_date (dmy_text 47 y m d) = Ok (Some (mkDate y m d)) ∧
  parse_date (iso_text y m d) = Ok (Some (mkDate y m d)) ∧
  ∀ day name,
    day = two d ∨ d < 10 ∧ day = [digit_char d] →
    [u8 "января"; u8 "февраля"; u8 "марта"; u8 "апреля"; u8 "мая"; u8 "июня"; u8 "июля"; u8 "августа";
     u8 "сентября"; u8 "октября"; u8 "ноября"; u8 "декабря"] !! Z.to_nat (m - 1) = Some (str_lower name) →
    Forall (λ c, 128 <= c ∧ is_space c = false) name →
    parse_date (day ++ [32] ++ name ++ [32] ++ four y) = Ok (Some (mkDate y m d)).
Proof.
  intros Hv. destruct (valid_date_bounds _ _ _ Hv) as (Hy & Hm & Hd).
  assert (H2 : ∀ n, 0 <= n <= 31 → Forall (λ c, is_decimal c = true) (two n))
    by (intros; apply two_decimals; lia).
  assert (Hsp : ∀ s, Forall (λ c, is_decimal c = true) s → Forall (λ c, is_space c = false) s)
    by (intros s Hs; eapply Forall_impl; [exact Hs|apply decimal_not_space]).
  assert (H4 : Forall (λ c, is_decimal c = true) (four y)) by (apply four_decimals; lia).
  assert (Hsep : ∀ c, 0 <= c < 128 → 45 <= c <= 47 → is_space c = false)
    by (intros; rewrite ascii_space by done; lia).
  split; [|split; [|split]]; [..|intros day name Hday Hname Hchars; destruct (day_texts day d Hd Hday) as (? & ? & ?);
    apply parse_word_date; try done; revert Hname; generalize (str_lower name); pattern m;
    apply (forall_range _ 1 12); [by repeat (apply Forall_cons_2; [by intros ? [= <-]|])|lia]];
    (apply parse_date_formatted;
    [unfold dmy_text, iso_text; change (u8 "-") with [45];
     rewrite !Forall_app, !Forall_singleton; split_and!; auto with lia|]); cbn [try_formats date_formats].
  - change fmt_dots with (fmt_dmy 46). by rewrite strptime_dmy.
  - rewrite (strptime_requires 46 fmt_dots); [|reflexivity|].
    + change fmt_slashes with (fmt_dmy 47). cbn [none_on_value_error is_value_error mbind result_bind].
      by rewrite strptime_dmy.
    + unfold dmy_text. rewrite !elem_of_app, !list_elem_of_singleton.
      intros [?|[?|[?|[?|?]]]]; try done; by eapply decimals_lack; [| |eassumption]; auto with lia.
  - assert (Hlack : ∀ c, 45 < c < 48 → c ∉ iso_text y m d).
    { intros c Hc. unfold iso_text. change (u8 "-") with [45].
      rewrite !elem_of_app, !list_elem_of_singleton.
      intros [?|[?|[?|[?|?]]]]; try lia; by eapply decimals_lack; [| |eassumption]; auto with lia. }
    rewrite (strptime_requires 46 fmt_dots), (strptime_requires 47 fmt_slashes)
      by (reflexivity || apply Hlack; lia).
    cbn [none_on_value_error is_value_error mbind result_bind]. by rewrite strptime_iso.
Qed.
End Dates.

Section BirthDate.
Context `{U : UnicodeDB} {W : Type} `{!Calendar W}.

Definition anniversary (n : Z) (d : date) : date := mkDate (d_year d + n) (d_month d) (d_day d).

Lemma age_at_most today d n :
  (age_at today d <=? n) = date_ltb today (anniversary (n + 1) d).
Proof.
  unfold age_at, date_ltb, anniversary. simpl.
  destruct (Z.ltb_spec (d_month today) (d_month d)), (Z.eqb_spec (d_month today) (d_month d)),
    (Z.ltb_spec (d_day today) (d_day d)),
    (Z.ltb_spec (d_year today) (d_year d + (n + 1))),
    (Z.eqb_spec (d_year today) (d_year d + (n + 1))); simpl;
    (apply Z.leb_le || apply Z.leb_gt); lia.
Qed.

(** [is_birth_date] accepts exactly the strings that parse to a date
    strictly before the current day whose 121st anniversary is still to come
    (an age of at most 120 full years). *)
Theorem birth_date_window (s : pystr) (w : W) :
  (is_birth_date s w).1 = Ok true ↔
  ∃ d, parse_date s = Ok (Some d) ∧
       date_ltb d (date_today w).1 = true ∧
       date_ltb (date_today w).1 (anniversary 121 d) = true.
Proof.
  unfold is_birth_date, sbind, slift, sret.
  destruct (parse_date s) as [[d|]|e]; simpl; [|naive_solver..].
  destruct (date_today w) as [today w'] eqn:Hw; simpl. change 121 with (120 + 1).
  destruct (date_ltb d today) eqn:Hlt; simpl.
  - rewrite age_at_most. split; [intros [= H]; eauto|]. intros (d' & [= <-] & _ & H). by rewrite H.
  - split; [done|]. intros (d' & [= <-] & H & _). congruence.
Qed.
End BirthDate.

(** *** The checksums never raise on plain digits *)

Section Total.
Context `{U : UnicodeDB}.

Lemma luhn_total s : plain_digits s → ∃ b, luhn s = Ok b.
Proof. intros Hs. eexists. by apply luhn_plain. Qed.

Lemma split_last {A} (l : list A) n : length l = S n → ∃ l' x, l = l' ++ [x] ∧ length l' = n.
Proof.
  intros Hl. destruct (exists_last (l := l)) as (l' & x & ->); [by intros ->|].
  rewrite length_app in Hl. simpl in Hl. exists l', x. split; [done|lia].
Qed.

Lemma inn_total s : plain_digits s → ∃ b, inn_checksum s = Ok b.
Proof.
  intros Hs. destruct (decide (slen (digits s) = 10)) as [H10|H10];
    [|destruct (decide (slen (digits s) = 12)) as [H12|H12]].
  - destruct (split_last (digits s) 9) as (num & c & Hd & Hl); [unfold slen in H10; lia|].
    eexists. by apply (inn_10_plain s num c).
  - destruct (split_last (digits s) 11) as (num' & d & Hd & Hl); [unfold slen in H12; lia|].
    destruct (split_last num' 10) as (num & c & -> & Hl'); [done|].
    eexists. apply (inn_12_plain s num c d); [by rewrite Hd, <-app_assoc|done|done].
  - exists false. unfold inn_checksum. by rewrite !(proj2 (Z.eqb_neq _ _)).
Qed.
End Total.

(** ** Witnesses *)

Lemma luhn_detects_single_error_witness :
  luhn (u8 "4111 1111 1111 1111") = Ok true ∧ luhn (u8 "4111 1111 2111 1111") = Ok false.
Proof.
  split; [vm_compute; reflexivity|].
  apply (luhn_detects_single_error (u8 "4111 1111 ") (u8 "111 1111") 49 50).
  - repeat constructor; vm_compute; done.
  - repeat constructor; vm_compute; done.
  - vm_compute. reflexivity.
  - vm_compute. reflexivity.
  - vm_compute. discriminate.
  - vm_compute. reflexivity.
Defined.

Lemma inn_check_digit_unique_witness :
  inn_checksum (u8 "7707083893") = Ok true ∧
  ∃ v, 0 <= v <= 9 ∧ inn_checksum (u8 "770708389" ++ [48 + v]) = Ok true.
Proof.
  split; [vm_compute; reflexivity|].
  destruct (inn_check_digit_unique (u8 "770708389")) as (v & Hv & Hok & _).
  - repeat constructor; vm_compute; done.
  - vm_compute. reflexivity.
  - exists v. split; [exact Hv|exact Hok].
Defined.

Lemma parse_date_formats_witness :
  valid_date 2024 2 29 = true ∧ dmy_text 46 2024 2 29 = u8 "29.02.2024" ∧
  parse_date (u8 "29.02.2024") = Ok (Some (mkDate 2024 2 29)) ∧
  parse_date (u8 "29 Февраля 2024") = Ok (Some (mkDate 2024 2 29)).
Proof.
  split; [reflexivity|]. split; [reflexivity|].
  destruct (parse_date_formats 2024 2 29) as (H & _ & _ & Hw); [reflexivity|]. split; [exact H|].
  apply (Hw (u8 "29") (u8 "Февраля")).
  - left. reflexivity.
  - vm_compute. reflexivity.
  - let l := eval vm_compute in (u8 "Февраля") in change (u8 "Февраля") with l.
    repeat (apply Forall_cons_2; [split; [lia|vm_compute; reflexivity]|]). apply Forall_nil_2.
Defined.

Example birth_date_day_before : (* 121 years tomorrow *)
  @is_birth_date _ unit (fixed_day (mkDate 2025 5 9)) (u8 "10 мая 1904") tt = (Ok true, tt) ∧
  @is_birth_date _ unit (fixed_day (mkDate 2025 5 10)) (u8 "10 мая 1904") tt = (Ok false, tt).
Proof. vm_compute. done. Qed.

(** A superscript two is a digit for [str.isdigit] but not for [int]. *)
Example luhn_superscript : luhn (u8 "411111111111111²") = Err EValueError.
Proof. vm_compute. reflexivity. Qed.
