(* ===== verification/Detector.v ===== *)
(** * The regex detector ([app/detection/regex/detector.py])

    The patterns of the 23 entity types, the tables of grouped types,
    validators, markers and country names, and [RegexDetector.detect] with its
    four helpers.  Each pattern is an AST of [Regex]; each definition carries
    the name it has in the source. *)

From S2P Require Import Prelude Unicode Domain PyStr Regex Validators Strategies Masking Resolution.

(** ** Patterns *)

Definition digit : regex := cls [IDigit].
Definition spaces : regex := plus (cls [ISpace]).
Definition opt_spaces : regex := star (cls [ISpace]).
Definition not_after_digit : regex := RNotBehind (CClass false [IDigit]).
Definition not_before_digit : regex := RNotAhead (CClass false [IDigit]).
Definition opt_dash : regex := opt (cls [ISpace; ch 45]).     (* [\s\-]? *)
Definition dot_or_slash : regex := cls [ch 46; ch 47].        (* [./] *)
Definition opt_colon : regex := rseq [opt_spaces; opt (lit (u8 ":")); opt_spaces].

Definition up : list class_item := [IRange 1040 1071; ch 1025].             (* А-ЯЁ *)
Definition low : list class_item := [IRange 1072 1103; ch 1105].            (* а-яё *)
Definition UP : regex := cls up.
Definition LOW : regex := cls low.
Definition latin_up : class_item := IRange 65 90.
Definition latin_low : class_item := IRange 97 122.
Definition ascii_digits : class_item := IRange 48 57.

(** [(?i:a|b|...)]. *)
Definition any_of (l : list pystr) : regex := ralt (liti <$> l).
(** [(?:a|b|...)], case-sensitive. *)
Definition one_of (l : list pystr) : regex := ralt (lit <$> l).

Definition EMAIL_RE : regex :=
  rseq [plus (cls [latin_up; latin_low; ascii_digits; ch 46; ch 95; ch 37; ch 43; ch 45]);
        lit (u8 "@");
        plus (cls [latin_up; latin_low; ascii_digits; ch 46; ch 45]);
        lit (u8 ".");
        RRepeat true 2 None (cls [latin_up; latin_low])].

Definition PHONE_RE : regex :=
  rseq [not_after_digit;
        ralt [lit (u8 "+7"); lit (u8 "8")]; opt_dash;
        ralt [rseq [lit (u8 "("); times 3 digit; lit (u8 ")")]; times 3 digit]; opt_dash;
        times 3 digit; opt_dash; times 2 digit; opt_dash; times 2 digit;
        not_before_digit].

Definition BANK_CARD_RE : regex :=
  rseq [not_after_digit; between 12 18 (rseq [digit; opt_dash]); digit; not_before_digit].

Definition INN_RE : regex :=
  ralt [rseq [not_after_digit; times 10 digit; not_before_digit];
        rseq [not_after_digit; times 12 digit; not_before_digit]].

Definition PASSPORT_NUMBER_RE : regex :=
  rseq [not_after_digit; times 4 digit; opt (cls [ISpace]); times 6 digit; not_before_digit].

Definition PASSPORT_DIVISION_CODE_RE : regex :=
  rseq [not_after_digit; times 3 digit; lit (u8 "-"); times 3 digit; not_before_digit].

Definition date_dmy : regex :=
  rseq [times 2 digit; dot_or_slash; times 2 digit; dot_or_slash; times 4 digit].
Definition date_ymd : regex :=
  rseq [times 4 digit; lit (u8 "-"); times 2 digit; lit (u8 "-"); times 2 digit].
Definition date_words : regex :=
  rseq [between 1 2 digit; spaces; plus (cls [IWord]); spaces; times 4 digit].

Definition BIRTH_DATE_RE : regex :=
  rseq [not_after_digit; ralt [date_dmy; date_ymd; date_words]; not_before_digit].

Definition CVV_RE : regex := rseq [not_after_digit; between 3 4 digit; not_before_digit].
Definition PIN_RE : regex := rseq [not_after_digit; times 4 digit; not_before_digit].

Definition name_word : regex := rseq [UP; plus LOW].            (* [А-ЯЁ][а-яё]+ *)
Definition then_name : regex := rseq [spaces; name_word].

Definition PERSON_NAME_RE : regex :=
  rseq [any_of [u8 "клиент"; u8 "гражданин"; u8 "гражданка"; u8 "заявитель"; u8 "пациент";
                u8 "сотрудник"; u8 "менеджер"; u8 "директор"; u8 "держатель"; u8 "владелец";
                u8 "представитель"; u8 "покупатель"; u8 "абонент"; u8 "пользователь";
                u8 "получатель"; u8 "отправитель"];
        spaces;
        RGroup 1 (rseq [name_word; between 0 2 then_name])].

Definition hyphen_part : regex :=
  ralt [rseq [lit (u8 "-"); plus LOW; lit (u8 "-"); UP; plus LOW];
        rseq [lit (u8 "-"); UP; plus LOW]].
Definition place_word : regex := rseq [name_word; star hyphen_part].

Definition BIRTH_PLACE_RE : regex :=
  rseq [any_of [u8 "место рождения"; u8 "родился в"; u8 "родилась в"; u8 "уроженец";
                u8 "уроженка"; u8 "родом из"];
        opt_colon; opt (cls [ch 8212; ch 8211; ch 45]); opt_spaces;
        opt (ralt [rseq [lit (u8 "г."); opt_spaces];
                   rseq [lit (u8 "городе"); spaces];
                   rseq [lit (u8 "города"); spaces];
                   rseq [lit (u8 "город"); spaces];
                   rseq [lit (u8 "село"); spaces];
                   rseq [lit (u8 "села"); spaces];
                   rseq [lit (u8 "с."); opt_spaces];
                   rseq [lit (u8 "деревня"); spaces];
                   rseq [lit (u8 "деревни"); spaces];
                   rseq [lit (u8 "д."); opt_spaces]]);
        RGroup 1
          (rseq [place_word;
                 between 0 1 (rseq [spaces; place_word]);
                 opt (rseq [spaces; UP; plus LOW;
                            one_of [u8 "ской"; u8 "ского"; u8 "ский"; u8 "ого"; u8 "ая"; u8 "ое"];
                            spaces;
                            one_of [u8 "области"; u8 "область"; u8 "обл."; u8 "района"; u8 "район";
                                    u8 "края"; u8 "край"]])])].

Definition cap_word : regex := rseq [UP; star (cls (up ++ low))].

Definition CITIZENSHIP_RE : regex :=
  rseq [any_of [u8 "гражданство"; u8 "гражданин"; u8 "гражданка"]; opt_colon;
        RGroup 1 (rseq [cap_word; between 0 2 (rseq [spaces; cap_word])])].

(** [А-ЯЁа-яё0-9№-] *)
Definition issuer_chars : regex := cls (up ++ low ++ [ascii_digits; ch 8470; ch 45]).
Definition issuer_word : regex := rseq [plus issuer_chars; opt (lit (u8 "."))].

Definition PASSPORT_ISSUER_RE : regex :=
  rseq [ralt [liti (u8 "кем выдан");
              rseq [liti (u8 "выдан"); RWordBoundary];
              rseq [liti (u8 "выдано"); RWordBoundary];
              liti (u8 "орган, выдавший")];
        opt_colon;
        RGroup 1 (rseq [issuer_word; star (rseq [spaces; issuer_word])])].

Definition PASSPORT_ISSUE_DATE_RE : regex :=
  rseq [any_of [u8 "дата выдачи"; u8 "выдан"; u8 "выдано"];
        RRepeat false 0 (Some 80%nat) (RSet (CClass true [ascii_digits]));
        RGroup 1 (ralt [date_dmy; date_ymd])].

Definition DRIVER_LICENSE_RE : regex :=
  rseq [any_of [u8 "водительское удостоверение"; u8 "водительские права"; u8 "права"; u8 "в.у.";
                u8 "ву"];
        opt_colon;
        RGroup 1
          (ralt [rseq [times 2 digit; opt (cls [ISpace]); times 2 UP; opt (cls [ISpace]); times 6 digit];
                 rseq [times 2 digit; opt (cls [ISpace]); times 2 digit; opt (cls [ISpace]);
                       times 6 digit];
                 times 10 digit])].

(** [[А-ЯЁа-яё0-9-]+\.?\s*[,.]?\s*] *)
Definition address_part : regex :=
  rseq [plus (cls (up ++ low ++ [ascii_digits; ch 45])); opt (lit (u8 ".")); opt_spaces;
        opt (cls [ch 44; ch 46]); opt_spaces].

Definition ADDRESS_RE : regex :=
  rseq [any_of [u8 "адрес регистрации"; u8 "адрес проживания"; u8 "адрес"; u8 "место жительства";
                u8 "место регистрации"; u8 "проживает"; u8 "живет"; u8 "живёт";
                u8 "зарегистрирован"; u8 "зарегистрирована"; u8 "прописан"; u8 "прописана"];
        opt (rseq [spaces; lit (u8 "по"); spaces; lit (u8 "адресу")]);
        opt_colon;
        RGroup 1 (between 2 10 address_part)].

Definition COUNTRY_RE : regex :=
  rseq [liti (u8 "страна"); opt_colon; RGroup 1 (rseq [name_word; opt then_name])].

Definition POSTAL_CODE_RE : regex :=
  rseq [any_of [u8 "индекс"; u8 "почтовый индекс"]; opt_colon; RGroup 1 (times 6 digit)].

Definition CITY_RE : regex :=
  rseq [any_of [u8 "город"; u8 "г."]; opt_colon;
        RGroup 1 (rseq [name_word; opt (rseq [lit (u8 "-"); UP; plus LOW])])].

Definition STREET_RE : regex :=
  rseq [any_of [u8 "улица"; u8 "ул."; u8 "проспект"; u8 "пр-т"; u8 "переулок"; u8 "пер."];
        opt_colon; RGroup 1 (rseq [name_word; opt then_name])].

Definition HOUSE_RE : regex :=
  rseq [any_of [u8 "дом"; u8 "д."]; opt_colon;
        RGroup 1 (rseq [between 1 4 digit; opt (cls (up ++ low))])].

Definition APARTMENT_RE : regex :=
  rseq [any_of [u8 "квартира"; u8 "кв."]; opt_colon; RGroup 1 (between 1 4 digit)].

(** [[A-ZА-ЯЁ][A-Za-zА-ЯЁа-яё]+] *)
Definition holder_word : regex :=
  rseq [cls (latin_up :: up); plus (cls ([latin_up; latin_low] ++ up ++ low))].

Definition CARDHOLDER_NAME_RE : regex :=
  rseq [any_of [u8 "держатель карты"; u8 "cardholder"; u8 "имя на карте"; u8 "владелец карты"];
        opt_colon; RGroup 1 (rseq [holder_word; opt (rseq [spaces; holder_word])])].

(** ** Tables *)

Definition RULES : list (PIIType * regex) :=
  [(EMAIL, EMAIL_RE); (PHONE, PHONE_RE); (BANK_CARD, BANK_CARD_RE); (INN, INN_RE);
   (PASSPORT_NUMBER, PASSPORT_NUMBER_RE);
   (PASSPORT_DIVISION_CODE, PASSPORT_DIVISION_CODE_RE);
   (BIRTH_DATE, BIRTH_DATE_RE); (CVV, CVV_RE); (PIN, PIN_RE);
   (PERSON_NAME, PERSON_NAME_RE); (BIRTH_PLACE, BIRTH_PLACE_RE);
   (CITIZENSHIP, CITIZENSHIP_RE); (PASSPORT_ISSUER, PASSPORT_ISSUER_RE);
   (PASSPORT_ISSUE_DATE, PASSPORT_ISSUE_DATE_RE); (DRIVER_LICENSE, DRIVER_LICENSE_RE);
   (ADDRESS, ADDRESS_RE); (COUNTRY, COUNTRY_RE); (POSTAL_CODE, POSTAL_CODE_RE);
   (CITY, CITY_RE); (STREET, STREET_RE); (HOUSE, HOUSE_RE); (APARTMENT, APARTMENT_RE);
   (CARDHOLDER_NAME, CARDHOLDER_NAME_RE)].

Definition GROUPED_TYPES : list PIIType :=
  [PERSON_NAME; BIRTH_PLACE; CITIZENSHIP; PASSPORT_ISSUER; PASSPORT_ISSUE_DATE; DRIVER_LICENSE;
   ADDRESS; COUNTRY; POSTAL_CODE; CITY; STREET; HOUSE; APARTMENT; CARDHOLDER_NAME].

Definition MARKER_WINDOW : Z := 40.
Definition MARKER_TYPES : list (PIIType * list pystr) :=
  [(CVV, [u8 "cvv"; u8 "cvc"; u8 "код проверки"]);
   (PIN, [u8 "pin"; u8 "пин"]);
   (BIRTH_DATE, [u8 "г.р."; u8 "дата рожд"; u8 "дата рождения"; u8 "род."; u8 "родился";
                 u8 "родилась"]);
   (PASSPORT_NUMBER, [u8 "паспорт"; u8 "серия"; u8 "выдан"])].

Definition COUNTRY_NAMES : list pystr :=
  [u8 "российская федерация"; u8 "российской федерации"; u8 "рф"; u8 "россия"; u8 "россии";
   u8 "республика беларусь"; u8 "республики беларусь"; u8 "беларусь"; u8 "беларуси";
   u8 "казахстан"; u8 "казахстана"; u8 "республика казахстан"; u8 "республики казахстан";
   u8 "украина"; u8 "украины"; u8 "узбекистан"; u8 "узбекистана"; u8 "армения"; u8 "армении";
   u8 "грузия"; u8 "грузии"; u8 "таджикистан"; u8 "таджикистана"; u8 "киргизия"; u8 "киргизии";
   u8 "молдова"; u8 "молдовы"; u8 "туркменистан"; u8 "туркменистана"; u8 "азербайджан";
   u8 "азербайджана"; u8 "литва"; u8 "литвы"; u8 "латвия"; u8 "латвии"; u8 "эстония";
   u8 "эстонии"].

Definition ADDRESS_COMPONENT_TYPES : list PIIType :=
  [ADDRESS; CITY; STREET; HOUSE; APARTMENT; POSTAL_CODE; PHONE].

(** The indicators that keep a value near a bank branch personal. *)
Definition PERSONAL : list pystr :=
  [u8 "личный"; u8 "личного"; u8 "личному"; u8 "мой"; u8 "моя"; u8 "моего"; u8 "его"; u8 "её";
   u8 "ее"; u8 "клиента"; u8 "клиент"; u8 "заявителя"; u8 "пациента"; u8 "сотрудника"].

(** [".,;!? "] *)
Definition TRAILING : pystr := u8 ".,;!? ".

(** The patterns local to [_clean_issuer] and [_is_full_address]. *)
Definition tail_date_re : regex := ralt [rseq [opt_spaces; date_dmy]; rseq [opt_spaces; date_ymd]].
Definition date_fragment_re : regex := rseq [spaces; between 1 2 digit; RDollar].
Definition year_phrase_re : regex :=
  rseq [lit (u8 "в"); spaces; times 4 digit; spaces; lit (u8 "году")].
Definition full_address_re : regex :=
  ralt [times 6 digit; lit (u8 "ул."); lit (u8 "улица"); lit (u8 "д."); lit (u8 "дом");
        lit (u8 "кв."); lit (u8 "квартира"); lit (u8 "г."); lit (u8 "город")].

(** ** The detector *)

Section Detector.
Context `{U : UnicodeDB} {W : Type} `{!Calendar W}.

(** [_VALIDATORS]; only [is_birth_date] looks at the clock. *)
Definition VALIDATORS : list (PIIType * (pystr → stateM W exn bool)) :=
  [(BANK_CARD, λ v, slift (luhn v)); (INN, λ v, slift (inn_checksum v)); (BIRTH_DATE, is_birth_date)].

Definition has_marker (text : pystr) (start end_ : Z) (markers : list pystr) : bool :=
  let window := str_lower (slice text (Z.max 0 (start - MARKER_WINDOW)) (end_ + MARKER_WINDOW)) in
  existsb (λ marker, str_in marker window) markers.

Definition is_bank_context (text : pystr) (start : Z) : bool :=
  let window := str_lower (slice text (Z.max 0 (start - 80)) (start + 20)) in
  if negb (str_in (u8 "банк") window) && negb (str_in (u8 "отделение") window) then false
  else negb (existsb (λ indicator, str_in indicator window) PERSONAL).

Definition is_full_address (value : pystr) : bool :=
  if search full_address_re value then true else 3 <=? slen (split_ws value).

Definition clean_issuer (text value : pystr) (start end_ : Z) : pystr * Z * Z :=
  let tail := slice text end_ (end_ + 12) in
  let '(value, end_) :=
    match match_ tail_date_re tail with
    | Some _ => let value := rstrip value in (value, start + slen value)
    | None => (value, end_)
    end in
  let '(value, end_) :=
    match search date_fragment_re value with
    | Some frag => let value := rstrip (slice value 0 (mo_start frag)) in (value, start + slen value)
    | None => (value, end_)
    end in
  if bool_decide (value = []) || str_isdigit value then ([], start, start)
  else if fullmatch year_phrase_re value then ([], start, start)
  else (value, start, end_).

(** The [while] loop that drops trailing punctuation, on the reversed value. *)
Fixpoint strip_loop (start end_ : Z) (rvalue : pystr) : result exn (pystr * Z) :=
  if negb (start <? end_) then Ok (reverse rvalue, end_)
  else match rvalue with
       | [] => Err EIndexError
       | c :: rest =>
           if bool_decide (c ∈ TRAILING) then strip_loop start (end_ - 1) rest
           else Ok (reverse rvalue, end_)
       end.

(** The value and span a match of a rule stands for; [None] is [continue].
    Group 1 takes part in every match of a grouped rule ([rules_check]). *)
Definition match_span (t : PIIType) (text : pystr) (m : match_obj)
    : result exn (option (pystr * Z * Z)) :=
  if bool_decide (t ∈ GROUPED_TYPES) then
    '(start, end_) ← result_of_option ETypeError (group_span 1 m);
    '(value, end_) ← strip_loop start end_ (reverse (slice text start end_));
    if bool_decide (t = PASSPORT_ISSUER) then
      let '(value, start, end_) := clean_issuer text value start end_ in
      Ok (if bool_decide (value = []) then None else Some (value, start, end_))
    else Ok (Some (value, start, end_))
  else
    let start := mo_start m in
    let end_ := ms_pos (mo_end m) in
    Ok (Some (slice text start end_, start, end_)).

(** [validator is not None and not validator(value)], negated. *)
Definition validate (t : PIIType) (value : pystr) : stateM W exn bool :=
  match dict_get t VALIDATORS with
  | None => sret true
  | Some validator => validator value
  end.

(** The checks after the validator, in the order of the [continue]s. *)
Definition accepted (t : PIIType) (text value : pystr) (start end_ : Z) : bool :=
  if bool_decide (t = PERSON_NAME) && bool_decide (str_lower value ∈ COUNTRY_NAMES) then false
  else if bool_decide (t = CITIZENSHIP) && negb (bool_decide (str_lower value ∈ COUNTRY_NAMES))
  then false
  else if bool_decide (t = ADDRESS) && negb (is_full_address value) then false
  else if bool_decide (t ∈ ADDRESS_COMPONENT_TYPES) && is_bank_context text start then false
  else match dict_get t MARKER_TYPES with
       | Some markers => has_marker text start end_ markers
       | None => true
       end.

(** One iteration of the inner loop: the entity appended, if any. *)
Definition detect_match (t : PIIType) (text : pystr) (m : match_obj)
    : stateM W exn (option PIIEntity) :=
  span <-- slift (match_span t text m);
  match span with
  | None => sret None
  | Some (value, start, end_) =>
      valid <-- validate t value;
      sret (if negb valid then None
            else if accepted t text value start end_
            then Some (mkPIIEntity t value start end_ 1 (u8 "regex") [])
            else None)
  end.

Fixpoint detect_matches (t : PIIType) (text : pystr) (ms : list match_obj)
    (entities : list PIIEntity) : stateM W exn (list PIIEntity) :=
  match ms with
  | [] => sret entities
  | m :: ms =>
      o <-- detect_match t text m;
      detect_matches t text ms (entities ++ option_list o)
  end.

Fixpoint detect_rules (rules : list (PIIType * regex)) (text : pystr)
    (entities : list PIIEntity) : stateM W exn (list PIIEntity) :=
  match rules with
  | [] => sret entities
  | (t, pattern) :: rules =>
      entities <-- detect_matches t text (finditer pattern text) entities;
      detect_rules rules text entities
  end.

(** [RegexDetector.detect]. *)
Definition detect : PIIDetector W := λ text context, detect_rules RULES text [].
End Detector.

(** ** The rules, checked *)

Definition rule_ok (p : PIIType * regex) : bool :=
  well_formed (p.2) && negb (nullable (p.2)) &&
  (if bool_decide (p.1 ∈ GROUPED_TYPES)
   then captures 1 (p.2) && forallb (λ b, negb (nullable b)) (group_bodies 1 (p.2))
   else true).

(** Every pattern consumes, its loops terminate, and every match of a grouped
    pattern captures a non-empty group 1. *)
Lemma rules_check : forallb rule_ok RULES = true.
Proof. vm_compute. reflexivity. Qed.

Lemma rule_checked t r : (t, r) ∈ RULES → rule_ok (t, r) = true.
Proof. intros Hin. pose proof rules_check as H. rewrite forallb_forall in H.
  apply H. by apply list_elem_of_In. Qed.

Section Spans.
Context `{U : UnicodeDB}.

(** A character set without the characters the detector strips. *)
Definition avoids_trailing (cs : charset) : Prop := ∀ c, c ∈ TRAILING → set_match cs c = false.

Definition trailing_free (cs : charset) : bool :=
  match cs with
  | CLit d => negb (bool_decide (d ∈ TRAILING))
  | CClass false items =>
      forallb (λ i, match i with
                    | IRange lo hi => forallb (λ c, negb ((lo <=? c) && (c <=? hi))) TRAILING
                    | IDigit => true
                    | _ => false
                    end) items
  | _ => false
  end.

Lemma trailing_ascii c : c ∈ TRAILING → 0 <= c < 48 ∨ 57 < c < 128.
Proof.
  assert (H : Forall (λ c, (c <? 48) && (0 <=? c) || (57 <? c) && (c <? 128) = true) TRAILING)
    by (vm_compute; repeat constructor).
  rewrite Forall_forall in H. intros Hc%H.
  rewrite orb_true_iff, !andb_true_iff in Hc. lia.
Qed.

Lemma trailing_free_sound cs : trailing_free cs = true → avoids_trailing cs.
Proof.
  intros Hcs c Hc. destruct cs as [d|d|[] items];
    cbn [trailing_free set_match xorb] in Hcs |- *; try done.
  - apply negb_true_iff, bool_decide_eq_false in Hcs. apply Z.eqb_neq. by intros ->.
  - apply not_true_iff_false. intros (i & Hi & Hm)%existsb_exists.
    rewrite forallb_forall in Hcs. specialize (Hcs i Hi). destruct i as [lo hi| | |]; try done.
    + cbn [item_match] in Hm. rewrite forallb_forall in Hcs. apply list_elem_of_In in Hc.
      specialize (Hcs c Hc). by rewrite Hm in Hcs.
    + cbn [item_match] in Hm. destruct (trailing_ascii c Hc); rewrite ascii_decimal in Hm by lia;
        apply andb_true_iff in Hm; lia.
Qed.

(** No group 1 starts with a character the detector strips. *)
Lemma groups_start_check :
  forallb (λ p, if bool_decide (p.1 ∈ GROUPED_TYPES)
                then forallb (λ b, forallb trailing_free (firsts b)) (group_bodies 1 (p.2))
                else true) RULES = true.
Proof using U. vm_compute. reflexivity. Qed.

Lemma strip_loop_spec start rv :
  (∃ c rest, rv = rest ++ [c] ∧ c ∉ TRAILING) →
  ∃ v rest, strip_loop start (start + slen rv) rv = Ok (v, start + slen v) ∧
    v ≠ [] ∧ reverse rv = v ++ rest.
Proof.
  intros (c & rest & -> & Hc). induction rest as [|d rest IH]; cbn [app strip_loop].
  - exists [c], []. unfold slen. simpl. rewrite (proj2 (Z.ltb_lt _ _)) by lia. simpl.
    rewrite bool_decide_eq_false_2 by done. done.
  - destruct IH as (v & rest' & Hs & Hv & Hr).
    assert (Hlen : slen (d :: rest ++ [c]) = slen (rest ++ [c]) + 1) by (unfold slen; simpl; lia).
    pose proof (slen_nonneg (rest ++ [c])).
    rewrite Hlen, (proj2 (Z.ltb_lt _ _)) by lia. cbn [negb].
    case_bool_decide.
    + replace (start + (slen (rest ++ [c]) + 1) - 1) with (start + slen (rest ++ [c])) by lia.
      exists v, (rest' ++ [d]). rewrite reverse_cons, Hr, app_assoc. done.
    + exists (reverse (d :: rest ++ [c])), []. rewrite app_nil_r.
      assert (Hne : reverse (d :: rest ++ [c]) ≠ [])
        by (intros Hn%(f_equal reverse); by rewrite reverse_involutive in Hn).
      split_and!; [|done|done].
      f_equal. f_equal. unfold slen in *. rewrite length_reverse. lia.
Qed.

(** A prefix of a slice is the slice of its own length. *)
Lemma slice_prefix (text : pystr) a b v rest :
  0 <= a → a <= b <= slen text → slice text a b = v ++ rest →
  slice text a (a + slen v) = v ∧ a + slen v <= b.
Proof.
  intros Ha Hb Hs. pose proof (slen_slice text a b ltac:(lia) ltac:(lia) ltac:(lia)) as Hl.
  rewrite Hs, slen_app in Hl. pose proof (slen_nonneg v). pose proof (slen_nonneg rest).
  split; [|lia]. rewrite slice_in_bounds in Hs |- * by lia. unfold slice_spec_def, slen in *.
  replace (Z.to_nat (a + Z.of_nat (length v)) - Z.to_nat a)%nat with (length v) by lia.
  apply (f_equal (take (length v))) in Hs. rewrite take_app_length, take_take in Hs.
  rewrite <-Hs at 2. f_equal. lia.
Qed.
End Spans.

Section Safe.
Context `{U : UnicodeDB} {W : Type} `{!Calendar W}.

Lemma rstrip_prefix_of s : ∃ t, s = rstrip s ++ t.
Proof. destruct (rstrip_prefix s) as (t & Ht & _). by exists t. Qed.

Lemma slice_prefix_of (s : pystr) k : 0 <= k <= slen s → ∃ t, s = slice s 0 k ++ t.
Proof.
  intros Hk. exists (slice s k (slen s)).
  rewrite slice_join by lia. by rewrite slice_full.
Qed.

Lemma match_in_bounds text r m :
  match_in text r m → 0 <= mo_start m ∧ mo_start m <= ms_pos (mo_end m) ∧ ms_pos (mo_end m) <= slen text.
Proof.
  intros (s0 & Hc & _ & <- & Hd). pose proof (coherent_bounds _ _ Hc).
  pose proof (denote_pos_le _ _ _ Hd). pose proof (coherent_denote _ _ _ _ Hc Hd) as Hc'.
  apply coherent_bounds in Hc'. lia.
Qed.

(** [_clean_issuer] only shortens the value, or rejects it. *)
Lemma clean_issuer_spec text value start v a b :
  clean_issuer text value start (start + slen value) = (v, a, b) →
  v = [] ∨ (a = start ∧ b = start + slen v ∧ ∃ rest, value = v ++ rest).
Proof.
  unfold clean_issuer.
  assert (Hfinal : ∀ v' rest, value = v' ++ rest →
    (if bool_decide (v' = []) || str_isdigit v' then ([], start, start)
     else if fullmatch year_phrase_re v' then ([], start, start)
     else (v', start, start + slen v')) = (v, a, b) →
    v = [] ∨ (a = start ∧ b = start + slen v ∧ ∃ rest, value = v ++ rest)).
  { intros v' rest -> H. repeat case_match; simplify_eq; eauto 10. }
  assert (Hfrag : ∀ v1 rest1 e1, value = v1 ++ rest1 → e1 = start + slen v1 →
    (let '(v2, e2) := match search date_fragment_re v1 with
       | Some frag => let v2 := rstrip (slice v1 0 (mo_start frag)) in (v2, start + slen v2)
       | None => (v1, e1) end in
     if bool_decide (v2 = []) || str_isdigit v2 then ([], start, start)
     else if fullmatch year_phrase_re v2 then ([], start, start)
     else (v2, start, e2)) = (v, a, b) →
    v = [] ∨ (a = start ∧ b = start + slen v ∧ ∃ rest, value = v ++ rest)).
  { intros v1 rest1 e1 Hv1 ->. destruct (search date_fragment_re v1) as [frag|] eqn:Hs;
      [|by eapply Hfinal].
    apply search_sound, match_in_bounds in Hs as (? & ? & ?).
    destruct (slice_prefix_of v1 (mo_start frag)) as [t Ht]; [lia|].
    destruct (rstrip_prefix_of (slice v1 0 (mo_start frag))) as [t' Ht'].
    eapply (Hfinal _ (t' ++ t ++ rest1)). by rewrite app_assoc, <-Ht', app_assoc, <-Ht. }
  destruct (match_ tail_date_re _).
  - destruct (rstrip_prefix_of value) as [t Ht]. by eapply Hfrag.
  - apply (Hfrag value []); [by rewrite app_nil_r|done].
Qed.

(** The group of a grouped rule: a non-empty span that starts with a character
    the stripping loop keeps. *)
Lemma grouped_span t r text m :
  (t, r) ∈ RULES → t ∈ GROUPED_TYPES → match_in text r m →
  ∃ a b c rest, group_span 1 m = Some (a, b) ∧ 0 <= a ∧ a < b ∧ b <= slen text ∧
    slice text a b = c :: rest ∧ c ∉ TRAILING.
Proof.
  intros Hin Ht (s0 & Hc & _ & _ & Hd).
  pose proof (rule_checked _ _ Hin) as Hok. pose proof groups_start_check as Hfirst.
  rewrite forallb_forall in Hfirst. apply list_elem_of_In in Hin. specialize (Hfirst _ Hin).
  unfold rule_ok in Hok. simpl in Hok, Hfirst.
  rewrite bool_decide_eq_true_2 in Hok, Hfirst by done.
  apply andb_true_iff in Hok as [_ [Hcap Hbodies]%andb_true_iff].
  destruct (denote_captures 1 r s0 (mo_end m) Hcap Hd)
    as (body & s1 & s2 & Hbody & Hdb & Hg & (w & Hw) & (w' & Hw')).
  apply list_elem_of_In in Hbody. rewrite forallb_forall in Hbodies, Hfirst.
  specialize (Hbodies _ Hbody). specialize (Hfirst _ Hbody). apply negb_true_iff in Hbodies.
  pose proof (denote_progress _ _ _ Hbodies Hdb).
  pose proof (coherent_consumed _ _ _ _ Hc Hw) as Hc1.
  destruct (denote_consumed _ _ _ Hdb) as (v & Hv).
  pose proof (coherent_consumed _ _ _ _ Hc1 Hv) as Hc2.
  pose proof (coherent_bounds _ _ Hc1). pose proof (coherent_bounds _ _ Hc2).
  pose proof (consumed_slice _ _ _ _ Hc1 Hv) as Hs.
  pose proof (denote_first _ _ _ _ Hdb Hv) as Hf.
  destruct v as [|c rest]; [destruct Hv as (_ & Hp & _); unfold slen in Hp; simpl in Hp; lia|].
  exists (ms_pos s1), (ms_pos s2), c, rest. split_and!; [exact Hg|lia|lia|lia|done|].
  destruct Hf as (cs & Hcs & Hm). apply list_elem_of_In in Hcs. rewrite forallb_forall in Hfirst.
  intros Hbad. by rewrite (trailing_free_sound _ (Hfirst _ Hcs) _ Hbad) in Hm.
Qed.

(** What a match of a rule contributes: a non-empty span of the text. *)
Lemma match_span_spec t r text m :
  (t, r) ∈ RULES → match_in text r m →
  ∃ o, match_span t text m = Ok o ∧
    ∀ v a b, o = Some (v, a, b) →
      0 <= a ∧ a < b ∧ b <= slen text ∧ slice text a b = v ∧
      (t ∉ GROUPED_TYPES → a = mo_start m ∧ b = ms_pos (mo_end m)).
Proof.
  intros Hin Hm. unfold match_span. case_bool_decide as Ht.
  - destruct (grouped_span t r text m Hin Ht Hm) as (a & b & c & rest & Hg & Ha & Hab & Hb & Hs & Hc).
    rewrite Hg. cbn [result_of_option mbind result_bind].
    destruct (strip_loop_spec a (reverse (slice text a b))) as (v & rest' & Hstrip & Hv & Hrev).
    { exists c, (reverse rest). by rewrite Hs, reverse_cons. }
    rewrite reverse_involutive in Hrev.
    replace (a + slen (reverse (slice text a b))) with b in Hstrip.
    2:{ pose proof (slen_slice text a b). unfold slen in *. rewrite length_reverse. lia. }
    rewrite Hstrip. cbn [mbind result_bind].
    pose proof (slice_prefix text a b v rest' Ha ltac:(lia) Hrev) as [Hsv Hbv].
    assert (Hpos : ∀ u : pystr, u ≠ [] → 0 < slen u) by (intros []; [done|unfold slen; simpl; lia]).
    case_bool_decide as Hpi.
    + destruct (clean_issuer text v a (a + slen v)) as [[v' a'] b'] eqn:Hclean.
      eexists. split; [done|]. intros v'' a'' b'' Ho. case_bool_decide as Hne; [done|].
      injection Ho as <- <- <-.
      apply clean_issuer_spec in Hclean as [?|(-> & -> & rest'' & Hv'')]; [done|].
      rewrite Hv'', <-app_assoc in Hrev.
      pose proof (slice_prefix text a b v' _ Ha ltac:(lia) Hrev) as [? ?].
      pose proof (Hpos v' Hne). split_and!; done || lia.
    + eexists. split; [done|]. intros v'' a'' b'' [= <- <- <-].
      pose proof (Hpos v Hv). split_and!; done || lia.
  - eexists. split; [done|]. intros v a b [= <- <- <-].
    pose proof (match_in_bounds _ _ _ Hm). destruct Hm as (s0 & _ & _ & Hs0 & Hd).
    pose proof (rule_checked _ _ Hin) as Hok. unfold rule_ok in Hok. simpl in Hok.
    apply andb_true_iff in Hok as [[_ Hn%negb_true_iff]%andb_true_iff _].
    apply denote_progress in Hd; [|done]. split_and!; done || lia.
Qed.
End Safe.

(** ** The validators never raise on what the patterns match *)

Section Validating.
Context `{U : UnicodeDB} {W : Type} `{!Calendar W}.

(** Character sets whose digits are all decimal. *)
Definition plain_item (i : class_item) : bool :=
  match i with
  | IRange lo hi => (0 <=? lo) && (hi <? 128)
  | IDigit | ISpace => true
  | IWord => false
  end.
Definition plain_set (cs : charset) : bool :=
  match cs with
  | CLit d => (0 <=? d) && (d <? 128)
  | CClass false items => forallb plain_item items
  | _ => false
  end.

Lemma ascii_digit_decimal c : 0 <= c < 128 → is_digit c = true → is_decimal c = true.
Proof. intros Hc. by rewrite ascii_digit, ascii_decimal. Qed.

Lemma space_not_digit c : is_space c = true → is_digit c = true → is_decimal c = true.
Proof. intros Hs%space_not_alnum Hd%digit_is_alnum. congruence. Qed.

Lemma plain_set_sound cs c :
  plain_set cs = true → set_match cs c = true → is_digit c = true → is_decimal c = true.
Proof.
  destruct cs as [d|d|[] items]; cbn [plain_set set_match xorb]; try done.
  - rewrite andb_true_iff, Z.leb_le, Z.ltb_lt. intros Hd ->%Z.eqb_eq. by apply ascii_digit_decimal.
  - intros Hp (i & Hi & Hm)%existsb_exists. rewrite forallb_forall in Hp. specialize (Hp i Hi).
    destruct i as [lo hi| | |]; cbn [plain_item item_match] in Hp, Hm; [|done|by apply space_not_digit|done].
    apply andb_true_iff in Hp as [? ?], Hm as [? ?]. apply ascii_digit_decimal. lia.
Qed.

Lemma denote_plain r s s' w :
  forallb plain_set (charsets r) = true → denote r s s' → consumed s s' w → plain_digits w.
Proof.
  intros Hr. apply denote_alphabet. intros cs c Hin Hm. rewrite forallb_forall in Hr.
  apply list_elem_of_In in Hin. by apply (plain_set_sound cs), Hm; apply Hr.
Qed.

(** *** Dates *)

(** [strptime] with a format that sets its three groups raises nothing but
    [ValueError]: its numbers are too short to overflow a C int. *)
Definition format_ok (fmt : regex) : bool :=
  forallb (λ n, captures n fmt &&
    forallb (λ b, match max_width b with Some k => k <=? 9 | None => false end)
      (group_bodies n fmt)) [1; 2; 3]%nat.

Lemma formats_check : forallb format_ok date_formats = true.
Proof. vm_compute. reflexivity. Qed.

Lemma int_of_cases s :
  slen s <= 9 → (∃ z, int_of s = Ok z ∧ fits_c_int z = true) ∨ int_of s = Err EValueError.
Proof.
  intros Hs. unfold int_of. destruct (py_int s) as [z|] eqn:Hz; [left|by right].
  exists z. split; [done|]. apply py_int_bound in Hz.
  assert (10 ^ slen s <= 10 ^ 9) by (apply Z.pow_le_mono_r; lia).
  unfold fits_c_int. apply andb_true_iff. rewrite !Z.leb_le. lia.
Qed.

Lemma group_int_cases fmt text m n :
  format_ok fmt = true → n ∈ [1; 2; 3]%nat → match_ fmt text = Some m →
  (∃ z, group_int n text m = Ok z ∧ fits_c_int z = true) ∨ group_int n text m = Err EValueError.
Proof.
  intros Hf Hn (s' & Hd & [= ->])%rx_sound. unfold format_ok in Hf.
  rewrite forallb_forall in Hf. apply list_elem_of_In in Hn. specialize (Hf n Hn).
  apply andb_true_iff in Hf as [Hcap Hb].
  destruct (denote_captures n fmt _ _ Hcap Hd) as (body & s1 & s2 & Hin & Hdb & Hg & (w & Hw) & _).
  rewrite (group_int_span n _ _ _ _ Hg). apply int_of_cases.
  rewrite forallb_forall in Hb. apply list_elem_of_In in Hin. specialize (Hb _ Hin).
  destruct (max_width body) as [k|] eqn:Hk; [|done]. apply Z.leb_le in Hb.
  pose proof (denote_width _ _ _ _ Hk Hdb). pose proof (denote_pos_le _ _ _ Hdb).
  assert (Hc1 : coherent text s1) by (eapply coherent_consumed; [apply coherent_start|exact Hw]).
  pose proof (coherent_denote _ _ _ _ Hc1 Hdb) as Hc2.
  pose proof (coherent_bounds _ _ Hc1). pose proof (coherent_bounds _ _ Hc2).
  rewrite slen_slice by lia. lia.
Qed.

Lemma make_date_cases y m d :
  fits_c_int y = true → fits_c_int m = true → fits_c_int d = true →
  (∃ x, make_date y m d = Ok x) ∨ make_date y m d = Err EValueError.
Proof.
  intros Hy Hm Hd. unfold make_date. rewrite Hy, Hm, Hd. simpl. case_match; eauto.
Qed.

Lemma strptime_cases fmt text :
  format_ok fmt = true → (∃ x, strptime text fmt = Ok x) ∨ strptime text fmt = Err EValueError.
Proof.
  intros Hf. unfold strptime. destruct (match_ fmt text) as [m|] eqn:Hm; [|by right].
  case_match; [by right|].
  assert (Hg : ∀ n, n ∈ [1; 2; 3]%nat →
    (∃ z, group_int n text m = Ok z ∧ fits_c_int z = true) ∨ group_int n text m = Err EValueError)
    by (intros; by eapply group_int_cases).
  destruct (Hg 1%nat) as [(d & -> & ?)| ->]; [set_solver| |by right]. cbn [mbind result_bind].
  destruct (Hg 2%nat) as [(mo & -> & ?)| ->]; [set_solver| |by right]. cbn [mbind result_bind].
  destruct (Hg 3%nat) as [(y & -> & ?)| ->]; [set_solver| |by right]. cbn [mbind result_bind].
  by apply make_date_cases.
Qed.

Lemma try_formats_total text fmts :
  forallb format_ok fmts = true → ∃ o, try_formats text fmts = Ok o.
Proof.
  induction fmts as [|fmt fmts IH]; cbn [forallb try_formats]; [by eauto|].
  intros [Hf Hfs]%andb_true_iff.
  destruct (strptime_cases fmt text Hf) as [(x & ->)| ->]; simpl; eauto.
Qed.

(** Unless the text is three words, [parse_date] cannot raise; and three words
    are safe when the last and the first are short. *)
Lemma parse_date_total s :
  (∀ a b c, split_ws (strip s) = [a; b; c] → slen a <= 9 ∧ slen c <= 9) →
  ∃ o, parse_date s = Ok o.
Proof.
  intros Hs. unfold parse_date.
  destruct (try_formats_total (strip s) date_formats formats_check) as (o & ->).
  cbn [mbind result_bind].
  destruct o as [d|]; [by eauto|]. destruct (split_ws (strip s)) as [|a [|b [|c [|? ?]]]]; eauto.
  destruct (Hs a b c eq_refl) as [Ha Hc].
  destruct (dict_get (str_lower b) months) as [mo|] eqn:Hg; [|by eauto].
  destruct (int_of_cases c Hc) as [(y & -> & ?)| ->]; simpl; [|by eauto].
  destruct (int_of_cases a Ha) as [(x & -> & ?)| ->]; simpl; [|by eauto].
  assert (Hmo : fits_c_int mo = true).
  { apply dict_get_elem, list_elem_of_In in Hg.
    assert (Hall : forallb (λ p : pystr * Z, fits_c_int (p.2)) months = true)
      by (vm_compute; reflexivity).
    rewrite forallb_forall in Hall. by apply (Hall (str_lower b, mo)). }
  destruct (make_date_cases y mo x) as [(d & ->)| ->]; simpl; eauto.
Qed.

(** *** What [_BIRTH_DATE_RE] matches *)

Definition solid (c : Z) : Prop := is_space c = false.
Definition blank (c : Z) : Prop := is_space c = true.

Definition solid_set (cs : charset) : bool :=
  match cs with
  | CLit d => (33 <=? d) && (d <? 128)
  | CClass false items =>
      forallb (λ i, match i with
                    | IRange lo hi => (33 <=? lo) && (hi <? 128)
                    | IDigit | IWord => true
                    | ISpace => false
                    end) items
  | _ => false
  end.

Lemma ascii_solid c : 33 <= c < 128 → solid c.
Proof. intros Hc. unfold solid. rewrite ascii_space by lia. lia. Qed.

Lemma word_solid c : is_word c = true → solid c.
Proof.
  unfold is_word, solid. intros [Ha| ->%Z.eqb_eq]%orb_true_iff; [|by apply ascii_solid].
  destruct (is_space c) eqn:Hs; [|done]. apply space_not_alnum in Hs. congruence.
Qed.

Lemma solid_set_sound cs c : solid_set cs = true → set_match cs c = true → solid c.
Proof.
  destruct cs as [d|d|[] items]; cbn [solid_set set_match xorb]; try done.
  - rewrite andb_true_iff, Z.leb_le, Z.ltb_lt. intros Hd ->%Z.eqb_eq. by apply ascii_solid.
  - intros Hp (i & Hi & Hm)%existsb_exists. rewrite forallb_forall in Hp. specialize (Hp i Hi).
    destruct i as [lo hi| | |]; cbn [item_match] in Hm; [|by apply decimal_not_space|done|by apply word_solid].
    apply andb_true_iff in Hp as [? ?], Hm as [? ?]. apply ascii_solid. lia.
Qed.

Lemma solid_piece r s s' :
  forallb solid_set (charsets r) = true → nullable r = false → denote r s s' →
  ∃ w, consumed s s' w ∧ Forall solid w ∧ w ≠ [] ∧ (∀ n, max_width r = Some n → slen w <= n).
Proof.
  intros Hr Hn Hd. destruct (denote_piece solid r s s') as (w & Hw & Hf & Hne & Hl); [|done|].
  - intros cs c Hin Hm. rewrite forallb_forall in Hr. apply list_elem_of_In in Hin.
    by apply (solid_set_sound cs), Hm; apply Hr.
  - exists w. auto.
Qed.

Lemma spaces_piece s s' : denote spaces s s' → ∃ w, consumed s s' w ∧ Forall blank w ∧ w ≠ [].
Proof.
  intros Hd. destruct (denote_piece blank spaces s s') as (w & Hw & Hf & Hne & _); [|done|].
  - intros cs c Hin Hm. apply list_elem_of_singleton in Hin as ->. simpl in Hm.
    by rewrite orb_false_r in Hm.
  - exists w. auto.
Qed.

Lemma solid_parse_total v : Forall solid v → v ≠ [] → ∃ o, parse_date v = Ok o.
Proof.
  intros Hv Hne. apply parse_date_total. intros a b c.
  rewrite strip_nonspace by done. by rewrite split_ws_word.
Qed.

Lemma words_parse_total d sp1 m sp2 y :
  Forall solid d → d ≠ [] → slen d <= 9 → Forall blank sp1 → sp1 ≠ [] →
  Forall solid m → m ≠ [] → Forall blank sp2 → sp2 ≠ [] →
  Forall solid y → y ≠ [] → slen y <= 9 →
  ∃ o, parse_date (d ++ sp1 ++ m ++ sp2 ++ y) = Ok o.
Proof.
  intros Hd Hdne Hdl Hs1 Hs1ne Hm Hmne Hs2 Hs2ne Hy Hyne Hyl. apply parse_date_total.
  assert (Hstrip : strip (d ++ sp1 ++ m ++ sp2 ++ y) = d ++ sp1 ++ m ++ sp2 ++ y).
  { destruct d as [|c d]; [done|]. destruct (exists_last Hyne) as (y' & e & ->).
    apply Forall_cons in Hd as [Hc _]. apply Forall_app in Hy as [_ [He _]%Forall_cons].
    rewrite !app_assoc, <-!app_comm_cons. by apply strip_ends. }
  rewrite Hstrip, !split_ws_cons, split_ws_word by done. by intros a b c [= <- _ <-].
Qed.

Lemma birth_date_parse_total s s' v :
  denote BIRTH_DATE_RE s s' → consumed s s' v → ∃ o, parse_date v = Ok o.
Proof.
  intros (s0 & [_ E0] & s1 & Hd & s2 & [_ E2] & E) Hv. simpl in E. subst s0 s' s2.
  destruct Hd as [Hd|[Hd|Hd]].
  - destruct (solid_piece date_dmy _ _ eq_refl eq_refl Hd) as (w & Hw & Hs & Hne & _).
    destruct Hv as (Hv & _), Hw as (Hw & _). rewrite Hw in Hv. apply app_inv_tail in Hv as <-.
    by apply solid_parse_total.
  - destruct (solid_piece date_ymd _ _ eq_refl eq_refl Hd) as (w & Hw & Hs & Hne & _).
    destruct Hv as (Hv & _), Hw as (Hw & _). rewrite Hw in Hv. apply app_inv_tail in Hv as <-.
    by apply solid_parse_total.
  - destruct Hd as (t1 & H1 & t2 & H2 & t3 & H3 & t4 & H4 & t5 & H5 & E).
    simpl in E. subst s1.
    destruct (solid_piece (between 1 2 digit) _ _ eq_refl eq_refl H1) as (d & Hd & Hds & Hdne & Hdl).
    destruct (spaces_piece _ _ H2) as (sp1 & Hsp1 & ? & ?).
    destruct (solid_piece (plus (cls [IWord])) _ _ eq_refl eq_refl H3) as (m & Hm & Hms & Hmne & _).
    destruct (spaces_piece _ _ H4) as (sp2 & Hsp2 & ? & ?).
    destruct (solid_piece (times 4 digit) _ _ eq_refl eq_refl H5) as (y & Hy & Hys & Hyne & Hyl).
    specialize (Hdl 2 eq_refl). specialize (Hyl 4 eq_refl).
    assert (Hall : consumed s t5 (d ++ sp1 ++ m ++ sp2 ++ y)) by eauto 10 using consumed_trans.
    destruct Hv as (Hv & _), Hall as (Hall & _). rewrite Hall in Hv. apply app_inv_tail in Hv as <-.
    apply words_parse_total; done || lia.
Qed.

(** *** Every validator call made by [detect] returns *)

Lemma validate_total t r text m w :
  (t, r) ∈ RULES → match_in text r m → t ∉ GROUPED_TYPES →
  ∃ b w', validate t (slice text (mo_start m) (ms_pos (mo_end m))) w = (Ok b, w').
Proof.
  intros Hin (s0 & Hc & _ & <- & Hd) _.
  destruct (denote_consumed _ _ _ Hd) as (v & Hv). rewrite (consumed_slice _ _ _ _ Hc Hv).
  unfold validate. destruct (dict_get t VALIDATORS) as [f|] eqn:Hf; [|by eexists _, _].
  apply dict_get_elem in Hf.
  assert (Hr : ∀ r', (t, r') ∈ RULES → r' = r).
  { intros r' Hin'. apply dict_elem_get in Hin; [|apply (bool_decide_eq_true_1 _); vm_compute; reflexivity].
    apply dict_elem_get in Hin'; [congruence|apply (bool_decide_eq_true_1 _); vm_compute; reflexivity]. }
  apply elem_of_cons in Hf as [[= -> ->]|[[= -> ->]|[[= -> ->]|[]%elem_of_nil]%elem_of_cons]%elem_of_cons].
  - rewrite <-(Hr BANK_CARD_RE) in Hd by (apply dict_get_elem; reflexivity).
    destruct (luhn_total v) as (b & Hb); [by apply (denote_plain BANK_CARD_RE _ _ _ eq_refl Hd Hv)|]. exists b, w. unfold slift. by rewrite Hb.
  - rewrite <-(Hr INN_RE) in Hd by (apply dict_get_elem; reflexivity).
    destruct (inn_total v) as (b & Hb); [by apply (denote_plain INN_RE _ _ _ eq_refl Hd Hv)|]. exists b, w. unfold slift. by rewrite Hb.
  - rewrite <-(Hr BIRTH_DATE_RE) in Hd by (apply dict_get_elem; reflexivity).
    destruct (birth_date_parse_total _ _ _ Hd Hv) as (o & Ho).
    unfold is_birth_date, sbind, slift. rewrite Ho. destruct o as [d|]; [|by eexists _, _].
    destruct (date_today w) as [today w']. case_match; by eexists _, _.
Qed.

(** Grouped types have no validator. *)
Lemma validate_grouped t v w : t ∈ GROUPED_TYPES → validate t v w = (Ok true, w).
Proof.
  intros Ht. unfold validate. destruct (dict_get t VALIDATORS) as [f|] eqn:Hf; [|done].
  assert (Hn : t ∉ [BANK_CARD; INN; BIRTH_DATE]) by (revert Ht; clear; destruct t; set_solver).
  apply dict_get_elem, (list_elem_of_fmap_2 fst) in Hf. done.
Qed.
End Validating.

(** ** [detect] *)

Section Detect.
Context `{U : UnicodeDB} {W : Type} `{!Calendar W}.

(** What every reported entity satisfies. *)
Definition entity_checked (text : pystr) (e : PIIEntity) : Prop :=
  span_ok text e ∧ confidence e = 1%Q ∧ detector e = u8 "regex" ∧
  (∃ w, (validate (pii_type e) (value e) w).1 = Ok true) ∧
  accepted (pii_type e) text (value e) (start e) (end_ e) = true.

Lemma detect_match_spec t r text m w :
  (t, r) ∈ RULES → match_in text r m →
  ∃ o w', detect_match t text m w = (Ok o, w') ∧
    ∀ e, o = Some e → pii_type e = t ∧ entity_checked text e.
Proof.
  intros Hin Hm. destruct (match_span_spec t r text m Hin Hm) as (o & Ho & Hspan).
  unfold detect_match, sbind at 1, slift. rewrite Ho.
  destruct o as [[[v a] b]|]; [|by eexists _, _].
  destruct (Hspan v a b eq_refl) as (Ha & Hab & Hb & Hs & Hng).
  assert (∃ ok w', validate t v w = (Ok ok, w')) as (ok & w' & Hok).
  { destruct (decide (t ∈ GROUPED_TYPES)) as [Hg|Hg]; [by eexists _, _; apply validate_grouped|].
    destruct (Hng Hg) as [-> ->]. rewrite <-Hs. by eapply validate_total. }
  unfold sbind. rewrite Hok. unfold sret. eexists _, w'. split; [done|]. intros e He.
  destruct ok; [|done]. simpl in He. destruct (accepted t text v a b) eqn:Hacc; [|done].
  injection He as <-. split; [done|]. split_and!; simpl; try done. exists w. by rewrite Hok.
Qed.

Lemma detect_matches_spec t r text ms es w :
  (t, r) ∈ RULES → Forall (match_in text r) ms → Forall (entity_checked text) es →
  ∃ es' w', detect_matches t text ms es w = (Ok es', w') ∧ Forall (entity_checked text) es'.
Proof.
  intros Hin Hms. revert es w. induction Hms as [|m ms Hm Hms IH]; intros es w Hes;
    cbn [detect_matches]; [by eexists _, _|].
  destruct (detect_match_spec t r text m w Hin Hm) as (o & w1 & Ho & Hspec).
  unfold sbind. rewrite Ho. apply IH. apply Forall_app. split; [done|].
  destruct o as [e|]; simpl; constructor; [|constructor]. by apply Hspec.
Qed.

Lemma detect_rules_spec rules text es w :
  (∀ p, p ∈ rules → p ∈ RULES) → Forall (entity_checked text) es →
  ∃ es' w', detect_rules rules text es w = (Ok es', w') ∧ Forall (entity_checked text) es'.
Proof.
  revert es w. induction rules as [|[t r] rules IH]; intros es w Hin Hes; cbn [detect_rules];
    [by eexists _, _|].
  destruct (detect_matches_spec t r text (finditer r text) es w) as (es1 & w1 & Hd & Hes1);
    [set_solver| |done|].
  { apply Forall_forall. intros m. apply finditer_sound. }
  unfold sbind. rewrite Hd. apply IH; [set_solver|done].
Qed.

Lemma detect_spec text context w :
  ∃ es w', detect text context w = (Ok es, w') ∧ Forall (entity_checked text) es.
Proof. apply detect_rules_spec; [done|constructor]. Qed.

(** Entities only accumulate. *)
Lemma detect_matches_keeps t text ms es w es' w' e :
  detect_matches t text ms es w = (Ok es', w') → e ∈ es → e ∈ es'.
Proof.
  revert es w. induction ms as [|m ms IH]; intros es w; cbn [detect_matches].
  - by intros [= -> _].
  - intros (o & w1 & _ & Hrest)%sbind_Ok He. eapply IH; [exact Hrest|]. apply elem_of_app. by left.
Qed.

Lemma detect_rules_keeps rules text es w es' w' e :
  detect_rules rules text es w = (Ok es', w') → e ∈ es → e ∈ es'.
Proof.
  revert es w. induction rules as [|[t r] rules IH]; intros es w; cbn [detect_rules].
  - by intros [= -> _].
  - intros (es1 & w1 & Hm & Hrest)%sbind_Ok He. eapply IH; [exact Hrest|].
    by eapply detect_matches_keeps.
Qed.

(** What a match contributes at its turn is in the result. *)
Lemma detect_matches_reports t text ms es w es' w' m e :
  detect_matches t text ms es w = (Ok es', w') → m ∈ ms →
  (∀ w, (detect_match t text m w).1 = Ok (Some e)) → e ∈ es'.
Proof.
  intros Hd Hm He. revert es w Hd. induction ms as [|m' ms IH]; intros es w; [by apply elem_of_nil in Hm|].
  cbn [detect_matches]. intros (o & w1 & Ho & Hrest)%sbind_Ok.
  apply elem_of_cons in Hm as [<-|Hm]; [|by eapply IH].
  specialize (He w). rewrite Ho in He. injection He as ->.
  eapply detect_matches_keeps; [exact Hrest|]. set_solver.
Qed.

Lemma detect_rules_reports rules text es w es' w' t r m e :
  detect_rules rules text es w = (Ok es', w') → (t, r) ∈ rules → m ∈ finditer r text →
  (∀ w, (detect_match t text m w).1 = Ok (Some e)) → e ∈ es'.
Proof.
  intros Hd Hin Hm He. revert es w Hd. induction rules as [|[t' r'] rules IH]; intros es w;
    [by apply elem_of_nil in Hin|].
  cbn [detect_rules]. intros (es1 & w1 & Hms & Hrest)%sbind_Ok.
  apply elem_of_cons in Hin as [[= <- <-]|Hin]; [|by eapply IH].
  eapply detect_rules_keeps; [exact Hrest|]. by eapply detect_matches_reports.
Qed.

(** C11: [RegexDetector.detect] returns normally on every text, whatever the
    day: no validator raises on what its pattern matched (digit characters
    [int] refuses never reach a checksum, dates never overflow), and each
    entity it reports is a non-empty span of the text holding its value, with
    confidence 1 and detector name "regex". *)
Theorem detect_total_and_sound (text : pystr) (context : DetectionContext) (w : W) :
  ∃ es w', detect text context w = (Ok es, w') ∧
    Forall (λ e, span_ok text e ∧ confidence e = 1%Q ∧ detector e = u8 "regex") es.
Proof.
  destruct (detect_spec text context w) as (es & w' & Hd & Hes). exists es, w'. split; [done|].
  eapply Forall_impl; [exact Hes|]. by intros e (? & ? & ? & _).
Qed.

(** C12: what a reported type means: cards pass Luhn, INNs their checksum, birth
    dates the age window on the day they were looked at; a person name is no
    country name and a citizenship is one; an address is a full one and no
    address component or phone lies in a bank context; every type with
    markers has one near. *)
Theorem detected_entities_checked (text : pystr) (context : DetectionContext) (w : W) es w' e :
  detect text context w = (Ok es, w') → e ∈ es →
  (pii_type e = BANK_CARD → luhn (value e) = Ok true) ∧
  (pii_type e = INN → inn_checksum (value e) = Ok true) ∧
  (pii_type e = BIRTH_DATE → ∃ w, (is_birth_date (value e) w).1 = Ok true) ∧
  (pii_type e = PERSON_NAME → str_lower (value e) ∉ COUNTRY_NAMES) ∧
  (pii_type e = CITIZENSHIP → str_lower (value e) ∈ COUNTRY_NAMES) ∧
  (pii_type e = ADDRESS → is_full_address (value e) = true) ∧
  (pii_type e ∈ ADDRESS_COMPONENT_TYPES → is_bank_context text (start e) = false) ∧
  (∀ markers, dict_get (pii_type e) MARKER_TYPES = Some markers →
     has_marker text (start e) (end_ e) markers = true).
Proof.
  intros Hd He. destruct (detect_spec text context w) as (es0 & w0 & Hd0 & Hes).
  rewrite Hd in Hd0. injection Hd0 as <- <-. rewrite Forall_forall in Hes.
  destruct (Hes e He) as (_ & _ & _ & (w1 & Hv) & Hacc).
  unfold accepted in Hacc. unfold validate in Hv.
  destruct (bool_decide (pii_type e = PERSON_NAME) && bool_decide (str_lower (value e) ∈ COUNTRY_NAMES))
    eqn:H1; [done|].
  destruct (bool_decide (pii_type e = CITIZENSHIP)
            && negb (bool_decide (str_lower (value e) ∈ COUNTRY_NAMES))) eqn:H2; [done|].
  destruct (bool_decide (pii_type e = ADDRESS) && negb (is_full_address (value e))) eqn:H3; [done|].
  destruct (bool_decide (pii_type e ∈ ADDRESS_COMPONENT_TYPES) && is_bank_context text (start e))
    eqn:H4; [done|].
  split_and!.
  - intros Ht. rewrite Ht in Hv. exact Hv.
  - intros Ht. rewrite Ht in Hv. exact Hv.
  - intros Ht. rewrite Ht in Hv. by exists w1.
  - intros Ht Hc. by rewrite !bool_decide_eq_true_2 in H1.
  - intros Ht. rewrite (bool_decide_eq_true_2 (pii_type e = _)) in H2 by done.
    by apply negb_false_iff, bool_decide_eq_true in H2.
  - intros Ht. rewrite bool_decide_eq_true_2 in H3 by done. by apply negb_false_iff in H3.
  - intros Ht. by rewrite bool_decide_eq_true_2 in H4.
  - intros markers Hmk. by rewrite Hmk in Hacc.
Qed.

(** The types reported on the strength of their pattern alone, phones outside
    bank contexts. *)
Definition direct_types : list PIIType := [EMAIL; PHONE; PASSPORT_DIVISION_CODE].

Lemma direct_match t text m w :
  t ∈ direct_types → t = PHONE ∧ is_bank_context text (mo_start m) = true ∨
  (detect_match t text m w).1 =
    Ok (Some (mkPIIEntity t (slice text (mo_start m) (ms_pos (mo_end m))) (mo_start m)
                (ms_pos (mo_end m)) 1 (u8 "regex") [])).
Proof.
  intros Ht. destruct (is_bank_context text (mo_start m)) eqn:Hb.
  - destruct (decide (t = PHONE)) as [->|Hne]; [by left|right].
    apply elem_of_cons in Ht as [->|[->|[->|[]%elem_of_nil]%elem_of_cons]%elem_of_cons];
      [reflexivity|done|reflexivity].
  - right. apply elem_of_cons in Ht as [->|[->|[->|[]%elem_of_nil]%elem_of_cons]%elem_of_cons];
      [reflexivity| |reflexivity].
    unfold detect_match, sbind, slift, sret, match_span. simpl.
    unfold accepted. simpl. by rewrite Hb.
Qed.

(** C13: recall of the unconditional patterns: wherever the pattern of an
    e-mail address, a phone number or a passport division code matches the
    text (read to the end of that match, as [re] finds it there), the whole
    matched value is reported as an entity of that type; unless its first
    character already belongs to the match found at an earlier position,
    which is then reported whole instead.  Phones in the vicinity of a bank
    branch are excepted, as the code means to. *)
Theorem direct_patterns_recall (text pre rest : pystr) (context : DetectionContext) (w w' : W)
    es t r s' :
  detect text context w = (Ok es, w') → t ∈ direct_types → (t, r) ∈ RULES →
  text = pre ++ rest → rx_run r Some (mkMState (slen pre) (last pre) rest []) = Some s' →
  let reported a b :=
    mkPIIEntity t (slice text a b) a b 1 (u8 "regex") [] ∈ es ∨ (t = PHONE ∧ is_bank_context text a = true) in
  reported (slen pre) (ms_pos s') ∨
  ∃ pre1 rest1 s1, text = pre1 ++ rest1 ∧ slen pre1 < slen pre < ms_pos s1 ∧
    rx_run r Some (mkMState (slen pre1) (last pre1) rest1 []) = Some s1 ∧ reported (slen pre1) (ms_pos s1).
Proof.
  intros Hd Ht Hin Htext Hrun. cbv zeta. pose proof (rule_checked _ _ Hin) as Hok.
  apply andb_true_iff in Hok as [[Hwf Hn%negb_true_iff]%andb_true_iff _]. simpl in Hwf, Hn.
  pose proof Hrun as (s2 & Hden & [= ->])%rx_sound.
  destruct (finditer_covers r text (mkMState (slen pre) (last pre) rest []) s')
    as (m & Hm & Hcov); [done|done|by exists pre|done|done|].
  assert (Hrep : mkPIIEntity t (slice text (mo_start m) (ms_pos (mo_end m))) (mo_start m) (ms_pos (mo_end m)) 1
                   (u8 "regex") [] ∈ es ∨ (t = PHONE ∧ is_bank_context text (mo_start m) = true)).
  { destruct (decide (t = PHONE ∧ is_bank_context text (mo_start m) = true)) as [|Hno]; [by right|left].
    eapply detect_rules_reports; [exact Hd|exact Hin|exact Hm|]. intros w0.
    by destruct (direct_match t text m w0 Ht). }
  destruct (finditer_found _ _ _ Hm) as (pre1 & rest1 & Htext1 & Hstart & Hrun1). rewrite Hstart in *.
  destruct (decide (slen pre1 = slen pre)) as [Hsame|Hne].
  - left. assert (pre1 = pre ∧ rest1 = rest) as [-> ->].
    { rewrite Htext in Htext1. apply app_inj_1 in Htext1 as [? ?]; [done|]. unfold slen in Hsame. lia. }
    rewrite Hrun in Hrun1. injection Hrun1 as ->. exact Hrep.
  - right. exists pre1, rest1, (mo_end m). cbn [ms_pos] in Hcov. by split_and!; [|lia|lia| |].
Qed.
End Detect.

(** ** Witnesses *)

Definition sample_day : date := mkDate 2025 5 10.
Abbreviation detect_sample text :=
  (@detect _ unit (fixed_day sample_day) text (default_context []) tt).
Definition sample_found : list PIIEntity :=
  [mkPIIEntity EMAIL (u8 "a@b.ru") 10 16 1 (u8 "regex") [];
   mkPIIEntity PIN (u8 "1234") 4 8 1 (u8 "regex") []].

(** An e-mail address and a PIN are reported, the PIN is no CVV. *)
Example detect_sample_text :
  detect_sample sample_text = (Ok sample_found, tt).
Proof. vm_compute. reflexivity. Qed.

Lemma detected_entities_checked_witness :
  ∃ es w', detect_sample sample_text = (Ok es, w') ∧
    ∃ e, e ∈ es ∧ pii_type e = PIN ∧
         has_marker sample_text (start e) (end_ e) [u8 "pin"; u8 "пин"] = true.
Proof.
  exists sample_found, tt. split; [exact detect_sample_text|].
  exists (mkPIIEntity PIN (u8 "1234") 4 8 1 (u8 "regex") []).
  split; [apply list_elem_of_further, list_elem_of_here|]. split; [reflexivity|].
  destruct (@detected_entities_checked _ unit (fixed_day sample_day) sample_text
    (default_context []) tt sample_found tt (mkPIIEntity PIN (u8 "1234") 4 8 1 (u8 "regex") [])
    detect_sample_text) as (_ & _ & _ & _ & _ & _ & _ & Hmk);
    [apply list_elem_of_further, list_elem_of_here|].
  apply Hmk. reflexivity.
Defined.

Lemma direct_patterns_recall_witness :
  mkPIIEntity EMAIL (slice sample_text 10 16) 10 16 1 (u8 "regex") [] ∈ sample_found.
Proof.
  destruct (@direct_patterns_recall _ unit (fixed_day sample_day) sample_text (u8 "PIN 1234, ")
    (u8 "a@b.ru") (default_context []) tt tt sample_found EMAIL EMAIL_RE (mkMState 16 (Some 117) [] []) detect_sample_text)
    as [[Hin|[[=] _]]|(pre1 & rest1 & s1 & _ & [Hlt _] & _ & [Hin|[[=] _]])].
  - apply list_elem_of_here.
  - apply list_elem_of_here.
  - reflexivity.
  - vm_compute. reflexivity.
  - exact Hin.
  - exfalso. change (slen (u8 "PIN 1234, ")) with 10 in Hlt. revert Hin Hlt.
    generalize (slen pre1), (ms_pos s1). intros a b Hin Hlt.
    apply elem_of_cons in Hin as [Heq|[[=]|[]%elem_of_nil]%elem_of_cons].
    apply (f_equal start) in Heq. cbn in Heq. lia.
Defined.
