(* ===== verification/Policy.v ===== *)
(** * Consumer policies ([app/policies])

    [ConsumerPolicy], the loader of [FilePolicyProvider] from parsed YAML, and
    [get_policy].  Reading a directory and [yaml.safe_load] are outside: a
    policy file is its stem and the value (or exception) that loading it
    gives.  YAML mappings have string keys here. *)

From S2P Require Import Prelude Unicode Domain PyStr Strategies Masking.

(** ** [models.py] *)

Record ConsumerPolicy := mkPolicy {
  cp_consumer_id : pystr;
  cp_enabled : bool;
  cp_enabled_types : list PIIType;
  cp_masking : list (PIIType * MaskingStrategyEnum);
  cp_demasking_enabled : bool;
  cp_context_rules : pyobj
}.

(** [ConsumerPolicy.strategy_for]. *)
Definition policy_strategy_for (p : ConsumerPolicy) (t : PIIType) : MaskingStrategyEnum :=
  default FULL_MASK (dict_get t (cp_masking p)).

(** ** [loader.py] *)

(** [o.items()]. *)
Definition obj_items (o : pyobj) : result exn (list (pystr * pyobj)) :=
  match o with ODict d => Ok d | _ => Err EAttributeError end.

(** [{PIIType(k): MaskingStrategy(v) for k, v in items}]. *)
Fixpoint load_masking (acc : list (PIIType * MaskingStrategyEnum)) (items : list (pystr * pyobj))
    : result exn (list (PIIType * MaskingStrategyEnum)) :=
  match items with
  | [] => Ok acc
  | (k, v) :: items =>
      t ← result_of_option EValueError (PIIType_of (OStr k));
      s ← result_of_option EValueError (MaskingStrategy_of v);
      load_masking (dict_set t s acc) items
  end.

(** [_load_file], after [path.stem] and [yaml.safe_load]. *)
Definition load_file (stem : pystr) (loaded : pyobj) : result exn ConsumerPolicy :=
  let raw := if truthy loaded then loaded else ODict [] in
  detection ← obj_get raw (u8 "detection") (ODict []);
  masking_raw ← obj_get raw (u8 "masking") (ODict []);
  demasking ← obj_get raw (u8 "demasking") (ODict []);
  enabled ← obj_get raw (u8 "enabled") (OBool true);
  types_raw ← obj_get detection (u8 "enabled_types") (OList []);
  types_list ← py_iter types_raw;
  enabled_types ← mapR (λ t, result_of_option EValueError (PIIType_of t)) types_list;
  items ← obj_items masking_raw;
  masking ← load_masking [] items;
  demasking_enabled ← obj_get demasking (u8 "enabled") (OBool true);
  context_rules ← obj_get raw (u8 "context_rules") (OList []);
  Ok (mkPolicy stem (truthy enabled) enabled_types masking (truthy demasking_enabled) context_rules).

(** A file of the directory: its stem and what reading and parsing it give. *)
Definition policy_file : Type := pystr * result exn pyobj.

Definition path_leb (a b : policy_file) : bool := str_leb (a.1) (b.1).

Fixpoint load_files (policies : list (pystr * ConsumerPolicy)) (files : list policy_file)
    : result exn (list (pystr * ConsumerPolicy)) :=
  match files with
  | [] => Ok policies
  | (stem, parsed) :: files =>
      loaded ← parsed;
      policy ← load_file stem loaded;
      load_files (dict_set (cp_consumer_id policy) policy policies) files
  end.

(** [_load_all]: the files in path order. *)
Definition load_all (files : list policy_file) : result exn (list (pystr * ConsumerPolicy)) :=
  load_files [] (sorted_by path_leb files).

Definition get_policy (policies : list (pystr * ConsumerPolicy)) (consumer_id : pystr)
    : result exn ConsumerPolicy :=
  match dict_get consumer_id policies with
  | None => Err (ConsumerNotAllowedError (u8 "consumer not allowed: " ++ consumer_id))
  | Some policy =>
      if cp_enabled policy then Ok policy
      else Err (ConsumerNotAllowedError (u8 "consumer not allowed: " ++ consumer_id))
  end.

(** ** Loading *)

(** Writing a policy as the mapping its file would hold. *)
Definition policy_obj (p : ConsumerPolicy) : pyobj :=
  ODict [(u8 "enabled", OBool (cp_enabled p));
         (u8 "detection", ODict [(u8 "enabled_types", OList ((λ t, OStr (pii_value t)) <$> cp_enabled_types p))]);
         (u8 "masking", ODict ((λ ts, (pii_value (ts.1), OStr (strategy_value (ts.2)))) <$> cp_masking p));
         (u8 "demasking", ODict [(u8 "enabled", OBool (cp_demasking_enabled p))]);
         (u8 "context_rules", cp_context_rules p)].

Lemma obj_get_some d k dflt v : dict_get k d = Some v → obj_get (ODict d) k dflt = Ok v.
Proof. simpl. by intros ->. Qed.

(** Evaluates a dict lookup of the goal. *)
Ltac read_key :=
  match goal with
  | |- context [obj_get (ODict ?d) ?k ?x] =>
      erewrite (obj_get_some d k x) by reflexivity; cbn [mbind result_bind]
  end.

Lemma load_types ts :
  mapR (E := exn) (λ t, result_of_option EValueError (PIIType_of t)) ((λ t, OStr (pii_value t)) <$> ts) = Ok ts.
Proof.
  induction ts as [|t ts IH]; [done|]. rewrite fmap_cons. cbn [mapR]. rewrite PIIType_of_value.
  cbn [result_of_option mbind result_bind]. by rewrite IH.
Qed.

Lemma load_masking_items acc m :
  NoDup (acc ++ m).*1 →
  load_masking acc ((λ ts, (pii_value (ts.1), OStr (strategy_value (ts.2)))) <$> m) = Ok (acc ++ m).
Proof.
  revert acc. induction m as [|[t s] m IH]; intros acc Hnd; [by rewrite app_nil_r|].
  rewrite fmap_cons. cbn [load_masking fst snd]. rewrite PIIType_of_value, MaskingStrategy_of_value.
  cbn [result_of_option mbind result_bind]. rewrite dict_set_fresh.
  - rewrite IH by (by rewrite <-app_assoc). by rewrite <-app_assoc.
  - rewrite fmap_app, fmap_cons in Hnd. apply NoDup_app in Hnd as (_ & Hd & _).
    intros Hin. apply (Hd t Hin). set_solver.
Qed.

(** A file loads all or nothing, under its stem. *)
Lemma load_file_id stem o p : load_file stem o = Ok p → cp_consumer_id p = stem.
Proof. unfold load_file. intros H. by simplify_result. Qed.

Definition well_keyed (policies : list (pystr * ConsumerPolicy)) : Prop :=
  Forall (λ kp, cp_consumer_id (kp.2) = kp.1) policies ∧ NoDup policies.*1.

Lemma dict_set_Forall {K V} `{EqDecision K} (P : K * V → Prop) k v d :
  P (k, v) → Forall P d → Forall P (dict_set k v d).
Proof.
  intros Hp. induction 1 as [|[k' v'] d Hx Hd IH]; simpl; [by repeat constructor|].
  case_decide as Hk; [subst; by constructor|by constructor].
Qed.

(** Loading the files in any order of distinct stems: each is found under its
    stem. *)
Lemma load_files_spec policies files out :
  load_files policies files = Ok out → NoDup files.*1 →
  (∀ stem, stem ∈ files.*1 → dict_get stem policies = None) →
  ∀ stem, dict_get stem out =
    match dict_get stem files with
    | Some parsed => match (loaded ← parsed; load_file stem loaded) with Ok p => Some p | Err _ => None end
    | None => dict_get stem policies
    end.
Proof.
  revert policies. induction files as [|[s parsed] files IH]; intros policies Hl Hnd Hfresh stem.
  - by injection Hl as ->.
  - rewrite fmap_cons in Hnd, Hfresh. cbn [fst] in *. apply NoDup_cons in Hnd as [Hs Hnd].
    cbn [load_files] in Hl. apply bind_Ok in Hl as (loaded & -> & (p & Hp & Hl)%bind_Ok).
    pose proof (load_file_id _ _ _ Hp) as Hid. rewrite Hid in Hl.
    rewrite (IH _ Hl Hnd).
    + cbn [dict_get]. destruct (decide (stem = s)) as [->|Hne].
      * rewrite (proj2 (dict_get_None s files) Hs), dict_get_set_eq. simpl. by rewrite Hp.
      * by rewrite dict_get_set_ne.
    + intros stem' Hin. rewrite dict_get_set_ne by (intros ->; done). apply Hfresh. set_solver.
Qed.

Lemma load_files_ok policies files out stem parsed :
  load_files policies files = Ok out → (stem, parsed) ∈ files →
  ∃ loaded p, parsed = Ok loaded ∧ load_file stem loaded = Ok p.
Proof.
  revert policies. induction files as [|[s r] files IH]; intros policies Hl Hin; [by apply elem_of_nil in Hin|].
  cbn [load_files] in Hl. apply bind_Ok in Hl as (loaded & -> & (p & Hp & Hl)%bind_Ok).
  apply elem_of_cons in Hin as [[= -> ->]|Hin]; [by exists loaded, p|by eapply IH].
Qed.

(** ** Properties *)

(** Policy files mean what they say: a policy written as a mapping (types
    and strategies by their values) loads back to exactly itself under the
    stem of its file. *)
Theorem policy_file_roundtrip (p : ConsumerPolicy) :
  NoDup (cp_masking p).*1 → load_file (cp_consumer_id p) (policy_obj p) = Ok p.
Proof.
  intros Hnd. unfold load_file, policy_obj. cbn [truthy]. cbv zeta.
  repeat read_key. cbn [py_iter mbind result_bind].
  rewrite load_types. cbn [mbind result_bind obj_items].
  rewrite (load_masking_items []) by done. cbn [mbind result_bind app].
  repeat read_key.
  by destruct p.
Qed.

(** The provider serves exactly the enabled policies it loaded: once the
    directory is loaded, a consumer gets a policy if and only if a file with
    its id as stem was loaded and is enabled, that policy carries the
    consumer's own id, and everybody else gets 403 CONSUMER_NOT_ALLOWED. *)
Theorem get_policy_spec (files : list policy_file) policies (consumer : pystr) :
  load_all files = Ok policies → NoDup files.*1 →
  match get_policy policies consumer with
  | Ok p => cp_consumer_id p = consumer ∧ cp_enabled p = true ∧
      ∃ loaded, (consumer, Ok loaded) ∈ files ∧ load_file consumer loaded = Ok p
  | Err e => e = ConsumerNotAllowedError (u8 "consumer not allowed: " ++ consumer) ∧
      ∀ loaded p, (consumer, Ok loaded) ∈ files → load_file consumer loaded = Ok p →
        cp_enabled p = false
  end.
Proof.
  intros Hl Hnd. unfold load_all in Hl.
  pose proof (sorted_by_perm path_leb files) as Hperm.
  assert (Hnd' : NoDup (sorted_by path_leb files).*1) by (by rewrite Hperm).
  pose proof (load_files_spec [] _ _ Hl Hnd' (λ _ _, eq_refl) consumer) as Hget.
  unfold get_policy. rewrite Hget. clear Hget.
  destruct (dict_get consumer (sorted_by path_leb files)) as [parsed|] eqn:Hf.
  - apply dict_get_elem in Hf as Hin.
    destruct (load_files_ok _ _ _ _ _ Hl Hin) as (loaded & p & -> & Hp). simpl. rewrite Hp.
    assert (Huniq : ∀ loaded', (consumer, Ok loaded') ∈ files → loaded' = loaded).
    { intros loaded' Hin'. rewrite <-Hperm in Hin'. apply dict_elem_get in Hin'; [|done]. congruence. }
    destruct (cp_enabled p) eqn:He.
    + split_and!; [by eapply load_file_id|done|]. exists loaded. by rewrite <-Hperm.
    + split; [done|]. intros loaded' p' ->%Huniq Hp'. congruence.
  - split; [done|]. intros loaded p Hin _. rewrite <-Hperm in Hin.
    apply dict_get_None in Hf. destruct Hf. by apply (list_elem_of_fmap_2 fst) in Hin.
Qed.

(** ** Witnesses *)

(** [configs/consumers/default.yaml]. *)
Definition default_policy : ConsumerPolicy :=
  mkPolicy (u8 "default") true all_pii_types ((λ t, (t, FULL_MASK)) <$> all_pii_types) true
    (pin_rule false).

Lemma default_policy_keys : NoDup (cp_masking default_policy).*1.
Proof. apply (bool_decide_eq_true_1 _). vm_compute. reflexivity. Qed.

Lemma policy_file_roundtrip_witness :
  load_file (u8 "default") (policy_obj default_policy) = Ok default_policy.
Proof. exact (policy_file_roundtrip default_policy default_policy_keys). Defined.

Definition sample_files : list policy_file :=
  [(u8 "off", Ok (ODict [(u8 "enabled", OBool false)])); (u8 "default", Ok (policy_obj default_policy))].

Lemma get_policy_spec_witness :
  ∃ policies, load_all sample_files = Ok policies ∧ get_policy policies (u8 "default") = Ok default_policy ∧
    match get_policy policies (u8 "off") with Ok p => cp_consumer_id p = u8 "off" | Err e =>
      e = ConsumerNotAllowedError (u8 "consumer not allowed: " ++ u8 "off") end.
Proof.
  eexists. split; [vm_compute; reflexivity|]. split; [vm_compute; reflexivity|].
  match goal with |- match get_policy ?ps _ with _ => _ end =>
    pose proof (get_policy_spec sample_files ps (u8 "off")) as H;
    destruct (get_policy ps (u8 "off")) end.
  - apply H; [vm_compute; reflexivity|]. apply (bool_decide_eq_true_1 _). vm_compute. reflexivity.
  - apply H; [vm_compute; reflexivity|]. apply (bool_decide_eq_true_1 _). vm_compute. reflexivity.
Defined.
