(* ===== verification/Restoration.v ===== *)
(** * Restoration state ([app/restoration/models.py])

    [RestorationState] with its JSON form, and the [datetime] values it holds.
    [isoformat] and the reading of what it writes are modelled; any other
    text goes to [iso_other], the rest of [datetime.fromisoformat], about
    which nothing is assumed. *)

From S2P Require Import Prelude Unicode Domain PyStr Utf8 Validators Json.

(** ** [datetime] *)

(** [dt_offset] is the UTC offset in microseconds; [None] for a naive value. *)
Record datetime := mkDatetime {
  dt_date : date;
  dt_hour : Z;
  dt_minute : Z;
  dt_second : Z;
  dt_micro : Z;
  dt_offset : option Z
}.

#[export] Instance datetime_eq_dec : EqDecision datetime.
Proof. solve_decision. Defined.

Definition valid_offset (o : Z) : bool := Z.abs o <? 86400000000.

Definition valid_datetime (t : datetime) : bool :=
  valid_date (d_year (dt_date t)) (d_month (dt_date t)) (d_day (dt_date t)) &&
  (0 <=? dt_hour t) && (dt_hour t <=? 23) && (0 <=? dt_minute t) && (dt_minute t <=? 59) &&
  (0 <=? dt_second t) && (dt_second t <=? 59) && (0 <=? dt_micro t) && (dt_micro t <=? 999999) &&
  match dt_offset t with Some o => valid_offset o | None => true end.

(** Exactly [n] decimal digits. *)
Fixpoint pad (n : nat) (z : Z) : pystr :=
  match n with O => [] | S n => pad n (z / 10) ++ [48 + z mod 10] end.

Definition micro_suffix (us : Z) : pystr := if us =? 0 then [] else 46 :: pad 6 us.

Definition format_offset (o : Z) : pystr :=
  let a := Z.abs o in
  let us := a mod 1000000 in
  let s := a / 1000000 in
  (if o <? 0 then 45 else 43) :: pad 2 (s / 3600) ++ [58] ++ pad 2 (s / 60 mod 60) ++
  (if (s mod 60 =? 0) && (us =? 0) then [] else 58 :: pad 2 (s mod 60) ++ micro_suffix us).

(** [t.isoformat()]. *)
Definition isoformat (t : datetime) : pystr :=
  pad 4 (d_year (dt_date t)) ++ [45] ++ pad 2 (d_month (dt_date t)) ++ [45] ++
  pad 2 (d_day (dt_date t)) ++ [84] ++
  pad 2 (dt_hour t) ++ [58] ++ pad 2 (dt_minute t) ++ [58] ++ pad 2 (dt_second t) ++
  micro_suffix (dt_micro t) ++
  match dt_offset t with Some o => format_offset o | None => [] end.

(** Reads [n] ASCII digits after the number [acc]. *)
Fixpoint take_digits (n : nat) (acc : Z) (s : pystr) : option (Z * pystr) :=
  match n with
  | O => Some (acc, s)
  | S n =>
      match s with
      | c :: s => if is_ascii_digit c then take_digits n (acc * 10 + (c - 48)) s else None
      | [] => None
      end
  end.

Definition expect (c : Z) (s : pystr) : option pystr :=
  match s with d :: s => if d =? c then Some s else None | [] => None end.

(** An optional [.ffffff]. *)
Definition take_micro (s : pystr) : option (Z * pystr) :=
  match s with
  | c :: s' => if c =? 46 then take_digits 6 0 s' else Some (0, s)
  | [] => Some (0, [])
  end.

(** [hh:mm\[:ss\[.ffffff\]\]] to the end. *)
Definition read_offset (s : pystr) : option Z :=
  '(hh, s) ← take_digits 2 0 s;
  s ← expect 58 s;
  '(mm, s) ← take_digits 2 0 s;
  '(ss, s) ← match s with
             | [] => Some (0, [])
             | c :: s' => if c =? 58 then take_digits 2 0 s' else None
             end;
  '(us, s) ← take_micro s;
  match s with
  | [] => Some (((hh * 60 + mm) * 60 + ss) * 1000000 + us)
  | _ => None
  end.

Definition read_zone (s : pystr) : option (option Z) :=
  match s with
  | [] => Some None
  | c :: s =>
      if c =? 43 then o ← read_offset s; Some (Some o)
      else if c =? 45 then o ← read_offset s; Some (Some (- o))
      else None
  end.

(** Reads the form [isoformat] writes: [None] when the text has another one. *)
Definition iso_extended (s : pystr) : option (result exn datetime) :=
  '(y, s) ← take_digits 4 0 s;
  s ← expect 45 s;
  '(m, s) ← take_digits 2 0 s;
  s ← expect 45 s;
  '(d, s) ← take_digits 2 0 s;
  s ← expect 84 s;
  '(hh, s) ← take_digits 2 0 s;
  s ← expect 58 s;
  '(mm, s) ← take_digits 2 0 s;
  s ← expect 58 s;
  '(ss, s) ← take_digits 2 0 s;
  '(us, s) ← take_micro s;
  zone ← read_zone s;
  let t := mkDatetime (mkDate y m d) hh mm ss us zone in
  Some (if valid_datetime t then Ok t else Err EValueError).

(** What the interpreter contributes: the rest of [datetime.fromisoformat]
    and the recursion limit of the JSON scanner. *)
Class Interpreter := {
  iso_other : pystr → result exn datetime;
  recursion_limit : nat;
  recursion_limit_ok : (3 <= recursion_limit)%nat
}.

(** ** [RestorationState] *)

Record RestorationState := mkRestorationState {
  payload_id : pystr;
  original_hash : pystr;
  original_text : pystr;
  masked_text : pystr;
  mappings : list (pystr * pystr);
  entity_count : Z;
  detected_types : list pystr;
  state : RestorationStateStatus;
  created_at : datetime;
  expires_at : option datetime;
  consumer_id : pystr
}.

Section State.
Context `{I : Interpreter}.

Definition fromisoformat (o : pyobj) : result exn datetime :=
  match o with
  | OStr s => match iso_extended s with Some r => r | None => iso_other s end
  | _ => Err ETypeError
  end.

(** [self.expired], with [now = datetime.now(UTC)] and instants compared by
    [geb]. *)
Definition expired (geb : datetime → datetime → bool) (now : datetime) (st : RestorationState) : bool :=
  match expires_at st with
  | None => false
  | Some t => geb now t
  end.

(** [asdict(self)] with the three fields [to_json] rewrites; tuples become
    lists. *)
Definition state_dict (st : RestorationState) : list (pystr * pyobj) :=
  [(u8 "payload_id", OStr (payload_id st));
   (u8 "original_hash", OStr (original_hash st));
   (u8 "original_text", OStr (original_text st));
   (u8 "masked_text", OStr (masked_text st));
   (u8 "mappings", OList ((λ p, OList [OStr (p.1); OStr (p.2)]) <$> mappings st));
   (u8 "entity_count", OInt (entity_count st));
   (u8 "detected_types", OList (OStr <$> detected_types st));
   (u8 "state", OStr (status_value (state st)));
   (u8 "created_at", OStr (isoformat (created_at st)));
   (u8 "expires_at", match expires_at st with Some t => OStr (isoformat t) | None => ONone end);
   (u8 "consumer_id", OStr (consumer_id st))].

Definition state_fields : list pystr :=
  [u8 "payload_id"; u8 "original_hash"; u8 "original_text"; u8 "masked_text"; u8 "mappings";
   u8 "entity_count"; u8 "detected_types"; u8 "state"; u8 "created_at"; u8 "expires_at";
   u8 "consumer_id"].

(** No float is in the dict, so the dump never fails; the error stands for
    the case that does not arise. *)
Definition to_json (st : RestorationState) : result exn pystr :=
  result_of_option ETypeError (json_dumps (ODict (state_dict st))).

(** The dataclass does not check the types of its fields.  A record whose
    fields have other types than [to_json] writes is outside the model and is
    reported as [ill_typed]. *)
Definition ill_typed : exn := EOther (u8 "IllTypedRecord").

Definition as_str (o : pyobj) : result exn pystr :=
  match o with OStr s => Ok s | _ => Err ill_typed end.
Definition as_int (o : pyobj) : result exn Z :=
  match o with OInt z => Ok z | _ => Err ill_typed end.
Definition as_list (o : pyobj) : result exn (list pyobj) :=
  match o with OList l => Ok l | _ => Err ill_typed end.
(** [tuple(pair)] of a two-element list of strings. *)
Definition as_pair (o : pyobj) : result exn (pystr * pystr) :=
  match o with OList [OStr a; OStr b] => Ok (a, b) | _ => Err ill_typed end.

(** [data\[key\]]. *)
Definition get_item (d : list (pystr * pyobj)) (k : pystr) : result exn pyobj :=
  result_of_option EKeyError (dict_get k d).
(** A required keyword argument of the constructor. *)
Definition required (d : list (pystr * pyobj)) (k : pystr) : result exn pyobj :=
  result_of_option ETypeError (dict_get k d).
Definition get_default (d : list (pystr * pyobj)) (k : pystr) (dflt : pyobj) : pyobj :=
  default dflt (dict_get k d).

Definition from_json (pid : pystr) (raw : pystr) : result exn RestorationState :=
  data ← json_loads recursion_limit raw;
  d ← match data with ODict d => Ok d | _ => Err ETypeError end;
  state_obj ← get_item d (u8 "state");
  status ← result_of_option EValueError (RestorationStateStatus_of state_obj);
  created_obj ← get_item d (u8 "created_at");
  created ← fromisoformat created_obj;
  let expires_obj := get_default d (u8 "expires_at") ONone in
  expires ← (if truthy expires_obj then t ← fromisoformat expires_obj; Ok (Some t)
             else match expires_obj with ONone => Ok None | _ => Err ill_typed end);
  pairs ← as_list (get_default d (u8 "mappings") (OList []));
  maps ← mapR as_pair pairs;
  (* cls( **data ): no unknown keyword, every required one *)
  if negb (forallb (λ k, bool_decide (k ∈ state_fields)) (d.*1)) then Err ETypeError
  else
    hash ← required d (u8 "original_hash");
    hash ← as_str hash;
    original ← required d (u8 "original_text");
    original ← as_str original;
    masked ← required d (u8 "masked_text");
    masked ← as_str masked;
    count ← as_int (get_default d (u8 "entity_count") (OInt 0));
    types ← as_list (get_default d (u8 "detected_types") (OList []));
    types ← mapR as_str types;
    consumer ← as_str (get_default d (u8 "consumer_id") (OStr []));
    Ok (mkRestorationState pid hash original masked maps count types status created expires consumer).
End State.

(** ** Dates and times survive *)

Lemma take_digits_app n m acc s rest z s' :
  take_digits n acc s = Some (z, s') → take_digits (n + m) acc (s ++ rest) = take_digits m z (s' ++ rest).
Proof.
  revert acc s. induction n as [|n IH]; intros acc s; cbn [take_digits Nat.add].
  - by intros [= -> ->].
  - destruct s as [|c s]; [done|]. cbn [app]. case_match; [|done]. apply IH.
Qed.

Lemma take_pad n acc z rest :
  0 <= z < 10 ^ Z.of_nat n → take_digits n acc (pad n z ++ rest) = Some (acc * 10 ^ Z.of_nat n + z, rest).
Proof.
  revert acc z rest. induction n as [|n IH]; intros acc z rest Hz.
  - simpl in *. do 2 f_equal. lia.
  - rewrite Nat2Z.inj_succ, Z.pow_succ_r in * by lia. cbn [pad].
    replace (S n) with (n + 1)%nat by lia. rewrite <-app_assoc.
    rewrite (take_digits_app n 1 acc (pad n (z / 10)) _ (acc * 10 ^ Z.of_nat n + z / 10) []).
    + cbn [app take_digits]. rewrite digit_ok by (pose proof (Z.mod_pos_bound z 10); lia).
      do 2 f_equal. pose proof (Z.div_mod z 10). lia.
    + rewrite <-(app_nil_r (pad n _)) at 1. apply IH.
      split; [apply Z.div_pos; lia|apply Z.div_lt_upper_bound; lia].
Qed.

Lemma take_pad0 n z rest :
  0 <= z < 10 ^ Z.of_nat n → take_digits n 0 (pad n z ++ rest) = Some (z, rest).
Proof. intros Hz. by rewrite take_pad. Qed.

(** What may follow a time without microseconds. *)
Definition no_dot (rest : pystr) : Prop := match rest with c :: _ => c ≠ 46 | [] => True end.

Lemma take_micro_suffix us rest :
  0 <= us <= 999999 → no_dot rest → take_micro (micro_suffix us ++ rest) = Some (us, rest).
Proof.
  intros Hus Hr. unfold micro_suffix. destruct (Z.eqb_spec us 0) as [->|Hne].
  - destruct rest as [|c rest]; [done|]. simpl in *. by rewrite (proj2 (Z.eqb_neq c 46)).
  - cbn [app take_micro]. change (46 =? 46) with true. cbv iota. apply take_pad0. simpl. lia.
Qed.

Lemma read_format_offset o :
  valid_offset o = true →
  ∃ c r, format_offset o = c :: r ∧ (c = 43 ∧ 0 <= o ∨ c = 45 ∧ o < 0) ∧ read_offset r = Some (Z.abs o).
Proof.
  unfold valid_offset. intros Ho%Z.ltb_lt. unfold format_offset. set (a := Z.abs o) in *.
  assert (0 <= a) by lia. clearbody a.
  set (s := a / 1000000). set (us := a mod 1000000).
  assert (Hs : 0 <= s < 86400) by (unfold s; Z.div_mod_to_equations; lia).
  assert (Hus : 0 <= us <= 999999) by (unfold us; Z.div_mod_to_equations; lia).
  assert (Ha : a = s * 1000000 + us) by (unfold s, us; Z.div_mod_to_equations; lia). clearbody s us.
  exists (if o <? 0 then 45 else 43). eexists. split; [reflexivity|].
  split; [destruct (Z.ltb_spec o 0); [right|left]; lia|].
  unfold read_offset. rewrite take_pad0 by (simpl; Z.div_mod_to_equations; lia).
  cbn [mbind option_bind app expect]. change (58 =? 58) with true. cbv iota. cbn [mbind option_bind].
  rewrite take_pad0 by (simpl; Z.div_mod_to_equations; lia). cbn [mbind option_bind].
  destruct ((s mod 60 =? 0) && (us =? 0)) eqn:Hz.
  - apply andb_true_iff in Hz as [Hz1%Z.eqb_eq Hz2%Z.eqb_eq]. cbn [mbind option_bind take_micro].
    f_equal. Z.div_mod_to_equations. lia.
  - change (58 =? 58) with true. cbv iota.
    rewrite take_pad0 by (simpl; Z.div_mod_to_equations; lia). cbn [mbind option_bind].
    rewrite <-(app_nil_r (micro_suffix us)), take_micro_suffix by done. cbn [mbind option_bind].
    f_equal. Z.div_mod_to_equations. lia.
Qed.

Lemma valid_datetime_spec t :
  valid_datetime t = true →
  valid_date (d_year (dt_date t)) (d_month (dt_date t)) (d_day (dt_date t)) = true ∧
  0 <= dt_hour t <= 23 ∧ 0 <= dt_minute t <= 59 ∧ 0 <= dt_second t <= 59 ∧
  0 <= dt_micro t <= 999999 ∧ (∀ o, dt_offset t = Some o → valid_offset o = true).
Proof.
  unfold valid_datetime. rewrite !andb_true_iff, !Z.leb_le. intros [[[[[[[[[Hd ?] ?] ?] ?] ?] ?] ?] ?] Ho].
  split_and!; try done. intros o Heq. by rewrite Heq in Ho.
Qed.

Lemma iso_extended_isoformat t :
  valid_datetime t = true → iso_extended (isoformat t) = Some (Ok t).
Proof.
  intros Hv. destruct (valid_datetime_spec t Hv) as (Hd & Hh & Hm & Hs & Hus & Ho).
  destruct (valid_date_bounds _ _ _ Hd) as (Hy & Hmo & Hda).
  unfold iso_extended, isoformat.
  rewrite take_pad0 by (simpl; lia). cbn [mbind option_bind app expect Z.eqb Pos.eqb].
  rewrite take_pad0 by (simpl; lia). cbn [mbind option_bind app expect Z.eqb Pos.eqb].
  rewrite take_pad0 by (simpl; lia). cbn [mbind option_bind app expect Z.eqb Pos.eqb].
  rewrite take_pad0 by (simpl; lia). cbn [mbind option_bind app expect Z.eqb Pos.eqb].
  rewrite take_pad0 by (simpl; lia). cbn [mbind option_bind app expect Z.eqb Pos.eqb].
  rewrite take_pad0 by (simpl; lia). cbn [mbind option_bind].
  assert (Hzone : read_zone (match dt_offset t with Some o => format_offset o | None => [] end)
                  = Some (dt_offset t) ∧
                  no_dot (match dt_offset t with Some o => format_offset o | None => [] end)).
  { destruct (dt_offset t) as [o|]; [|done].
    destruct (read_format_offset o (Ho o eq_refl)) as (c & r & -> & Hc & Hr).
    simpl. rewrite Hr. destruct Hc as [[-> ?]|[-> ?]]; simpl; split; try done; do 3 f_equal; lia. }
  destruct Hzone as [Hzone Hdot]. rewrite take_micro_suffix by done. cbn [mbind option_bind].
  rewrite Hzone. cbn [mbind option_bind]. destruct t as [[y m d] hh mm ss us zone]. simpl in *.
  by rewrite Hv.
Qed.

(** ** States survive *)

Section RoundTrip.
Context `{I : Interpreter}.

Lemma fromisoformat_isoformat t :
  valid_datetime t = true → fromisoformat (OStr (isoformat t)) = Ok t.
Proof. intros Hv. unfold fromisoformat. by rewrite iso_extended_isoformat. Qed.

(** States [to_json] and back: texts UTF-8 can encode, valid times. *)
Record storable (st : RestorationState) : Prop := {
  st_id : Forall scalar (payload_id st);
  st_hash : Forall scalar (original_hash st);
  st_original : Forall scalar (original_text st);
  st_masked : Forall scalar (masked_text st);
  st_mappings : Forall (λ p, Forall scalar (p.1) ∧ Forall scalar (p.2)) (mappings st);
  st_count : Z.abs (entity_count st) < int_limit;
  st_types : Forall (Forall scalar) (detected_types st);
  st_created : valid_datetime (created_at st) = true;
  st_expires : ∀ t, expires_at st = Some t → valid_datetime t = true;
  st_consumer : Forall scalar (consumer_id st)
}.

Lemma pad_scalar n z : Forall scalar (pad n z).
Proof.
  revert z. induction n as [|n IH]; intros z; [constructor|]. cbn [pad]. apply Forall_app. split; [done|].
  constructor; [|constructor]. pose proof (Z.mod_pos_bound z 10).
  unfold scalar, is_code_point, is_surrogate. rewrite andb_true_iff, andb_false_iff, !Z.leb_le, !Z.leb_gt. lia.
Qed.

Lemma ascii_scalar c : 0 <= c < 128 → scalar c.
Proof.
  intros. unfold scalar, is_code_point, is_surrogate.
  rewrite andb_true_iff, andb_false_iff, !Z.leb_le, !Z.leb_gt. lia.
Qed.

Lemma micro_suffix_scalar us : Forall scalar (micro_suffix us).
Proof.
  unfold micro_suffix. case_match; [constructor|]. constructor; [by apply ascii_scalar|]. apply pad_scalar.
Qed.

Lemma isoformat_scalar t : Forall scalar (isoformat t).
Proof.
  assert (Hc : ∀ c, 0 <= c < 128 → Forall scalar [c]) by (intros; constructor; [by apply ascii_scalar|constructor]).
  unfold isoformat. rewrite !Forall_app.
  split_and!; try apply pad_scalar; try apply micro_suffix_scalar; try (apply Hc; lia).
  destruct (dt_offset t) as [o|]; [|constructor]. unfold format_offset. constructor.
  { apply ascii_scalar. case_match; lia. }
  rewrite !Forall_app. split_and!; try apply pad_scalar; [apply Hc; lia|].
  case_match; [constructor|]. constructor; [by apply ascii_scalar|]. apply Forall_app.
  split; [apply pad_scalar|apply micro_suffix_scalar].
Qed.

Lemma literal_scalar s : forallb (λ c, is_code_point c && negb (is_surrogate c)) s = true → Forall scalar s.
Proof.
  intros Hs. rewrite forallb_forall in Hs. apply Forall_forall. intros c Hc%list_elem_of_In.
  apply Hs, andb_true_iff in Hc as [? ?%negb_true_iff]. done.
Qed.

Lemma status_value_scalar s : Forall scalar (status_value s).
Proof. apply literal_scalar. by destruct s. Qed.

Lemma state_dict_serializable st : storable st → serializable (ODict (state_dict st)).
Proof.
  intros []. constructor.
  - apply (bool_decide_eq_true_1 _). vm_compute. reflexivity.
  - unfold state_dict.
    repeat first [apply Forall_nil_2 | apply Forall_cons_2]; (split; [by apply literal_scalar|]); cbn [snd].
    all: try (by constructor).
    + constructor. rewrite Forall_fmap. eapply Forall_impl; [exact st_mappings0|].
      intros [a b] [Ha Hb]. simpl in *. constructor. by repeat constructor.
    + constructor. rewrite Forall_fmap. eapply Forall_impl; [exact st_types0|].
      intros t Ht. simpl. by constructor.
    + constructor. apply status_value_scalar.
    + constructor. apply isoformat_scalar.
    + destruct (expires_at st); constructor. apply isoformat_scalar.
Qed.

Lemma max_list_bound (l : list nat) n : Forall (λ m, m <= n)%nat l → (max_list l <= n)%nat.
Proof. induction 1; simpl; lia. Qed.

Lemma state_dict_depth st : (depth (ODict (state_dict st)) <= 3)%nat.
Proof.
  assert (Hm : (max_list (depth <$> ((λ p : pystr * pystr, OList [OStr (p.1); OStr (p.2)]) <$> mappings st)) <= 1)%nat).
  { apply max_list_bound. rewrite !Forall_fmap. apply Forall_forall. intros ? _. simpl. lia. }
  assert (Ht : (max_list (depth <$> (OStr <$> detected_types st)) <= 0)%nat).
  { apply max_list_bound. rewrite !Forall_fmap. apply Forall_forall. intros ? _. simpl. lia. }
  cbn -[u8] in *. destruct (expires_at st); cbn -[u8]; lia.
Qed.

Lemma mapR_as_pair l : mapR as_pair ((λ p : pystr * pystr, OList [OStr (p.1); OStr (p.2)]) <$> l) = Ok l.
Proof. induction l as [|[a b] l IH]; [done|]. rewrite fmap_cons. cbn. by rewrite IH. Qed.

Lemma mapR_as_str l : mapR as_str (OStr <$> l) = Ok l.
Proof. induction l as [|a l IH]; [done|]. rewrite fmap_cons. cbn. by rewrite IH. Qed.

(** Replacing the id: [from_json] takes it from its argument. *)
Definition with_id (pid : pystr) (st : RestorationState) : RestorationState :=
  mkRestorationState pid (original_hash st) (original_text st) (masked_text st) (mappings st)
    (entity_count st) (detected_types st) (state st) (created_at st) (expires_at st) (consumer_id st).

Lemma isoformat_nonempty t : isoformat t ≠ [].
Proof.
  intros H%(f_equal length). unfold isoformat in H. cbn [pad] in H.
  rewrite !length_app in H. simpl in H. lia.
Qed.

Lemma from_json_to_json st pid :
  storable st → ∃ s, to_json st = Ok s ∧ from_json pid s = Ok (with_id pid st).
Proof.
  intros Hst. unfold to_json.
  destruct (dumps_total _ (state_dict_serializable st Hst)) as (s & Hs). exists s. rewrite Hs. split; [done|].
  assert (Hloads : json_loads recursion_limit s = Ok (ODict (state_dict st))).
  { destruct (json_reads_back (ODict (state_dict st)) recursion_limit) as (s' & Hs' & Hl).
    - by apply state_dict_serializable.
    - pose proof (state_dict_depth st). pose proof recursion_limit_ok. lia.
    - congruence. }
  unfold from_json. rewrite Hloads. cbn [mbind result_bind].
  assert (Hget : ∀ k o, dict_get k (state_dict st) = Some o → get_item (state_dict st) k = Ok o ∧
    required (state_dict st) k = Ok o ∧ (∀ dflt, get_default (state_dict st) k dflt = o))
    by (intros k o Hk; unfold get_item, required, get_default; by rewrite Hk).
  destruct (Hget (u8 "state") (OStr (status_value (state st))) eq_refl) as (-> & _).
  destruct (Hget (u8 "created_at") (OStr (isoformat (created_at st))) eq_refl) as (-> & _).
  cbn [mbind result_bind]. rewrite RestorationStateStatus_of_value.
  cbn [result_of_option mbind result_bind]. rewrite fromisoformat_isoformat by apply Hst.
  cbn [mbind result_bind]. cbv zeta.
  destruct (Hget (u8 "expires_at") (match expires_at st with Some t => OStr (isoformat t) | None => ONone end)
    eq_refl) as (_ & _ & ->).
  assert ((if truthy (match expires_at st with Some t => OStr (isoformat t) | None => ONone end)
     then t ← fromisoformat (match expires_at st with Some t => OStr (isoformat t) | None => ONone end); Ok (Some t)
     else match (match expires_at st with Some t => OStr (isoformat t) | None => ONone end) with
          | ONone => Ok None | _ => Err ill_typed end) = Ok (expires_at st)) as ->.
  { destruct (expires_at st) as [t|] eqn:Ht; [|done].
    cbn [truthy]. rewrite bool_decide_eq_false_2 by apply isoformat_nonempty. cbn [negb].
    rewrite fromisoformat_isoformat; [done|]. by apply (st_expires st Hst). }
  cbn [mbind result_bind].
  destruct (Hget (u8 "mappings") (OList ((λ p : pystr * pystr, OList [OStr (p.1); OStr (p.2)]) <$> mappings st))
    eq_refl) as (_ & _ & ->).
  cbn [as_list mbind result_bind]. rewrite mapR_as_pair. cbn [mbind result_bind].
  change (negb (forallb _ _)) with false. cbv iota.
  destruct (Hget (u8 "original_hash") (OStr (original_hash st)) eq_refl) as (_ & -> & _).
  destruct (Hget (u8 "original_text") (OStr (original_text st)) eq_refl) as (_ & -> & _).
  destruct (Hget (u8 "masked_text") (OStr (masked_text st)) eq_refl) as (_ & -> & _).
  destruct (Hget (u8 "entity_count") (OInt (entity_count st)) eq_refl) as (_ & _ & ->).
  destruct (Hget (u8 "detected_types") (OList (OStr <$> detected_types st)) eq_refl) as (_ & _ & ->).
  destruct (Hget (u8 "consumer_id") (OStr (consumer_id st)) eq_refl) as (_ & _ & ->).
  cbn [as_str as_int as_list mbind result_bind]. by rewrite mapR_as_str.
Qed.
End RoundTrip.

(** ** Property *)

(** C22: a state survives storage: [to_json] of every state whose texts UTF-8
    can encode and whose times are valid succeeds with text that UTF-8
    encodes and decodes back, and [from_json] of it is the same state under
    the id it is read with (mappings as pairs, times to the microsecond). *)
Theorem state_json_roundtrip `{I : Interpreter} (st : RestorationState) (pid : pystr) :
  storable st →
  ∃ s bs, to_json st = Ok s ∧ utf8_encode s = Ok bs ∧ utf8_decode bs = Ok s ∧
    from_json pid s = Ok (with_id pid st).
Proof.
  intros Hst. destruct (from_json_to_json st pid Hst) as (s & Hs & Hf).
  apply result_of_option_Ok in Hs as Hd. exists s.
  destruct (json_dumps_utf8 _ _ Hd) as (bs & He & Hb). by exists bs.
Qed.

(** ** Witness *)

Definition plain_interpreter : Interpreter :=
  {| iso_other := λ _, Err EValueError; recursion_limit := 1000; recursion_limit_ok := ltac:(lia) |}.

Definition sample_time : datetime :=
  mkDatetime (mkDate 2025 5 10) 12 30 59 987654 (Some 0).
Definition sample_state : RestorationState :=
  mkRestorationState (u8 "k") (u8 "00ff") (u8 "Клиент Иванов") (u8 "Клиент ******")
    [(u8 "******", u8 "Иванов")] 1 [u8 "PERSON_NAME"] MASKED sample_time None (u8 "default").

Example sample_time_iso : isoformat sample_time = u8 "2025-05-10T12:30:59.987654+00:00".
Proof. vm_compute. reflexivity. Qed.

Lemma sample_storable : storable sample_state.
Proof.
  split; simpl; try (apply literal_scalar; vm_compute; reflexivity); try done.
  - repeat first [apply Forall_nil_2 | apply Forall_cons_2].
    split; apply literal_scalar; vm_compute; reflexivity.
  - apply Forall_cons_2; [apply literal_scalar; vm_compute; reflexivity|apply Forall_nil_2].
Qed.

Lemma state_json_roundtrip_witness :
  ∃ s bs, @to_json sample_state = Ok s ∧ utf8_encode s = Ok bs ∧ utf8_decode bs = Ok s ∧
    @from_json plain_interpreter (u8 "key") s = Ok (with_id (u8 "key") sample_state).
Proof. exact (@state_json_roundtrip plain_interpreter sample_state (u8 "key") sample_storable). Defined.
