(* ===== verification/World.v ===== *)
(** * The outside world

    What the services read from their surroundings: clocks, the random
    tokens, and [cryptography.fernet]; and the logger they write to.  [World]
    collects the effects, each a function of a world state; [WorldLaws] is
    what their documentation says and the theorems use; [tick_world] is a
    concrete world for evaluation.  Every world becomes one that keeps the log
    ([logged_world], the world of the HTTP service). *)

From S2P Require Import Prelude Domain PyStr Utf8 Hashes Logging Strategies Validators Restoration Metrics.

Class World (W : Type) := {
  world_today :: Calendar W;
  world_token :: TokenSource W;
  world_perf :: PerfCounter W;
  world_logger :: Logger W;
  monotonic : W → Z * W;                    (* time.monotonic(), in ticks *)
  utc_now : W → datetime * W;               (* datetime.now(UTC) *)
  fernet_encrypt : bytes → W → bytes * W;   (* Fernet(key).encrypt: time and IV *)
  fernet_decrypt : bytes → result exn bytes (* Fernet(key).decrypt *)
}.

(** [clock w] is the ghost time up to which readings have been taken. *)
Class WorldLaws (W : Type) `{!World W} := {
  clock : W → Z;
  monotonic_after w : clock w <= (monotonic w).1;
  monotonic_clock w : (monotonic w).1 <= clock (monotonic w).2;
  today_clock w : clock w <= clock (date_today w).2;
  token_clock n w : clock w <= clock (token_hex n w).2;
  perf_clock w : clock w <= clock (perf_counter w).2;
  utc_clock w : clock w <= clock (utc_now w).2;
  encrypt_clock b w : clock w <= clock (fernet_encrypt b w).2;
  emit_clock r w : clock w <= clock (emit r w);
  utc_now_valid w : valid_datetime (utc_now w).1 = true;
  token_ascii n w : Forall (λ c, 0 <= c < 128) (token_hex n w).1;
  fernet_correct b w : fernet_decrypt (fernet_encrypt b w).1 = Ok b;
  fernet_ascii b w : Forall is_byte b → Forall (λ c, 0 <= c < 128) (fernet_encrypt b w).1
}.

(** A world with the log and the context variable beside it. *)
#[export] Instance logged_world {V} `{!World V} : World (Logged V) | 50 := {|
  world_today := outer (V := V) date_today;
  world_token := λ n, outer (V := V) (token_hex n);
  world_perf := outer (V := V) perf_counter;
  world_logger := logged_logger;
  monotonic := outer (V := V) monotonic;
  utc_now := outer (V := V) utc_now;
  fernet_encrypt := λ b, outer (V := V) (fernet_encrypt b);
  fernet_decrypt := fernet_decrypt (W := V)
|}.

Lemma outer_fst {V A} (f : V → A * V) (w : Logged V) : (outer f w).1 = (f (outside w)).1.
Proof. unfold outer. by destruct (f (outside w)). Qed.
Lemma outer_outside {V A} (f : V → A * V) (w : Logged V) : outside (outer f w).2 = (f (outside w)).2.
Proof. unfold outer. by destruct (f (outside w)). Qed.

#[export] Program Instance logged_world_laws {V} `{!World V, !WorldLaws V} : WorldLaws (Logged V) | 50 :=
  {| clock := λ w, clock (outside w) |}.
Next Obligation. intros V ? ? w. simpl. rewrite outer_fst. apply monotonic_after. Qed.
Next Obligation. intros V ? ? w. simpl. rewrite outer_fst, outer_outside. apply monotonic_clock. Qed.
Next Obligation. intros V ? ? w. cbn. rewrite outer_outside. apply today_clock. Qed.
Next Obligation. intros V ? ? n w. cbn. rewrite outer_outside. apply token_clock. Qed.
Next Obligation. intros V ? ? w. cbn. rewrite outer_outside. apply perf_clock. Qed.
Next Obligation. intros V ? ? w. simpl. rewrite outer_outside. apply utc_clock. Qed.
Next Obligation. intros V ? ? b w. simpl. rewrite outer_outside. apply encrypt_clock. Qed.
Next Obligation. intros V ? ? r w. apply Z.le_refl. Qed.
Next Obligation. intros V ? ? w. simpl. rewrite outer_fst. apply utc_now_valid. Qed.
Next Obligation. intros V ? ? n w. cbn. rewrite outer_fst. apply token_ascii. Qed.
Next Obligation. intros V ? ? b w. simpl. rewrite outer_fst. apply fernet_correct. Qed.
Next Obligation. intros V ? ? b w Hb. simpl. rewrite outer_fst. by apply fernet_ascii. Qed.

Section Lifts.
Context {W : Type} `{!World W}.

Definition read_monotonic : stateM W exn Z := λ w, let '(t, w) := monotonic w in (Ok t, w).
Definition read_utc_now : stateM W exn datetime := λ w, let '(t, w) := utc_now w in (Ok t, w).
Definition encrypt (b : bytes) : stateM W exn bytes := λ w,
  let '(c, w) := fernet_encrypt b w in (Ok c, w).
End Lifts.

(** ** Time does not go back *)

Section Forward.
Context {W : Type} `{!World W, !WorldLaws W}.

(** Running [m] from any world leads to a later one. *)
Definition forward {A} (m : stateM W exn A) : Prop := ∀ w, clock w <= clock (m w).2.

Lemma forward_ret {A} (a : A) : forward (sret a).
Proof. intros w. simpl. lia. Qed.
Lemma forward_lift {A} (r : result exn A) : forward (slift r).
Proof. intros w. simpl. lia. Qed.
Lemma forward_bind {A B} (m : stateM W exn A) (k : A → stateM W exn B) :
  forward m → (∀ a, forward (k a)) → forward (sbind m k).
Proof.
  intros Hm Hk w. unfold sbind. specialize (Hm w). destruct (m w) as [[a|e] w1]; simpl in *; [|done].
  specialize (Hk a w1). lia.
Qed.
Lemma forward_monotonic : forward read_monotonic.
Proof.
  intros w. unfold read_monotonic. pose proof (monotonic_after w). pose proof (monotonic_clock w).
  destruct (monotonic w). simpl in *. lia.
Qed.
Lemma forward_utc_now : forward read_utc_now.
Proof. intros w. unfold read_utc_now. pose proof (utc_clock w). by destruct (utc_now w). Qed.
Lemma forward_encrypt b : forward (encrypt b).
Proof. intros w. unfold encrypt. pose proof (encrypt_clock b w). by destruct (fernet_encrypt b w). Qed.
Lemma forward_timed {A} (m : stateM W exn A) : forward m → forward (timed m).
Proof.
  intros Hm w. unfold timed. pose proof (perf_clock w). destruct (perf_counter w) as [q w1]. simpl in *.
  specialize (Hm w1). destruct (m w1) as [[a|e] w2]; simpl in *;
    pose proof (perf_clock w2); destruct (perf_counter w2); simpl in *; lia.
Qed.
End Forward.

#[export] Hint Resolve forward_ret forward_lift forward_monotonic forward_utc_now forward_encrypt
  forward_timed : forward.

(** Walks down a computation written with [<--]. *)
Ltac go_forward :=
  repeat (eauto 2 with forward; first [apply forward_bind | case_match | progress intros]); eauto 2 with forward.

Lemma emit_all_clock {W} `{!World W, !WorldLaws W} rs (w : W) : clock w <= clock (emit_all rs w).
Proof.
  unfold emit_all. revert w. induction rs as [|r rs IH]; intros w; cbn [fold_left]; [lia|].
  pose proof (emit_clock r w). specialize (IH (emit r w)). lia.
Qed.

(** ** A world for evaluation *)

Lemma forallb_bytes b : forallb (λ x, (0 <=? x) && (x <? 256)) b = true ↔ Forall is_byte b.
Proof.
  rewrite forallb_forall, Forall_forall. unfold is_byte.
  split; intros Hb x Hx; specialize (Hb x); rewrite list_elem_of_In in *; specialize (Hb Hx); lia.
Qed.

(** Cipher texts of the concrete world: hexadecimal behind a marker. *)
Definition seal (b : bytes) : bytes :=
  if forallb (λ x, (0 <=? x) && (x <? 256)) b then 103 :: hex b else 128 :: b.
Definition unseal (c : bytes) : result exn bytes :=
  match c with
  | m :: b => if m =? 103 then Ok (unhex b) else if m =? 128 then Ok b else Err (EOther (u8 "InvalidToken"))
  | [] => Err (EOther (u8 "InvalidToken"))
  end.

Lemma unseal_seal b : unseal (seal b) = Ok b.
Proof.
  unfold seal. destruct (forallb _ b) eqn:Hb; [|done]. apply forallb_bytes in Hb.
  change (Ok (E := exn) (unhex (hex b)) = Ok b). by rewrite unhex_hex.
Qed.

Lemma seal_ascii b : Forall is_byte b → Forall (λ c, 0 <= c < 128) (seal b).
Proof.
  intros Hb. unfold seal. rewrite (proj2 (forallb_bytes b) Hb). constructor; [lia|]. by apply hex_ascii.
Qed.

(** The state counts the effects; every clock shows it; cipher
    texts are sealed in hexadecimal. *)
#[export] Instance tick_world : World Z := {|
  world_today := λ w, (mkDate 2025 5 10, w);
  world_token := λ n w, (replicate (Z.to_nat (2 * n)) (97 + w mod 6), w + 1);
  world_perf := λ w, (inject_Z w, w + 1);
  world_logger := quiet_logger;
  monotonic := λ w, (w, w + 1);
  utc_now := λ w, (mkDatetime (mkDate 2025 5 10) 12 30 59 987654 (Some 0), w + 1);
  fernet_encrypt := λ b w, (seal b, w + 1);
  fernet_decrypt := unseal
|}.

#[export] Program Instance tick_world_laws : WorldLaws Z := {| clock := λ w, w |}.
Next Obligation. intros w. simpl. lia. Qed.
Next Obligation. intros w. simpl. lia. Qed.
Next Obligation. intros w. cbn. lia. Qed.
Next Obligation. intros n w. cbn. lia. Qed.
Next Obligation. intros w. cbn. lia. Qed.
Next Obligation. intros w. simpl. lia. Qed.
Next Obligation. intros b w. simpl. lia. Qed.
Next Obligation. intros r w. apply Z.le_refl. Qed.
Next Obligation. intros w. vm_compute. reflexivity. Qed.
Next Obligation.
  intros n w. cbn. apply Forall_replicate. pose proof (Z.mod_pos_bound w 6). lia.
Qed.
Next Obligation. intros b w. apply unseal_seal. Qed.
Next Obligation. intros b w. apply seal_ascii. Qed.
