(* ===== verification/StoreInterface.v ===== *)
(** * The restoration store interface ([app/restoration/base.py])

    [RestorationStore] is what the process service is written against: the
    operations, and as [StoreLaws] what each of them does to the states a
    later reader finds. *)

From S2P Require Import Prelude Domain PyStr Restoration World.

(** A transition function: the callback may read the world and may raise. *)
Definition transition_fn (W : Type) : Type := option RestorationState → stateM W exn (option RestorationState).

Abbreviation key := pystr.

(** ** The interface *)

Class RestorationStore (S W : Type) := {
  store_get : key → stateM (S * W) exn (option RestorationState);
  store_transition : key → transition_fn W → stateM (S * W) exn (option RestorationState)
}.

(** [live s t k]: the state a reader at time [t] finds under [k].  [s'] agrees
    with [s] from [t] on when every later reader finds the same. *)
Definition agree_from {S} (live : S → Z → key → option RestorationState) (t : Z) (s s' : S) : Prop :=
  ∀ t' k, t <= t' → live s' t' k = live s t' k.

(** After a successful transition of [k] at time [t]: later readers find the
    new state until it expires, and what they would have found elsewhere. *)
Definition written {S} (live : S → Z → key → option RestorationState) (ttl : Z) (t : Z) (k : key)
    (st : RestorationState) (s s' : S) : Prop :=
  ∀ t' k', t <= t' →
    live s' t' k' = if decide (k' = k) then (if t' <? t + ttl then Some (with_id k st) else None)
                    else live s t' k'.

Definition removed {S} (live : S → Z → key → option RestorationState) (t : Z) (k : key) (s s' : S) : Prop :=
  ∀ t' k', t <= t' → live s' t' k' = if decide (k' = k) then None else live s t' k'.

(** What an implementation promises.  Expiry is the only way a state
    disappears; a transition hands its callback the live state, keeps the
    callback's exception and changes nothing then, and otherwise stores the
    state the callback returned, or is overloaded, which happens to keys
    without a live state only. *)
Class StoreLaws (S W : Type) `{!World W, !WorldLaws W, !RestorationStore S W} := {
  store_ok : S → W → Prop;
  live : S → Z → key → option RestorationState;
  store_ttl : Z;
  store_ok_later s w w' : store_ok s w → clock w <= clock w' → store_ok s w';
  live_expires s t t' k st : t <= t' → live s t' k = Some st → live s t k = Some st;
  live_horizon s w t k st : store_ok s w → live s t k = Some st → t < clock w + store_ttl;
  store_get_law : ∀ k s w, store_ok s w →
    ∃ t s' w', store_get k (s, w) = (Ok (live s t k), (s', w')) ∧
      clock w <= t ∧ t <= clock w' ∧ store_ok s' w' ∧ agree_from live t s s';
  store_transition_law : ∀ k fn s w, store_ok s w → (∀ c, forward (fn c)) →
    ∃ t w1, clock w <= t ∧ t <= clock w1 ∧
      match fn (live s t k) w1 with
      | (Err e, w2) =>
          ∃ s', store_transition k fn (s, w) = (Err e, (s', w2)) ∧ store_ok s' w2 ∧ agree_from live t s s'
      | (Ok None, w2) =>
          ∃ s', store_transition k fn (s, w) = (Ok None, (s', w2)) ∧ store_ok s' w2 ∧ removed live t k s s'
      | (Ok (Some st), w2) =>
          storable st →
          (∃ s' e, store_transition k fn (s, w) = (Err (ServiceOverloadedError e 1), (s', w2)) ∧
             live s t k = None ∧ store_ok s' w2 ∧ agree_from live t s s') ∨
          (∃ t2 s' w3, store_transition k fn (s, w) = (Ok (Some st), (s', w3)) ∧
             clock w2 <= t2 ∧ t2 <= clock w3 ∧ store_ok s' w3 ∧ written live store_ttl t2 k st s s')
      end
}.

(** ** Agreement *)

Lemma agree_refl {S} (live : S → Z → key → option RestorationState) t s : agree_from live t s s.
Proof. done. Qed.

Lemma agree_weaken {S} (live : S → Z → key → option RestorationState) t t' s s' :
  t <= t' → agree_from live t s s' → agree_from live t' s s'.
Proof. intros Ht H u k Hu. apply H. lia. Qed.

Lemma agree_trans {S} (live : S → Z → key → option RestorationState) t t' s1 s2 s3 :
  t <= t' → agree_from live t s1 s2 → agree_from live t' s2 s3 → agree_from live t' s1 s3.
Proof. intros Ht H1 H2 u k Hu. rewrite H2 by done. apply H1. lia. Qed.
