(* ===== verification/MemoryStore.v ===== *)
(** * In-memory restoration store ([app/restoration/memory.py])

    [InMemoryRestorationStore], operation by operation, on the [OrderedDict]
    of expiry times and cipher texts, shown to implement the interface of
    [StoreInterface]; its own invariant is that entries are in expiry order,
    distinct, decodable and within capacity. *)

From S2P Require Import Prelude Unicode Domain PyStr Utf8 Json Restoration World StoreInterface.

(** ** The store *)

(** [self._data], in insertion order: key, expiry time, cipher text. *)
Definition store_data : Type := list (key * (Z * bytes)).

(** [self._data.move_to_end(k)]. *)
Definition move_to_end (k : key) (d : store_data) : store_data :=
  match dict_get k d with
  | Some v => dict_del k d ++ [(k, v)]
  | None => d
  end.

(** The loop of [_evict_expired_locked]. *)
Fixpoint evict (now : Z) (d : store_data) : store_data :=
  match d with
  | [] => []
  | (k, (first_exp, c)) :: rest => if now <? first_exp then d else evict now rest
  end.

Definition overloaded : exn := ServiceOverloadedError (u8 "restoration store capacity exceeded") 1.

Section Memory.
Context {W : Type} `{!World W, I : Interpreter}.
Context (ttl_seconds max_entries : Z).

(** A store method sees the data and the world. *)
Definition memM (A : Type) : Type := stateM (store_data * W) exn A.

Definition on_world {A} (m : stateM W exn A) : memM A := λ '(d, w),
  let '(r, w) := m w in (r, (d, w)).
Definition get_data : memM store_data := λ '(d, w), (Ok d, (d, w)).
Definition set_data (d : store_data) : memM unit := λ '(_, w), (Ok tt, (d, w)).

(** [self._fernet.decrypt(encrypted).decode("utf-8")], then [from_json]. *)
Definition decode (k : key) (encrypted : bytes) : result exn RestorationState :=
  plain ← fernet_decrypt encrypted;
  raw ← utf8_decode plain;
  from_json k raw.

(** [self._fernet.encrypt(state.to_json().encode("utf-8"))]. *)
Definition encode (st : RestorationState) : stateM W exn bytes :=
  plain <-- slift (json ← to_json st; utf8_encode json);
  encrypt plain.

Definition get (k : key) : memM (option RestorationState) :=
  d <-- get_data;
  match dict_get k d with
  | None => sret None
  | Some (expires_at, encrypted) =>
      now <-- on_world read_monotonic;
      if expires_at <=? now then
        _ <-- set_data (dict_del k d);
        sret None
      else
        st <-- slift (decode k encrypted);
        sret (Some st)
  end.

Definition evict_expired_locked : memM unit :=
  now <-- on_world read_monotonic;
  d <-- get_data;
  set_data (evict now d).

(** The common end of [save] and [transition]: refresh, encrypt, store. *)
Definition put (k : key) (st : RestorationState) : memM unit :=
  d <-- get_data;
  let d := if dict_mem k d then move_to_end k d else d in
  _ <-- set_data d;
  t <-- on_world read_monotonic;
  let expires_at := t + ttl_seconds in
  encrypted <-- on_world (encode st);
  set_data (dict_set k (expires_at, encrypted) d).

Definition save (k : key) (st : RestorationState) : memM unit :=
  _ <-- evict_expired_locked;
  d <-- get_data;
  if negb (dict_mem k d) && (max_entries <=? slen d) then sraise overloaded
  else put k st.

Definition delete (k : key) : memM unit :=
  d <-- get_data;
  set_data (dict_del k d).

(** The locked read at the start of [transition]. *)
Definition transition_read (k : key) : memM (option RestorationState) :=
  _ <-- evict_expired_locked;
  d <-- get_data;
  match dict_get k d with
  | None => sret None
  | Some (expires_at, encrypted) =>
      now <-- on_world read_monotonic;
      if now <? expires_at then
        st <-- slift (decode k encrypted);
        sret (Some st)
      else
        _ <-- set_data (dict_del k d);
        sret None
  end.

(** The locked write at its end. *)
Definition transition_write (k : key) (new_state : option RestorationState)
    : memM (option RestorationState) :=
  match new_state with
  | None =>
      d <-- get_data;
      _ <-- set_data (dict_del k d);
      sret None
  | Some st =>
      d <-- get_data;
      if negb (dict_mem k d) && (max_entries <=? slen d) then sraise overloaded
      else
        _ <-- put k st;
        sret (Some st)
  end.

(** [transition]: the callback runs between the two locked sections, under the
    stripe lock of the key only. *)
Definition transition (k : key) (fn : transition_fn W) : memM (option RestorationState) :=
  current <-- transition_read k;
  new_state <-- on_world (fn current);
  transition_write k new_state.
End Memory.

(** ** Facts about the data *)

Definition keys (d : store_data) : list key := d.*1.
Definition expiry (p : key * (Z * bytes)) : Z := p.2.1.

(** In expiry order. *)
Definition expiry_sorted (d : store_data) : Prop := StronglySorted (λ p q, expiry p <= expiry q) d.

Lemma dict_del_absent {K V} `{EqDecision K} (k : K) (d : list (K * V)) : k ∉ d.*1 → dict_del k d = d.
Proof.
  induction d as [|[k' v] d IH]; [done|]. rewrite fmap_cons. cbn [fst dict_del]. intros Hk.
  rewrite decide_False by set_solver. f_equal. apply IH. set_solver.
Qed.

Lemma dict_del_keys {K V} `{EqDecision K} (k : K) (d : list (K * V)) :
  NoDup d.*1 → k ∉ (dict_del k d).*1.
Proof. intros Hnd. apply dict_get_None. by apply dict_get_del_eq. Qed.

Lemma dict_set_last {K V} `{EqDecision K} (k : K) (v v' : V) (d : list (K * V)) :
  k ∉ d.*1 → dict_set k v (d ++ [(k, v')]) = d ++ [(k, v)].
Proof.
  induction d as [|[k' v''] d IH].
  - intros _. cbn [app dict_set]. by rewrite decide_True.
  - rewrite fmap_cons. cbn [fst app dict_set]. intros Hk. rewrite decide_False by set_solver.
    f_equal. apply IH. set_solver.
Qed.

Lemma dict_mem_spec {K V} `{EqDecision K} (k : K) (d : list (K * V)) :
  dict_mem k d = true ↔ k ∈ d.*1.
Proof.
  unfold dict_mem. rewrite bool_decide_eq_true. destruct (dict_get k d) as [v|] eqn:Hg.
  - split; [|by eexists]. intros _. apply dict_get_elem in Hg. by apply (list_elem_of_fmap_2 fst) in Hg.
  - apply dict_get_None in Hg. split; [by intros [? ?]|done].
Qed.

(** Refreshing and storing an entry puts it last. *)
Lemma put_list (k : key) (v : Z * bytes) (d : store_data) :
  NoDup (keys d) →
  dict_set k v (if dict_mem k d then move_to_end k d else d) = dict_del k d ++ [(k, v)].
Proof.
  intros Hnd. destruct (dict_mem k d) eqn:Hm.
  - unfold dict_mem in Hm. apply bool_decide_eq_true in Hm as [v' Hv]. unfold move_to_end. rewrite Hv.
    apply dict_set_last. by apply dict_del_keys.
  - assert (k ∉ d.*1) by (rewrite <-dict_mem_spec, Hm; done).
    rewrite dict_set_fresh by done. by rewrite dict_del_absent.
Qed.

Lemma evict_suffix now d : ∃ gone, d = gone ++ evict now d ∧ Forall (λ p, expiry p <= now) gone.
Proof.
  induction d as [|[k [e c]] d (gone & Hd & Hg)]; [by exists []|]. cbn [evict].
  destruct (Z.ltb_spec now e).
  - by exists [].
  - exists ((k, (e, c)) :: gone). split; [exact (f_equal (cons _) Hd)|by constructor].
Qed.

(** In expiry order, eviction drops exactly the expired entries. *)
Lemma evict_complete now d : expiry_sorted d → Forall (λ p, now < expiry p) (evict now d).
Proof.
  induction 1 as [|[k [e c]] d Hd IH Hle]; [constructor|]. cbn [evict].
  destruct (Z.ltb_spec now e); [|done]. constructor; [done|].
  eapply Forall_impl; [exact Hle|]. simpl. unfold expiry. simpl. lia.
Qed.

Lemma sorted_app_r {A} (R : A → A → Prop) l l' : StronglySorted R (l ++ l') → StronglySorted R l'.
Proof. induction l as [|x l IH]; [done|]. simpl. intros H. inversion_clear H. auto. Qed.

Lemma dict_del_sublist {K V} `{EqDecision K} (k : K) (d : list (K * V)) : dict_del k d `sublist_of` d.
Proof.
  induction d as [|[k' v] d IH]; simpl; [constructor|]. case_decide; [by constructor|by constructor].
Qed.

Lemma sorted_sublist {A} (R : A → A → Prop) l l' : l `sublist_of` l' → StronglySorted R l' → StronglySorted R l.
Proof.
  induction 1 as [|x l l' Hl IH|x l l' Hl IH]; intros Hs; [constructor|..]; inversion_clear Hs as [|?? Hs' Hx].
  - constructor; [by apply IH|]. rewrite Forall_forall in Hx |- *. intros y Hy. apply Hx.
    by eapply elem_of_sublist.
  - by apply IH.
Qed.

Section MemoryFacts.
Context {W : Type} `{!World W, !WorldLaws W, I : Interpreter}.
Context (ttl_seconds max_entries : Z).

Definition decodable (p : key * (Z * bytes)) : Prop := is_ok (decode (p.1) (p.2.2)) = true.

(** The invariant: distinct keys, entries in expiry order and decodable, no
    expiry beyond one lifetime from now, size within capacity. *)
Record mem_ok (d : store_data) (w : W) : Prop := {
  mem_nodup : NoDup (keys d);
  mem_sorted : expiry_sorted d;
  mem_decodable : Forall decodable d;
  mem_horizon : Forall (λ p, expiry p <= clock w + ttl_seconds) d;
  mem_capacity : slen d <= Z.max 0 max_entries
}.

Definition mem_live (d : store_data) (t : Z) (k : key) : option RestorationState :=
  match dict_get k d with
  | Some (expires_at, c) =>
      if t <? expires_at then match decode k c with Ok st => Some st | Err _ => None end else None
  | None => None
  end.

Lemma mem_ok_later d w w' : mem_ok d w → clock w <= clock w' → mem_ok d w'.
Proof.
  intros [] Hle. constructor; try done. eapply Forall_impl; [exact mem_horizon0|]. simpl. lia.
Qed.

Lemma mem_ok_sublist d d' w : d' `sublist_of` d → mem_ok d w → mem_ok d' w.
Proof.
  intros Hsub []. constructor.
  - eapply sublist_NoDup; [done|]. by apply (fmap_sublist fst).
  - by eapply sorted_sublist.
  - apply Forall_forall. intros p Hp. rewrite Forall_forall in mem_decodable0.
    by eapply mem_decodable0, elem_of_sublist.
  - apply Forall_forall. intros p Hp. rewrite Forall_forall in mem_horizon0.
    by eapply mem_horizon0, elem_of_sublist.
  - apply sublist_length in Hsub. unfold slen in *. lia.
Qed.

Lemma mem_ok_evict now d w : mem_ok d w → mem_ok (evict now d) w.
Proof.
  apply mem_ok_sublist. destruct (evict_suffix now d) as (gone & Hd & _).
  rewrite Hd at 2. by apply sublist_inserts_l.
Qed.

Lemma evict_agrees now d : NoDup (keys d) → agree_from mem_live now d (evict now d).
Proof.
  intros Hnd t k Ht. unfold mem_live. destruct (evict_suffix now d) as (gone & Hd & Hg).
  set (rest := evict now d) in *. clearbody rest. subst d.
  unfold keys in Hnd. rewrite fmap_app in Hnd. apply NoDup_app in Hnd as (_ & Hdisj & _).
  induction gone as [|[k1 [e c]] gone IH]; [done|].
  apply Forall_cons in Hg as [He Hg]. cbn [app dict_get]. destruct (decide (k = k1)) as [->|Hk].
  - assert (k1 ∉ rest.*1) as Hn by (apply Hdisj; set_solver).
    apply dict_get_None in Hn. rewrite Hn. unfold expiry in He. simpl in He.
    by rewrite (proj2 (Z.ltb_ge _ _)) by lia.
  - apply IH; try done. intros x Hx. apply Hdisj. set_solver.
Qed.

Lemma del_agrees now k d e c :
  NoDup (keys d) → dict_get k d = Some (e, c) → e <= now → agree_from mem_live now d (dict_del k d).
Proof.
  intros Hnd Hg He t k' Ht. unfold mem_live. destruct (decide (k' = k)) as [->|Hk].
  - rewrite dict_get_del_eq by done. by rewrite Hg, (proj2 (Z.ltb_ge _ _)) by lia.
  - by rewrite dict_get_del_ne.
Qed.

Lemma decode_entry d w k e c :
  mem_ok d w → dict_get k d = Some (e, c) → ∃ st, decode k c = Ok st.
Proof.
  intros Hok Hg. apply dict_get_elem in Hg. destruct Hok as [_ _ Hdec _ _].
  rewrite Forall_forall in Hdec. specialize (Hdec _ Hg). unfold decodable in Hdec. simpl in Hdec.
  destruct (decode k c); [by eexists|done].
Qed.

(** What [put] stores decodes to the state it was given. *)
Lemma encode_decode k st w :
  storable st → ∃ c w', encode st w = (Ok c, w') ∧ decode k c = Ok (with_id k st) ∧ clock w <= clock w'.
Proof.
  intros Hst. destruct (from_json_to_json st k Hst) as (s & Hs & Hf).
  apply result_of_option_Ok in Hs as Hd. destruct (json_dumps_utf8 _ _ Hd) as (bs & He & Hb).
  unfold encode, sbind, slift. rewrite Hs. cbn [mbind result_bind]. rewrite He. unfold encrypt.
  pose proof (encrypt_clock bs w) as Hc. pose proof (fernet_correct bs w) as Hdec.
  destruct (fernet_encrypt bs w) as [c w'] eqn:Henc. simpl in *. exists c, w'.
  split_and!; [done| |done]. unfold decode. rewrite Hdec. cbn [mbind result_bind]. by rewrite Hb.
Qed.

(** *** The operations *)

Lemma monotonic_step w t w' : monotonic w = (t, w') → clock w <= t ∧ t <= clock w'.
Proof.
  intros Hm. pose proof (monotonic_after w). pose proof (monotonic_clock w). rewrite Hm in *. done.
Qed.

Lemma get_correct k d w :
  mem_ok d w →
  ∃ t d' w', get k (d, w) = (Ok (mem_live d t k), (d', w')) ∧
    clock w <= t ∧ t <= clock w' ∧ mem_ok d' w' ∧ agree_from mem_live t d d'.
Proof.
  intros Hok. unfold get, sbind, get_data, sret, slift, on_world, read_monotonic, set_data.
  destruct (dict_get k d) as [[e c]|] eqn:Hg.
  - destruct (monotonic w) as [now w1] eqn:Hm. apply monotonic_step in Hm as [? ?].
    destruct (Z.leb_spec e now) as [He|He].
    + exists now, (dict_del k d), w1. split_and!; [|done|done| |by eapply del_agrees; [apply Hok|..]].
      * unfold mem_live. by rewrite Hg, (proj2 (Z.ltb_ge _ _)).
      * eapply mem_ok_later; [|instantiate (1 := w); lia].
        eapply mem_ok_sublist; [apply dict_del_sublist|done].
    + destruct (decode_entry _ _ _ _ _ Hok Hg) as [st Hst]. exists now, d, w1. rewrite Hst.
      split_and!; [|done|done|eapply mem_ok_later; [done|lia]|done].
      unfold mem_live. by rewrite Hg, (proj2 (Z.ltb_lt _ _)), Hst.
  - exists (clock w), d, w. split_and!; [|lia|lia|done|done]. unfold mem_live. by rewrite Hg.
Qed.

Lemma transition_read_correct k d w :
  mem_ok d w →
  ∃ t d' w', transition_read k (d, w) = (Ok (mem_live d t k), (d', w')) ∧
    clock w <= t ∧ t <= clock w' ∧ mem_ok d' w' ∧ agree_from mem_live t d d' ∧
    (mem_live d t k = None → k ∉ keys d') ∧ (mem_live d t k ≠ None → k ∈ keys d').
Proof.
  intros Hok. unfold transition_read, evict_expired_locked, sbind, get_data, sret, slift, on_world,
    read_monotonic, set_data.
  destruct (monotonic w) as [t0 w0] eqn:Hm0. apply monotonic_step in Hm0 as [? ?].
  set (d0 := evict t0 d). assert (Hok0 : mem_ok d0 w0).
  { eapply mem_ok_later; [by apply mem_ok_evict|lia]. }
  assert (Hag : agree_from mem_live t0 d d0) by (apply evict_agrees, Hok).
  destruct (dict_get k d0) as [[e c]|] eqn:Hg.
  - destruct (monotonic w0) as [t1 w1] eqn:Hm1. apply monotonic_step in Hm1 as [? ?].
    assert (Hag1 : agree_from mem_live t1 d d0) by (eapply agree_weaken; [|done]; lia).
    assert (Hok1 : mem_ok d0 w1) by (eapply mem_ok_later; [done|lia]).
    destruct (Z.ltb_spec t1 e) as [He|He].
    + destruct (decode_entry _ _ _ _ _ Hok0 Hg) as [st Hst]. rewrite Hst.
      assert (Hlive : mem_live d0 t1 k = Some st).
      { unfold mem_live. by rewrite Hg, (proj2 (Z.ltb_lt _ _)), Hst. }
      exists t1, d0, w1. rewrite <-(Hag1 t1 k), Hlive by done.
      split_and!; try done; [lia|]. intros _. apply dict_mem_spec. unfold dict_mem. by rewrite Hg.
    + assert (Hlive : mem_live d0 t1 k = None).
      { unfold mem_live. by rewrite Hg, (proj2 (Z.ltb_ge _ _)) by lia. }
      exists t1, (dict_del k d0), w1. rewrite <-(Hag1 t1 k), Hlive by done.
      split_and!; try done; [lia| | |].
      * eapply mem_ok_sublist; [apply dict_del_sublist|done].
      * eapply agree_trans; [|exact Hag1|eapply del_agrees; [apply Hok0|exact Hg|lia]]. lia.
      * intros _. apply dict_del_keys, Hok0.
  - exists t0, d0, w0. rewrite <-(Hag t0 k) by done.
    assert (Hlive : mem_live d0 t0 k = None) by (unfold mem_live; by rewrite Hg).
    rewrite Hlive. split_and!; try done. intros _. by apply dict_get_None.
Qed.

Lemma put_correct k st d w :
  0 <= ttl_seconds → mem_ok d w → storable st → k ∈ keys d ∨ slen d < max_entries →
  ∃ t d' w', put ttl_seconds k st (d, w) = (Ok tt, (d', w')) ∧
    clock w <= t ∧ t <= clock w' ∧ mem_ok d' w' ∧ written mem_live ttl_seconds t k st d d'.
Proof.
  intros Hnn Hok Hst Hroom. unfold put, sbind, get_data, on_world, read_monotonic, set_data.
  destruct (monotonic w) as [t w1] eqn:Hm. apply monotonic_step in Hm as [? ?].
  destruct (encode_decode k st w1 Hst) as (c & w2 & Henc & Hdec & ?). rewrite Henc.
  rewrite put_list by apply Hok. set (d' := dict_del k d ++ _).
  exists t, d', w2. split; [done|]. split; [done|]. split; [lia|].
  assert (Hfresh : k ∉ (dict_del k d).*1) by (apply dict_del_keys, Hok).
  pose proof (mem_ok_sublist _ _ _ (dict_del_sublist k d) Hok) as Hdel. split.
  - destruct Hdel. constructor; unfold d'.
    + unfold keys. rewrite fmap_app. apply NoDup_app. split_and!; [done| |apply NoDup_singleton].
      intros x Hx ->%list_elem_of_singleton. done.
    + apply StronglySorted_snoc. split; [done|]. eapply Forall_impl; [exact mem_horizon0|].
      simpl. intros p Hp. unfold expiry in *. simpl. lia.
    + apply Forall_app. split; [done|]. constructor; [|constructor]. unfold decodable. simpl. by rewrite Hdec.
    + apply Forall_app. split; [eapply Forall_impl; [exact mem_horizon0|]; simpl; lia|].
      constructor; [|constructor]. unfold expiry. simpl. lia.
    + rewrite slen_app. destruct Hroom as [Hin|Hlt].
      * assert (slen d = slen (dict_del k d) + 1) as Hlen.
        { clear -Hin. unfold keys in Hin. unfold slen.
          induction d as [|[k1 v1] d IH]; [set_solver|]. rewrite fmap_cons in Hin. cbn [dict_del].
          destruct (decide (k = k1)) as [->|Hk]; [simpl; lia|]. simpl length.
          rewrite Nat2Z.inj_succ, IH by set_solver. simpl. lia. }
        destruct Hok. unfold slen in *. simpl. lia.
      * pose proof (sublist_length _ _ (dict_del_sublist k d)). unfold slen in *. simpl. lia.
  - intros t' k' Ht'. unfold mem_live at 1. unfold d'.
    destruct (decide (k' = k)) as [->|Hk].
    + assert (dict_get k (dict_del k d ++ [(k, (t + ttl_seconds, c))]) = Some (t + ttl_seconds, c)) as ->.
      { rewrite <-(dict_set_last k _ (t + ttl_seconds, c)) by done. apply dict_get_set_eq. }
      by rewrite Hdec.
    + assert (dict_get k' (dict_del k d ++ [(k, (t + ttl_seconds, c))]) = dict_get k' d) as ->; [|done].
      rewrite <-(dict_set_fresh k) by done. rewrite dict_get_set_ne, dict_get_del_ne by done. done.
Qed.
End MemoryFacts.

(** ** The store implements the interface *)

Section Implementation.
Context {W : Type} `{!World W, !WorldLaws W, I : Interpreter}.
Context (ttl_seconds max_entries : Z).

#[export] Instance memory_store : RestorationStore store_data W := {|
  store_get := get;
  store_transition := transition ttl_seconds max_entries
|}.

Lemma remove_correct k d w :
  mem_ok ttl_seconds max_entries d w →
  mem_ok ttl_seconds max_entries (dict_del k d) w ∧ ∀ t, removed mem_live t k d (dict_del k d).
Proof.
  intros Hok. split; [eapply mem_ok_sublist; [apply dict_del_sublist|done]|].
  intros t t' k' _. unfold mem_live at 1. case_decide as Hk; [subst|by rewrite dict_get_del_ne].
  by rewrite dict_get_del_eq by apply Hok.
Qed.

Lemma transition_steps k (fn : transition_fn W) d w c d1 w1 :
  transition_read k (d, w) = (Ok c, (d1, w1)) →
  transition ttl_seconds max_entries k fn (d, w) =
    match fn c w1 with
    | (Ok n, w2) => transition_write ttl_seconds max_entries k n (d1, w2)
    | (Err e, w2) => (Err e, (d1, w2))
    end.
Proof.
  intros Hr. unfold transition, sbind, on_world. rewrite Hr. by destruct (fn c w1) as [[n|e] w2].
Qed.

Lemma transition_write_some k st d w :
  transition_write ttl_seconds max_entries k (Some st) (d, w) =
    if negb (dict_mem k d) && (max_entries <=? slen d) then (Err overloaded, (d, w))
    else match put ttl_seconds k st (d, w) with
         | (Ok _, s) => (Ok (Some st), s)
         | (Err e, s) => (Err e, s)
         end.
Proof. unfold transition_write, sbind, get_data. by case_match. Qed.

Lemma transition_correct (ttl_nonneg : 0 <= ttl_seconds) k (fn : transition_fn W) d w :
  mem_ok ttl_seconds max_entries d w → (∀ c, forward (fn c)) →
  ∃ t w1, clock w <= t ∧ t <= clock w1 ∧
    match fn (mem_live d t k) w1 with
    | (Err e, w2) =>
        ∃ d', transition ttl_seconds max_entries k fn (d, w) = (Err e, (d', w2)) ∧
          mem_ok ttl_seconds max_entries d' w2 ∧ agree_from mem_live t d d'
    | (Ok None, w2) =>
        ∃ d', transition ttl_seconds max_entries k fn (d, w) = (Ok None, (d', w2)) ∧
          mem_ok ttl_seconds max_entries d' w2 ∧ removed mem_live t k d d'
    | (Ok (Some st), w2) =>
        storable st →
        (∃ d' e, transition ttl_seconds max_entries k fn (d, w) = (Err (ServiceOverloadedError e 1), (d', w2)) ∧
           mem_live d t k = None ∧ mem_ok ttl_seconds max_entries d' w2 ∧ agree_from mem_live t d d') ∨
        (∃ t2 d' w3, transition ttl_seconds max_entries k fn (d, w) = (Ok (Some st), (d', w3)) ∧
           clock w2 <= t2 ∧ t2 <= clock w3 ∧ mem_ok ttl_seconds max_entries d' w3 ∧
           written mem_live ttl_seconds t2 k st d d')
    end.
Proof.
  intros Hok Hfw. destruct (transition_read_correct ttl_seconds max_entries k d w Hok)
    as (t & d1 & w1 & Hread & Ht & Ht1 & Hok1 & Hag & Habs & Hpres).
  exists t, w1. split; [done|]. split; [done|]. rewrite (transition_steps _ _ _ _ _ _ _ Hread).
  pose proof (Hfw (mem_live d t k) w1) as Hclk.
  destruct (fn (mem_live d t k) w1) as [[[st|]|e] w2] eqn:Hfn; simpl in Hclk.
  - intros Hst. assert (Hok2 : mem_ok ttl_seconds max_entries d1 w2) by (eapply mem_ok_later; [done|lia]).
    rewrite transition_write_some.
    destruct (negb (dict_mem k d1) && (max_entries <=? slen d1)) eqn:Hfull.
    + left. apply andb_true_iff in Hfull as [Hmem%negb_true_iff _].
      exists d1, (u8 "restoration store capacity exceeded"). split_and!; try done.
      destruct (mem_live d t k) as [st0|] eqn:Hlive; [|done].
      assert (k ∈ keys d1) as Hin by by apply Hpres. apply dict_mem_spec in Hin. congruence.
    + right. destruct (put_correct ttl_seconds max_entries k st d1 w2 ttl_nonneg) as (t2 & d' & w3 & Hput & ? & ? & ? & Hw);
        [done|done| |].
      { apply andb_false_iff in Hfull as [Hmem%negb_false_iff|Hlt%Z.leb_gt]; [left|by right].
        by apply dict_mem_spec. }
      exists t2, d', w3. rewrite Hput. split_and!; try done.
      intros t' k' Ht'. rewrite Hw by done. case_decide; [done|]. apply Hag. lia.
  - assert (Hok2 : mem_ok ttl_seconds max_entries d1 w2) by (eapply mem_ok_later; [done|lia]).
    destruct (remove_correct k d1 w2 Hok2) as [Hok3 Hrem].
    exists (dict_del k d1). split_and!; [done|done|].
    intros t' k' Ht'. rewrite (Hrem t) by done. case_decide; [done|]. by apply Hag.
  - exists d1. split_and!; [done|eapply mem_ok_later; [done|lia]|done].
Qed.

#[export] Program Instance memory_store_laws (ttl_nonneg : 0 <= ttl_seconds) : StoreLaws store_data W := {|
  store_ok := mem_ok ttl_seconds max_entries;
  live := mem_live;
  store_ttl := ttl_seconds
|}.
Next Obligation. intros Hnn s w w'. apply mem_ok_later. Qed.
Next Obligation.
  intros Hnn s t t' k st Ht. unfold mem_live. destruct (dict_get k s) as [[e c]|]; [|done].
  destruct (Z.ltb_spec t' e); [|done]. by rewrite (proj2 (Z.ltb_lt _ _)) by lia.
Qed.
Next Obligation.
  intros Hnn s w t k st Hok. unfold mem_live. destruct (dict_get k s) as [[e c]|] eqn:Hg; [|done].
  apply dict_get_elem in Hg. destruct Hok as [_ _ _ Hhor _]. rewrite Forall_forall in Hhor.
  specialize (Hhor _ Hg). unfold expiry in Hhor. simpl in Hhor. destruct (Z.ltb_spec t e); [lia|done].
Qed.
Next Obligation. intros Hnn k s w. apply get_correct. Qed.
Next Obligation. intros Hnn k fn s w. by apply transition_correct. Qed.
End Implementation.

(** ** Properties *)

Section Properties.
Context {W : Type} `{!World W, !WorldLaws W, I : Interpreter}.

Lemma mem_ok_empty ttl max w : mem_ok ttl max [] w.
Proof. constructor; try constructor. unfold slen. simpl. lia. Qed.

(** C14: [transition] is the atomic read-modify-write it promises to be: the
    callback receives the state live at one instant; if it raises or finds
    the store full nothing any later reader can see has changed; otherwise
    exactly the entry of that key has become the callback's state, readable
    until one lifetime after the write, and the store invariant (distinct
    keys, expiry order, decodable entries, capacity) holds again. *)
Theorem memory_transition_atomic (ttl max : Z) (k : key) (fn : transition_fn W) (d : store_data) (w : W) :
  0 <= ttl → mem_ok ttl max d w → (∀ c, forward (fn c)) →
  ∃ t w1, clock w <= t ∧ t <= clock w1 ∧
    match fn (mem_live d t k) w1 with
    | (Err e, w2) =>
        ∃ d', transition ttl max k fn (d, w) = (Err e, (d', w2)) ∧
          mem_ok ttl max d' w2 ∧ agree_from mem_live t d d'
    | (Ok None, w2) =>
        ∃ d', transition ttl max k fn (d, w) = (Ok None, (d', w2)) ∧
          mem_ok ttl max d' w2 ∧ removed mem_live t k d d'
    | (Ok (Some st), w2) =>
        storable st →
        (∃ d' e, transition ttl max k fn (d, w) = (Err (ServiceOverloadedError e 1), (d', w2)) ∧
           mem_live d t k = None ∧ mem_ok ttl max d' w2 ∧ agree_from mem_live t d d') ∨
        (∃ t2 d' w3, transition ttl max k fn (d, w) = (Ok (Some st), (d', w3)) ∧
           clock w2 <= t2 ∧ t2 <= clock w3 ∧ mem_ok ttl max d' w3 ∧ written mem_live ttl t2 k st d d')
    end.
Proof. intros Hnn Hok Hfw. by apply transition_correct. Qed.

(** [get] returns the state live at one instant between its call and its
    return, never raises on a well-formed store, and is invisible to later
    readers (it only drops an expired entry). *)
Theorem memory_get_live (ttl max : Z) (k : key) (d : store_data) (w : W) :
  mem_ok ttl max d w →
  ∃ t d' w', get k (d, w) = (Ok (mem_live d t k), (d', w')) ∧
    clock w <= t ∧ t <= clock w' ∧ mem_ok ttl max d' w' ∧ agree_from mem_live t d d'.
Proof. apply get_correct. Qed.

(** Overload is honest: a transition is refused for capacity only when the
    key has no entry and at least [max_entries] entries, none of them expired
    when the transition began its eviction, are in the store. *)
Theorem memory_overload_only_when_full (ttl max : Z) (k : key) (fn : transition_fn W) d w d' w' :
  mem_ok ttl max d w → (∀ c w0, (fn c w0).1 ≠ Err overloaded) →
  transition ttl max k fn (d, w) = (Err overloaded, (d', w')) →
  k ∉ keys d' ∧ max <= slen d' ∧ Forall (λ p, clock w < expiry p) d'.
Proof.
  intros Hok Hfn Ht.
  destruct (transition_read_correct ttl max k d w Hok)
    as (t & d1 & w1 & Hread & Hclk & Hclk1 & Hok1 & Hag & Habs & Hpres).
  rewrite (transition_steps _ _ _ _ _ _ _ _ _ Hread) in Ht. specialize (Hfn (mem_live d t k) w1).
  destruct (fn (mem_live d t k) w1) as [[[st|]|e] w2]; simpl in Hfn; [| |congruence].
  - rewrite transition_write_some in Ht.
    destruct (negb (dict_mem k d1) && (max <=? slen d1)) eqn:Hfull.
    + injection Ht as <- <-. apply andb_true_iff in Hfull as [Hmem%negb_true_iff Hle%Z.leb_le].
      split_and!; [intros Hin; apply dict_mem_spec in Hin; congruence|done|].
      unfold transition_read, evict_expired_locked, sbind, get_data, sret, slift, on_world,
        read_monotonic, set_data in Hread.
      destruct (monotonic w) as [t0 w0] eqn:Hm0. apply monotonic_step in Hm0 as [? ?].
      assert (Hev : Forall (λ p, clock w < expiry p) (evict t0 d)).
      { eapply Forall_impl; [apply evict_complete, Hok|]. simpl. lia. }
      assert (Hsub : d1 `sublist_of` evict t0 d).
      { destruct (dict_get k (evict t0 d)) as [[e c]|].
        - destruct (monotonic w0) as [now w3]. case_match.
          + destruct (decode k c); by injection Hread as _ <- _.
          + injection Hread as _ <- _. apply dict_del_sublist.
        - by injection Hread as _ <- _. }
      apply Forall_forall. intros p Hp. rewrite Forall_forall in Hev. by eapply Hev, elem_of_sublist.
    + exfalso. clear -Ht. unfold put, encode, sbind, get_data, on_world, read_monotonic, set_data, encode, slift, encrypt in Ht.
      destruct (monotonic w2) as [t2 w3]. unfold to_json in Ht.
      destruct (json_dumps _) as [s|]; simpl in Ht; [|done].
      destruct (utf8_encode s) as [bs|e] eqn:He; [by destruct (fernet_encrypt bs w3)|].
      apply utf8_encode_error in He as ->. done.
  - unfold transition_write, sbind, get_data, set_data, sret in Ht. done.
Qed.

(** [save]: the entry is written, or the store is full and nothing visible
    changed. *)
Lemma save_correct (ttl max : Z) (k : key) st d w :
  0 <= ttl → mem_ok ttl max d w → storable st →
  ∃ t d' w', clock w <= t ∧ t <= clock w' ∧ mem_ok ttl max d' w' ∧
    (save ttl max k st (d, w) = (Err overloaded, (d', w')) ∧ agree_from mem_live t d d' ∨
     save ttl max k st (d, w) = (Ok tt, (d', w')) ∧ written mem_live ttl t k st d d').
Proof.
  intros Hnn Hok Hst. unfold save, evict_expired_locked, sbind, get_data, on_world, read_monotonic, set_data.
  destruct (monotonic w) as [t0 w0] eqn:Hm0. apply monotonic_step in Hm0 as [? ?].
  assert (Hok0 : mem_ok ttl max (evict t0 d) w0) by (eapply mem_ok_later; [by apply mem_ok_evict|lia]).
  assert (Hag : agree_from mem_live t0 d (evict t0 d)) by apply evict_agrees, Hok.
  destruct (negb (dict_mem k (evict t0 d)) && (max <=? slen (evict t0 d))) eqn:Hfull.
  - exists t0, (evict t0 d), w0. split_and!; try done. by left.
  - destruct (put_correct ttl max k st (evict t0 d) w0) as (t2 & d' & w3 & Hput & ? & ? & ? & Hw); [done|done|done| |].
    { apply andb_false_iff in Hfull as [Hmem%negb_false_iff|Hlt%Z.leb_gt]; [left|by right].
      by apply dict_mem_spec. }
    exists t2, d', w3. split_and!; [lia|done|done|]. right. split; [done|].
    intros t' k' Ht'. rewrite Hw by done. case_decide; [done|]. apply Hag. lia.
Qed.

Lemma delete_correct (ttl max : Z) (k : key) d w t :
  mem_ok ttl max d w →
  ∃ d', delete k (d, w) = (Ok tt, (d', w)) ∧ mem_ok ttl max d' w ∧ removed mem_live t k d d'.
Proof.
  intros Hok. exists (dict_del k d). destruct (remove_correct ttl max k d w Hok) as [? Hrem]. done.
Qed.

(** [save] and [delete] act on their key alone: [save] either stores the
    state for one lifetime or is refused with nothing visible changed, and
    [delete] leaves no reader a state of that key; both keep the
    invariant. *)
Theorem memory_save_delete (ttl max : Z) (k : key) (st : RestorationState) (d : store_data) (w : W) :
  0 <= ttl → mem_ok ttl max d w → storable st →
  (∃ t d' w', clock w <= t ∧ t <= clock w' ∧ mem_ok ttl max d' w' ∧
    (save ttl max k st (d, w) = (Err overloaded, (d', w')) ∧ agree_from mem_live t d d' ∨
     save ttl max k st (d, w) = (Ok tt, (d', w')) ∧ written mem_live ttl t k st d d')) ∧
  (∃ d', delete k (d, w) = (Ok tt, (d', w)) ∧ mem_ok ttl max d' w ∧ removed mem_live (clock w) k d d').
Proof. intros Hnn Hok Hst. split; [by apply save_correct|by apply delete_correct]. Qed.
End Properties.

(** ** Witnesses *)

Section Witnesses.
#[local] Existing Instance plain_interpreter.

(** A store of capacity one holding one entry. *)
Definition one_entry : store_data * Z :=
  (save 3600 1 (u8 "key") sample_state ([], 0)).2.

Lemma one_entry_ok : mem_ok 3600 1 (one_entry.1) (one_entry.2).
Proof.
  destruct (save_correct 3600 1 (u8 "key") sample_state [] 0) as (t & d' & w' & _ & _ & Hok & Hs);
    [lia|apply mem_ok_empty|exact sample_storable|].
  destruct Hs as [[Hs _]|[Hs _]]; apply (f_equal snd) in Hs; change (one_entry = (d', w')) in Hs;
    rewrite Hs; exact Hok.
Qed.

Definition no_entry : store_data := [].
Definition store_fn : transition_fn Z := λ _, sret (Some sample_state).

(** A first state stored in an empty store. *)
Lemma memory_transition_atomic_witness :
  ∃ t d' w', transition 3600 1 (u8 "key") store_fn (no_entry, 0) = (Ok (Some sample_state), (d', w')) ∧
    written mem_live 3600 t (u8 "key") sample_state no_entry d'.
Proof.
  destruct (memory_transition_atomic 3600 1 (u8 "key") store_fn no_entry 0
    ltac:(lia) (mem_ok_empty 3600 1 0) ltac:(intros c; apply forward_ret)) as (t & w1 & _ & _ & H).
  unfold store_fn at 1, sret at 1 in H.
  destruct (H sample_storable) as [(d' & e & Hr & _)|(t2 & d' & w' & Hr & _ & _ & _ & Hw)].
  - exfalso. assert (is_ok (transition 3600 1 (u8 "key") store_fn (no_entry, 0)).1 = true) as Hok
      by (vm_compute; reflexivity).
    by rewrite Hr in Hok.
  - exists t2, d', w'. split; [exact Hr|exact Hw].
Defined.

Lemma memory_get_live_witness :
  ∃ t d' w', get (u8 "key") one_entry = (Ok (mem_live (one_entry.1) t (u8 "key")), (d', w')) ∧
    one_entry.2 <= t.
Proof.
  destruct (memory_get_live 3600 1 (u8 "key") (one_entry.1) (one_entry.2) one_entry_ok)
    as (t & d' & w' & Hg & Ht & _).
  exists t, d', w'. rewrite <-(surjective_pairing one_entry) in Hg. split; [exact Hg|exact Ht].
Defined.

(** A new key in the full store. *)
Lemma memory_overload_only_when_full_witness :
  ∃ s', transition 3600 1 (u8 "new") (λ _, sret (Some sample_state)) one_entry = (Err overloaded, s') ∧
    u8 "new" ∉ keys (s'.1) ∧ 1 <= slen (s'.1).
Proof.
  assert (Hrun : ∃ s', transition 3600 1 (u8 "new") (λ _, sret (Some sample_state)) one_entry =
    (Err overloaded, s')) by (eexists; vm_compute; reflexivity).
  destruct Hrun as ([d' w'] & Hrun). exists (d', w'). split; [exact Hrun|].
  destruct (memory_overload_only_when_full 3600 1 (u8 "new") (λ _, sret (Some sample_state))
    (one_entry.1) (one_entry.2) d' w' one_entry_ok) as (H1 & H2 & _).
  - intros c w0. done.
  - rewrite <-(surjective_pairing one_entry). exact Hrun.
  - split; [exact H1|exact H2].
Defined.

Lemma memory_save_delete_witness :
  ∃ d', delete (W := Z) (u8 "key") one_entry = (Ok tt, (d', one_entry.2)) ∧
    removed mem_live (one_entry.2) (u8 "key") (one_entry.1) d'.
Proof.
  destruct (memory_save_delete 3600 1 (u8 "key") sample_state (one_entry.1) (one_entry.2)
    ltac:(lia) one_entry_ok sample_storable) as [_ (d' & Hd & _ & Hr)].
  exists d'. rewrite <-(surjective_pairing one_entry) in Hd. split; [exact Hd|exact Hr].
Defined.
End Witnesses.
