(* ===== verification/Process.v ===== *)
(** * Process service ([app/processing/process_service.py])

    [ProcessService.process]: the mask/demask life of a payload id over a
    restoration store.  The service is proved against the store's interface
    ([StoreInterface]), the hash library's and the outside world's; the
    detectors are any list of detectors that do not turn the clock back.

    [process] composes, as the code does, the timed lookup, the preparation
    when nothing was found, the store's atomic transition, and the metrics. *)

From S2P Require Import Prelude Unicode Domain PyStr Utf8 Hashes Json Metrics Logging Strategies.
From S2P Require Import Masking Resolution Policy Restoration World StoreInterface.

(** [ProcessOutcome]. *)
Record ProcessOutcome := mkOutcome {
  out_result : pystr;
  out_operation : Operation;
  out_entity_count : Z;
  out_detected_types : list pystr;
  out_duration_ms : Q;
  out_stage_timings : list (pystr * Q)
}.

Definition required_error : exn := InvalidPayloadError (u8 "payload and payload_id are required").
Definition mismatch : exn := InvalidPayloadError (u8 "payload does not match stored state").
Definition demasking_disabled : exn := ProcessingError (u8 "demasking is disabled for this consumer").
Definition state_removed : exn := ProcessingError (u8 "restoration state was unexpectedly removed").

(** [a <= b] on Python strings. *)
Fixpoint str_leb (a b : pystr) : bool :=
  match a, b with
  | [], _ => true
  | _ :: _, [] => false
  | x :: a, y :: b => (x <? y) || ((x =? y) && str_leb a b)
  end.

Definition _outcome (result : pystr) (operation : Operation) (st : RestorationState) : ProcessOutcome :=
  mkOutcome result operation (entity_count st) (detected_types st) 0 [].

Definition outcome_from_state (st : option RestorationState) : result exn ProcessOutcome :=
  match st with
  | None => Err state_removed
  | Some st =>
      match state st with
      | MASKED => Ok (_outcome (Restoration.masked_text st) MASK st)
      | DEMASKED => Ok (_outcome (original_text st) DEMASK st)
      end
  end.

(** [current.state = DEMASKED]: the state object was decoded for this call
    alone, so the assignment is a functional update. *)
Definition set_demasked (st : RestorationState) : RestorationState :=
  mkRestorationState (payload_id st) (original_hash st) (original_text st) (Restoration.masked_text st)
    (Restoration.mappings st) (entity_count st) (detected_types st) DEMASKED (created_at st)
    (expires_at st) (consumer_id st).

Definition demask_state (current : RestorationState) (policy : ConsumerPolicy)
    : result exn RestorationState :=
  if negb (cp_demasking_enabled policy) then Err demasking_disabled
  else Ok (set_demasked current).

Section Service.
Context `{U : UnicodeDB, H : HashLib} {S W : Type} `{!World W, !RestorationStore S W}.
Context (detectors : list (PIIDetector W)).

(** [_state_key]. *)
Definition state_key (consumer_id payload_id : pystr) : result exn pystr :=
  data ← utf8_encode (consumer_id ++ [0] ++ payload_id);
  Ok (consumer_id ++ [58] ++ sha256_hex data).

Definition prepare_mask (payload payload_id : pystr) (policy : ConsumerPolicy)
    : stateM W exn RestorationState :=
  let context := default_context (cp_consumer_id policy) in
  detection <-- engine_detect detectors payload context;
  let entities := filter (λ e, pii_type e ∈ cp_enabled_types policy) (dr_entities detection) in
  masking <-- mask payload entities (cp_masking policy) (cp_context_rules policy);
  original_hash <-- slift (hash_payload payload);
  created_at <-- read_utc_now;
  sret (mkRestorationState payload_id original_hash payload (Masking.masked_text masking)
          (Masking.mappings masking) (slen entities)
          (sorted_by str_leb (remove_dups ((λ e, pii_value (pii_type e)) <$> entities)))
          MASKED created_at None (cp_consumer_id policy)).

(** [_transition]: the callback of the store's transition. *)
Definition transition_state (current : option RestorationState) (payload payload_id : pystr)
    (policy : ConsumerPolicy) (prepared : option RestorationState) : stateM W exn RestorationState :=
  match current with
  | None =>
      match prepared with
      | None => prepare_mask payload payload_id policy
      | Some prepared => sret prepared
      end
  | Some current =>
      if negb (bool_decide (consumer_id current = cp_consumer_id policy)) then sraise mismatch
      else
        match state current with
        | MASKED =>
            h <-- slift (hash_payload payload);
            if bool_decide (h = original_hash current) then sret current
            else if bool_decide (payload = Restoration.masked_text current)
            then slift (demask_state current policy)
            else sraise mismatch
        | DEMASKED =>
            if bool_decide (payload = Restoration.masked_text current) then sret current
            else sraise mismatch
        end
  end.

(** The service's state: the store, the world and the metrics. *)
Definition storeM (A : Type) : Type := stateM (S * W) exn A.
Definition procM (A : Type) : Type := stateM ((S * W) * Metrics) exn A.

Definition in_world {A} (m : stateM W exn A) : storeM A := λ '(s, w),
  let '(r, w) := m w in (r, (s, w)).
Definition in_store {A} (m : storeM A) : procM A := λ '(sw, m0),
  let '(r, sw) := m sw in (r, (sw, m0)).
Definition record (f : Metrics → Metrics) : procM unit := λ '(sw, m0), (Ok tt, (sw, f m0)).

#[export] Instance store_perf : PerfCounter (S * W) := λ '(s, w),
  let '(t, w) := perf_counter w in (t, (s, w)).

(** [if not state_exists: with Timer() as prepare_timer: ...]. *)
Definition maybe_prepare (found : option RestorationState) (payload key : pystr)
    (policy : ConsumerPolicy) (timings : list (pystr * Q))
    : storeM (option RestorationState * list (pystr * Q)) :=
  match found with
  | Some _ => sret (None, timings)
  | None =>
      p <-- timed (in_world (prepare_mask payload key policy));
      let '(prepared, ms) := p in
      sret (Some prepared, dict_set (u8 "prepare_ms") ms timings)
  end.

(** The body of [with Timer() as timer]. *)
Definition process_body (payload key : pystr) (policy : ConsumerPolicy)
    : storeM (ProcessOutcome * list (pystr * Q)) :=
  lookup <-- timed (store_get key);
  let '(found, lookup_ms) := lookup in
  prep <-- maybe_prepare found payload key policy (dict_set (u8 "state_lookup_ms") lookup_ms []);
  let '(prepared, timings) := prep in
  tr <-- timed (store_transition key (λ current,
           st <-- transition_state current payload key policy prepared; sret (Some st)));
  let '(st, ms) := tr in
  outcome <-- slift (outcome_from_state st);
  sret (outcome, dict_set (u8 "transition_ms") ms timings).

Definition with_timings (o : ProcessOutcome) (ms : Q) (timings : list (pystr * Q)) : ProcessOutcome :=
  mkOutcome (out_result o) (out_operation o) (out_entity_count o) (out_detected_types o) ms timings.

Definition process (payload payload_id : pystr) (policy : ConsumerPolicy) : procM ProcessOutcome :=
  if bool_decide (payload = []) || bool_decide (payload_id = []) then sraise required_error
  else
    key <-- slift (state_key (cp_consumer_id policy) payload_id);
    body <-- in_store (timed (process_body payload key policy));
    let '((outcome, timings), elapsed_ms) := body in
    let outcome := with_timings outcome elapsed_ms timings in
    _ <-- record (recorder_request (operation_value (out_operation outcome)) elapsed_ms);
    _ <-- record (record_entities (out_entity_count outcome));
    data <-- slift (utf8_encode payload);
    _ <-- record (record_payload_size (slen data));
    _ <-- record (fold_left (λ m p, recorder_stage (p.1) (p.2) m) timings);
    sret outcome.
End Service.

(** ** Detectors the service can run *)

(** Detectors let time pass and return lists of at most [sys.maxsize]
    entities. *)
Class DetectorsOk {W} `{!World W, !WorldLaws W} (detectors : list (PIIDetector W)) := {
  detectors_forward text context : forward (engine_detect detectors text context);
  detectors_count text context w r w' :
    engine_detect detectors text context w = (Ok r, w') → slen text < 2 ^ 63 → slen (dr_entities r) < 2 ^ 63
}.

(** ** Facts about texts and keys *)

Lemma scalar_encodes s : Forall scalar s → ∃ bs, utf8_encode s = Ok bs.
Proof.
  intros Hs. pose proof (utf8_encode_ok s) as Hok. destruct (utf8_encode s) as [bs|e]; [by eexists|].
  simpl in Hok. symmetry in Hok. apply not_true_iff_false in Hok. destruct Hok.
  apply forallb_forall. intros c Hc%list_elem_of_In. rewrite Forall_forall in Hs.
  destruct (Hs c Hc) as [_ ->]. done.
Qed.

(** Python strings: code points only. *)
Definition valid_text (s : pystr) : bool := forallb is_code_point s.

Lemma encoded_scalar s bs : valid_text s = true → utf8_encode s = Ok bs → Forall scalar s.
Proof.
  intros Hv He. pose proof (utf8_encode_ok s) as Hok. rewrite He in Hok. simpl in Hok.
  unfold valid_text in Hv. rewrite forallb_forall in Hv. symmetry in Hok. rewrite forallb_forall in Hok.
  apply Forall_forall. intros c Hc%list_elem_of_In.
  split; [by apply Hv|]. by apply negb_true_iff, Hok.
Qed.

Section Keys.
Context `{H : HashLib}.

Lemma hash_payload_scalar s h : hash_payload s = Ok h → Forall scalar h.
Proof.
  unfold hash_payload. intros (bs & _ & [= <-])%bind_Ok.
  eapply Forall_impl; [apply blake2b_hex_ascii|]. apply ascii_scalar.
Qed.

Lemma hash_payload_encodes s h : hash_payload s = Ok h → ∃ bs, utf8_encode s = Ok bs.
Proof. unfold hash_payload. intros (bs & Hb & _)%bind_Ok. by exists bs. Qed.

Lemma utf8_encode_app_Ok s t bs :
  utf8_encode (s ++ t) = Ok bs → ∃ b1 b2, utf8_encode s = Ok b1 ∧ utf8_encode t = Ok b2 ∧ bs = b1 ++ b2.
Proof.
  revert bs. induction s as [|c s IH]; intros bs; cbn [app utf8_encode].
  - intros Ht. by exists [], bs.
  - intros (b & Hb & (bs' & Hbs & [= <-])%bind_Ok)%bind_Ok.
    apply IH in Hbs as (b1 & b2 & H1 & H2 & ->). exists (b ++ b1), b2. rewrite Hb. cbn [mbind result_bind].
    rewrite H1. cbn [mbind result_bind]. by rewrite app_assoc.
Qed.

Lemma state_key_scalar c p k : valid_text c = true → state_key c p = Ok k → Forall scalar k ∧ Forall scalar c.
Proof.
  intros Hc. unfold state_key. intros (bs & Hb & [= <-])%bind_Ok.
  apply utf8_encode_app_Ok in Hb as (b1 & b2 & Hb1 & _). pose proof (encoded_scalar _ _ Hc Hb1).
  split; [|done]. apply Forall_app. split; [done|]. constructor; [by apply ascii_scalar|].
  eapply Forall_impl; [apply sha256_hex_ascii|]. apply ascii_scalar.
Qed.

(** The digest has a fixed length, so the key tells the consumer. *)
Lemma state_key_consumer c p c' p' k : state_key c p = Ok k → state_key c' p' = Ok k → c = c'.
Proof.
  unfold state_key. intros (bs & _ & Hk)%bind_Ok (bs' & _ & Hk')%bind_Ok.
  apply (inj Ok) in Hk, Hk'. subst k.
  pose proof (sha256_hex_length bs) as Hl. pose proof (sha256_hex_length bs') as Hl'. unfold slen in *.
  assert (length c = length c') by (apply (f_equal length) in Hk'; rewrite !length_app in Hk'; simpl in Hk'; lia).
  symmetry in Hk'. by apply app_inj_1 in Hk' as [? _].
Qed.
End Keys.

(** ** The invariant *)

Section ProcessFacts.
Context `{U : UnicodeDB, H : HashLib, I : Interpreter} {S W : Type}.
Context `{!World W, !WorldLaws W, !RestorationStore S W, L : !StoreLaws S W}.
Context (detectors : list (PIIDetector W)) `{D : !DetectorsOk detectors}.

(** What is stored under a key. *)
Record state_ok (k : pystr) (st : RestorationState) : Prop := {
  so_storable : storable st;
  so_id : payload_id st = k;
  so_hash : hash_payload (original_text st) = Ok (original_hash st);
  so_key : ∃ pid, state_key (consumer_id st) pid = Ok k;
  so_types : Forall (λ t, ∃ ty, t = pii_value ty) (detected_types st)
}.

(** Every state a reader can find from now on is one of the service's. *)
Definition service_ok (s : S) (w : W) : Prop :=
  store_ok s w ∧ ∀ t k st, clock w <= t → live s t k = Some st → state_ok k st.

Lemma with_id_same k st : payload_id st = k → with_id k st = st.
Proof. intros <-. by destruct st. Qed.

Lemma service_ok_later s w w' : service_ok s w → clock w <= clock w' → service_ok s w'.
Proof.
  intros [Hok Hst] Hle. split; [by eapply store_ok_later|]. intros t k st Ht. apply Hst. lia.
Qed.

Lemma service_ok_agree t s s' w w' :
  service_ok s w → clock w <= t → t <= clock w' → store_ok s' w' → agree_from live t s s' →
  service_ok s' w'.
Proof.
  intros [_ Hst] ? ? Hok Hag. split; [done|]. intros u k st Hu. rewrite (Hag u k) by lia. apply Hst. lia.
Qed.

Lemma service_ok_written t key st s s' w w' :
  service_ok s w → clock w <= t → t <= clock w' → store_ok s' w' → state_ok key st →
  written live store_ttl t key st s s' → service_ok s' w'.
Proof.
  intros [_ Hst] ? ? Hok Hsk Hw. split; [done|]. intros u k st' Hu. rewrite (Hw u k) by lia.
  case_decide as Hk; [subst|apply Hst; lia]. case_match; [|done].
  intros [= <-]. by rewrite with_id_same by apply Hsk.
Qed.

(** ** Preparing a mask *)

(** A request the service can be given: Python strings, of a length Python
    can represent. *)
Record request_ok (payload : pystr) (policy : ConsumerPolicy) : Prop := {
  rq_payload : valid_text payload = true;
  rq_length : slen payload < 2 ^ 63;
  rq_consumer : valid_text (cp_consumer_id policy) = true
}.

Lemma strategy_forward strategy e : forward (W := W) (strategy_mask strategy e).
Proof.
  destruct strategy; [apply forward_ret|apply forward_lift|..]; intros w; pose proof (token_clock 8 w) as Hc;
    unfold strategy_mask, tokenize_mask, synthetic_mask; destruct (token_hex 8 w); exact Hc.
Qed.
#[local] Hint Resolve strategy_forward : forward.

Lemma mask_loop_forward text present rules strat ordered pieces maps cursor :
  forward (W := W) (mask_loop text present rules strat ordered pieces maps cursor).
Proof. revert pieces maps cursor. induction ordered; intros; cbn [mask_loop]; go_forward. Qed.
#[local] Hint Resolve mask_loop_forward : forward.

Lemma engine_step_forward {A} (m : engineM A) : forward (W := W) (engine_step m).
Proof. intros w. unfold engine_step. destruct (m []) as [r ls]. apply emit_all_clock. Qed.
#[local] Hint Resolve engine_step_forward : forward.

Lemma mask_forward text entities strat rules : forward (W := W) (mask text entities strat rules).
Proof. unfold mask. go_forward. Qed.
#[local] Hint Resolve mask_forward detectors_forward : forward.

Lemma prepare_forward payload key policy : forward (prepare_mask detectors payload key policy).
Proof using D. unfold prepare_mask. go_forward. Qed.
#[local] Hint Resolve prepare_forward : forward.

Lemma slen_filter_le {A} (P : A → Prop) `{!∀ x, Decision (P x)} l : slen (filter P l) <= slen l.
Proof. unfold slen. pose proof (length_filter P l). lia. Qed.

(** What a preparation that returns produced. *)
Lemma prepare_spec payload key policy pid w st w' :
  request_ok payload policy → state_key (cp_consumer_id policy) pid = Ok key →
  prepare_mask detectors payload key policy w = (Ok st, w') →
  state_ok key st ∧ original_text st = payload ∧ state st = MASKED ∧ consumer_id st = cp_consumer_id policy.
Proof using D.
  intros [Hpl Hlen Hc] Hkey. unfold prepare_mask.
  intros (det & w1 & Hdet & (mres & w2 & Hmask & (h & w3 & Hh & (c & w4 & Hnow & Hret)%sbind_Ok)%sbind_Ok)%sbind_Ok)%sbind_Ok.
  unfold slift in Hh. injection Hh as Hh <-. unfold sret in Hret. injection Hret as <- <-.
  cbn [original_text state consumer_id]. split; [|done].
  destruct (state_key_scalar _ _ _ Hc Hkey) as [Hks Hcs].
  destruct (hash_payload_encodes _ _ Hh) as (bs & Hbs).
  pose proof (encoded_scalar _ _ Hpl Hbs) as Hps.
  assert (Htok : ∀ n r, Forall scalar (token_hex (R := W) n r).1).
  { intros n r. eapply Forall_impl; [apply token_ascii|]. apply ascii_scalar. }
  destruct (mask_chars scalar ascii_scalar Htok _ _ _ _ _ _ _ Hps Hmask) as [Hms Hmaps].
  assert (Htypes : Forall (λ t, ∃ ty, t = pii_value ty)
    (sorted_by str_leb (remove_dups ((λ e, pii_value (pii_type e)) <$>
       filter (λ e, pii_type e ∈ cp_enabled_types policy) (dr_entities det))))).
  { rewrite Forall_sorted_by. apply Forall_forall. intros x Hx%elem_of_remove_dups%list_elem_of_fmap.
    destruct Hx as (e & -> & _). by eexists. }
  split; [|done|done|by exists pid|exact Htypes]. split; cbn; try done.
  - by eapply hash_payload_scalar.
  - pose proof (detectors_count _ _ _ _ _ Hdet Hlen) as Hn.
    pose proof (slen_filter_le (λ e, pii_type e ∈ cp_enabled_types policy) (dr_entities det)).
    rewrite Z.abs_eq by apply slen_nonneg. assert (2 ^ 63 < int_limit) by (vm_compute; reflexivity). lia.
  - eapply Forall_impl; [exact Htypes|]. intros ? [ty ->]. apply literal_scalar. by destruct ty.
  - unfold read_utc_now in Hnow. pose proof (utc_now_valid w2) as Hv. destruct (utc_now w2).
    by injection Hnow as <- _.
Qed.
End ProcessFacts.

(** ** One transition *)

(** What the callback decides about a live state. *)
Definition verdict `{H : HashLib} (st : RestorationState) (payload : pystr) (policy : ConsumerPolicy)
    : result exn RestorationState :=
  if negb (bool_decide (consumer_id st = cp_consumer_id policy)) then Err mismatch
  else
    match state st with
    | MASKED =>
        h ← hash_payload payload;
        if bool_decide (h = original_hash st) then Ok st
        else if bool_decide (payload = Restoration.masked_text st) then demask_state st policy
        else Err mismatch
    | DEMASKED => if bool_decide (payload = Restoration.masked_text st) then Ok st else Err mismatch
    end.

Section Transition.
Context `{U : UnicodeDB, H : HashLib, I : Interpreter} {S W : Type}.
Context `{!World W, !WorldLaws W, !RestorationStore S W, L : !StoreLaws S W}.
Context (detectors : list (PIIDetector W)) `{D : !DetectorsOk detectors}.

Lemma transition_verdict st payload key policy prepared w :
  transition_state detectors (Some st) payload key policy prepared w = (verdict st payload policy, w).
Proof.
  unfold transition_state, verdict, sbind, slift, sraise, sret.
  case_match; [done|]. destruct (state st).
  - destruct (hash_payload payload) as [h|e]; [|done]. cbn [mbind result_bind]. by repeat case_match.
  - by case_match.
Qed.

Lemma verdict_ok k st payload policy st' :
  state_ok k st → verdict st payload policy = Ok st' → state_ok k st' ∧ (st' = st ∨ st' = set_demasked st).
Proof.
  intros Hok. unfold verdict, demask_state.
  assert (Hd : state_ok k (set_demasked st)).
  { destruct Hok as [[] ?]. constructor; [constructor|..]; done. }
  intros Hv. enough (st' = st ∨ st' = set_demasked st) as Hor.
  { split; [|done]. by destruct Hor as [->| ->]. }
  repeat case_match; simplify_result; repeat case_match; simplify_result; auto.
Qed.

Definition callback payload key policy prepared : transition_fn W := λ current,
  st <-- transition_state detectors current payload key policy prepared; sret (Some st).

Lemma callback_forward payload key policy prepared c : forward (callback payload key policy prepared c).
Proof using D.
  apply forward_bind; [|intros; apply forward_ret]. destruct c as [st|].
  - intros w. rewrite transition_verdict. simpl. lia.
  - destruct prepared; [apply forward_ret|by apply prepare_forward].
Qed.

(** A state some preparation for this request returned, and what may refuse a
    new one. *)
Definition prepares payload key policy (st : RestorationState) : Prop :=
  ∃ w1 w2, prepare_mask detectors payload key policy w1 = (Ok st, w2).
Definition refuses payload key policy (e : exn) : Prop :=
  (∃ w1 w2, prepare_mask detectors payload key policy w1 = (Err e, w2)) ∨
  ∃ msg, e = ServiceOverloadedError msg 1.

(** The transition of a request at time [t], from store [s] to [s']. *)
Definition phase_spec payload key policy (t : Z) (s s' : S) (w' : W)
    (r : result exn (option RestorationState)) : Prop :=
  match live s t key with
  | Some st =>
      match verdict st payload policy with
      | Err e => r = Err e ∧ agree_from live t s s'
      | Ok st' => r = Ok (Some st') ∧
          ∃ t2, t <= t2 ∧ t2 <= clock w' ∧ written live store_ttl t2 key st' s s'
      end
  | None =>
      (∃ e, r = Err e ∧ refuses payload key policy e ∧ agree_from live t s s') ∨
      (∃ st', r = Ok (Some st') ∧ prepares payload key policy st' ∧
         ∃ t2, t <= t2 ∧ t2 <= clock w' ∧ written live store_ttl t2 key st' s s')
  end.

Lemma transition_phase payload key policy pid prepared s w :
  service_ok s w → request_ok payload policy → state_key (cp_consumer_id policy) pid = Ok key →
  (∀ st, prepared = Some st → prepares payload key policy st) →
  ∃ t r s' w',
    store_transition key (callback payload key policy prepared) (s, w) = (r, (s', w')) ∧
    clock w <= t ∧ t <= clock w' ∧ service_ok s' w' ∧ phase_spec payload key policy t s s' w' r.
Proof using D.
  intros Hsv Hrq Hkey Hprep.
  destruct (store_transition_law key (callback payload key policy prepared) s w) as (t & w1 & Ht & Ht1 & Hlaw);
    [apply Hsv|apply callback_forward|].
  pose proof (callback_forward payload key policy prepared (live s t key) w1) as Hclk.
  destruct (live s t key) as [st|] eqn:Hlive.
  - assert (Hst : state_ok key st) by (by eapply Hsv).
    unfold callback at 1 in Hlaw. unfold callback at 1 in Hclk. unfold sbind in Hlaw, Hclk.
    rewrite transition_verdict in Hlaw, Hclk.
    destruct (verdict st payload policy) as [st'|e] eqn:Hv; unfold sret in Hlaw; simpl in Hclk.
    + destruct (verdict_ok _ _ _ _ _ Hst Hv) as [Hst' _].
      destruct (Hlaw (so_storable _ _ Hst')) as [(s' & e & _ & Habs & _)|(t2 & s' & w3 & Hr & ? & ? & Hok & Hw)];
        [congruence|].
      exists t, (Ok (Some st')), s', w3. refine (conj Hr (conj Ht (conj _ (conj _ _)))); [lia| |].
      * by eapply (service_ok_written t2); [done|lia|lia|..].
      * unfold phase_spec. rewrite Hlive, Hv. split; [done|]. exists t2. split_and!; [lia|lia|done].
    + destruct Hlaw as (s' & Hr & Hok & Hag). exists t, (Err e), s', w1. refine (conj Hr (conj Ht (conj Ht1 (conj _ _)))).
      * by eapply (service_ok_agree t).
      * unfold phase_spec. by rewrite Hlive, Hv.
  - destruct (callback payload key policy prepared None w1) as [[o|e] w2] eqn:Hfn; simpl in Hclk.
    + assert (∃ st', o = Some st' ∧ prepares payload key policy st') as (st' & -> & Hp).
      { unfold callback in Hfn. apply sbind_Ok in Hfn as (st' & w3 & Htr & Hret).
        unfold sret in Hret. injection Hret as <- ->. exists st'. split; [done|].
        destruct prepared as [p|]; cbn [transition_state] in Htr.
        - unfold sret in Htr. injection Htr as <- _. by apply Hprep.
        - by exists w1, w2. }
      assert (Hst' : state_ok key st') by (destruct Hp as (? & ? & Hp); by eapply prepare_spec in Hp as [? _]).
      destruct (Hlaw (so_storable _ _ Hst')) as [(s' & e & Hr & _ & Hok & Hag)|(t2 & s' & w3 & Hr & ? & ? & Hok & Hw)].
      * exists t, (Err (ServiceOverloadedError e 1)), s', w2. refine (conj Hr (conj Ht (conj _ (conj _ _)))); [lia| |].
        -- by eapply (service_ok_agree t); [done|lia|lia|..].
        -- unfold phase_spec. rewrite Hlive. left. eexists. split_and!; [done|by right; eexists|done].
      * exists t, (Ok (Some st')), s', w3. refine (conj Hr (conj Ht (conj _ (conj _ _)))); [lia| |].
        -- by eapply (service_ok_written t2); [done|lia|lia|..].
        -- unfold phase_spec. rewrite Hlive. right. exists st'. split_and!; [done|done|]. exists t2. split_and!; [lia|lia|done].
    + destruct Hlaw as (s' & Hr & Hok & Hag). exists t, (Err e), s', w2. refine (conj Hr (conj Ht (conj _ (conj _ _)))); [lia| |].
      * by eapply (service_ok_agree t); [done|lia|lia|..].
      * unfold phase_spec. rewrite Hlive. left. exists e. split_and!; [done| |done]. left.
        unfold callback in Hfn. apply sbind_Err in Hfn as [Htr|(? & ? & _ & Hret)]; [|done].
        destruct prepared as [p|]; cbn [transition_state] in Htr; [done|]. by exists w1, w2.
Qed.
End Transition.

(** ** A whole call *)

Section Call.
Context `{U : UnicodeDB, H : HashLib, I : Interpreter} {S W : Type}.
Context `{!World W, !WorldLaws W, !RestorationStore S W, L : !StoreLaws S W}.
Context (detectors : list (PIIDetector W)) `{D : !DetectorsOk detectors}.

Lemma timed_store {A} (m : storeM A) (s : S) (w : W) :
  ∃ w0, clock w <= clock w0 ∧ ∀ r s1 w1, m (s, w0) = (r, (s1, w1)) →
    ∃ ms w2, clock w1 <= clock w2 ∧
      timed m (s, w) = (match r with Ok a => Ok (a, ms) | Err e => Err e end, (s1, w2)).
Proof.
  unfold timed, perf_counter, store_perf. pose proof (perf_clock w) as Hc.
  destruct (perf_counter w) as [q w0]. exists w0. split; [exact Hc|].
  intros r s1 w1 ->. pose proof (perf_clock w1) as Hc1.
  destruct r as [a|e]; destruct (perf_counter w1) as [q1 w2]; by exists ((q1 - q) * 1000)%Q, w2.
Qed.

Lemma phase_spec_weaken payload key policy t t0 s s0 s' w' w'' r :
  t0 <= t → agree_from live t0 s s0 → clock w' <= clock w'' →
  phase_spec detectors payload key policy t s0 s' w' r → phase_spec detectors payload key policy t s s' w'' r.
Proof.
  intros Ht Hag Hw. unfold phase_spec. rewrite (Hag t key) by done.
  assert (Hwr : ∀ st, (∃ t2, t <= t2 ∧ t2 <= clock w' ∧ written live store_ttl t2 key st s0 s') →
                      ∃ t2, t <= t2 ∧ t2 <= clock w'' ∧ written live store_ttl t2 key st s s').
  { intros st (t2 & ? & ? & Hwr). exists t2. split; [done|]. split; [lia|]. intros u k Hu.
    rewrite Hwr by done. case_decide; [done|]. apply Hag. lia. }
  assert (Hagr : agree_from live t s0 s' → agree_from live t s s') by (intros; by eapply agree_trans).
  destruct (live s t key) as [st|].
  - destruct (verdict st payload policy); intros [-> Hs]; auto.
  - intros [(e & -> & ? & ?)|(st' & -> & ? & Hs)]; [left; exists e|right; exists st']; auto.
Qed.

(** The stages [process] times. *)
Definition stage_names (prepared : bool) : list pystr :=
  if prepared then [u8 "state_lookup_ms"; u8 "prepare_ms"; u8 "transition_ms"]
  else [u8 "state_lookup_ms"; u8 "transition_ms"].

(** How [process_body] ends, given the transition's result. *)
Definition body_result (r : result exn (option RestorationState))
    (x : result exn (ProcessOutcome * list (pystr * Q))) : Prop :=
  match r with
  | Err e => x = Err e
  | Ok o => ∃ prepared timings, timings.*1 = stage_names prepared ∧
      x = (out ← outcome_from_state o; Ok (out, timings))
  end.

(** The transition and what follows it. *)
Definition body_tail (payload key : pystr) (policy : ConsumerPolicy)
    (prepared : option RestorationState) (timings : list (pystr * Q))
    : storeM (S := S) (ProcessOutcome * list (pystr * Q)) :=
  tr <-- timed (store_transition key (callback detectors payload key policy prepared));
  let '(st, ms) := tr in
  outcome <-- slift (outcome_from_state st);
  sret (outcome, dict_set (u8 "transition_ms") ms timings).

Lemma body_tail_spec payload key policy pid prepared (was_prepared : bool) timings s w :
  service_ok s w → request_ok payload policy → state_key (cp_consumer_id policy) pid = Ok key →
  (∀ st, prepared = Some st → prepares detectors payload key policy st) →
  (∀ ms, (dict_set (u8 "transition_ms") ms timings).*1 = stage_names was_prepared) →
  ∃ t r x s' w', body_tail payload key policy prepared timings (s, w) = (x, (s', w')) ∧
    clock w <= t ∧ t <= clock w' ∧ service_ok s' w' ∧
    phase_spec detectors payload key policy t s s' w' r ∧ body_result r x.
Proof using D.
  intros Hsv Hrq Hkey Hprep Htim. unfold body_tail.
  destruct (timed_store (store_transition key (callback detectors payload key policy prepared)) s w)
    as (w0 & Hw0 & Hrun).
  destruct (transition_phase detectors payload key policy pid prepared s w0)
    as (t & r & s' & w1 & Htr & ? & ? & Hsv' & Hph); [by eapply service_ok_later|done..|].
  destruct (Hrun _ _ _ Htr) as (ms & w2 & Hw2 & Htimed).
  set (timings' := dict_set (u8 "transition_ms") ms timings).
  exists t, r, (match r with
                | Err e => Err e
                | Ok o => out ← outcome_from_state o; Ok (out, timings')
                end), s', w2.
  split; [unfold sbind; rewrite Htimed; destruct r as [o|e]; [|done]|].
  { unfold slift, sret. by destruct (outcome_from_state o). }
  split; [lia|]. split; [lia|]. split; [by eapply service_ok_later|].
  split; [by eapply phase_spec_weaken; [..|exact Hw2|exact Hph]|].
  destruct r; [|done]. exists was_prepared, timings'. split; [apply Htim|done].
Qed.

Lemma process_body_steps payload key policy s w :
  process_body detectors payload key policy (s, w) =
    sbind (timed (store_get key)) (λ lookup,
      sbind (maybe_prepare detectors (lookup.1) payload key policy (dict_set (u8 "state_lookup_ms") (lookup.2) []))
        (λ prep, body_tail payload key policy (prep.1) (prep.2))) (s, w).
Proof.
  unfold process_body, sbind. destruct (timed (store_get key) (s, w)) as [[[found ms]|e] sw]; [|done].
  cbn [fst snd]. by destruct (maybe_prepare _ _ _ _ _ _ sw) as [[[prepared timings]|e] sw'].
Qed.

Lemma process_body_spec payload key policy pid s w :
  service_ok s w → request_ok payload policy → state_key (cp_consumer_id policy) pid = Ok key →
  ∃ t r x s' w', process_body detectors payload key policy (s, w) = (x, (s', w')) ∧
    clock w <= t ∧ t <= clock w' ∧ service_ok s' w' ∧
    phase_spec detectors payload key policy t s s' w' r ∧ body_result r x.
Proof using D.
  intros Hsv Hrq Hkey. rewrite process_body_steps. unfold sbind at 1.
  destruct (timed_store (store_get key) s w) as (w0 & Hw0 & Hrun).
  destruct (store_get_law key s w0) as (t0 & s0 & w1 & Hget & ? & ? & Hok0 & Hag0);
    [by eapply service_ok_later|].
  assert (Hsv0 : service_ok s0 w1) by (by eapply (service_ok_agree t0); [done|lia|lia|..]).
  destruct (Hrun _ _ _ Hget) as (ms & w2 & Hw2 & ->). cbn [fst snd].
  assert (Hsv2 : service_ok s0 w2) by by eapply service_ok_later.
  destruct (live s t0 key) as [st|] eqn:Hlive; cbn [maybe_prepare]; unfold sbind at 1.
  - cbn [sret fst snd].
    destruct (body_tail_spec payload key policy pid None false [(u8 "state_lookup_ms", ms)] s0 w2)
      as (t & r & x & s' & w' & Hrun' & ? & ? & Hsv' & Hph & Hx); [done..|].
    exists t, r, x, s', w'. split; [exact Hrun'|]. split; [lia|]. split; [done|]. split; [done|].
    split; [|done]. eapply (phase_spec_weaken _ _ _ _ t0); [lia|done|reflexivity|done].
  - unfold sbind at 1.
    destruct (timed_store (in_world (prepare_mask detectors payload key policy)) s0 w2) as (w3 & Hw3 & Hrun').
    destruct (prepare_mask detectors payload key policy w3) as [p w4] eqn:Hprep.
    pose proof (prepare_forward detectors payload key policy w3) as Hclk. rewrite Hprep in Hclk. simpl in Hclk.
    destruct (Hrun' p s0 w4) as (ms' & w5 & Hw5 & ->); [unfold in_world; by rewrite Hprep|].
    destruct p as [st|e].
    + cbn [sret fst snd].
      destruct (body_tail_spec payload key policy pid (Some st) true
                 [(u8 "state_lookup_ms", ms); (u8 "prepare_ms", ms')] s0 w5)
        as (t & r & x & s' & w' & Hrun'' & ? & ? & Hsv' & Hph & Hx);
        [by eapply service_ok_later; [exact Hsv2|lia]|done|done| |done|].
      { intros ? [= <-]. by exists w3, w4. }
      exists t, r, x, s', w'. split; [exact Hrun''|]. split; [lia|]. split; [done|]. split; [done|].
      split; [|done]. eapply (phase_spec_weaken _ _ _ _ t0); [lia|done|reflexivity|done].
    + exists t0, (Err e), (Err e), s0, w5. split; [done|]. split; [lia|]. split; [lia|].
      split; [by eapply service_ok_later; [exact Hsv2|lia]|]. split; [|done].
      unfold phase_spec. rewrite Hlive. left. exists e. split; [done|]. split; [|done]. left. by exists w3, w4.
Qed.
End Call.

(** ** What a call returns and records *)

Definition outcome_of (st : RestorationState) : ProcessOutcome :=
  match state st with
  | MASKED => _outcome (Restoration.masked_text st) MASK st
  | DEMASKED => _outcome (original_text st) DEMASK st
  end.

(** The metrics of a successful call. *)
Definition call_metrics (o : ProcessOutcome) (bytes_sent : Z) (m : Metrics) : Metrics :=
  fold_left (λ m p, recorder_stage (p.1) (p.2) m) (out_stage_timings o)
    (record_payload_size bytes_sent
       (record_entities (out_entity_count o)
          (recorder_request (operation_value (out_operation o)) (out_duration_ms o) m))).

Section Outcome.
Context `{U : UnicodeDB, H : HashLib, I : Interpreter} {S W : Type}.
Context `{!World W, !WorldLaws W, !RestorationStore S W, L : !StoreLaws S W}.
Context (detectors : list (PIIDetector W)) `{D : !DetectorsOk detectors}.

(** A transition that stored a state saw a payload UTF-8 can encode. *)
Lemma phase_encodes payload key policy t s s' w' st' :
  (∀ st, live s t key = Some st → state_ok key st) →
  phase_spec detectors payload key policy t s s' w' (Ok (Some st')) → ∃ data, utf8_encode payload = Ok data.
Proof.
  intros Hst. unfold phase_spec. destruct (live s t key) as [st|].
  - specialize (Hst st eq_refl). unfold verdict. intros Hv.
    assert (Hmasked : payload = Restoration.masked_text st → ∃ data, utf8_encode payload = Ok data).
    { intros ->. apply scalar_encodes, Hst. }
    destruct (negb _); [by destruct Hv|]. destruct (state st).
    + destruct (hash_payload payload) as [h|e] eqn:Hh; [|by destruct Hv]. by eapply hash_payload_encodes.
    + case_bool_decide as Hp; [auto|by destruct Hv].
  - intros [(e & ? & _)|(st & _ & (w1 & w2 & Hp) & _)]; [done|].
    unfold prepare_mask in Hp.
    apply sbind_Ok in Hp as (? & ? & _ & Hp). apply sbind_Ok in Hp as (? & ? & _ & Hp).
    apply sbind_Ok in Hp as (h & ? & Hh & _). unfold slift in Hh. injection Hh as Hh _.
    by eapply hash_payload_encodes.
Qed.

(** The result of a call, given that of its transition. *)
Definition call_result (payload : pystr) (r : result exn (option RestorationState)) (m m' : Metrics)
    (res : result exn ProcessOutcome) : Prop :=
  match r with
  | Ok (Some st) => ∃ prepared ms timings data,
      utf8_encode payload = Ok data ∧ timings.*1 = stage_names prepared ∧
      res = Ok (with_timings (outcome_of st) ms timings) ∧
      m' = call_metrics (with_timings (outcome_of st) ms timings) (slen data) m
  | Ok None => False
  | Err e => res = Err e ∧ m' = m
  end.

Lemma process_spec payload pid policy key s w m :
  payload ≠ [] → pid ≠ [] → service_ok s w → request_ok payload policy →
  state_key (cp_consumer_id policy) pid = Ok key →
  ∃ t r res s' w' m', process detectors payload pid policy ((s, w), m) = (res, ((s', w'), m')) ∧
    clock w <= t ∧ t <= clock w' ∧ service_ok s' w' ∧
    phase_spec detectors payload key policy t s s' w' r ∧ call_result payload r m m' res.
Proof using D.
  intros Hp Hpid Hsv Hrq Hkey. unfold process.
  rewrite !bool_decide_eq_false_2 by done. cbn [orb]. rewrite Hkey. unfold sbind at 1, slift at 1.
  destruct (timed_store (process_body detectors payload key policy) s w) as (w0 & Hw0 & Hrun).
  destruct (process_body_spec detectors payload key policy pid s w0)
    as (t & r & x & s' & w1 & Hbody & ? & ? & Hsv' & Hph & Hx); [by eapply service_ok_later|done..|].
  destruct (Hrun _ _ _ Hbody) as (ms & w2 & Hw2 & Htimed).
  assert (Hin : ∀ m, in_store (timed (process_body detectors payload key policy)) ((s, w), m) =
    (match x with Ok a => Ok (a, ms) | Err e => Err e end, ((s', w2), m)))
    by (intros; unfold in_store; by rewrite Htimed).
  assert (Hph' : phase_spec detectors payload key policy t s s' w2 r)
    by (eapply (phase_spec_weaken _ _ _ _ _ t); [reflexivity|done|exact Hw2|exact Hph]).
  assert (Hsv2 : service_ok s' w2) by by eapply service_ok_later.
  unfold sbind at 1. rewrite Hin.
  destruct r as [[st|]|e]; cbn [body_result] in Hx.
  - destruct Hx as (prepared & timings & Hnames & ->).
    destruct (phase_encodes _ _ _ _ _ _ _ _ (λ st Hlive, proj2 Hsv t key st ltac:(lia) Hlive) Hph') as (data & Hdata).
    assert (outcome_from_state (Some st) = Ok (outcome_of st)) as ->
      by (unfold outcome_of; cbn; by destruct (state st)).
    cbn [mbind result_bind]. exists t, (Ok (Some st)).
    exists (Ok (with_timings (outcome_of st) ms timings)), s', w2.
    exists (call_metrics (with_timings (outcome_of st) ms timings) (slen data) m).
    split; [|split; [lia|split; [lia|split; [done|split; [done|by exists prepared, ms, timings, data]]]]].
    unfold sbind, slift, record, sret. by rewrite Hdata.
  - exfalso. unfold phase_spec in Hph. destruct (live s t key).
    + destruct (verdict _ _ _); by destruct Hph.
    + by destruct Hph as [(? & ? & _)|(? & ? & _)].
  - subst x. exists t, (Err e), (Err e), s', w2, m.
    split; [done|split; [lia|split; [lia|split; [done|split; done]]]].
Qed.
End Outcome.

(** ** The session a payload id stands for *)

(** The abstract contract: a consumer's original text and its mask, and
    whether the mask has been handed in again. *)
Record session := mkSession {
  ss_consumer : pystr;
  ss_original : pystr;
  ss_masked : pystr;
  ss_demasked : bool
}.

Inductive answer :=
  | Answer (op : Operation) (text : pystr)
  | Refused (e : exn).

Definition respond (ss : session) (payload : pystr) (policy : ConsumerPolicy) : answer * session :=
  if negb (bool_decide (ss_consumer ss = cp_consumer_id policy)) then (Refused mismatch, ss)
  else if ss_demasked ss then
    if bool_decide (payload = ss_masked ss) then (Answer DEMASK (ss_original ss), ss) else (Refused mismatch, ss)
  else if bool_decide (payload = ss_original ss) then (Answer MASK (ss_masked ss), ss)
  else if bool_decide (payload = ss_masked ss) then
    if cp_demasking_enabled policy
    then (Answer DEMASK (ss_original ss), mkSession (ss_consumer ss) (ss_original ss) (ss_masked ss) true)
    else (Refused demasking_disabled, ss)
  else (Refused mismatch, ss).

Definition session_of (st : RestorationState) : session :=
  mkSession (consumer_id st) (original_text st) (Restoration.masked_text st) (bool_decide (state st = DEMASKED)).

(** [st'] may follow [st] in one lifetime: the status alone moves, forwards. *)
Definition evolves (st st' : RestorationState) : Prop :=
  st' = st ∨ (state st = MASKED ∧ st' = set_demasked st).

Lemma evolves_trans st st' st'' : evolves st st' → evolves st' st'' → evolves st st''.
Proof. unfold evolves. intros [->|[? ->]] [->|[Hs ->]]; auto. Qed.

Lemma evolves_session st st' : evolves st st' → session_of st' = session_of st ∨
  session_of st' = mkSession (consumer_id st) (original_text st) (Restoration.masked_text st) true.
Proof. intros [->|[_ ->]]; [by left|by right]. Qed.

(** The requests of a run, one after the other; a refused one changes the
    state as the code leaves it. *)
Record request := mkRequest { rq_text : pystr; rq_id : pystr; rq_policy : ConsumerPolicy }.

Section Run.
Context `{U : UnicodeDB, H : HashLib} {S W : Type} `{!World W, !RestorationStore S W}.
Context (detectors : list (PIIDetector W)).

Fixpoint run (rs : list request) (st : (S * W) * Metrics) : (S * W) * Metrics :=
  match rs with
  | [] => st
  | r :: rs => run rs (process detectors (rq_text r) (rq_id r) (rq_policy r) st).2
  end.
End Run.

Section Sessions.
Context `{U : UnicodeDB, H : HashLib, I : Interpreter} {S W : Type}.
Context `{!World W, !WorldLaws W, !RestorationStore S W, L : !StoreLaws S W}.
Context (detectors : list (PIIDetector W)) `{D : !DetectorsOk detectors}.

Definition collision_free (payload : pystr) (st : RestorationState) : Prop :=
  hash_payload payload = Ok (original_hash st) → payload = original_text st.

Lemma verdict_respond k st payload policy :
  state_ok k st → Forall scalar payload → collision_free payload st →
  match respond (session_of st) payload policy with
  | (Answer op text, ss) => ∃ st', verdict st payload policy = Ok st' ∧ evolves st st' ∧
      session_of st' = ss ∧ out_operation (outcome_of st') = op ∧ out_result (outcome_of st') = text
  | (Refused e, _) => verdict st payload policy = Err e
  end.
Proof.
  intros Hok Hsc Hcf. unfold respond, verdict. cbn [ss_consumer ss_demasked ss_original ss_masked session_of].
  case_bool_decide as Hc; [|done]. cbn [negb].
  destruct (scalar_encodes _ Hsc) as (data & Hdata).
  assert (Hh : ∃ h, hash_payload payload = Ok h) by (unfold hash_payload; rewrite Hdata; by eexists).
  destruct Hh as (h & Hh). rewrite Hh. cbn [mbind result_bind].
  assert (Heq : bool_decide (h = original_hash st) = bool_decide (payload = original_text st)).
  { apply bool_decide_ext. split.
    - intros ->. by apply Hcf.
    - intros ->. destruct Hok as [_ _ Hhash _]. congruence. }
  rewrite Heq. unfold demask_state. destruct (state st) eqn:Hs.
  - rewrite (bool_decide_eq_false_2 (MASKED = DEMASKED)) by done.
    destruct (bool_decide (payload = original_text st)).
    + exists st. unfold outcome_of, session_of. rewrite Hs. by split_and!; [|left|..].
    + destruct (bool_decide (payload = Restoration.masked_text st)); [|done].
      destruct (cp_demasking_enabled policy); [|done].
      exists (set_demasked st). split_and!; try done. by right.
  - rewrite (bool_decide_eq_true_2 (DEMASKED = DEMASKED)) by done.
    destruct (bool_decide (payload = Restoration.masked_text st)); [|done].
    exists st. unfold outcome_of, session_of. rewrite Hs. by split_and!; [|left|..].
Qed.

(** What a preparation stores is a fresh session. *)
Lemma prepared_session payload pid key policy st :
  request_ok payload policy → state_key (cp_consumer_id policy) pid = Ok key →
  prepares detectors payload key policy st →
  state_ok key st ∧ session_of st = mkSession (cp_consumer_id policy) payload (Restoration.masked_text st) false ∧
  outcome_of st = _outcome (Restoration.masked_text st) MASK st.
Proof using D.
  intros Hrq Hkey (w1 & w2 & Hp).
  destruct (prepare_spec detectors payload key policy pid w1 st w2 Hrq Hkey Hp) as (Hok & Ho & Hs & Hc).
  unfold session_of, outcome_of. by rewrite Ho, Hs, Hc.
Qed.

(** A call that returns has stored a state. *)
Lemma process_stored payload pid policy key s w m out s' w' m' :
  payload ≠ [] → pid ≠ [] → service_ok s w → request_ok payload policy →
  state_key (cp_consumer_id policy) pid = Ok key →
  process detectors payload pid policy ((s, w), m) = (Ok out, ((s', w'), m')) →
  service_ok s' w' ∧ clock w <= clock w' ∧
  ∃ st' t t2 ms timings, clock w <= t ∧ t <= t2 ∧ t2 <= clock w' ∧ written live store_ttl t2 key st' s s' ∧
    state_ok key st' ∧ out = with_timings (outcome_of st') ms timings ∧
    match live s t key with
    | Some st => verdict st payload policy = Ok st' ∧ state_ok key st
    | None => prepares detectors payload key policy st'
    end.
Proof using D.
  intros Hp Hpid Hsv Hrq Hkey Hrun.
  destruct (process_spec detectors payload pid policy key s w m)
    as (t & r & res & s1 & w1 & m1 & Hrun' & ? & ? & Hsv' & Hph & Hres); [done..|].
  rewrite Hrun in Hrun'. injection Hrun' as <- <- <- <-.
  split; [done|]. split; [lia|].
  destruct r as [[st'|]|e]; cbn [call_result] in Hres; [|done|by destruct Hres].
  destruct Hres as (prepared & ms & timings & data & _ & _ & Hout & _). apply (inj Ok) in Hout.
  unfold phase_spec in Hph. destruct (live s t key) as [st|] eqn:Hlive.
  - assert (Hst : state_ok key st) by by eapply Hsv.
    destruct (verdict st payload policy) as [st''|] eqn:Hv; [|by destruct Hph].
    destruct Hph as [Heq (t2 & ? & ? & Hw)]. apply (inj Ok), (inj Some) in Heq as <-.
    destruct (verdict_ok _ _ _ _ _ Hst Hv) as [Hst' _].
    exists st', t, t2, ms, timings. rewrite Hlive. by split_and!.
  - destruct Hph as [(e & Heq & _)|(st'' & Heq & Hpr & t2 & ? & ? & Hw)]; [done|].
    apply (inj Ok), (inj Some) in Heq as <-.
    destruct (prepared_session _ _ _ _ _ Hrq Hkey Hpr) as (Hst' & _).
    exists st', t, t2, ms, timings. rewrite Hlive. by split_and!.
Qed.
End Sessions.

(** *** Steps of a run *)

Section Evolution.
Context `{U : UnicodeDB, H : HashLib, I : Interpreter} {S W : Type}.
Context `{!World W, !WorldLaws W, !RestorationStore S W, L : !StoreLaws S W}.
Context (detectors : list (PIIDetector W)) `{D : !DetectorsOk detectors}.

(** What a request must be to move the session [st] of key [k]: its mask,
    handed in under its id with demasking enabled, and not taken for the
    original. *)
Definition hands_in (k : pystr) (st : RestorationState) (r : request) : Prop :=
  state_key (cp_consumer_id (rq_policy r)) (rq_id r) = Ok k ∧ state st = MASKED ∧
  rq_text r = Restoration.masked_text st ∧ cp_demasking_enabled (rq_policy r) = true ∧
  hash_payload (rq_text r) ≠ Ok (original_hash st).

Lemma verdict_moves st payload policy st' :
  verdict st payload policy = Ok st' →
  consumer_id st = cp_consumer_id policy ∧
  (st' = st ∨
   st' = set_demasked st ∧ state st = MASKED ∧ payload = Restoration.masked_text st ∧
   cp_demasking_enabled policy = true ∧ hash_payload payload ≠ Ok (original_hash st)).
Proof.
  unfold verdict, demask_state. case_bool_decide as Hc; [|done]. cbn [negb]. intros Hv. split; [done|]. revert Hv.
  destruct (state st) eqn:Hs.
  - destruct (hash_payload payload) as [h|]; [|done]. cbn [mbind result_bind].
    case_bool_decide; [intros [= <-]; by left|]. case_bool_decide; [|done].
    destruct (cp_demasking_enabled policy); [|done]. intros [= <-]. right. split_and!; congruence.
  - case_bool_decide; [|done]. intros [= <-]. by left.
Qed.

Lemma verdict_evolves st payload policy st' : verdict st payload policy = Ok st' → evolves st st'.
Proof. intros [_ [->|(-> & ? & _)]]%verdict_moves; [by left|by right]. Qed.

(** A refused or failed request leaves the service's state well formed. *)
Lemma process_any r s w m :
  service_ok s w → request_ok (rq_text r) (rq_policy r) →
  ∃ res s' w' m', process detectors (rq_text r) (rq_id r) (rq_policy r) ((s, w), m) = (res, ((s', w'), m')) ∧
    service_ok s' w' ∧ clock w <= clock w' ∧
    ((∃ e t, res = Err e ∧ clock w <= t ∧ t <= clock w' ∧ agree_from live t s s') ∨
     ∃ key out, res = Ok out ∧ rq_text r ≠ [] ∧ rq_id r ≠ [] ∧
       state_key (cp_consumer_id (rq_policy r)) (rq_id r) = Ok key).
Proof using D.
  intros Hsv Hrq.
  assert (Hfail : ∀ e, process detectors (rq_text r) (rq_id r) (rq_policy r) ((s, w), m) = (Err e, ((s, w), m)) →
    ∃ res s' w' m', process detectors (rq_text r) (rq_id r) (rq_policy r) ((s, w), m) = (res, ((s', w'), m')) ∧
    service_ok s' w' ∧ clock w <= clock w' ∧
    ((∃ e t, res = Err e ∧ clock w <= t ∧ t <= clock w' ∧ agree_from live t s s') ∨
     ∃ key out, res = Ok out ∧ rq_text r ≠ [] ∧ rq_id r ≠ [] ∧
       state_key (cp_consumer_id (rq_policy r)) (rq_id r) = Ok key)).
  { intros e He. exists (Err e), s, w, m. split_and!; [done|apply Hsv|reflexivity|].
    left. exists e, (clock w). split_and!; [done|reflexivity|reflexivity|apply agree_refl]. }
  destruct (decide (rq_text r = [] ∨ rq_id r = [])) as [Hempty|Hne].
  { apply (Hfail required_error). unfold process.
    assert (bool_decide (rq_text r = []) || bool_decide (rq_id r = []) = true) as ->; [|done].
    apply orb_true_iff. rewrite !bool_decide_eq_true. done. }
  destruct (state_key (cp_consumer_id (rq_policy r)) (rq_id r)) as [key|e] eqn:Hkey.
  2: { apply (Hfail e). unfold process. rewrite !bool_decide_eq_false_2 by tauto. cbn [orb].
       unfold sbind, slift. by rewrite Hkey. }
  destruct (process_spec detectors (rq_text r) (rq_id r) (rq_policy r) key s w m)
    as (t & x & res & s' & w' & m' & Hrun & ? & ? & Hsv' & Hph & Hres); [tauto|tauto|done..|].
  exists res, s', w', m'. split; [done|]. split; [done|]. split; [lia|].
  destruct x as [[st'|]|e]; cbn [call_result] in Hres; [|done|].
  - destruct Hres as (? & ms & timings & ? & _ & _ & -> & _). right. eexists key, _. split_and!; try done; tauto.
  - destruct Hres as [-> _]. left. exists e, t. split_and!; try done.
    unfold phase_spec in Hph. destruct (live s t key).
    + destruct (verdict _ _ _); by destruct Hph.
    + by destruct Hph as [(? & _ & _ & ?)|(? & ? & _)].
Qed.

(** One request and a state live until [u], after the request. *)
Lemma process_step r s w m k st u :
  service_ok s w → request_ok (rq_text r) (rq_policy r) → live s u k = Some st →
  ∃ s' w' m', (process detectors (rq_text r) (rq_id r) (rq_policy r) ((s, w), m)).2 = ((s', w'), m') ∧
    service_ok s' w' ∧ clock w <= clock w' ∧
    (clock w' <= u → ∃ st', live s' u k = Some st' ∧ (st' = st ∨ st' = set_demasked st ∧ hands_in k st r)).
Proof using D.
  intros Hsv Hrq Hlive.
  destruct (process_any r s w m Hsv Hrq) as (res & s' & w' & m' & Hrun & Hsv' & Hclk & Hcase).
  exists s', w', m'. rewrite Hrun. split_and!; [done|apply Hsv'|done|]. intros Hu.
  destruct Hcase as [(e & t & -> & ? & ? & Hag)|(key & out & -> & Hp & Hpid & Hkey)].
  { exists st. rewrite Hag by lia. split; [done|by left]. }
  destruct (process_stored detectors _ _ _ _ _ _ _ _ _ _ _ Hp Hpid Hsv Hrq Hkey Hrun)
    as (_ & _ & st' & t & t2 & ms & timings & ? & ? & ? & Hw & Hst' & -> & Hv).
  rewrite (Hw u k) by lia. case_decide as Hk; [subst k|by exists st; split; [|left]].
  pose proof (live_horizon s w u key st (proj1 Hsv) Hlive).
  rewrite (proj2 (Z.ltb_lt u _)) by lia. exists st'. rewrite with_id_same by apply Hst'. split; [done|].
  rewrite (live_expires s t u key st) in Hv by (done || lia).
  destruct Hv as [Hv Hst]. apply verdict_moves in Hv as [_ [->|(-> & ? & ? & ? & ?)]]; [by left|right].
  by split_and!.
Qed.

(** Along a run a session stays as it was until its mask is handed in. *)
Lemma run_forward rs s w m :
  service_ok s w → Forall (λ r, request_ok (rq_text r) (rq_policy r)) rs →
  clock w <= clock ((run detectors rs ((s, w), m)).1.2).
Proof using D.
  intros Hsv Hrs. revert s w m Hsv. induction Hrs as [|r rs Hr Hrs IH]; intros s w m Hsv; [simpl; lia|].
  cbn [run]. destruct (process_any r s w m Hsv Hr) as (? & s' & w' & m' & Hrun & Hsv' & ? & _).
  rewrite Hrun. cbn [snd]. specialize (IH s' w' m' Hsv'). lia.
Qed.

Lemma run_service_ok rs s w m :
  service_ok s w → Forall (λ r, request_ok (rq_text r) (rq_policy r)) rs →
  service_ok ((run detectors rs ((s, w), m)).1.1) ((run detectors rs ((s, w), m)).1.2).
Proof using D.
  intros Hsv Hrs. revert s w m Hsv. induction Hrs as [|r rs Hr Hrs IH]; intros s w m Hsv; [done|].
  cbn [run]. destruct (process_any r s w m Hsv Hr) as (? & s' & w' & m' & Hrun & Hsv' & ? & _).
  rewrite Hrun. by apply IH.
Qed.

Lemma run_session rs s w m k st u :
  service_ok s w → Forall (λ r, request_ok (rq_text r) (rq_policy r)) rs → live s u k = Some st →
  clock ((run detectors rs ((s, w), m)).1.2) <= u →
  service_ok ((run detectors rs ((s, w), m)).1.1) ((run detectors rs ((s, w), m)).1.2) ∧
  ∃ st', live ((run detectors rs ((s, w), m)).1.1) u k = Some st' ∧
    (st' = st ∨ st' = set_demasked st ∧ Exists (hands_in k st) rs).
Proof using D.
  intros Hsv Hrs. revert s w m st Hsv. induction Hrs as [|r rs Hr Hrs IH]; intros s w m st Hsv Hlive Hu.
  { split; [done|]. exists st. by split; [|left]. }
  cbn [run] in *.
  destruct (process_step r s w m k st u Hsv Hr Hlive) as (s' & w' & m' & Hrun & Hsv' & Hclk & Hst).
  rewrite Hrun in *. pose proof (run_forward rs s' w' m' Hsv' Hrs).
  destruct (Hst ltac:(lia)) as (st' & Hlive' & Hev).
  destruct (IH s' w' m' st' Hsv' Hlive' Hu) as (Hok & st'' & ? & Hev'). split; [done|].
  exists st''. split; [done|]. destruct Hev as [->|[-> Hhand]].
  - destruct Hev' as [->|[-> ?]]; [by left|]. right. split; [done|]. by apply Exists_cons_tl.
  - right. split; [|by apply Exists_cons_hd]. by destruct Hev' as [->|[-> _]].
Qed.

(** A request leaves the states under other keys alone. *)
Lemma process_other_keys r s w m k key res s' w' m' :
  service_ok s w → request_ok (rq_text r) (rq_policy r) →
  state_key (cp_consumer_id (rq_policy r)) (rq_id r) = Ok key → k ≠ key →
  process detectors (rq_text r) (rq_id r) (rq_policy r) ((s, w), m) = (res, ((s', w'), m')) →
  ∀ u, clock w' <= u → live s' u k = live s u k.
Proof using D.
  intros Hsv Hrq Hkey Hne Hrun u Hu.
  destruct (process_any r s w m Hsv Hrq) as (res0 & s0 & w0 & m0 & Hrun' & _ & _ & Hcase).
  rewrite Hrun in Hrun'. injection Hrun' as <- <- <- <-.
  destruct Hcase as [(e & t & -> & ? & ? & Hag)|(key0 & out & -> & Hp & Hpid & Hkey0)]; [apply Hag; lia|].
  destruct (process_stored detectors _ _ _ _ _ _ _ _ _ _ _ Hp Hpid Hsv Hrq Hkey Hrun)
    as (_ & _ & st' & t & t2 & ms & timings & ? & ? & ? & Hw & _).
  rewrite (Hw u k) by lia. by rewrite decide_False.
Qed.
(** A masked text handed in under its id, while the session it came from is
    live, gets the text it was made from. *)
Lemma masked_returns st pid policy key s w m res s' w' m' :
  state_ok key st → Restoration.masked_text st ≠ [] → pid ≠ [] →
  service_ok s w → request_ok (Restoration.masked_text st) policy →
  cp_consumer_id policy = consumer_id st → cp_demasking_enabled policy = true →
  state_key (cp_consumer_id policy) pid = Ok key →
  (hash_payload (Restoration.masked_text st) = hash_payload (original_text st) →
   Restoration.masked_text st = original_text st) →
  process detectors (Restoration.masked_text st) pid policy ((s, w), m) = (res, ((s', w'), m')) →
  (∀ t, clock w <= t → t <= clock w' → ∃ st', live s t key = Some st' ∧ evolves st st') →
  ∃ out, res = Ok out ∧ out_result out = original_text st.
Proof using D.
  intros Hst Hne Hpid Hsv Hrq Hcons Hdem Hkey Hcf Hrun Hlive.
  destruct (process_spec detectors (Restoration.masked_text st) pid policy key s w m)
    as (t & r & res0 & s0 & w0 & m0 & Hrun' & ? & ? & _ & Hph & Hres); [done..|].
  rewrite Hrun in Hrun'. injection Hrun' as <- <- <- <-.
  destruct (Hlive t) as (st' & Hl & Hev); [done|done|].
  unfold phase_spec in Hph. rewrite Hl in Hph.
  assert (∃ st2, verdict st' (Restoration.masked_text st) policy = Ok st2 ∧
            out_result (outcome_of st2) = original_text st) as (st2 & Hv & Hout).
  { destruct (scalar_encodes _ (st_masked _ (so_storable _ _ Hst))) as (data & Hdata).
    assert (∃ h, hash_payload (Restoration.masked_text st) = Ok h) as (h & Hh)
      by (unfold hash_payload; rewrite Hdata; by eexists).
    unfold verdict. destruct Hev as [->|[Hs ->]]; cbn [set_demasked consumer_id state Restoration.masked_text];
      rewrite Hcons, bool_decide_eq_true_2 by done; cbn [negb]; rewrite ?Hh; cbn [mbind result_bind];
      rewrite (bool_decide_eq_true_2 (Restoration.masked_text st = _)) by done.
    - destruct (state st) eqn:Hs; [|exists st; split; [done|by unfold outcome_of; rewrite Hs]].
      destruct (bool_decide (h = original_hash st)) eqn:Heq; [apply bool_decide_eq_true in Heq|].
      + exists st. split; [done|]. unfold outcome_of. rewrite Hs. cbn [out_result _outcome].
        apply Hcf. by rewrite Hh, (so_hash _ _ Hst), Heq.
      + unfold demask_state. rewrite Hdem. exists (set_demasked st). by split.
    - exists (set_demasked st). by split. }
  rewrite Hv in Hph. destruct Hph as [-> _].
  destruct Hres as (? & ms & timings & ? & _ & _ & -> & _). by exists (with_timings (outcome_of st2) ms timings).
Qed.
End Evolution.

(** ** Properties *)

Section Properties.
Context `{U : UnicodeDB, H : HashLib, I : Interpreter} {S W : Type}.
Context `{!World W, !WorldLaws W, !RestorationStore S W, L : !StoreLaws S W}.
Context (detectors : list (PIIDetector W)) `{D : !DetectorsOk detectors}.

(** C2: [process] implements the session contract.  At one instant [t] of the
    call the state under the request's key is looked at.  A live session
    answers as [respond] says: the answer is returned and the new session is
    what every reader finds for a lifetime, or the refusal is raised and no
    reader sees a change; the detectors have no say.  Without a session the
    call starts one from the payload and returns its mask, or raises what the
    preparation raised, or is refused by the store, again with no visible
    change.  Other keys are never touched. *)
Theorem process_refines_session payload pid policy key s w m :
  payload ≠ [] → pid ≠ [] → service_ok s w → request_ok payload policy → Forall scalar payload →
  state_key (cp_consumer_id policy) pid = Ok key →
  (∀ t st, live s t key = Some st → collision_free payload st) →
  ∃ t res s' w' m', process detectors payload pid policy ((s, w), m) = (res, ((s', w'), m')) ∧
    clock w <= t ∧ t <= clock w' ∧ service_ok s' w' ∧
    match live s t key with
    | Some st =>
        match respond (session_of st) payload policy with
        | (Answer op text, ss) => ∃ out st' t2, res = Ok out ∧ out_operation out = op ∧ out_result out = text ∧
            session_of st' = ss ∧ t <= t2 ∧ t2 <= clock w' ∧ written live store_ttl t2 key st' s s'
        | (Refused e, _) => res = Err e ∧ agree_from live t s s'
        end
    | None =>
        (∃ e, res = Err e ∧ refuses detectors payload key policy e ∧ agree_from live t s s') ∨
        (∃ out st' t2, res = Ok out ∧ out_operation out = MASK ∧ prepares detectors payload key policy st' ∧
           session_of st' = mkSession (cp_consumer_id policy) payload (out_result out) false ∧
           t <= t2 ∧ t2 <= clock w' ∧ written live store_ttl t2 key st' s s')
    end.
Proof using D.
  intros Hp Hpid Hsv Hrq Hsc Hkey Hcf.
  destruct (process_spec detectors payload pid policy key s w m)
    as (t & r & res & s' & w' & m' & Hrun & ? & ? & Hsv' & Hph & Hres); [done..|].
  exists t, res, s', w', m'. refine (conj Hrun (conj _ (conj _ (conj Hsv' _)))); [done|done|].
  unfold phase_spec in Hph. destruct (live s t key) as [st|] eqn:Hlive.
  - assert (Hst : state_ok key st) by by eapply Hsv.
    pose proof (verdict_respond _ _ _ policy Hst Hsc (Hcf _ _ Hlive)) as Hv.
    destruct (respond (session_of st) payload policy) as [[op text|e] ss].
    + destruct Hv as (st' & Hv & _ & Hss & Hop & Htext). rewrite Hv in Hph.
      destruct Hph as [-> (t2 & ? & ? & Hw)].
      destruct Hres as (? & ms & timings & ? & _ & _ & -> & _). by eexists _, st', t2.
    + rewrite Hv in Hph. destruct Hph as [-> ?]. by destruct Hres as [-> _].
  - destruct Hph as [(e & -> & ? & ?)|(st' & -> & Hpr & t2 & ? & ? & Hw)].
    + left. exists e. by destruct Hres as [-> _].
    + right. destruct (prepared_session _ _ _ _ _ _ Hrq Hkey Hpr) as (_ & Hss & Ho).
      destruct Hres as (? & ms & timings & ? & _ & _ & -> & _). rewrite Ho. by eexists _, st', t2.
Qed.

(** The promise of the service: a masked text sent back under its id
    within one lifetime, with demasking enabled, returns the payload it was
    made from, whatever happened to the policy in between.  Hash collisions
    apart: of the payload with a live state it would be taken for, and of the
    mask with the payload. *)
Theorem mask_demask_roundtrip payload pid policy policy' key s w m out s1 w1 m1 res2 s2 w2 m2 :
  payload ≠ [] → pid ≠ [] → service_ok s w → request_ok payload policy →
  state_key (cp_consumer_id policy) pid = Ok key →
  (∀ t st, live s t key = Some st → collision_free payload st) →
  process detectors payload pid policy ((s, w), m) = (Ok out, ((s1, w1), m1)) → out_operation out = MASK →
  cp_consumer_id policy' = cp_consumer_id policy → cp_demasking_enabled policy' = true →
  out_result out ≠ [] → request_ok (out_result out) policy' →
  (hash_payload (out_result out) = hash_payload payload → out_result out = payload) →
  process detectors (out_result out) pid policy' ((s1, w1), m1) = (res2, ((s2, w2), m2)) →
  clock w2 < clock w + store_ttl →
  ∃ out2, res2 = Ok out2 ∧ out_result out2 = payload.
Proof using D.
  intros Hp Hpid Hsv Hrq Hkey Hcf Hrun Hmask Hcons Hdem Hne Hrq' Hcf' Hrun' Hclk.
  destruct (process_stored detectors _ _ _ _ _ _ _ _ _ _ _ Hp Hpid Hsv Hrq Hkey Hrun)
    as (Hsv1 & Hclk1 & st & t & t2 & ms & timings & ? & ? & ? & Hw & Hst & -> & Hv).
  assert (Hs : state st = MASKED) by (unfold outcome_of in Hmask; by destruct (state st)).
  assert (Htext : out_result (outcome_of st) = Restoration.masked_text st) by (unfold outcome_of; by rewrite Hs).
  cbn [out_result with_timings] in *. rewrite Htext in *.
  assert (Horig : original_text st = payload ∧ consumer_id st = cp_consumer_id policy).
  { destruct (live s t key) as [st0|] eqn:Hlive.
    - destruct Hv as [Hv Hst0]. destruct (verdict_evolves _ _ _ _ Hv) as [->|[_ ->]]; [|done].
      unfold verdict in Hv. rewrite Hs in Hv. case_bool_decide as Hc; [|done]. split; [|done].
      destruct (hash_payload payload) as [h|] eqn:Hh; [|done]. cbn [negb mbind result_bind] in Hv.
      case_bool_decide as Heq; [symmetry; apply (Hcf _ _ Hlive); by rewrite Hh, Heq|].
      case_bool_decide; [|done]. unfold demask_state in Hv. destruct (cp_demasking_enabled policy); [|done].
      apply (inj Ok), (f_equal state) in Hv. by rewrite Hs in Hv.
    - destruct Hv as (u1 & u2 & Hv).
      destruct (prepare_spec detectors _ _ _ pid _ _ _ Hrq Hkey Hv) as (_ & ? & _ & ?). done. }
  destruct Horig as [Ho Hc]. rewrite <-Hcons in Hkey. rewrite <-Ho.
  eapply (masked_returns detectors st); [exact Hst|done|exact Hpid|exact Hsv1|exact Hrq'| |done|exact Hkey| |exact Hrun'|].
  - by rewrite Hcons, Hc.
  - by rewrite Ho.
  - intros t' ? ?. exists st. rewrite (Hw t' key), decide_True by (done || lia).
    rewrite (proj2 (Z.ltb_lt t' _)) by lia. rewrite with_id_same by apply Hst. by split; [|left].
Qed.

(** A state returned by a verdict is returned again for the same payload,
    unless another consumer asks. *)
Lemma verdict_again k st payload policy policy' st' :
  state_ok k st → verdict st payload policy = Ok st' → cp_consumer_id policy' = cp_consumer_id policy →
  verdict st' payload policy' = Ok st'.
Proof using.
  intros Hok Hv Hc. unfold verdict in *. rewrite Hc. destruct (state st) eqn:Hs.
  - case_bool_decide as Hcons; [|done]. cbn [negb] in *.
    destruct (hash_payload payload) as [h|] eqn:Hh; [|done]. cbn [mbind result_bind] in *.
    case_bool_decide as Hhash.
    + apply (inj Ok) in Hv as <-. rewrite Hs, !bool_decide_eq_true_2 by done. done.
    + case_bool_decide as Hm; [|done]. unfold demask_state in Hv.
      destruct (cp_demasking_enabled policy); [|done]. apply (inj Ok) in Hv as <-. cbn.
      rewrite !bool_decide_eq_true_2 by done. done.
  - case_bool_decide as Hcons; [|done]. cbn [negb] in *. case_bool_decide as Hm; [|done].
    apply (inj Ok) in Hv as <-. rewrite Hs, !bool_decide_eq_true_2 by done. done.
Qed.

Lemma prepared_again payload pid key policy policy' st :
  request_ok payload policy → state_key (cp_consumer_id policy) pid = Ok key →
  prepares detectors payload key policy st → cp_consumer_id policy' = cp_consumer_id policy →
  verdict st payload policy' = Ok st.
Proof using D.
  intros Hrq Hkey (w1 & w2 & Hp) Hc.
  destruct (prepare_spec detectors payload key policy pid w1 st w2 Hrq Hkey Hp) as (Hok & Ho & Hs & Hcons).
  unfold verdict. rewrite Hs, Hcons, Hc, bool_decide_eq_true_2 by done. cbn [negb].
  rewrite <-Ho, (so_hash _ _ Hok). cbn [mbind result_bind]. by rewrite bool_decide_eq_true_2.
Qed.

(** Once its mask has been handed in, a session no longer takes the original. *)
Lemma verdict_after_demask st payload policy :
  verdict st payload policy = Ok st → state st = MASKED →
  hash_payload (Restoration.masked_text st) ≠ Ok (original_hash st) →
  verdict (set_demasked st) payload policy = Err mismatch.
Proof using.
  unfold verdict. intros Hv Hs Hh. rewrite Hs in Hv. cbn [set_demasked state consumer_id Restoration.masked_text].
  case_bool_decide; [|done]. cbn [negb] in *. rewrite bool_decide_eq_false_2; [done|]. intros ->.
  destruct (hash_payload _) as [h|]; [|done]. cbn [mbind result_bind] in Hv.
  rewrite bool_decide_eq_false_2, bool_decide_eq_true_2 in Hv by congruence.
  unfold demask_state in Hv. destruct (cp_demasking_enabled policy); [|done].
  apply (inj Ok), (f_equal state) in Hv. by rewrite Hs in Hv.
Qed.

(** C3: retries are idempotent: whatever a call answered, the same payload sent
    again for the same consumer and id within one lifetime, after any run of
    requests of any consumers and under a changed policy, gets the same
    result, operation, entity count and types; no new mask is made.  The one
    exception is a text sent again after its mask was handed in: the session
    has moved on and the answer is the mismatch error. *)
Theorem process_idempotent payload pid policy policy' key s w m out s1 w1 m1 rs s2 w2 m2 res3 s3 w3 m3 :
  payload ≠ [] → pid ≠ [] → service_ok s w → request_ok payload policy →
  state_key (cp_consumer_id policy) pid = Ok key →
  process detectors payload pid policy ((s, w), m) = (Ok out, ((s1, w1), m1)) →
  Forall (λ r, request_ok (rq_text r) (rq_policy r)) rs →
  run detectors rs ((s1, w1), m1) = ((s2, w2), m2) →
  cp_consumer_id policy' = cp_consumer_id policy →
  process detectors payload pid policy' ((s2, w2), m2) = (res3, ((s3, w3), m3)) →
  clock w3 < clock w + store_ttl →
  (∃ ms timings, res3 = Ok (with_timings out ms timings)) ∨
  (out_operation out = MASK ∧ res3 = Err mismatch ∧
   ∃ r, r ∈ rs ∧ state_key (cp_consumer_id (rq_policy r)) (rq_id r) = Ok key ∧
     rq_text r = out_result out ∧ cp_demasking_enabled (rq_policy r) = true).
Proof using D.
  intros Hp Hpid Hsv Hrq Hkey Hrun Hrs Hrun1 Hcons Hrun' Hclk.
  destruct (process_stored detectors _ _ _ _ _ _ _ _ _ _ _ Hp Hpid Hsv Hrq Hkey Hrun)
    as (Hsv1 & Hclk1 & st & t & t2 & ms & timings & ? & ? & ? & Hw & Hst & -> & Hv).
  assert (Hagain : verdict st payload policy' = Ok st).
  { destruct (live s t key); [destruct Hv; by eapply verdict_again|by eapply prepared_again]. }
  assert (Hrq' : request_ok payload policy') by (destruct Hrq; constructor; by rewrite ?Hcons).
  rewrite <-Hcons in Hkey. pose proof (run_forward detectors rs s1 w1 m1 Hsv1 Hrs) as Hclk2.
  pose proof (run_session detectors rs s1 w1 m1 key st (clock w3) Hsv1 Hrs) as Hsess.
  rewrite Hrun1 in Hclk2, Hsess. cbn [fst snd] in Hclk2, Hsess.
  assert (Hsv2 : service_ok s2 w2).
  { pose proof (run_service_ok detectors rs s1 w1 m1 Hsv1 Hrs) as Hok. by rewrite Hrun1 in Hok. }
  destruct (process_spec detectors payload pid policy' key s2 w2 m2)
    as (t' & r & res & s3' & w3' & m3' & Hrun2 & ? & ? & _ & Hph & Hres); [done..|].
  rewrite Hrun' in Hrun2. injection Hrun2 as <- <- <- <-.
  destruct Hsess as (_ & st2 & Hlive & Hst2); [|lia|].
  { rewrite (Hw (clock w3) key), decide_True by (done || lia).
    rewrite (proj2 (Z.ltb_lt _ _)) by lia. by rewrite with_id_same by apply Hst. }
  unfold phase_spec in Hph. rewrite (live_expires s2 t' (clock w3) key st2) in Hph by (done || lia).
  destruct Hst2 as [->|[-> Hhand]].
  - left. rewrite Hagain in Hph. destruct Hph as [-> _].
    destruct Hres as (? & ms' & timings' & ? & _ & _ & -> & _). by exists ms', timings'.
  - right. apply Exists_exists in Hhand as (q & Hq & Hqk & Hs & Hqt & Hqd & Hqh).
    rewrite (verdict_after_demask st) in Hph by (done || by rewrite <-Hqt). destruct Hph as [-> _].
    destruct Hres as [-> _]. unfold outcome_of. rewrite Hs. split; [done|]. split; [done|]. by exists q.
Qed.

(** A session survives any traffic: along every run of requests, of any
    consumers under any policies and whatever their outcome, a state that was
    live until [u] is still found until [u], with its texts, hash, mappings
    and owner unchanged and its status moved, if at all, from MASKED to
    DEMASKED. *)
Theorem run_keeps_session rs s w m k st u :
  service_ok s w → Forall (λ r, request_ok (rq_text r) (rq_policy r)) rs → live s u k = Some st →
  clock ((run detectors rs ((s, w), m)).1.2) <= u →
  service_ok ((run detectors rs ((s, w), m)).1.1) ((run detectors rs ((s, w), m)).1.2) ∧
  ∃ st', live ((run detectors rs ((s, w), m)).1.1) u k = Some st' ∧ evolves st st'.
Proof using D.
  intros Hsv Hrs Hlive Hu. destruct (run_session detectors rs s w m k st u Hsv Hrs Hlive Hu) as (Hok & st' & Hl & Hst').
  split; [done|]. exists st'. split; [done|]. destruct Hst' as [->|[-> Hhand]]; [by left|right].
  apply Exists_exists in Hhand as (r & _ & _ & ? & _). done.
Qed.

(** C5: consumers are isolated.  No request of another consumer, under whatever
    payload id, changes the state a consumer's key stands for, now or later.
    What a request is answered with comes from a state under a key of its own
    consumer that bears that consumer's name.  And a record that bears another
    name than the request's consumer, wherever it was found, is answered with
    the mismatch error by the transition, never with its texts. *)
Theorem consumers_isolated r s w m consumer pid k res s' w' m' :
  service_ok s w → request_ok (rq_text r) (rq_policy r) →
  state_key consumer pid = Ok k → cp_consumer_id (rq_policy r) ≠ consumer →
  process detectors (rq_text r) (rq_id r) (rq_policy r) ((s, w), m) = (res, ((s', w'), m')) →
  (∀ u, clock w' <= u → live s' u k = live s u k) ∧
  (∀ out, res = Ok out →
     ∃ key st ms timings t2, state_key (cp_consumer_id (rq_policy r)) (rq_id r) = Ok key ∧ key ≠ k ∧
       consumer_id st = cp_consumer_id (rq_policy r) ∧ out = with_timings (outcome_of st) ms timings ∧
       t2 <= clock w' ∧ written live store_ttl t2 key st s s') ∧
  (∀ st key prepared w0, consumer_id st ≠ cp_consumer_id (rq_policy r) →
     transition_state detectors (Some st) (rq_text r) key (rq_policy r) prepared w0 = (Err mismatch, w0)).
Proof using D.
  intros Hsv Hrq Hk Hne Hrun. split; [|split].
  - destruct (state_key (cp_consumer_id (rq_policy r)) (rq_id r)) as [key|e] eqn:Hkey.
    + apply (process_other_keys detectors r s w m k key res s' w' m' Hsv Hrq Hkey); [|exact Hrun].
      intros ->. apply Hne. by eapply state_key_consumer.
    + destruct (process_any detectors r s w m Hsv Hrq) as (? & ? & ? & ? & Hrun' & _ & _ & Hcase).
      rewrite Hrun in Hrun'. injection Hrun' as <- <- <- <-.
      destruct Hcase as [(e' & t & _ & ? & ? & Hag)|(? & ? & _ & _ & _ & ?)]; [|congruence].
      intros u Hu. apply Hag. lia.
  - intros out ->. destruct (process_any detectors r s w m Hsv Hrq) as (? & ? & ? & ? & Hrun' & _ & _ & Hcase).
    rewrite Hrun in Hrun'. injection Hrun' as <- <- <- <-.
    destruct Hcase as [(e' & _ & [=] & _)|(key & _ & _ & Hp & Hpid & Hkey)].
    destruct (process_stored detectors _ _ _ _ _ _ _ _ _ _ _ Hp Hpid Hsv Hrq Hkey Hrun)
      as (_ & _ & st & t & t2 & ms & timings & _ & _ & ? & Hw & _ & -> & Hv).
    exists key, st, ms, timings, t2. split_and!; try done; [intros ->; apply Hne; by eapply state_key_consumer|].
    destruct (live s t key).
    + destruct Hv as [[Hc [->|[-> _]]]%verdict_moves _]; exact Hc.
    + destruct Hv as (w1 & w2 & Hv).
      by destruct (prepare_spec detectors _ _ _ _ _ _ _ Hrq Hkey Hv) as (_ & _ & _ & ?).
  - intros st key prepared w0 Hst. unfold transition_state. by rewrite bool_decide_eq_false_2.
Qed.

(** The metrics of a call: a call that returns has recorded its operation,
    its entity count, the size of the payload in bytes and the stages it went
    through, preparation among them only when it prepared; a call that raises
    has recorded nothing. *)
Theorem process_metrics payload pid policy s w m res s' w' m' :
  service_ok s w → request_ok payload policy →
  process detectors payload pid policy ((s, w), m) = (res, ((s', w'), m')) →
  match res with
  | Ok out => ∃ prepared data, utf8_encode payload = Ok data ∧
      (out_stage_timings out).*1 = stage_names prepared ∧ m' = call_metrics out (slen data) m
  | Err _ => m' = m
  end.
Proof using D.
  intros Hsv Hrq Hrun. unfold process in Hrun at 1.
  destruct (bool_decide (payload = []) || bool_decide (pid = [])) eqn:Hne; [by injection Hrun as <- _ _ <-|].
  apply orb_false_iff in Hne as [Hp%bool_decide_eq_false Hpid%bool_decide_eq_false].
  destruct (state_key (cp_consumer_id policy) pid) as [key|e] eqn:Hkey.
  2: { unfold sbind, slift in Hrun. by injection Hrun as <- _ _ <-. }
  destruct (process_spec detectors payload pid policy key s w m)
    as (t & r & res0 & s0 & w0 & m0 & Hrun' & _ & _ & _ & _ & Hres); [done..|].
  unfold process in Hrun' at 1. rewrite !bool_decide_eq_false_2, Hkey in Hrun' by done. cbn [orb] in Hrun'.
  rewrite Hrun in Hrun'. injection Hrun' as <- <- <- <-.
  destruct r as [[st|]|e]; cbn [call_result] in Hres; [|done|by destruct Hres as [-> ->]].
  destruct Hres as (prepared & ms & timings & data & Hdata & Hnames & -> & ->). by exists prepared, data.
Qed.
End Properties.
