(* ===== verification/Service.v ===== *)
(** * The service, assembled ([app/api/dependencies.py])

    What [get_detection_engine], [get_restoration_store] and
    [get_process_service] build when the language model and Redis are off: the
    regex detector, the in-memory store and the process service over them.
    The regex detector meets what the process service asks of its detectors;
    the witnesses of the process service's properties are runs of this
    assembly. *)

From S2P Require Import Prelude Unicode Domain PyStr Utf8 Hashes Json Metrics Strategies Masking Resolution.
From S2P Require Import Regex Validators Detector Policy Restoration World StoreInterface MemoryStore Process.

(** [DetectionEngine(detectors=\[RegexDetector()\])]. *)
Definition regex_detectors `{U : UnicodeDB} {W} `{!World W} : list (PIIDetector W) := [Detector.detect].

(** ** The regex detector as the service's detector *)

Section RegexDetectors.
Context `{U : UnicodeDB} {W : Type} `{!World W, !WorldLaws W}.

Lemma birth_date_forward s : forward (W := W) (is_birth_date s).
Proof.
  unfold is_birth_date. go_forward. intros w. pose proof (today_clock w). by destruct (date_today w).
Qed.
#[local] Hint Resolve birth_date_forward : forward.

Lemma validate_forward t v : forward (W := W) (validate t v).
Proof.
  unfold validate. destruct (dict_get t VALIDATORS) as [f|] eqn:Hf; [|apply forward_ret].
  apply dict_get_elem in Hf. unfold VALIDATORS in Hf.
  repeat (apply elem_of_cons in Hf as [Hf|Hf]; [injection Hf as -> ->; eauto with forward|]). by inversion Hf.
Qed.
#[local] Hint Resolve validate_forward : forward.

Lemma detect_forward text context : forward (W := W) (Detector.detect text context).
Proof.
  assert (Hm : ∀ t ms es, forward (W := W) (detect_matches t text ms es)).
  { intros t ms. induction ms as [|m ms IH]; intros es; cbn [detect_matches]; unfold detect_match; go_forward. }
  unfold Detector.detect. generalize (@nil PIIEntity). induction RULES as [|[t r] rules IH]; intros es;
    cbn [detect_rules]; go_forward.
Qed.
#[local] Hint Resolve detect_forward : forward.

(** Disjoint non-empty spans of a text are at most as many as its
    characters. *)
Lemma disjoint_spans_count (text : pystr) l b :
  disjoint_sorted l → Forall (λ e, b <= start e ∧ start e < end_ e ∧ end_ e <= slen text) l →
  b <= slen text → slen l <= slen text - b.
Proof.
  intros Hd. revert b. induction Hd as [|e l Hd IH Hle]; intros b Hl Hb; [unfold slen in *; simpl; lia|].
  apply Forall_cons in Hl as [(? & ? & ?) Hl].
  assert (Hstep : slen l <= slen text - end_ e).
  { apply IH; [|lia]. apply Forall_forall. intros e' He'. rewrite Forall_forall in Hle, Hl.
    specialize (Hle _ He'). destruct (Hl _ He') as (? & ? & ?). lia. }
  unfold slen in *. simpl length. lia.
Qed.

#[export] Instance regex_detectors_ok : DetectorsOk (W := W) regex_detectors.
Proof.
  split.
  - intros text context. unfold engine_detect, regex_detectors. cbn [run_detectors]. go_forward.
  - intros text context w r w'. unfold engine_detect, regex_detectors, context_resolve. cbn [run_detectors].
    destruct (detect_spec text context w) as (es & w1 & Hes & Hall).
    unfold sbind, sret. rewrite Hes. cbn [app]. intros Hr%(f_equal fst)%(inj Ok) Hlen. subst r.
    cbn [dr_entities].
    assert (Hspan : Forall (span_ok text) es) by (eapply Forall_impl; [exact Hall|]; by intros e (? & _)).
    destruct (resolve_spans_spec es) as (Hd & _ & Hsub).
    { eapply Forall_impl; [exact Hspan|]. by intros e (? & ? & _). }
    pose proof (disjoint_spans_count text (resolve_spans es) 0 Hd) as Hcount.
    assert (slen (resolve_spans es) <= slen text - 0); [|lia].
    apply Hcount; [|apply slen_nonneg]. apply Forall_forall. intros e He%Hsub.
    rewrite Forall_forall in Hspan. by destruct (Hspan _ He) as (? & ? & ? & _).
Qed.
End RegexDetectors.

(** ** Runs of the assembled service *)

Section Runs.
#[local] Existing Instance plain_interpreter.
#[local] Instance run_store : RestorationStore store_data Z := memory_store 1000000 100.
#[local] Instance run_laws : StoreLaws store_data Z := memory_store_laws 1000000 100 ltac:(lia).

Abbreviation service_state := ((store_data * Z) * Metrics)%type.

Definition serve (r : request) (st : service_state) : result exn ProcessOutcome * service_state :=
  process regex_detectors (rq_text r) (rq_id r) (rq_policy r) st.

Definition fresh : service_state := (([], 0), empty_metrics).
Definition ask (text : pystr) : request := mkRequest text (u8 "p1") default_policy.
(** A text, and the mask the service gives it. *)
Definition ask_text : request := ask (u8 "a@b.ru").
Definition ask_mask : request := ask (u8 "*@*.**").
Definition key1 : pystr :=
  match state_key (u8 "default") (u8 "p1") with Ok k => k | Err _ => [] end.

Definition out_of (r : result exn ProcessOutcome) : ProcessOutcome :=
  match r with Ok o => o | Err _ => mkOutcome [] MASK 0 [] 0 [] end.

(** The states after the masking and after the demasking request. *)
Abbreviation state1 := ((serve ask_text fresh).2).
Abbreviation out1 := (out_of (serve ask_text fresh).1).
Abbreviation state2 := ((serve ask_mask state1).2).

Lemma unpair (st : service_state) : st = ((st.1.1, st.1.2), st.2).
Proof. by destruct st as [[s w] m]. Qed.

Lemma serve_result r st :
  process regex_detectors (rq_text r) (rq_id r) (rq_policy r) ((st.1.1, st.1.2), st.2) =
    ((serve r st).1, (((serve r st).2.1.1, (serve r st).2.1.2), (serve r st).2.2)).
Proof. rewrite <-!unpair. unfold serve. by destruct (process _ _ _ _ _). Qed.

Lemma serve_ok r st :
  is_ok (serve r st).1 = true →
  process regex_detectors (rq_text r) (rq_id r) (rq_policy r) ((st.1.1, st.1.2), st.2) =
    (Ok (out_of (serve r st).1), (((serve r st).2.1.1, (serve r st).2.1.2), (serve r st).2.2)).
Proof. rewrite serve_result. by destruct (serve r st) as [[o|e] st']. Qed.

(** Without [injection], which would evaluate the run. *)
Lemma step_inj {A B C D} (a a' : A) (b b' : B) (c c' : C) (d d' : D) :
  (a, ((b, c), d)) = (a', ((b', c'), d')) → a = a' ∧ b = b'.
Proof. by intros [= -> -> _ _]. Qed.

Lemma run1_ok : is_ok (serve ask_text fresh).1 = true.
Proof. vm_compute. reflexivity. Qed.

Lemma run2_ok : is_ok (serve ask_mask state1).1 = true.
Proof. vm_compute. reflexivity. Qed.

Lemma ask_key text : state_key (cp_consumer_id (rq_policy (ask text))) (rq_id (ask text)) = Ok key1.
Proof. vm_compute. reflexivity. Qed.

Lemma key1_ok : state_key (u8 "default") (u8 "p1") = Ok key1.
Proof. vm_compute. reflexivity. Qed.

Lemma ask_id text : rq_id (ask text) ≠ [].
Proof. discriminate. Qed.

Lemma fresh_ok : service_ok (fresh.1.1) (fresh.1.2).
Proof. split; [apply mem_ok_empty|]. intros t k st _. done. Qed.

Lemma ask_ok text : valid_text text = true → slen text < 2 ^ 63 → request_ok (rq_text (ask text)) (rq_policy (ask text)).
Proof. split; [done|done|]. vm_compute. reflexivity. Qed.

Lemma ask_text_ok : request_ok (rq_text ask_text) (rq_policy ask_text).
Proof. apply ask_ok; vm_compute; reflexivity. Qed.
Lemma ask_mask_ok : request_ok (rq_text ask_mask) (rq_policy ask_mask).
Proof. apply ask_ok; vm_compute; reflexivity. Qed.
Lemma ask_text_nonempty : rq_text ask_text ≠ [].
Proof. discriminate. Qed.
Lemma ask_mask_nonempty : rq_text ask_mask ≠ [].
Proof. discriminate. Qed.

Lemma fresh_collision_free k text : ∀ t st, live fresh.1.1 t k = Some st → collision_free text st.
Proof. done. Qed.

Lemma state1_ok : service_ok (state1.1.1) (state1.1.2).
Proof.
  exact (proj1 (process_stored regex_detectors _ _ _ _ _ _ _ _ _ _ _ ask_text_nonempty (ask_id _)
    fresh_ok ask_text_ok (ask_key _) (serve_ok _ _ run1_ok))).
Qed.

Lemma out1_mask : out_result out1 = rq_text ask_mask.
Proof. vm_compute. reflexivity. Qed.
Lemma out1_op : out_operation out1 = MASK.
Proof. vm_compute. reflexivity. Qed.

(** The mask of the fresh service is given back. *)
Lemma mask_demask_roundtrip_witness :
  ∃ out2, (serve ask_mask state1).1 = Ok out2 ∧ out_result out2 = rq_text ask_text.
Proof.
  apply (mask_demask_roundtrip regex_detectors (rq_text ask_text) (rq_id ask_text) (rq_policy ask_text)
    (rq_policy ask_mask) key1 fresh.1.1 fresh.1.2 fresh.2 out1 state1.1.1 state1.1.2 state1.2
    (serve ask_mask state1).1 state2.1.1 state2.1.2 state2.2).
  - exact ask_text_nonempty.
  - exact (ask_id _).
  - exact fresh_ok.
  - exact ask_text_ok.
  - exact (ask_key _).
  - apply fresh_collision_free.
  - exact (serve_ok _ _ run1_ok).
  - exact out1_op.
  - reflexivity.
  - reflexivity.
  - rewrite out1_mask. exact ask_mask_nonempty.
  - rewrite out1_mask. exact ask_mask_ok.
  - rewrite out1_mask. intros Hh. exfalso. revert Hh. vm_compute. discriminate.
  - rewrite out1_mask. exact (serve_result ask_mask state1).
  - apply Z.ltb_lt. vm_compute. reflexivity.
Defined.

(** The first request of the fresh service starts a session. *)
Lemma process_refines_session_witness :
  ∃ out st' t2, (serve ask_text fresh).1 = Ok out ∧ out_operation out = MASK ∧
    session_of st' = mkSession (u8 "default") (u8 "a@b.ru") (out_result out) false ∧
    written live store_ttl t2 key1 st' (fresh.1.1) (state1.1.1).
Proof.
  destruct (process_refines_session regex_detectors (rq_text ask_text) (rq_id ask_text) (rq_policy ask_text)
    key1 fresh.1.1 fresh.1.2 fresh.2 ask_text_nonempty (ask_id _) fresh_ok ask_text_ok
    (literal_scalar (u8 "a@b.ru") eq_refl) (ask_key _) (fresh_collision_free _ _))
    as (t & res & s' & w' & m' & Hrun & _ & _ & _ & Hcase).
  rewrite serve_result in Hrun. pose proof run1_ok as Hok.
  apply step_inj in Hrun as [Hr Hs]. rewrite <-Hr in Hcase.
  change (live fresh.1.1 t key1) with (@None RestorationState) in Hcase. cbv iota in Hcase.
  destruct Hcase as [(e & He & _)|(out & st' & t2 & Hout & Hop & _ & Hss & _ & _ & Hw)].
  - rewrite He in Hok. discriminate Hok.
  - exists out, st', t2. rewrite Hs. split; [exact Hout|]. split; [exact Hop|]. split; [exact Hss|exact Hw].
Defined.

(** A mask handed in twice, with a refused request in between, returns the
    same text both times. *)
Lemma process_idempotent_witness :
  ∃ ms timings, (serve ask_mask (run regex_detectors [ask_text] state2)).1 =
    Ok (with_timings (out_of (serve ask_mask state1).1) ms timings).
Proof.
  destruct (process_idempotent regex_detectors (rq_text ask_mask) (rq_id ask_mask) (rq_policy ask_mask)
    (rq_policy ask_mask) key1 state1.1.1 state1.1.2 state1.2 (out_of (serve ask_mask state1).1)
    state2.1.1 state2.1.2 state2.2 [ask_text]
    (run regex_detectors [ask_text] state2).1.1 (run regex_detectors [ask_text] state2).1.2
    (run regex_detectors [ask_text] state2).2
    (serve ask_mask (run regex_detectors [ask_text] state2)).1
    (serve ask_mask (run regex_detectors [ask_text] state2)).2.1.1
    (serve ask_mask (run regex_detectors [ask_text] state2)).2.1.2
    (serve ask_mask (run regex_detectors [ask_text] state2)).2.2) as [Hsame|[Hop _]].
  - exact ask_mask_nonempty.
  - exact (ask_id _).
  - exact state1_ok.
  - exact ask_mask_ok.
  - exact (ask_key _).
  - exact (serve_ok _ _ run2_ok).
  - constructor; [exact ask_text_ok|constructor].
  - rewrite <-!unpair. reflexivity.
  - reflexivity.
  - exact (serve_result ask_mask _).
  - apply Z.ltb_lt. vm_compute. reflexivity.
  - exact Hsame.
  - exfalso. revert Hop. vm_compute. discriminate.
Defined.

(** The session survives its demasking and a refused request. *)
Lemma run_keeps_session_witness :
  ∃ st st', live state1.1.1 100000 key1 = Some st ∧
    live (run regex_detectors [ask_mask; ask_text] state1).1.1 100000 key1 = Some st' ∧ evolves st st'.
Proof.
  destruct (live state1.1.1 100000 key1) as [st|] eqn:Hlive.
  - destruct (run_keeps_session regex_detectors [ask_mask; ask_text] state1.1.1 state1.1.2 state1.2 key1 st 100000
      state1_ok) as (_ & st' & Hst' & Hev).
    + constructor; [exact ask_mask_ok|]. constructor; [exact ask_text_ok|constructor].
    + exact Hlive.
    + rewrite <-unpair. apply Z.leb_le. vm_compute. reflexivity.
    + rewrite <-unpair in Hst'. exists st, st'. split; [reflexivity|]. split; [exact Hst'|exact Hev].
  - exfalso. assert (Hsome : match live state1.1.1 100000 key1 with Some _ => true | None => false end = true)
      by (vm_compute; reflexivity).
    rewrite Hlive in Hsome. discriminate Hsome.
Defined.

(** Another consumer, the same payload id. *)
Definition ask_other : request :=
  mkRequest (u8 "*@*.**") (u8 "p1")
    (mkPolicy (u8 "other") true all_pii_types [] true (OList [])).

Lemma ask_other_ok : request_ok (rq_text ask_other) (rq_policy ask_other).
Proof. split; vm_compute; reflexivity. Qed.

Lemma consumers_isolated_witness :
  live (serve ask_other state1).2.1.1 100000 key1 = live state1.1.1 100000 key1.
Proof.
  apply (proj1 (consumers_isolated regex_detectors ask_other state1.1.1 state1.1.2 state1.2 (u8 "default")
    (u8 "p1") key1 (serve ask_other state1).1 (serve ask_other state1).2.1.1 (serve ask_other state1).2.1.2
    (serve ask_other state1).2.2 state1_ok ask_other_ok key1_ok (λ H, ltac:(discriminate H))
    (serve_result ask_other state1))).
  apply Z.leb_le. vm_compute. reflexivity.
Defined.

Lemma process_metrics_witness :
  ∃ prepared data, utf8_encode (rq_text ask_text) = Ok data ∧ (out_stage_timings out1).*1 = stage_names prepared ∧
    state1.2 = call_metrics out1 (slen data) empty_metrics.
Proof.
  exact (process_metrics regex_detectors (rq_text ask_text) (rq_id ask_text) (rq_policy ask_text)
    fresh.1.1 fresh.1.2 fresh.2 (Ok out1) state1.1.1 state1.1.2 state1.2 fresh_ok ask_text_ok (serve_ok _ _ run1_ok)).
Defined.
End Runs.
