(* ===== verification/Concurrent.v ===== *)
(** * Concurrent requests ([process_service.py] over [memory.py])

    Worker threads serving requests against one in-memory store, step by step.
    A request looks its key up, prepares when nothing was found, takes the
    stripe lock of its key, reads under the data lock, runs the callback with
    only the stripe held, writes under the data lock and releases.  [step]
    lets any thread move next; what the lock does not protect (lookups,
    preparations, other stripes, the passing of time) interleaves freely.

    The stripe is any function of the key ([hash(payload_id) % 256]). *)

From S2P Require Import Prelude Unicode Domain PyStr Utf8 Hashes Json Strategies Masking Resolution.
From S2P Require Import Policy Restoration World StoreInterface MemoryStore Process Service.

(** Where a thread is in [process]; [at_]: the ghost time at which its read
    under the stripe was over. *)
Inductive phase :=
  | Start
  | Looked (found : option RestorationState)
  | Ready (prepared : option RestorationState)
  | Holding (prepared : option RestorationState)
  | HasRead (prepared current : option RestorationState) (at_ : Z)
  | Computed (current : option RestorationState) (at_ : Z) (r : result exn RestorationState)
  | Finished (r : result exn (option RestorationState)).

(** The phases in which the thread holds its stripe. *)
Definition holding (p : phase) : bool :=
  match p with Holding _ | HasRead _ _ _ | Computed _ _ _ => true | _ => false end.

Record thread := mkThread {
  th_payload : pystr;
  th_key : pystr;
  th_policy : ConsumerPolicy;
  th_phase : phase
}.

Definition at_phase (p : phase) (th : thread) : thread :=
  mkThread (th_payload th) (th_key th) (th_policy th) p.

(** A stored answer (ghost state): the key, the state the callback was given
    and the state that was stored; a time by which the read was over, and one
    at which the write had not begun. *)
Record entry := mkEntry {
  en_key : pystr;
  en_read : option RestorationState;
  en_read_at : Z;
  en_written : RestorationState;
  en_written_at : Z
}.

Record config {W : Type} := mkConfig {
  cf_data : store_data;
  cf_world : W;
  cf_threads : list thread;
  cf_log : list entry               (* newest first *)
}.
Arguments config : clear implicits.
Arguments mkConfig {W}.

Section Steps.
Context `{U : UnicodeDB, H : HashLib, I : Interpreter} {W : Type} `{!World W, !WorldLaws W}.
Context (ttl max : Z) (detectors : list (PIIDetector W)) (stripe : pystr → Z).

(** No other thread holds the stripe of [k]. *)
Definition stripe_free (ths : list thread) (i : nat) (k : pystr) : Prop :=
  ∀ j th, ths !! j = Some th → j ≠ i → holding (th_phase th) = true → stripe (th_key th) ≠ stripe k.

(** One move of thread [th], as the effect on the store, the world and the
    log, and its next phase. *)
Inductive move (ths : list thread) (i : nat) (th : thread) :
    store_data → W → phase → store_data → W → list entry → Prop :=
  | move_lookup d w r d' w' :
      th_phase th = Start → get (th_key th) (d, w) = (r, (d', w')) →
      move ths i th d w (match r with Ok found => Looked found | Err e => Finished (Err e) end) d' w' []
  | move_found d w st :
      th_phase th = Looked (Some st) → move ths i th d w (Ready None) d w []
  | move_prepare d w r w' :
      th_phase th = Looked None →
      prepare_mask detectors (th_payload th) (th_key th) (th_policy th) w = (r, w') →
      move ths i th d w (match r with Ok st => Ready (Some st) | Err e => Finished (Err e) end) d w' []
  | move_acquire d w prepared :
      th_phase th = Ready prepared → stripe_free ths i (th_key th) →
      move ths i th d w (Holding prepared) d w []
  | move_read d w prepared r d' w' :
      th_phase th = Holding prepared → transition_read (th_key th) (d, w) = (r, (d', w')) →
      move ths i th d w (match r with Ok c => HasRead prepared c (clock w') | Err e => Finished (Err e) end) d' w' []
  | move_compute d w prepared c at_ r w' :
      th_phase th = HasRead prepared c at_ →
      transition_state detectors c (th_payload th) (th_key th) (th_policy th) prepared w = (r, w') →
      move ths i th d w (Computed c at_ r) d w' []
  | move_raise d w c at_ e :
      th_phase th = Computed c at_ (Err e) → move ths i th d w (Finished (Err e)) d w []
  | move_write d w c at_ st r d' w' :
      th_phase th = Computed c at_ (Ok st) →
      transition_write ttl max (th_key th) (Some st) (d, w) = (r, (d', w')) →
      move ths i th d w (Finished r) d' w'
        (match r with Ok _ => [mkEntry (th_key th) c at_ st (clock w)] | Err _ => [] end).

Inductive step : config W → config W → Prop :=
  | step_thread d w ths log i th p d' w' new :
      ths !! i = Some th → move ths i th d w p d' w' new →
      step (mkConfig d w ths log) (mkConfig d' w' (<[i := at_phase p th]> ths) (new ++ log))
  | step_wait d w ths log w' :
      clock w <= clock w' → step (mkConfig d w ths log) (mkConfig d w' ths log).

(** An empty store and threads at their start. *)
Definition initial (c : config W) : Prop :=
  cf_data c = [] ∧ cf_log c = [] ∧ Forall (λ th, th_phase th = Start) (cf_threads c).
End Steps.

(** ** Reachability *)

Section Invariant.
Context `{U : UnicodeDB, H : HashLib, I : Interpreter} {W : Type} `{!World W, !WorldLaws W}.
Context (ttl max : Z) (ttl_nonneg : 0 <= ttl).
Context (detectors : list (PIIDetector W)) `{D : !DetectorsOk detectors} (stripe : pystr → Z).

Inductive reachable : config W → Prop :=
  | reach_initial c :
      initial c → Forall (λ th, request_ok (th_payload th) (th_policy th) ∧
        ∃ pid, state_key (cp_consumer_id (th_policy th)) pid = Ok (th_key th)) (cf_threads c) → reachable c
  | reach_step c c' : reachable c → step ttl max detectors stripe c c' → reachable c'.

(** ** The log of a key *)

Definition log_of (k : pystr) (log : list entry) : list entry := filter (λ e, en_key e = k) log.

(** What the last stored answer left. *)
Definition prior (l : list entry) : option RestorationState := en_written <$> head l.

(** The last stored answer had expired by [t]. *)
Definition expired (l : list entry) (t : Z) : Prop := ∀ e, head l = Some e → en_written_at e + ttl <= t.

(** What was read by the time [t] after the answers [l]: the last of them, or
    nothing once that had expired; and none was stored later than [t]. *)
Definition read_last (l : list entry) (c : option RestorationState) (t : Z) : Prop :=
  match c with Some st => prior l = Some st | None => expired l t end ∧
  ∀ e, head l = Some e → en_written_at e <= t.

(** Every answer was computed from the answer before it, or from nothing when
    that had expired; and was stored after it was read. *)
Fixpoint chained (l : list entry) : Prop :=
  match l with
  | [] => True
  | e :: l => read_last l (en_read e) (en_read_at e) ∧ en_read_at e <= en_written_at e ∧ chained l
  end.

Definition entry_ok (e : entry) : Prop :=
  match en_read e with
  | Some st => evolves st (en_written e)
  | None => state (en_written e) = MASKED
  end.

(** ** The invariant *)

(** From now on a reader of [k] finds [c], if anything. *)
Definition holds_value (d : store_data) (w : W) (k : pystr) (c : option RestorationState) : Prop :=
  ∀ t st, clock w <= t → mem_live d t k = Some st → c = Some st.

(** The last answer stored is found for a lifetime. *)
Definition kept_value (d : store_data) (w : W) (k : pystr) (l : list entry) : Prop :=
  ∀ e, head l = Some e → en_written_at e <= clock w ∧
    ∀ t, clock w <= t → t < en_written_at e + ttl → mem_live d t k = Some (en_written e).

Definition prepared_ok (th : thread) (prepared : option RestorationState) : Prop :=
  ∀ st, prepared = Some st → prepares detectors (th_payload th) (th_key th) (th_policy th) st.

(** [st] is what the callback of [th] makes of [c]. *)
Definition answers (th : thread) (c : option RestorationState) (st : RestorationState) : Prop :=
  (∀ st0, c = Some st0 → state_ok (th_key th) st0) ∧
  ∃ prepared w w', prepared_ok th prepared ∧
    transition_state detectors c (th_payload th) (th_key th) (th_policy th) prepared w = (Ok st, w').

(** What the thread read is still what is there, and the last answer stored. *)
Definition read_ok (d : store_data) (w : W) (log : list entry) (th : thread) (c : option RestorationState) (t : Z) : Prop :=
  holds_value d w (th_key th) c ∧ read_last (log_of (th_key th) log) c t ∧ t <= clock w ∧
  ∀ st, c = Some st → state_ok (th_key th) st.

Definition phase_ok (d : store_data) (w : W) (log : list entry) (th : thread) : Prop :=
  match th_phase th with
  | Ready p | Holding p => prepared_ok th p
  | HasRead p c t => prepared_ok th p ∧ read_ok d w log th c t
  | Computed c t (Ok st) => read_ok d w log th c t ∧ answers th c st
  | Finished (Ok o) => ∃ e, e ∈ log ∧ en_key e = th_key th ∧ o = Some (en_written e) ∧ answers th (en_read e) (en_written e)
  | _ => True
  end.

Definition request_of (th : thread) : Prop :=
  request_ok (th_payload th) (th_policy th) ∧
  ∃ pid, state_key (cp_consumer_id (th_policy th)) pid = Ok (th_key th).

Record inv (c : config W) : Prop := {
  inv_mem : mem_ok ttl max (cf_data c) (cf_world c);
  inv_live : ∀ t k st, clock (cf_world c) <= t → mem_live (cf_data c) t k = Some st → state_ok k st;
  inv_requests : Forall request_of (cf_threads c);
  inv_phases : Forall (phase_ok (cf_data c) (cf_world c) (cf_log c)) (cf_threads c);
  inv_stripes : ∀ i j th th', cf_threads c !! i = Some th → cf_threads c !! j = Some th' → i ≠ j →
    holding (th_phase th) = true → holding (th_phase th') = true → stripe (th_key th) ≠ stripe (th_key th');
  inv_chain : ∀ k, chained (log_of k (cf_log c));
  inv_last : ∀ k, holds_value (cf_data c) (cf_world c) k (prior (log_of k (cf_log c)));
  inv_kept : ∀ k, kept_value (cf_data c) (cf_world c) k (log_of k (cf_log c));
  inv_entries : Forall entry_ok (cf_log c)
}.

(** Time passes and readers find the same under every key but those of
    [new]. *)
Definition changes (new : list entry) (d : store_data) (w : W) (d' : store_data) (w' : W) : Prop :=
  clock w <= clock w' ∧
  ∀ t k, clock w' <= t → log_of k new = [] → mem_live d' t k = mem_live d t k.

Lemma changes_refl d w : changes [] d w d w.
Proof. by split. Qed.

Lemma changes_wait d w w' : clock w <= clock w' → changes [] d w d w'.
Proof. by split. Qed.

Lemma changes_agree d w t d' w' :
  clock w <= t → t <= clock w' → agree_from mem_live t d d' → changes [] d w d' w'.
Proof. intros ? ? Hag. split; [lia|]. intros u k Hu _. apply Hag. lia. Qed.

Lemma log_of_app k l l' : log_of k (l ++ l') = log_of k l ++ log_of k l'.
Proof. unfold log_of. by rewrite filter_app. Qed.

Lemma holds_value_changes new d w d' w' k c :
  changes new d w d' w' → log_of k new = [] → holds_value d w k c → holds_value d' w' k c.
Proof.
  intros [Hc Hl] Hk Hv t st Ht. rewrite (Hl t k) by done. apply Hv. lia.
Qed.

Lemma kept_value_changes new d w d' w' k l :
  changes new d w d' w' → log_of k new = [] → kept_value d w k l → kept_value d' w' k l.
Proof.
  intros [Hc Hl] Hk Hv e He. destruct (Hv e He) as [Ht Hlive]. split; [lia|]. intros t ? ?.
  rewrite (Hl t k) by done. apply Hlive; lia.
Qed.

Lemma phase_ok_changes new d w d' w' log th :
  changes new d w d' w' → (holding (th_phase th) = true → log_of (th_key th) new = []) →
  phase_ok d w log th → phase_ok d' w' (new ++ log) th.
Proof.
  intros Hch Hk. unfold phase_ok, read_ok.
  destruct (th_phase th) as [|found|p|p|p c t|c t [st|e]|[o|e]]; try done.
  3: { intros (e & He & Hkey & Hrest). exists e. split; [|done]. apply elem_of_app. by right. }
  all: specialize (Hk eq_refl); rewrite log_of_app, Hk; pose proof (proj1 Hch).
  - intros (Hp & Hv & Hpr & Ht & Hc). split; [done|]. split; [by eapply holds_value_changes|].
    split; [done|]. split; [lia|done].
  - intros ((Hv & Hpr & Ht & Hc) & Ha). split; [|done]. split; [by eapply holds_value_changes|].
    split; [done|]. split; [lia|done].
Qed.
End Invariant.

(** ** Every move keeps the invariant *)

Section Preservation.
Context `{U : UnicodeDB, H : HashLib, I : Interpreter} {W : Type} `{!World W, !WorldLaws W}.
Context (ttl max : Z) (ttl_nonneg : 0 <= ttl).
Context (detectors : list (PIIDetector W)) `{D : !DetectorsOk detectors} (stripe : pystr → Z).
#[local] Instance run_store : RestorationStore store_data W := memory_store ttl max.
#[local] Instance run_laws : StoreLaws store_data W := memory_store_laws ttl max ttl_nonneg.

Lemma write_correct k st d w :
  mem_ok ttl max d w → storable st →
  transition_write ttl max k (Some st) (d, w) = (Err overloaded, (d, w)) ∨
  ∃ t d' w', transition_write ttl max k (Some st) (d, w) = (Ok (Some st), (d', w')) ∧
    clock w <= t ∧ t <= clock w' ∧ mem_ok ttl max d' w' ∧ written mem_live ttl t k st d d'.
Proof using ttl_nonneg.
  intros Hok Hst. rewrite transition_write_some.
  destruct (negb (dict_mem k d) && (max <=? slen d)) eqn:Hfull; [by left|right].
  destruct (put_correct ttl max k st d w ttl_nonneg Hok Hst) as (t & d' & w' & Hput & ? & ? & ? & Hw).
  { apply andb_false_iff in Hfull as [Hmem%negb_false_iff|Hlt%Z.leb_gt]; [left|by right].
    by apply dict_mem_spec. }
  exists t, d', w'. by rewrite Hput.
Qed.

Lemma transition_forward th prepared c w r w' :
  transition_state detectors c (th_payload th) (th_key th) (th_policy th) prepared w = (r, w') →
  clock w <= clock w'.
Proof using D.
  destruct c as [st|]; [rewrite transition_verdict; intros [= _ <-]; lia|].
  destruct prepared as [p|]; cbn [transition_state].
  - unfold sret. intros [= _ <-]. lia.
  - intros Hp. pose proof (prepare_forward detectors (th_payload th) (th_key th) (th_policy th) w) as Hc.
    by rewrite Hp in Hc.
Qed.

Lemma answers_ok th c st :
  request_of th → answers detectors th c st →
  state_ok (th_key th) st ∧ (match c with Some st0 => evolves st0 st | None => state st = MASKED end).
Proof using D.
  intros [Hrq (pid & Hkey)] (Hc & prepared & w & w' & Hp & Htr). destruct c as [st0|].
  - rewrite transition_verdict in Htr. injection Htr as Hv _.
    split; [by apply (verdict_ok _ _ _ _ _ (Hc _ eq_refl) Hv)|by eapply verdict_evolves].
  - assert (prepares detectors (th_payload th) (th_key th) (th_policy th) st) as (w1 & w2 & Hpr).
    { destruct prepared as [p|]; cbn [transition_state] in Htr; [|by exists w, w'].
      unfold sret in Htr. injection Htr as <- _. by apply Hp. }
    by destruct (prepare_spec detectors _ _ _ pid _ _ _ Hrq Hkey Hpr) as (? & _ & ? & _).
Qed.

(** What a move guarantees. *)
Record move_spec (c : config W) (i : nat) (th : thread) (p : phase) (d' : store_data) (w' : W)
    (new : list entry) : Prop := {
  mv_mem : mem_ok ttl max d' w';
  mv_changes : changes new (cf_data c) (cf_world c) d' w';
  mv_phase : phase_ok ttl detectors d' w' (new ++ cf_log c) (at_phase p th);
  mv_stripe : holding p = true → holding (th_phase th) = true ∨ stripe_free stripe (cf_threads c) i (th_key th);
  mv_new : new = [] ∨ ∃ e, new = [e] ∧ en_key e = th_key th ∧ holding (th_phase th) = true ∧ holding p = false ∧
    entry_ok e ∧ read_last ttl (log_of (th_key th) (cf_log c)) (en_read e) (en_read_at e) ∧
    en_read_at e <= en_written_at e ∧
    state_ok (th_key th) (en_written e) ∧ holds_value d' w' (th_key th) (Some (en_written e)) ∧
    kept_value ttl d' w' (th_key th) [e]
}.

Lemma move_write_spec c i th cur at_ st r d' w' :
  inv ttl max detectors stripe c → request_of th → th_phase th = Computed cur at_ (Ok st) →
  phase_ok ttl detectors (cf_data c) (cf_world c) (cf_log c) th →
  transition_write ttl max (th_key th) (Some st) (cf_data c, cf_world c) = (r, (d', w')) →
  move_spec c i th (Finished r) d' w'
    (match r with Ok _ => [mkEntry (th_key th) cur at_ st (clock (cf_world c))] | Err _ => [] end).
Proof using D ttl_nonneg.
  intros Hinv Hrq Hph Hok Hw. unfold phase_ok in Hok. rewrite Hph in Hok.
  destruct Hok as [(Hv & Hpr & Hat & Hc) Ha]. destruct (answers_ok _ _ _ Hrq Ha) as [Hst Hev].
  destruct (write_correct (th_key th) st _ _ (inv_mem _ _ _ _ _ Hinv) (so_storable _ _ Hst))
    as [Hw'|(t & d1 & w1 & Hw' & ? & ? & Hmem & Hwr)]; rewrite Hw' in Hw; injection Hw as <- <- <-.
  - split; [apply Hinv|apply changes_refl|done|done|by left].
  - assert (Hwd : ∀ u k, t <= u → mem_live d1 u k =
      if decide (k = th_key th) then (if u <? t + ttl then Some st else None) else mem_live (cf_data c) u k).
    { intros u k Hu. rewrite (Hwr u k) by done. case_decide; [|done]. subst k.
      by rewrite (with_id_same (th_key th)) by apply Hst. }
    split; [done| | |done|].
    + split; [lia|]. intros u k Hu Hk. rewrite Hwd by lia. rewrite decide_False; [done|].
      intros ->. unfold log_of in Hk. by rewrite filter_cons_True in Hk.
    + exists (mkEntry (th_key th) cur at_ st (clock (cf_world c))). by split_and!; [left|..].
    + right. exists (mkEntry (th_key th) cur at_ st (clock (cf_world c))). rewrite Hph.
      cbn [en_key en_read en_read_at en_written en_written_at]. split_and!; try done.
      * intros u st' Hu. rewrite Hwd by lia. rewrite decide_True by done. by destruct (u <? t + ttl); intros [= ->].
      * intros e [= <-]. cbn [en_written en_written_at]. split; [lia|]. intros u Hu Hlt.
        rewrite Hwd, decide_True by (done || lia). by rewrite (proj2 (Z.ltb_lt u _)) by lia.
Qed.

Lemma move_preserves c i th p d' w' new :
  inv ttl max detectors stripe c → cf_threads c !! i = Some th →
  move ttl max detectors stripe (cf_threads c) i th (cf_data c) (cf_world c) p d' w' new →
  move_spec c i th p d' w' new.
Proof using D ttl_nonneg.
  intros Hinv Hi Hmv.
  pose proof (Forall_lookup_1 _ _ _ _ (inv_phases _ _ _ _ _ Hinv) Hi) as Hok.
  pose proof (Forall_lookup_1 _ _ _ _ (inv_requests _ _ _ _ _ Hinv) Hi) as Hrq.
  assert (Hmem : mem_ok ttl max (cf_data c) (cf_world c)) by apply Hinv.
  inversion Hmv as [d w r d1 w1 Hph Hget|d w st Hph|d w r w1 Hph Hprep|d w prepared Hph Hfree
    |d w prepared r d1 w1 Hph Hread|d w prepared cur at_ r w1 Hph Htr|d w cur at_ e Hph
    |d w cur at_ st r d1 w1 Hph Hwr]; subst; unfold phase_ok in Hok; rewrite ?Hph in Hok.
  - destruct (get_correct ttl max (th_key th) _ _ Hmem) as (t & d2 & w2 & Hget' & ? & ? & Hmem' & Hag).
    rewrite Hget' in Hget. injection Hget as <- <- <-.
    split; [done|by eapply changes_agree|done|done|by left].
  - split; [done|apply changes_refl|by intros ?|done|by left].
  - pose proof (prepare_forward detectors (th_payload th) (th_key th) (th_policy th) (cf_world c)) as Hc.
    rewrite Hprep in Hc. simpl in Hc.
    split; [by eapply mem_ok_later|by apply changes_wait| |by destruct r|by left].
    destruct r as [st|e]; [|done]. intros ? [= <-]. by exists (cf_world c), w'.
  - split; [done|apply changes_refl|done|by right|by left].
  - destruct (transition_read_correct ttl max (th_key th) _ _ Hmem)
      as (t & d2 & w2 & Hread' & ? & ? & Hmem' & Hag & _).
    rewrite Hread' in Hread. injection Hread as <- <- <-.
    split; [done|by eapply changes_agree| |rewrite Hph; by left|by left].
    split; [done|]. split; [|split; [split|split; [lia|]]].
    + intros u st Hu. rewrite (Hag u) by lia.
      exact (live_expires (cf_data c) t u (th_key th) st ltac:(lia)).
    + destruct (mem_live (cf_data c) t (th_key th)) as [st|] eqn:Hl.
      * by eapply (inv_last _ _ _ _ _ Hinv).
      * intros e He. destruct (inv_kept _ _ _ _ _ Hinv (th_key th) e He) as [_ Hkept].
        apply Z.le_ngt. intros Hlt. rewrite (Hkept t) in Hl by lia. done.
    + intros e He. destruct (inv_kept _ _ _ _ _ Hinv (th_key th) e He) as [? _]. lia.
    + intros st Hst. by eapply (inv_live _ _ _ _ _ Hinv).
  - destruct Hok as (Hp & Hr). pose proof (transition_forward _ _ _ _ _ _ Htr) as Hc.
    split; [by eapply mem_ok_later|by apply changes_wait| |rewrite Hph; by left|by left].
    destruct r as [st|e]; [|done]. destruct Hr as (Hv & Hpr & Hat & Hst). split.
    + split; [|split; [done|split; [lia|done]]].
      eapply holds_value_changes; [by apply changes_wait|done|exact Hv].
    + split; [exact Hst|by eexists prepared, _, _].
  - split; [done|apply changes_refl|done|done|by left].
  - eapply move_write_spec; [done|done|exact Hph| |done]. unfold phase_ok. by rewrite Hph.
Qed.
End Preservation.

(** ** Every reachable configuration satisfies it *)

Section Reachable.
Context `{U : UnicodeDB, H : HashLib, I : Interpreter} {W : Type} `{!World W, !WorldLaws W}.
Context (ttl max : Z) (ttl_nonneg : 0 <= ttl).
Context (detectors : list (PIIDetector W)) `{D : !DetectorsOk detectors} (stripe : pystr → Z).

Lemma initial_inv c :
  initial c → Forall request_of (cf_threads c) → inv ttl max detectors stripe c.
Proof.
  intros (Hd & Hl & Hth) Hrq. destruct c as [d w ths log]; simpl in *; subst.
  split; simpl; try done.
  - apply mem_ok_empty.
  - eapply Forall_impl; [exact Hth|]. intros th Hs. unfold phase_ok. by rewrite Hs.
  - intros i j th th' Hi _ _ Hh. rewrite Forall_lookup in Hth. by rewrite (Hth _ _ Hi) in Hh.
Qed.

(** The stripes after a move. *)
Lemma stripes_insert ths i th p :
  (∀ i j th th', ths !! i = Some th → ths !! j = Some th' → i ≠ j →
    holding (th_phase th) = true → holding (th_phase th') = true → stripe (th_key th) ≠ stripe (th_key th')) →
  ths !! i = Some th →
  (holding p = true → holding (th_phase th) = true ∨ stripe_free stripe ths i (th_key th)) →
  ∀ j k th1 th2, <[i := at_phase p th]> ths !! j = Some th1 → <[i := at_phase p th]> ths !! k = Some th2 →
    j ≠ k → holding (th_phase th1) = true → holding (th_phase th2) = true →
    stripe (th_key th1) ≠ stripe (th_key th2).
Proof.
  intros Hex Hi Hp.
  assert (Hone : ∀ k th2, k ≠ i → ths !! k = Some th2 → holding p = true → holding (th_phase th2) = true →
    stripe (th_key th2) ≠ stripe (th_key th)).
  { intros k th2 Hk Hl Hpp H2. destruct (Hp Hpp) as [Hh|Hf]; [by eapply (Hex k i)|by eapply Hf]. }
  intros j k th1 th2 Hj Hk Hjk H1 H2.
  apply list_lookup_insert_Some in Hj as [(-> & <- & _)|[Hij Hj]];
    apply list_lookup_insert_Some in Hk as [(-> & <- & _)|[Hik Hk]]; simpl in *.
  - done.
  - intros Heq. by eapply (Hone k th2).
  - by eapply (Hone j th1).
  - by eapply (Hex j k).
Qed.

Lemma step_inv c c' : inv ttl max detectors stripe c → step ttl max detectors stripe c c' → inv ttl max detectors stripe c'.
Proof using D ttl_nonneg.
  intros Hinv Hstep. destruct Hstep as [d w ths log i th p d' w' new Hi Hmv|d w ths log w' Hc].
  2: { destruct Hinv as [Hm Hlv Hrq Hph Hst Hch Hla Hkp Hen]; simpl in *. split; simpl; try done.
       - by eapply mem_ok_later.
       - intros t k st Ht. apply Hlv. lia.
       - eapply Forall_impl; [exact Hph|]. intros th Hth.
         by apply (phase_ok_changes ttl detectors [] d w d w' log th (changes_wait d w w' Hc)).
       - intros k. by eapply holds_value_changes; [apply changes_wait|..].
       - intros k. by eapply kept_value_changes; [apply changes_wait|..]. }
  destruct (move_preserves ttl max ttl_nonneg detectors stripe _ _ _ _ _ _ _ Hinv Hi Hmv)
    as [Hm Hch Hp Hs Hnew]. simpl in *.
  assert (Hlog : ∀ k, (log_of k new = [] ∨ ∃ e, new = [e] ∧ en_key e = k ∧ log_of k new = [e] ∧ k = th_key th ∧
      read_last ttl (log_of k log) (en_read e) (en_read_at e) ∧ en_read_at e <= en_written_at e ∧
      state_ok k (en_written e) ∧ holds_value d' w' k (Some (en_written e)) ∧ kept_value ttl d' w' k [e])).
  { intros k. destruct Hnew as [->|(e & -> & Hk & _ & _ & _ & ? & ? & ? & ? & ?)]; [by left|].
    destruct (decide (en_key e = k)) as [<-|Hne].
    - right. exists e. rewrite Hk in *. split_and!; try done. unfold log_of. by rewrite filter_cons_True.
    - left. unfold log_of. by rewrite filter_cons_False. }
  split; simpl.
  - done.
  - intros t k st Ht Hlive. destruct (Hlog k) as [Hk|(e & _ & _ & _ & _ & _ & _ & Hst & Hv & _)].
    + rewrite (proj2 Hch) in Hlive by done. eapply (inv_live _ _ _ _ _ Hinv); [|exact Hlive].
      simpl. pose proof (proj1 Hch). lia.
    + by injection (Hv _ _ Ht Hlive) as <-.
  - apply Forall_insert; [apply Hinv|]. by apply (Forall_lookup_1 _ _ _ _ (inv_requests _ _ _ _ _ Hinv) Hi).
  - apply Forall_lookup. intros j th1 Hj. apply list_lookup_insert_Some in Hj as [(-> & <- & _)|[Hij Hj]]; [done|].
    eapply phase_ok_changes; [exact Hch| |by apply (Forall_lookup_1 _ _ _ _ (inv_phases _ _ _ _ _ Hinv) Hj)].
    intros Hh. destruct Hnew as [->|(e & -> & Hk & Hhi & _)]; [done|].
    unfold log_of. rewrite filter_cons_False; [done|]. rewrite Hk. intros Heq.
    eapply (inv_stripes _ _ _ _ _ Hinv i j); [exact Hi|exact Hj|done|done|done|by rewrite Heq].
  - by eapply stripes_insert; [apply Hinv|..].
  - intros k. rewrite log_of_app.
    destruct (Hlog k) as [->|(e & _ & _ & -> & _ & Hr & Hat & _)]; [apply Hinv|]. split; [done|]. split; [done|apply Hinv].
  - intros k. rewrite log_of_app. destruct (Hlog k) as [Hk|(e & _ & _ & -> & _ & _ & _ & _ & Hv & _)]; [|done].
    rewrite Hk. eapply holds_value_changes; [exact Hch|done|apply Hinv].
  - intros k. rewrite log_of_app. destruct (Hlog k) as [Hk|(e & _ & _ & -> & _ & _ & _ & _ & _ & Hkept)].
    + rewrite Hk. eapply kept_value_changes; [exact Hch|done|apply Hinv].
    + intros e' [= <-]. by apply Hkept.
  - apply Forall_app. split; [|apply Hinv].
    destruct Hnew as [->|(e & -> & _ & _ & _ & ? & _)]; repeat constructor; done.
Qed.

Lemma reachable_inv c : reachable ttl max detectors stripe c → inv ttl max detectors stripe c.
Proof using D ttl_nonneg.
  induction 1 as [c Hi Hrq|c c' Hr IH Hs]; [by apply initial_inv|by eapply step_inv].
Qed.
End Reachable.

(** ** Progress *)

(** Moves a thread has left. *)
Definition moves_left (p : phase) : nat :=
  match p with
  | Start => 6 | Looked _ => 5 | Ready _ => 4 | Holding _ => 3 | HasRead _ _ _ => 2 | Computed _ _ _ => 1
  | Finished _ => 0
  end.

Definition remaining {W} (c : config W) : nat := sum_list ((λ th, moves_left (th_phase th)) <$> cf_threads c).

Lemma sum_list_insert (f : thread → nat) ths i th th' :
  ths !! i = Some th → (sum_list (f <$> <[i := th']> ths) + f th = sum_list (f <$> ths) + f th')%nat.
Proof.
  revert i. induction ths as [|th0 ths IH]; intros [|i] Hi; simplify_eq/=; [lia|].
  specialize (IH _ Hi). unfold fmap in *. lia.
Qed.

Section Progress.
Context `{U : UnicodeDB, H : HashLib, I : Interpreter} {W : Type} `{!World W, !WorldLaws W}.
Context (ttl max : Z) (detectors : list (PIIDetector W)) (stripe : pystr → Z).

Lemma move_decreases ths i th d w p d' w' new :
  move ttl max detectors stripe ths i th d w p d' w' new → (moves_left p < moves_left (th_phase th))%nat.
Proof.
  destruct 1 as [d w r ? ? Hph|d w st Hph|d w r ? Hph|d w prepared Hph|d w prepared r ? ? Hph
    |d w prepared cur at_ r ? Hph|d w cur at_ e Hph|d w cur at_ st r ? ? Hph]; rewrite Hph; try destruct r; simpl; lia.
Qed.

End Progress.

(** ** A schedule, executed *)

Section Scheduler.
Context `{U : UnicodeDB, H : HashLib, I : Interpreter} {W : Type} `{!World W, !WorldLaws W}.
Context (ttl max : Z) (detectors : list (PIIDetector W)) (stripe : pystr → Z).

Definition free_b (ths : list thread) (i : nat) (k : pystr) : bool :=
  forallb (λ jt, bool_decide (jt.1 = i) || negb (holding (th_phase jt.2)) ||
                 negb (stripe (th_key jt.2) =? stripe k)) (imap pair ths).

Lemma free_b_free ths i k : free_b ths i k = true → stripe_free stripe ths i k.
Proof.
  unfold free_b. rewrite forallb_forall. intros Hf j th Hj Hne Hh.
  assert (Hin : (j, th) ∈ imap pair ths) by (apply elem_of_lookup_imap; by exists j, th).
  apply list_elem_of_In, Hf in Hin. simpl in Hin.
  rewrite bool_decide_eq_false_2, Hh in Hin by done. simpl in Hin.
  by apply negb_true_iff, Z.eqb_neq in Hin.
Qed.

(** The move of thread [th], if it can make one now. *)
Definition next_move (ths : list thread) (i : nat) (th : thread) (d : store_data) (w : W)
    : option (phase * store_data * W * list entry) :=
  match th_phase th with
  | Start =>
      let '(r, (d', w')) := get (th_key th) (d, w) in
      Some (match r with Ok found => Looked found | Err e => Finished (Err e) end, d', w', [])
  | Looked (Some _) => Some (Ready None, d, w, [])
  | Looked None =>
      let '(r, w') := prepare_mask detectors (th_payload th) (th_key th) (th_policy th) w in
      Some (match r with Ok st => Ready (Some st) | Err e => Finished (Err e) end, d, w', [])
  | Ready p => if free_b ths i (th_key th) then Some (Holding p, d, w, []) else None
  | Holding p =>
      let '(r, (d', w')) := transition_read (th_key th) (d, w) in
      Some (match r with Ok c => HasRead p c (clock w') | Err e => Finished (Err e) end, d', w', [])
  | HasRead p c at_ =>
      let '(r, w') := transition_state detectors c (th_payload th) (th_key th) (th_policy th) p w in
      Some (Computed c at_ r, d, w', [])
  | Computed c at_ (Err e) => Some (Finished (Err e), d, w, [])
  | Computed c at_ (Ok st) =>
      let '(r, (d', w')) := transition_write ttl max (th_key th) (Some st) (d, w) in
      Some (Finished r, d', w', match r with Ok _ => [mkEntry (th_key th) c at_ st (clock w)] | Err _ => [] end)
  | Finished _ => None
  end.

Lemma next_move_move ths i th d w p d' w' new :
  next_move ths i th d w = Some (p, d', w', new) → move ttl max detectors stripe ths i th d w p d' w' new.
Proof.
  unfold next_move. destruct (th_phase th) as [|[st|]|pr|pr|pr c at_|c at_ [st|e]|r] eqn:Hph; try done.
  - destruct (get (th_key th) (d, w)) as [r [d1 w1]] eqn:Hg. intros [= <- <- <- <-]. by eapply move_lookup.
  - intros [= <- <- <- <-]. by eapply move_found.
  - destruct (prepare_mask _ _ _ _ w) as [r w1] eqn:Hp. intros [= <- <- <- <-]. by eapply move_prepare.
  - destruct (free_b ths i (th_key th)) eqn:Hf; [|done]. intros [= <- <- <- <-].
    eapply move_acquire; [done|by apply free_b_free].
  - destruct (transition_read (th_key th) (d, w)) as [r [d1 w1]] eqn:Hg. intros [= <- <- <- <-]. by eapply move_read.
  - destruct (transition_state _ _ _ _ _ _ w) as [r w1] eqn:Ht. intros [= <- <- <- <-]. by eapply move_compute.
  - destruct (transition_write _ _ _ _ (d, w)) as [r [d1 w1]] eqn:Hw. intros [= <- <- <- <-]. by eapply move_write.
  - intros [= <- <- <- <-]. by eapply move_raise.
Qed.

(** Lets the threads of the schedule move in turn, skipping those that
    cannot. *)
Fixpoint execute (schedule : list nat) (c : config W) : config W :=
  match schedule with
  | [] => c
  | i :: schedule =>
      match cf_threads c !! i with
      | None => execute schedule c
      | Some th =>
          match next_move (cf_threads c) i th (cf_data c) (cf_world c) with
          | None => execute schedule c
          | Some (p, d, w, new) =>
              execute schedule (mkConfig d w (<[i := at_phase p th]> (cf_threads c)) (new ++ cf_log c))
          end
      end
  end.

Lemma execute_reachable schedule c :
  reachable ttl max detectors stripe c → reachable ttl max detectors stripe (execute schedule c).
Proof.
  revert c. induction schedule as [|i schedule IH]; intros c Hr; [done|]. cbn [execute].
  destruct (cf_threads c !! i) as [th|] eqn:Hi; [|by apply IH].
  destruct (next_move _ _ _ _ _) as [[[[p d] w] new]|] eqn:Hm; [|by apply IH].
  apply IH. eapply reach_step; [exact Hr|]. destruct c as [d0 w0 ths log]. simpl in *.
  eapply step_thread; [done|]. by apply next_move_move.
Qed.

(** A thread that is not waiting for its stripe can move. *)
Lemma next_move_exists ths i th d w :
  (∀ r, th_phase th ≠ Finished r) →
  (∀ p, th_phase th = Ready p → free_b ths i (th_key th) = true) →
  is_Some (next_move ths i th d w).
Proof using Type.
  intros Hf Hr. unfold next_move. destruct (th_phase th) as [|[st|]|p|p|p c at_|c at_ [st|e]|r] eqn:Hph.
  - destruct (get _ _) as [? [? ?]]. by eexists.
  - by eexists.
  - destruct (prepare_mask _ _ _ _ _). by eexists.
  - rewrite (Hr p eq_refl). by eexists.
  - destruct (transition_read _ _) as [? [? ?]]. by eexists.
  - destruct (transition_state _ _ _ _ _ _ _). by eexists.
  - destruct (transition_write _ _ _ _ _) as [? [? ?]]. by eexists.
  - by eexists.
  - by destruct (Hf r).
Qed.

Lemma free_b_none ths i k : ¬ Exists (λ th, holding (th_phase th) = true) ths → free_b ths i k = true.
Proof using Type.
  intros Hno. apply forallb_forall. intros [j th] Hin%list_elem_of_In. apply elem_of_lookup_imap in Hin as (j' & th' & [= -> ->] & Hj).
  cbn [fst snd]. destruct (holding (th_phase th')) eqn:Hh; [|by rewrite orb_true_r].
  exfalso. apply Hno, Exists_exists. exists th'. split; [by eapply list_elem_of_lookup_2|done].
Qed.

(** The threads are done, or one of them can move: a holder of a stripe, or
    else anyone, since then every stripe is free. *)
Lemma some_move ths d w :
  (∃ i th, ths !! i = Some th ∧ ∀ r, th_phase th ≠ Finished r) →
  ∃ i th, ths !! i = Some th ∧ is_Some (next_move ths i th d w).
Proof using Type.
  intros (i & th & Hi & Hf).
  destruct (decide (Exists (λ th, holding (th_phase th) = true) ths)) as [Hh|Hh].
  - apply Exists_exists in Hh as (th1 & Hin & Hh). apply list_elem_of_lookup in Hin as [j Hj].
    exists j, th1. split; [done|]. apply next_move_exists; [intros r Hr|intros p Hp]; by rewrite ?Hr, ?Hp in Hh.
  - exists i, th. split; [done|]. apply next_move_exists; [done|]. intros _ _. by apply free_b_none.
Qed.

(** Runs in which the threads make [n] moves, however long they wait. *)
Inductive moves : nat → config W → config W → Prop :=
  | moves_none c : moves 0 c c
  | moves_thread n d w ths log i th p d' w' new c' :
      ths !! i = Some th → move ttl max detectors stripe ths i th d w p d' w' new →
      moves n (mkConfig d' w' (<[i := at_phase p th]> ths) (new ++ log)) c' →
      moves (S n) (mkConfig d w ths log) c'
  | moves_wait n d w ths log w' c' :
      clock w <= clock w' → moves n (mkConfig d w' ths log) c' → moves n (mkConfig d w ths log) c'.

Lemma moves_bound n c c' : moves n c c' → (n + remaining c' <= remaining c)%nat.
Proof using Type.
  induction 1 as [c|n d w ths log i th p d' w' new c' Hi Hm _ IH|n d w ths log w' c' _ _ IH];
    unfold remaining in *; cbn [cf_threads] in *; [lia| |exact IH].
  pose proof (move_decreases _ _ _ _ _ _ _ _ _ _ _ _ _ Hm).
  pose proof (sum_list_insert (λ th, moves_left (th_phase th)) ths i th (at_phase p th) Hi) as Hsum.
  simpl in Hsum. unfold at_phase in *. simpl in *. lia.
Qed.

Lemma remaining_bound (c : config W) : (remaining c <= 6 * length (cf_threads c))%nat.
Proof using Type.
  unfold remaining. induction (cf_threads c) as [|th ths IH]; [simpl; lia|].
  rewrite fmap_cons. cbn [sum_list length]. unfold id at 1.
  assert (moves_left (th_phase th) <= 6)%nat by (destruct (th_phase th); simpl; lia). lia.
Qed.

Lemma execute_moves schedule c : ∃ n, moves n c (execute schedule c).
Proof using Type.
  revert c. induction schedule as [|i schedule IH]; intros c; [exists 0%nat; constructor|]. cbn [execute].
  destruct (cf_threads c !! i) as [th|] eqn:Hi; [|apply IH].
  destruct (next_move _ _ _ _ _) as [[[[p d] w] new]|] eqn:Hm; [|apply IH].
  destruct (IH (mkConfig d w (<[i := at_phase p th]> (cf_threads c)) (new ++ cf_log c))) as [n Hn].
  exists (S n). destruct c as [d0 w0 ths log]. cbn [cf_data cf_world cf_threads cf_log] in *.
  eapply moves_thread; [done|by apply next_move_move|done].
Qed.
End Scheduler.

(** ** Properties *)

Section Properties.
Context `{U : UnicodeDB, H : HashLib, I : Interpreter} {W : Type} `{!World W, !WorldLaws W}.
Context (ttl max : Z) (ttl_nonneg : 0 <= ttl).
Context (detectors : list (PIIDetector W)) `{D : !DetectorsOk detectors} (stripe : pystr → Z).

(** Between two answers stored within one lifetime every callback was given
    the answer before its own. *)
Lemma chained_evolves l2 e2 l1 e1 l0 :
  chained ttl (l2 ++ e2 :: l1 ++ e1 :: l0) → Forall entry_ok (l2 ++ e2 :: l1 ++ e1 :: l0) →
  en_read_at e2 < en_written_at e1 + ttl →
  en_written_at e1 <= en_read_at e2 ∧ en_read e2 ≠ None ∧ evolves (en_written e1) (en_written e2).
Proof using Type.
  intros Hc He. assert (Hdrop : chained ttl (e2 :: l1 ++ e1 :: l0)).
  { clear He. induction l2 as [|e l2 IH]; [done|]. apply IH, Hc. }
  apply Forall_app in He as [_ He]. clear Hc l2.
  revert e2 Hdrop He. induction l1 as [|e l1 IH]; intros e2 ([Hr Ht] & Hrw & Hc) [He2 He]%Forall_cons Hlt.
  - specialize (Ht e1 eq_refl). split; [done|]. unfold entry_ok in He2. destruct (en_read e2) as [st|].
    + cbn in Hr. injection Hr as <-. by split.
    + specialize (Hr e1 eq_refl). lia.
  - specialize (Ht e eq_refl). pose proof Hc as (_ & Hrw' & _).
    destruct (IH e Hc He) as (Hle & Hn & Hev); [lia|]. split; [lia|]. unfold entry_ok in He2.
    destruct (en_read e2) as [st|].
    + cbn in Hr. injection Hr as <-. split; [done|]. by eapply evolves_trans.
    + specialize (Hr e eq_refl). lia.
Qed.

(** C6: concurrent requests cannot corrupt a session.  However the threads
    interleave, every answer a request returned was stored under its key, and
    is what its own callback made of the state it was given.  If a callback's
    read was over before an answer stored earlier for its key expired, then
    it was not given nothing, and its answer only evolved from that one: same
    original, mask, hash, mappings and owner, status at most from MASKED to
    DEMASKED - so concurrent first requests of one payload get the same mask,
    and no update is lost.  The last answer is what every later reader finds
    for its whole lifetime, and nothing else is found after it. *)
Theorem concurrent_sessions_linear (c : config W) (k : pystr) :
  reachable ttl max detectors stripe c →
  (∀ th o, th ∈ cf_threads c → th_phase th = Finished (Ok o) →
     ∃ e, e ∈ log_of (th_key th) (cf_log c) ∧ o = Some (en_written e) ∧
       ∃ prepared w w', prepared_ok detectors th prepared ∧
         transition_state detectors (en_read e) (th_payload th) (th_key th) (th_policy th) prepared w =
           (Ok (en_written e), w')) ∧
  (∀ l2 e2 l1 e1 l0, log_of k (cf_log c) = l2 ++ e2 :: l1 ++ e1 :: l0 →
     en_read_at e2 < en_written_at e1 + ttl →
     en_written_at e1 <= en_read_at e2 ∧ en_read e2 ≠ None ∧ evolves (en_written e1) (en_written e2)) ∧
  (∀ t st, clock (cf_world c) <= t → mem_live (cf_data c) t k = Some st → prior (log_of k (cf_log c)) = Some st) ∧
  (∀ e l, log_of k (cf_log c) = e :: l →
     ∀ t, clock (cf_world c) <= t → t < en_written_at e + ttl → mem_live (cf_data c) t k = Some (en_written e)).
Proof using D ttl_nonneg.
  intros Hr. pose proof (reachable_inv ttl max ttl_nonneg detectors stripe c Hr) as Hinv. split_and!.
  - intros th o Hth Hph.
    pose proof (proj1 (Forall_forall _ _) (inv_phases _ _ _ _ _ Hinv) _ Hth) as Hok.
    unfold phase_ok in Hok. rewrite Hph in Hok. destruct Hok as (e & He & Hkey & -> & _ & Ha).
    exists e. split; [by apply list_elem_of_filter|]. by split.
  - intros l2 e2 l1 e1 l0 Heq. apply (chained_evolves l2 e2 l1 e1 l0); rewrite <-Heq.
    + apply (inv_chain _ _ _ _ _ Hinv).
    + apply Forall_forall. intros e [_ He]%list_elem_of_filter.
      exact (proj1 (Forall_forall _ _) (inv_entries _ _ _ _ _ Hinv) _ He).
  - apply (inv_last _ _ _ _ _ Hinv).
  - intros e l Heq. apply (inv_kept _ _ _ _ _ Hinv k). by rewrite Heq.
Qed.

(** C27: no deadlock and no endless run: in a run from [c] to [c'], however
    the threads interleave and however long they wait in between, every
    move of a thread leaves strictly fewer to make, of at most six a thread;
    and as long as a thread of [c'] is not finished the scheduler can let one
    move. *)
Theorem concurrent_progress (n : nat) (c c' : config W) :
  moves ttl max detectors stripe n c c' →
  (n + remaining c' <= remaining c)%nat ∧ (remaining c <= 6 * length (cf_threads c))%nat ∧
  (Forall (λ th, ∃ r, th_phase th = Finished r) (cf_threads c') ∨
   ∃ i th p d w new, cf_threads c' !! i = Some th ∧
     next_move ttl max detectors stripe (cf_threads c') i th (cf_data c') (cf_world c') = Some (p, d, w, new) ∧
     step ttl max detectors stripe c' (mkConfig d w (<[i := at_phase p th]> (cf_threads c')) (new ++ cf_log c'))).
Proof using Type.
  intros Hm. split; [by eapply moves_bound|]. split; [apply remaining_bound|].
  destruct c' as [d w ths log]. cbn [cf_data cf_world cf_threads cf_log].
  destruct (decide (Exists (λ th, (0 < moves_left (th_phase th))%nat) ths)) as [He|He].
  - right. apply Exists_exists in He as (th & Hin & Hlt). apply list_elem_of_lookup in Hin as [i Hi].
    destruct (some_move ttl max detectors stripe ths d w) as (j & th1 & Hj & [[[[p d'] w'] new] Hnext]).
    { exists i, th. split; [done|]. intros r Hr. rewrite Hr in Hlt. simpl in Hlt. lia. }
    exists j, th1, p, d', w', new. split_and!; [done|done|]. eapply step_thread; [done|by apply next_move_move].
  - left. apply Forall_forall. intros th Hth. destruct (th_phase th) as [| | | | | |r] eqn:Hph; [..|by exists r].
    all: exfalso; apply He, Exists_exists; exists th; rewrite Hph; simpl; split; [done|lia].
Qed.
End Properties.

(** ** Witness: two first requests of one payload, interleaved *)

Section Witness.
#[local] Existing Instance plain_interpreter.

Definition one_request : thread := mkThread (rq_text ask_text) key1 default_policy Start.
Definition two_requests : config Z := mkConfig [] 0 [one_request; one_request] [].
Definition one_stripe : pystr → Z := λ _, 0.

(** Both look up, both prepare, the second takes the stripe first. *)
Definition interleaved : list nat := [0; 1; 0; 1; 1; 0; 1; 1; 1; 0; 0; 0; 0]%nat.

Abbreviation done_config := (execute 1000000 100 regex_detectors one_stripe interleaved two_requests).

Lemma two_requests_reachable : reachable 1000000 100 regex_detectors one_stripe two_requests.
Proof.
  constructor; [by repeat constructor|].
  repeat constructor; try exact ask_text_ok; by exists (u8 "p1"); vm_compute.
Qed.

(** The masked text and the read of each stored answer. *)
Example interleaved_log :
  (λ e, (Restoration.masked_text (en_written e), match en_read e with Some _ => true | None => false end))
    <$> log_of key1 (cf_log done_config) = [(rq_text ask_mask, true); (rq_text ask_mask, false)].
Proof. vm_compute. reflexivity. Qed.

(** The second read was over before the first answer expired. *)
Example interleaved_times :
  match log_of key1 (cf_log done_config) with
  | [e2; e1] => en_read_at e2 < en_written_at e1 + 1000000
  | _ => False
  end.
Proof. vm_compute. reflexivity. Qed.

Example interleaved_done :
  forallb (λ th, match th_phase th with Finished _ => true | _ => false end) (cf_threads done_config) = true.
Proof. vm_compute. reflexivity. Qed.

Lemma concurrent_sessions_linear_witness :
  ∃ e2 e1, log_of key1 (cf_log done_config) = [e2; e1] ∧ evolves (en_written e1) (en_written e2).
Proof.
  destruct (concurrent_sessions_linear 1000000 100 ltac:(lia) regex_detectors one_stripe done_config key1
    (execute_reachable 1000000 100 regex_detectors one_stripe interleaved two_requests two_requests_reachable))
    as (_ & Hev & _).
  pose proof interleaved_log as Hlog. pose proof interleaved_times as Htimes.
  destruct (log_of key1 (cf_log done_config)) as [|e2 [|e1 [|]]]; try discriminate Hlog.
  exists e2, e1. split; [reflexivity|]. apply (Hev [] e2 [] e1 []); [reflexivity|]. exact Htimes.
Defined.

(** The schedule ends: at most twelve moves, and none is left. *)
Lemma concurrent_progress_witness :
  ∃ n, moves 1000000 100 regex_detectors one_stripe n two_requests done_config ∧ (n <= 12)%nat ∧
    Forall (λ th, ∃ r, th_phase th = Finished r) (cf_threads done_config).
Proof.
  destruct (execute_moves 1000000 100 regex_detectors one_stripe interleaved two_requests) as [n Hn].
  destruct (concurrent_progress 1000000 100 regex_detectors one_stripe n two_requests done_config Hn)
    as (Hle & _ & [Hall|(i & th & p & d & w & new & Hi & Hnext & _)]).
  - exists n. split; [exact Hn|]. split; [|exact Hall]. change (remaining two_requests) with 12%nat in Hle. lia.
  - exfalso. pose proof interleaved_done as Hdone. rewrite forallb_forall in Hdone.
    specialize (Hdone th (proj1 (list_elem_of_In _ _) (list_elem_of_lookup_2 _ _ _ Hi))).
    unfold next_move in Hnext. by destruct (th_phase th).
Defined.
End Witness.
