(* ===== verification/Redis.v ===== *)
(** * Redis restoration store ([app/restoration/redis_store.py])

    [RedisRestorationStore] over a Redis client.  The server and the other
    workers that write to it are third parties: [RedisClient] names the
    commands the store sends, [RedisLaws] what WATCH, GET, MULTI and EXEC are
    documented to do when others write in between.  Values are never
    interpreted by the server; expiry is one of the changes others make. *)

From S2P Require Import Prelude Unicode Domain PyStr Utf8 Hashes Json Restoration World StoreInterface.

Definition EWatchError : exn := EOther (u8 "redis.WatchError").

(** The commands, each of which may raise; a value of [None] in a queued
    command is a deletion, [Some (v, ttl)] a SET with EX. *)
Class RedisClient (R : Type) := {
  client_get : pystr → stateM R exn (option bytes);
  client_set : pystr → pystr → Z → stateM R exn unit;
  client_delete : pystr → stateM R exn unit;
  pipe_watch : pystr → stateM R exn unit;
  pipe_get : pystr → stateM R exn (option bytes);
  pipe_execute : pystr → option (pystr * Z) → stateM R exn unit;
  pipe_reset : R → R;                       (* leaving [with client.pipeline()] *)
  backoff : Q → R → R                       (* time.sleep(random.uniform(0, limit)) *)
}.

(** Ghost state: the value the server holds, a stamp that grows whenever
    anyone changes the key, the keys this client watches with the stamps they
    had, and the writes of this client that took effect. *)
Class RedisGhost (R : Type) := {
  value_at : R → pystr → option bytes;
  stamp : R → pystr → Z;
  watched : R → list (pystr * Z);
  writes : R → list (pystr * option bytes)
}.

(** [r'] may be seen after [r]: the server is shared, so that anything may
    have been changed by others in between, and a change moves the stamp. *)
Definition later {R} `{!RedisGhost R} (r r' : R) : Prop :=
  ∀ k, stamp r k <= stamp r' k ∧ (stamp r' k = stamp r k → value_at r' k = value_at r k).

(** What the documentation says of the commands; each of them takes time in
    which others may write, and each may fail to reach the server.  GET
    answers with the value at its instant.  WATCH remembers the key until the
    transaction ends.  EXEC runs the queued command at one instant, as one
    change by this client, unless a watched key was changed since it was
    watched; it succeeds as well when nothing is watched.  A failure of EXEC
    other than WatchError may hide either outcome. *)
Class RedisLaws (R : Type) `{!RedisClient R} := {
  redis_ghost :: RedisGhost R;
  client_get_law k r : later r (client_get k r).2 ∧ writes (client_get k r).2 = writes r;
  watch_law k r :
    let '(res, r') := pipe_watch k r in
    later r r' ∧ writes r' = writes r ∧
    match res with Ok _ => watched r' = watched r ++ [(k, stamp r' k)] | Err e => e ≠ EWatchError end;
  get_law k r :
    let '(res, r') := pipe_get k r in
    later r r' ∧ writes r' = writes r ∧
    match res with Ok v => v = value_at r' k ∧ watched r' = watched r | Err e => e ≠ EWatchError end;
  execute_law k cmd r :
    let '(res, r') := pipe_execute k cmd r in
    later r r' ∧
    match res with
    | Ok _ => ∃ re v, later r re ∧ writes re = writes r ∧ (∀ k0 t, (k0, t) ∈ watched r → stamp re k0 = t) ∧
        later re r' ∧ stamp r' k = stamp re k + 1 ∧ value_at r' k = v ∧ writes r' = writes r ++ [(k, v)] ∧
        match cmd with Some (s, _) => ∃ b, utf8_encode s = Ok b ∧ v = Some b | None => v = None end
    | Err e => writes r' = writes r ∨ e ≠ EWatchError ∧ ∃ v, writes r' = writes r ++ [(k, v)]
    end;
  reset_law r : later r (pipe_reset r) ∧ writes (pipe_reset r) = writes r;
  backoff_law q r : later r (backoff q r) ∧ writes (backoff q r) = writes r
}.

Lemma later_refl {R} `{!RedisGhost R} (r : R) : later r r.
Proof. by intros k. Qed.

Lemma later_trans {R} `{!RedisGhost R} (r1 r2 r3 : R) : later r1 r2 → later r2 r3 → later r1 r3.
Proof.
  intros H1 H2 k. destruct (H1 k) as [? Hv1], (H2 k) as [? Hv2]. split; [lia|]. intros Hs.
  rewrite Hv2, Hv1 by lia. done.
Qed.

(** What did not change before a later instant had not changed in between. *)
Lemma later_between {R} `{!RedisGhost R} (r1 r2 r3 : R) k :
  later r1 r2 → later r2 r3 → stamp r3 k = stamp r1 k → value_at r3 k = value_at r2 k.
Proof. intros H1 H2 Hs. destruct (H1 k), (H2 k) as [? Hv]. apply Hv. lia. Qed.

(** ** Construction *)

(** [a or b] on optional strings. *)
Definition py_or (a b : option pystr) : option pystr :=
  match a with
  | Some (_ :: _) => a
  | _ => b
  end.

Definition redis_key_error : exn := ERuntimeError.

(** [_build_fernet]: the key handed to [Fernet], or the error. *)
Definition build_fernet (masking_key env_masking_key : option pystr) : result exn bytes :=
  match py_or masking_key env_masking_key with
  | Some (c :: s) => utf8_encode (c :: s)
  | _ => Err redis_key_error
  end.

(** [__init__]: the Fernet key and the HMAC secret. *)
Definition redis_init (masking_key key_hmac_secret env_masking_key : option pystr) : result exn (bytes * bytes) :=
  fernet_key ← build_fernet masking_key env_masking_key;
  hmac_secret ← utf8_encode (default [] (py_or key_hmac_secret (py_or masking_key env_masking_key)));
  if bool_decide (hmac_secret = []) then Err redis_key_error else Ok (fernet_key, hmac_secret).

(** ** Operations *)

Definition KEY_PREFIX : pystr := u8 "pii:restore:".
Definition MAX_CAS_RETRIES : nat := 5.
Definition CAS_BACKOFF_BASE : Q := 5 # 1000.

Definition contention : exn := ServiceOverloadedError (u8 "concurrent modification of restoration state") 1.

Section Redis.
Context {R W : Type} `{H : HashLib, I : Interpreter, !World W, !RedisClient R}.
Context (ttl_seconds : Z) (hmac_secret : bytes).

Definition redisM (A : Type) : Type := stateM (R * W) exn A.

Definition on_client {A} (m : stateM R exn A) : redisM A := λ '(r, w),
  let '(a, r) := m r in (a, (r, w)).
Definition on_world {A} (m : stateM W exn A) : redisM A := λ '(r, w),
  let '(a, w) := m w in (a, (r, w)).
Definition client_effect (f : R → R) : redisM unit := λ '(r, w), (Ok tt, (f r, w)).

(** [_key]. *)
Definition redis_key (payload_id : pystr) : result exn pystr :=
  data ← utf8_encode payload_id;
  Ok (KEY_PREFIX ++ hmac_sha256_hex hmac_secret data).

(** [_decode], on the bytes the client returns. *)
Definition decode (payload_id : pystr) (raw : bytes) : result exn RestorationState :=
  token ← utf8_decode raw;
  data ← utf8_encode token;
  plain ← fernet_decrypt data;
  text ← utf8_decode plain;
  from_json payload_id text.

(** [_encode]. *)
Definition encode (st : RestorationState) : stateM W exn pystr :=
  plain <-- slift (json ← to_json st; utf8_encode json);
  token <-- encrypt plain;
  slift (utf8_decode token).

Definition redis_get (payload_id : pystr) : redisM (option RestorationState) :=
  key <-- slift (redis_key payload_id);
  raw <-- on_client (client_get key);
  match raw with
  | None => sret None
  | Some raw => st <-- slift (decode payload_id raw); sret (Some st)
  end.

Definition redis_save (payload_id : pystr) (st : RestorationState) : redisM unit :=
  key <-- slift (redis_key payload_id);
  token <-- on_world (encode st);
  on_client (client_set key token ttl_seconds).

Definition redis_delete (payload_id : pystr) : redisM unit :=
  key <-- slift (redis_key payload_id);
  on_client (client_delete key).

(** [pipe.watch(key); raw = pipe.get(key)], decoded. *)
Definition watch_read (payload_id key : pystr) : redisM (option RestorationState) :=
  _ <-- on_client (pipe_watch key);
  raw <-- on_client (pipe_get key);
  match raw with
  | None => sret None
  | Some raw => st <-- slift (decode payload_id raw); sret (Some st)
  end.

(** The body of the [try]: one optimistic attempt. *)
Definition attempt (payload_id key : pystr) (fn : transition_fn W) : redisM (option RestorationState) :=
  current <-- watch_read payload_id key;
  new_state <-- on_world (fn current);
  cmd <-- match new_state with
          | None => sret None
          | Some st => token <-- on_world (encode st); sret (Some (token, ttl_seconds))
          end;
  _ <-- on_client (pipe_execute key cmd);
  sret new_state.

(** [_CAS_BACKOFF_BASE * 2 ** attempt]. *)
Definition backoff_limit (attempt_no : nat) : Q := (CAS_BACKOFF_BASE * inject_Z (2 ^ Z.of_nat attempt_no))%Q.

(** The [for] loop: [n] attempts left, the next one has number [attempt_no]. *)
Fixpoint cas_loop (n attempt_no : nat) (payload_id key : pystr) (fn : transition_fn W)
    : redisM (option RestorationState) := λ rw,
  match n with
  | O => (Err contention, rw)
  | S n =>
      match attempt payload_id key fn rw with
      | (Ok st, (r, w)) => (Ok st, (pipe_reset r, w))
      | (Err e, (r, w)) =>
          if decide (e = EWatchError)
          then cas_loop n (S attempt_no) payload_id key fn (pipe_reset (backoff (backoff_limit attempt_no) r), w)
          else (Err e, (pipe_reset r, w))
      end
  end.

Definition redis_transition (payload_id : pystr) (fn : transition_fn W) : redisM (option RestorationState) :=
  key <-- slift (redis_key payload_id);
  cas_loop MAX_CAS_RETRIES 0 payload_id key fn.

#[export] Instance redis_store : RestorationStore R W := {|
  store_get := redis_get;
  store_transition := redis_transition
|}.
End Redis.

(** ** Stored values *)

Section Values.
Context {R W : Type} `{H : HashLib, I : Interpreter, !World W, !WorldLaws W, !RedisClient R, !RedisLaws R}.
Context (ttl_seconds : Z) (hmac_secret : bytes).

(** What is stored for a state decodes to it. *)
Lemma encode_spec pid st w :
  storable st →
  ∃ token w', encode st w = (Ok token, w') ∧
    utf8_encode token = Ok token ∧ decode pid token = Ok (with_id pid st).
Proof.
  intros Hst. destruct (from_json_to_json st pid Hst) as (s & Hs & Hf).
  apply result_of_option_Ok in Hs as Hd. pose proof (json_dumps_printable _ _ Hd) as Hp.
  assert (Hascii : Forall (λ c, 0 <= c < 128) s)
    by (eapply Forall_impl; [exact Hp|]; unfold printable; simpl; lia).
  destruct (utf8_ascii s Hascii) as [He Hb].
  unfold encode, sbind, slift. rewrite Hs. cbn [mbind result_bind]. rewrite He. unfold encrypt.
  assert (Htok : Forall (λ c, 0 <= c < 128) (fernet_encrypt s w).1).
  { apply fernet_ascii. eapply Forall_impl; [exact Hascii|]. unfold is_byte. simpl. lia. }
  pose proof (fernet_correct s w) as Hdec. destruct (fernet_encrypt s w) as [token w'] eqn:Henc.
  simpl in *. destruct (utf8_ascii token Htok) as [Hte Htd]. exists token, w'. rewrite Htd.
  split_and!; [done|done|]. unfold decode. rewrite Htd. cbn [mbind result_bind]. rewrite Hte.
  cbn [mbind result_bind]. rewrite Hdec. cbn [mbind result_bind]. by rewrite Hb.
Qed.

(** The state a raw value stands for. *)
Definition decoded (pid : pystr) (raw : option bytes) : result exn (option RestorationState) :=
  match raw with
  | None => Ok None
  | Some raw => st ← decode pid raw; Ok (Some st)
  end.

(** [v] is what is stored for [new]. *)
Definition stored (pid : pystr) (new : option RestorationState) (v : option bytes) : Prop :=
  match new with
  | None => v = None
  | Some st => ∃ b, v = Some b ∧ (storable st → decode pid b = Ok (with_id pid st))
  end.

(** EXEC itself failed with [e], not for a concurrent change. *)
Definition exec_failed (key : pystr) (e : exn) : Prop :=
  e ≠ EWatchError ∧ ∃ cmd r, (pipe_execute key cmd r).1 = Err e.

(** Between [r] and [r'] one write of this client took effect, at the instant
    [re]: the callback was given what the server held at that very instant,
    and what it returned was stored. *)
Definition atomic_update (pid key : pystr) (fn : transition_fn W) (r : R) (new : option RestorationState) (r' : R) : Prop :=
  ∃ re current w1 w2, later r re ∧ writes re = writes r ∧ decoded pid (value_at re key) = Ok current ∧
    fn current w1 = (Ok new, w2) ∧ later re r' ∧
    stamp r' key = stamp re key + 1 ∧ writes r' = writes r ++ [(key, value_at r' key)] ∧
    stored pid new (value_at r' key).

(** Nothing was written, or EXEC failed and may have written. *)
Definition not_updated (key : pystr) (e : exn) (r r' : R) : Prop :=
  later r r' ∧ (writes r' = writes r ∨ exec_failed key e ∧ ∃ v, writes r' = writes r ++ [(key, v)]).

Lemma watch_read_spec pid key r w res r' w' :
  watch_read pid key (r, w) = (res, (r', w')) →
  later r r' ∧ writes r' = writes r ∧ w' = w ∧
  match res with
  | Ok current => decoded pid (value_at r' key) = Ok current ∧
      ∃ r1, later r r1 ∧ later r1 r' ∧ (key, stamp r1 key) ∈ watched r'
  | Err _ => True
  end.
Proof.
  unfold watch_read, sbind, on_client, slift, sret.
  pose proof (watch_law key r) as Hw. destruct (pipe_watch key r) as [[[]|e] r1]; destruct Hw as (Hl & Hwr & Hwt);
    [|by intros [= <- <- <-]].
  pose proof (get_law key r1) as Hg. destruct (pipe_get key r1) as [[v|e] r2]; destruct Hg as (Hl2 & Hwr2 & Hv).
  2: { intros [= <- <- <-]. split_and!; [by eapply later_trans|congruence|done|done]. }
  destruct Hv as [-> Hwt2].
  assert (Hall : later r r2 ∧ writes r2 = writes r ∧ w = w ∧ ∃ r1, later r r1 ∧ later r1 r2 ∧ (key, stamp r1 key) ∈ watched r2).
  { split_and!; [by eapply later_trans|congruence|done|]. exists r1. split_and!; [done|done|]. rewrite Hwt2, Hwt. set_solver. }
  destruct Hall as (? & ? & _ & ?).
  unfold decoded. destruct (value_at r2 key) as [b|] eqn:Hv; [|intros [= <- <- <-]; by rewrite Hv].
  destruct (decode pid b) as [st|e] eqn:Hd; intros [= <- <- <-]; [|done]. rewrite Hv. cbn [mbind result_bind].
  by rewrite Hd.
Qed.

(** EXEC after [watch_read]: what was read is what the server still holds. *)
Lemma execute_spec pid key fn (r r1 rg r' : R) cmd current w1 new w2 res :
  later r r1 → later r1 rg → (key, stamp r1 key) ∈ watched rg → writes rg = writes r →
  decoded pid (value_at rg key) = Ok current → fn current w1 = (Ok new, w2) →
  (∀ s t b, cmd = Some (s, t) → utf8_encode s = Ok b → stored pid new (Some b)) → (cmd = None → new = None) →
  pipe_execute key cmd rg = (res, r') →
  match res with
  | Ok _ => atomic_update pid key fn r new r'
  | Err e => later r r' ∧
      if decide (e = EWatchError) then writes r' = writes r else not_updated key e r r'
  end.
Proof.
  intros Hl Hl1 Hwt Hwr Hdec Hfn Hsome Hnone Hrun. pose proof (execute_law key cmd rg) as Hex. rewrite Hrun in Hex.
  destruct Hex as [Hl2 Hex]. pose proof (later_trans _ _ _ Hl Hl1) as Hlg. pose proof (later_trans _ _ _ Hlg Hl2) as Hlr.
  destruct res as [[]|e].
  - destruct Hex as (re & v & Hle & Hwe & Hun & Hle' & Hst & <- & Hw & Hv).
    exists re, current, w1, w2. rewrite (later_between r1 rg re) by (by try apply Hun).
    split_and!; [exact (later_trans _ _ _ Hlg Hle)|congruence|done|done|done|done|congruence|].
    destruct cmd as [[s t]|]; [|by rewrite Hnone]. destruct Hv as (b & Hb & ->). by eapply Hsome.
  - split; [done|]. case_decide as He; [destruct Hex as [Hex|[? _]]; [congruence|done]|]. split; [done|].
    rewrite <-Hwr. destruct Hex as [Hex|[_ Hex]]; [by left|right]. split; [|done].
    split; [done|]. exists cmd, rg. by rewrite Hrun.
Qed.

Lemma attempt_spec pid key fn r w res r' w' :
  attempt ttl_seconds pid key fn (r, w) = (res, (r', w')) →
  match res with
  | Ok new => atomic_update pid key fn r new r'
  | Err e => later r r' ∧ if decide (e = EWatchError) then writes r' = writes r else not_updated key e r r'
  end.
Proof.
  assert (Hsame : ∀ e (r' : R), later r r' → writes r' = writes r →
    later r r' ∧ if decide (e = EWatchError) then writes r' = writes r else not_updated key e r r').
  { intros e r0 Hl Hwr. split; [done|]. case_decide; [done|]. split; [done|by left]. }
  unfold attempt, sbind. destruct (watch_read pid key (r, w)) as [cur [r1 w1]] eqn:Hread.
  apply watch_read_spec in Hread as (Hl & Hwr & -> & Hdec). destruct cur as [current|e]; [|intros [= <- <- _]; auto].
  destruct Hdec as (Hdec & r0 & Hl0 & Hl1 & Hwt).
  unfold on_world at 1. destruct (fn current w) as [[new|e] w2] eqn:Hfn; [|intros [= <- <- _]; auto].
  assert (Hexec : ∀ cmd (w3 : W) res r' w',
    (∀ s t b, cmd = Some (s, t) → utf8_encode s = Ok b → stored pid new (Some b)) → (cmd = None → new = None) →
    (let (x, s') := on_client (W := W) (pipe_execute key cmd) (r1, w3) in
     match x with Ok _ => sret new s' | Err e => (Err e, s') end) = (res, (r', w')) →
    match res with
    | Ok new => atomic_update pid key fn r new r'
    | Err e => later r r' ∧ if decide (e = EWatchError) then writes r' = writes r else not_updated key e r r'
    end).
  { clear res r' w'. intros cmd w3 res r' w' Hcmd Hnone. unfold on_client, sret.
    destruct (pipe_execute key cmd r1) as [x r2] eqn:Hrun.
    pose proof (execute_spec pid key fn r r0 r1 r2 cmd current w new w2 x Hl0 Hl1 Hwt Hwr Hdec Hfn Hcmd Hnone Hrun) as Hx.
    by destruct x as [[]|e]; intros [= <- <- _]. }
  destruct new as [st|].
  - unfold on_world. destruct (encode st w2) as [[token|e] w3] eqn:Henc.
    + unfold sret at 1. apply Hexec; [|done]. intros s t b [= <- _] Hb. exists b. split; [done|]. intros Hst.
      destruct (encode_spec pid st w2 Hst) as (token' & w4 & Htok & Hte & Hdt).
      rewrite Htok in Henc. injection Henc as <- _. rewrite Hte in Hb. by injection Hb as <-.
    + intros [= <- <- _]. auto.
  - unfold sret at 1. by apply Hexec.
Qed.

(** Lost attempts leave no trace of this client. *)
Lemma cas_loop_spec n a pid key fn r w res r' w' :
  cas_loop ttl_seconds n a pid key fn (r, w) = (res, (r', w')) →
  match res with
  | Ok new => ∃ r0 r2, later r r0 ∧ writes r0 = writes r ∧ atomic_update pid key fn r0 new r2 ∧ r' = pipe_reset r2
  | Err e => not_updated key e r r'
  end.
Proof.
  revert a r w. induction n as [|n IH]; intros a r w; cbn [cas_loop].
  - intros [= <- <- _]. split; [apply later_refl|by left].
  - destruct (attempt ttl_seconds pid key fn (r, w)) as [[st|e] [r1 w1]] eqn:Ha; apply attempt_spec in Ha.
    + intros [= <- <- _]. exists r, r1. split_and!; [apply later_refl|done|done|done].
    + destruct Ha as [Hl Ha]. case_decide as He.
      * intros Hloop%IH.
        assert (Hnext : later r (pipe_reset (backoff (backoff_limit a) r1)) ∧
                        writes (pipe_reset (backoff (backoff_limit a) r1)) = writes r).
        { destruct (reset_law (backoff (backoff_limit a) r1)) as [? ->], (backoff_law (backoff_limit a) r1) as [? ->].
          split; [|done]. eapply (later_trans r r1); [done|]. by eapply later_trans. }
        destruct Hnext as [Hl' Hw]. destruct res as [new|e'].
        -- destruct Hloop as (r0 & r2 & ? & ? & ? & ->). exists r0, r2.
           split_and!; [by eapply later_trans|congruence|done|done].
        -- destruct Hloop as [Hl2 Hloop]. rewrite Hw in Hloop. split; [by eapply later_trans|done].
      * intros [= <- <- _]. destruct Ha as [_ Ha], (reset_law r1) as [? Hw]. rewrite <-Hw in Ha.
        split; [by eapply later_trans|done].
Qed.
End Values.

(** ** Properties *)

Section Properties.
Context {R W : Type} `{H : HashLib, I : Interpreter, !World W, !WorldLaws W, !RedisClient R, !RedisLaws R}.
Context (ttl_seconds : Z) (hmac_secret : bytes).

(** C7: the compare-and-set loop is an atomic read-modify-write under any
    interference: a transition that returns made exactly one write of this
    client; its callback was given what the server held under the key at the
    instant of this write, although anyone may write between any two commands;
    and what was stored decodes to the returned state.  A transition that
    raises wrote nothing, lost attempts included, unless EXEC itself failed
    for another reason than a concurrent change, which may hide one write. *)
Theorem redis_transition_atomic (pid : pystr) (fn : transition_fn W) (r r' : R) (w w' : W) res :
  redis_transition ttl_seconds hmac_secret pid fn (r, w) = (res, (r', w')) →
  match res with
  | Ok new => ∃ key r0 r2, redis_key hmac_secret pid = Ok key ∧ later r r0 ∧ writes r0 = writes r ∧
      atomic_update pid key fn r0 new r2 ∧ later r2 r' ∧ writes r' = writes r2
  | Err e => writes r' = writes r ∨
      ∃ key v, redis_key hmac_secret pid = Ok key ∧ exec_failed key e ∧ writes r' = writes r ++ [(key, v)]
  end.
Proof.
  unfold redis_transition, sbind, slift. destruct (redis_key hmac_secret pid) as [key|e];
    [|intros [= <- <- _]; by left].
  intros Hl%cas_loop_spec. destruct res as [new|e].
  - destruct Hl as (r0 & r2 & Hl & Hr0 & Hup & ->). exists key, r0, r2. split_and!; try done; apply reset_law.
  - destruct Hl as [_ [Hl|[Hl (v & Hv)]]]; [by left|right]. by exists key, v.
Qed.

(** A Redis store cannot be built without a key, and a built one has a
    non-empty HMAC secret: the second check of [__init__] never fires. *)
Lemma redis_init_key masking_key key_hmac_secret env :
  redis_init masking_key key_hmac_secret env = Err redis_key_error ↔ py_or masking_key env = None ∨ py_or masking_key env = Some [].
Proof.
  unfold redis_init, build_fernet. destruct (py_or masking_key env) as [[|c s]|] eqn:Hk; [naive_solver..| |naive_solver].
  split; [|by intros [?|?]].
  destruct (utf8_encode (c :: s)) as [bs|e] eqn:He; cbn [mbind result_bind].
  2: { apply utf8_encode_error in He as ->. done. }
  assert (Hne : ∀ x y, py_or x (Some (c :: s)) = Some y → y ≠ [])
    by (intros x y Hx; unfold py_or in Hx; destruct x as [[|a x]|]; injection Hx as <-; discriminate).
  destruct (py_or key_hmac_secret (Some (c :: s))) as [y|] eqn:Hy.
  - change (default [] (Some y)) with y. specialize (Hne _ _ Hy). destruct (utf8_encode y) as [b|e'] eqn:Hb; cbn [mbind result_bind].
    + case_bool_decide as Hbe; [|done]. subst b. exfalso. destruct y as [|x y]; [done|].
      cbn [utf8_encode] in Hb. apply bind_Ok in Hb as (cb & Hcb & (bs' & _ & Hnil)%bind_Ok).
      apply (inj Ok), app_eq_nil in Hnil as [-> _]. unfold encode_char in Hcb. by repeat case_match.
    + apply utf8_encode_error in Hb as ->. done.
  - by destruct key_hmac_secret as [[|? ?]|].
Qed.
End Properties.

(** ** A server for evaluation *)

(** [sv_others] are the changes other clients make, one batch before each
    EXEC. *)
Record server := mkServer {
  sv_data : pystr → option bytes;
  sv_stamp : pystr → Z;
  sv_watch : list (pystr * Z);
  sv_writes : list (pystr * option bytes);
  sv_others : list (list (pystr * option bytes))
}.

Definition change (p : pystr * option bytes) (s : server) : server :=
  mkServer (λ k, if decide (k = p.1) then p.2 else sv_data s k)
    (λ k, if decide (k = p.1) then sv_stamp s k + 1 else sv_stamp s k)
    (sv_watch s) (sv_writes s) (sv_others s).
Definition own_write (p : pystr * option bytes) (s : server) : server :=
  let s := change p s in
  mkServer (sv_data s) (sv_stamp s) [] (sv_writes s ++ [p]) (sv_others s).
Definition set_watch (o : list (pystr * Z)) (s : server) : server :=
  mkServer (sv_data s) (sv_stamp s) o (sv_writes s) (sv_others s).
Definition interfere (s : server) : server :=
  let s' := fold_left (λ s p, change p s) (default [] (head (sv_others s))) s in
  mkServer (sv_data s') (sv_stamp s') (sv_watch s) (sv_writes s) (tail (sv_others s)).

Definition exec (k : pystr) (cmd : option (pystr * Z)) (s : server) : result exn unit * server :=
  let s' := interfere s in
  if forallb (λ p, sv_stamp s' p.1 =? p.2) (sv_watch s)
  then match cmd with
       | None => (Ok tt, own_write (k, None) s')
       | Some (v, _) =>
           match utf8_encode v with
           | Ok b => (Ok tt, own_write (k, Some b) s')
           | Err e => (Err e, s)
           end
       end
  else (Err EWatchError, set_watch [] s').

#[export] Instance server_client : RedisClient server := {|
  client_get := λ k s, (Ok (sv_data s k), s);
  client_set := λ k v _ s, match utf8_encode v with Ok b => (Ok tt, own_write (k, Some b) s) | Err e => (Err e, s) end;
  client_delete := λ k s, (Ok tt, own_write (k, None) s);
  pipe_watch := λ k s, (Ok tt, set_watch (sv_watch s ++ [(k, sv_stamp s k)]) s);
  pipe_get := λ k s, (Ok (sv_data s k), s);
  pipe_execute := exec;
  pipe_reset := set_watch [];
  backoff := λ _ s, s
|}.

#[export] Instance server_ghost : RedisGhost server := {|
  value_at := sv_data; stamp := sv_stamp; watched := sv_watch; writes := sv_writes
|}.

Lemma change_later p s : later s (change p s).
Proof. intros k. cbn. case_decide; [split; lia|done]. Qed.

Lemma interfere_later s : later s (interfere s).
Proof.
  assert (Hfold : ∀ l s, later s (fold_left (λ s p, change p s) l s)).
  { intros l. induction l as [|p l IH]; intros s0; [apply later_refl|].
    eapply later_trans; [apply change_later|apply IH]. }
  exact (Hfold (default [] (head (sv_others s))) s).
Qed.

Lemma own_write_later p s : later s (own_write p s).
Proof. exact (change_later p s). Qed.

Lemma own_write_spec k v s :
  stamp (own_write (k, v) s) k = stamp s k + 1 ∧ value_at (own_write (k, v) s) k = v.
Proof. cbn. by rewrite !decide_True. Qed.

#[export] Program Instance server_laws : RedisLaws server := {| redis_ghost := server_ghost |}.
Next Obligation. intros k s. split; [apply later_refl|done]. Qed.
Next Obligation. intros k s. cbn. split; [exact (later_refl s)|done]. Qed.
Next Obligation. intros k s. cbn. split; [exact (later_refl s)|done]. Qed.
Next Obligation.
  intros k cmd s. cbn [pipe_execute server_client]. unfold exec.
  assert (Hok : ∀ v, forallb (λ p, sv_stamp (interfere s) p.1 =? p.2) (sv_watch s) = true →
    later s (own_write (k, v) (interfere s)) ∧
    later s (interfere s) ∧ writes (interfere s) = writes s ∧
    (∀ k0 t, (k0, t) ∈ watched s → stamp (interfere s) k0 = t) ∧ later (interfere s) (own_write (k, v) (interfere s)) ∧
    stamp (own_write (k, v) (interfere s)) k = stamp (interfere s) k + 1 ∧
    value_at (own_write (k, v) (interfere s)) k = v ∧ writes (own_write (k, v) (interfere s)) = writes s ++ [(k, v)]).
  { intros v Hall. destruct (own_write_spec k v (interfere s)).
    split_and!; [eapply later_trans; [apply interfere_later|apply own_write_later]|apply interfere_later|done| |
      apply own_write_later|done|done|done].
    intros k0 t Hin%list_elem_of_In. rewrite forallb_forall in Hall. exact (proj1 (Z.eqb_eq _ _) (Hall _ Hin)). }
  destruct (forallb _ _) eqn:Hall.
  - destruct cmd as [[v ttl]|].
    + destruct (utf8_encode v) as [b|e] eqn:He; [|split; [apply later_refl|by left]].
      destruct (Hok (Some b) eq_refl) as (? & ? & ? & ? & ? & ? & ? & ?). split; [done|].
      exists (interfere s), (Some b). split_and!; try done. by exists b.
    + destruct (Hok None eq_refl) as (? & ? & ? & ? & ? & ? & ? & ?). split; [done|].
      by exists (interfere s), None.
  - split; [exact (interfere_later s)|by left].
Qed.
Next Obligation. intros s. split; [exact (later_refl s)|done]. Qed.
Next Obligation. intros q s. split; [exact (later_refl s)|done]. Qed.

(** ** Witness: the key expires during the first attempt *)

Section Witness.
#[local] Existing Instance plain_interpreter.

Definition redis_key1 : pystr :=
  match redis_key (u8 "secret") (u8 "k") with Ok k => k | Err _ => [] end.
Definition token1 : bytes := match (encode sample_state 0).1 with Ok t => t | Err _ => [] end.
Definition server1 : server :=
  mkServer (λ k, if decide (k = redis_key1) then Some token1 else None) (λ _, 0) [] []
    [[(redis_key1, None)]].
Definition refresh : transition_fn Z := λ c, sret (Some (default sample_state c)).

Abbreviation refreshed := (redis_transition 3600 (u8 "secret") (u8 "k") refresh (server1, 0)).

Lemma unpair3 {A B C} (x : A * (B * C)) : x = (x.1, (x.2.1, x.2.2)).
Proof. by destruct x as [a [b c]]. Qed.

Example first_attempt_lost :
  (attempt 3600 (u8 "k") redis_key1 refresh (server1, 0)).1 = Err EWatchError.
Proof. vm_compute. reflexivity. Qed.

Lemma redis_transition_atomic_witness :
  ∃ new key r0 r2, refreshed.1 = Ok new ∧ writes r0 = [] ∧
    atomic_update (u8 "k") key refresh r0 new r2 ∧ writes refreshed.2.1 = writes r2.
Proof.
  pose proof (redis_transition_atomic 3600 (u8 "secret") (u8 "k") refresh server1 refreshed.2.1 0 refreshed.2.2
    refreshed.1 (unpair3 refreshed)) as H.
  destruct refreshed.1 as [new|e] eqn:Hr.
  - destruct H as (key & r0 & r2 & _ & _ & Hw & Hup & _ & Hw'). exists new, key, r0, r2.
    split; [reflexivity|]. split; [exact Hw|]. split; [exact Hup|exact Hw'].
  - exfalso. assert (Hok : is_ok refreshed.1 = true) by (vm_compute; reflexivity).
    rewrite Hr in Hok. discriminate Hok.
Defined.
End Witness.
