(* ===== verification/RedisService.v ===== *)
(** * The service over Redis

    Several workers run [ProcessService] over one Redis server.  The server's
    value under a key changes when an entry expires or when some worker's
    EXEC takes effect, right after the value that worker's callback saw
    ([Redis.redis_transition_atomic]).  Along such changes a session behaves
    as in one process: it starts with a preparation and then only evolves;
    and a call that is answered is exactly one of the changes, whatever the
    other workers do between its commands. *)

From S2P Require Import Prelude Unicode Domain PyStr Utf8 Hashes Json Metrics Strategies Masking Resolution.
From S2P Require Import Policy Restoration World StoreInterface Process Service Redis.

(** ** A call, whatever the store *)

Section AnyStore.
Context `{U : UnicodeDB, H : HashLib, I : Interpreter} {S W : Type} `{!World W, !RestorationStore S W}.
Context (detectors : list (PIIDetector W)).

Lemma timed_Ok {A} (m : storeM (S := S) A) s w a ms s' w' :
  timed m (s, w) = (Ok (a, ms), (s', w')) → ∃ w0 w1, m (s, w0) = (Ok a, (s', w1)).
Proof.
  unfold timed, perf_counter, store_perf. destruct (perf_counter w) as [q w0].
  destruct (m (s, w0)) as [[x|e] [s1 w1]] eqn:Hm; destruct (perf_counter w1) as [q1 w2]; [|done].
  intros [= -> _ -> _]. by exists w0, w1.
Qed.

Lemma in_store_Ok {A} (m : storeM (S := S) A) sw mt a sw' mt' :
  in_store (W := W) m (sw, mt) = (Ok a, (sw', mt')) → m sw = (Ok a, sw').
Proof. unfold in_store. destruct (m sw) as [r sw1]. by intros [= -> -> _]. Qed.

(** Preparing touches the world alone. *)
Lemma maybe_prepare_Ok found payload key policy timings (s : S) w prepared timings' s' w' :
  maybe_prepare detectors found payload key policy timings (s, w) = (Ok (prepared, timings'), (s', w')) →
  s' = s ∧ ∀ p, prepared = Some p → prepares detectors payload key policy p.
Proof.
  unfold maybe_prepare. destruct found as [st0|]; [by intros [= <- _ <- _]|].
  intros ([p' ms0] & [s11 w11] & Hp & Hret)%sbind_Ok. injection Hret as <- _ <- _.
  apply timed_Ok in Hp as (w12 & w13 & Hp). unfold in_world in Hp.
  destruct (prepare_mask detectors payload key policy w12) as [r' w14] eqn:Hpm. injection Hp as -> <- _.
  split; [done|]. intros p [= <-]. by exists w12, w14.
Qed.

(** An answered call has looked its key up, then made one transition with a
    callback for its request, and its answer is the outcome of what that
    returned; nothing else of it touches the store. *)
Lemma process_Ok_inv payload pid policy s w mt out s' w' mt' :
  process detectors payload pid policy ((s, w), mt) = (Ok out, ((s', w'), mt')) →
  ∃ key found prepared s1 w0 w1 w2 w3 r o ms timings,
    state_key (cp_consumer_id policy) pid = Ok key ∧
    store_get key (s, w0) = (Ok found, (s1, w1)) ∧
    (∀ p, prepared = Some p → prepares detectors payload key policy p) ∧
    store_transition key (callback detectors payload key policy prepared) (s1, w2) = (Ok r, (s', w3)) ∧
    outcome_from_state r = Ok o ∧ out = with_timings o ms timings.
Proof.
  unfold process. case_match; [done|]. intros (key & st1 & Hkey & Hrun)%sbind_Ok.
  unfold slift in Hkey. injection Hkey as Hkey <-.
  apply sbind_Ok in Hrun as ([[o timings] ms] & [[s2 w2] m2] & Hbody & Hrun).
  apply in_store_Ok in Hbody. apply timed_Ok in Hbody as (w3 & w4 & Hbody).
  assert (Hout : out = with_timings o ms timings ∧ s' = s2).
  { unfold record in Hrun. unfold sbind, slift, sret in Hrun. cbn in Hrun.
    destruct (utf8_encode payload); [by injection Hrun|done]. }
  destruct Hout as [-> ->]. rewrite process_body_steps in Hbody.
  apply sbind_Ok in Hbody as ([found lookup_ms] & [s5 w5] & Hlookup & Hbody). cbn [fst snd] in *.
  apply timed_Ok in Hlookup as (w6 & w7 & Hlookup).
  apply sbind_Ok in Hbody as ([prepared timings'] & [s6 w8] & Hprep & Hbody). cbn [fst snd] in *.
  apply maybe_prepare_Ok in Hprep as [-> Hprep].
  unfold body_tail in Hbody. apply sbind_Ok in Hbody as ([r ms'] & [s7 w9] & Htr & Hbody).
  apply timed_Ok in Htr as (w10 & w11 & Htr).
  apply sbind_Ok in Hbody as (o' & sw12 & Ho & Hret). unfold slift in Ho. injection Ho as Ho <-.
  injection Hret as <- <- <- _.
  exists key, found, prepared, s5, w6, w7, w10, w11, r, o', ms, (dict_set (u8 "transition_ms") ms' timings').
  by split_and!.
Qed.
End AnyStore.

(** ** Workers over one server *)

Section Workers.
Context `{U : UnicodeDB, H : HashLib, I : Interpreter} {R W : Type}.
Context `{!World W, !WorldLaws W, !RedisClient R, !RedisLaws R}.
Context (detectors : list (PIIDetector W)) `{D : !DetectorsOk detectors}.
Context (ttl_seconds : Z) (hmac_secret : bytes).

#[local] Instance shared_store : RestorationStore R W := redis_store ttl_seconds hmac_secret.

(** What may happen to the value under a session's key: it expires, or the
    EXEC of some worker's call takes effect. *)
Inductive change (key : pystr) : option bytes → option bytes → Prop :=
  | change_expires v : change key v None
  | change_called payload pid policy prepared current new w1 w2 v v' :
      request_ok payload policy → state_key (cp_consumer_id policy) pid = Ok key →
      (∀ p, prepared = Some p → prepares detectors payload key policy p) →
      decoded key v = Ok current → callback detectors payload key policy prepared current w1 = (Ok new, w2) →
      stored key new v' → change key v v'.

(** The value is nothing or a state of the service. *)
Definition held (key : pystr) (v : option bytes) : Prop :=
  ∃ current, decoded key v = Ok current ∧ ∀ st, current = Some st → state_ok key st.

(** What a callback that returned stores. *)
Lemma callback_stores payload pid key policy prepared current new w1 w2 v' :
  request_ok payload policy → state_key (cp_consumer_id policy) pid = Ok key →
  (∀ p, prepared = Some p → prepares detectors payload key policy p) →
  (∀ st, current = Some st → state_ok key st) →
  callback detectors payload key policy prepared current w1 = (Ok new, w2) → stored key new v' →
  ∃ st, new = Some st ∧ state_ok key st ∧ decoded key v' = Ok (Some st) ∧
    match current with
    | Some st0 => verdict st0 payload policy = Ok st
    | None => prepares detectors payload key policy st
    end.
Proof using D.
  intros Hrq Hkey Hprep Hcur Hcall Hst. unfold callback in Hcall.
  apply sbind_Ok in Hcall as (st & w3 & Htr & Hret). injection Hret as <- <-.
  assert (Hnew : state_ok key st ∧ match current with
    | Some st0 => verdict st0 payload policy = Ok st | None => prepares detectors payload key policy st end).
  { destruct current as [st0|].
    - rewrite transition_verdict in Htr. injection Htr as Hv _.
      destruct (verdict_ok _ _ _ _ _ (Hcur st0 eq_refl) Hv). done.
    - assert (Hp : prepares detectors payload key policy st).
      { destruct prepared as [p|]; cbn [transition_state] in Htr; [|by exists w1, w3].
        unfold sret in Htr. injection Htr as <- _. by apply Hprep. }
      split; [|done]. destruct Hp as (u1 & u2 & Hp). by eapply prepare_spec in Hp as [? _]. }
  destruct Hnew as [Hok Hnew]. exists st. split_and!; [done|done| |done].
  destruct Hst as (b & -> & Hdec). unfold decoded. rewrite Hdec by apply Hok. cbn [mbind result_bind].
  by rewrite with_id_same by apply Hok.
Qed.

Lemma change_held key v v' : held key v → change key v v' →
  held key v' ∧ ∀ st, decoded key v = Ok (Some st) → v' = None ∨ ∃ st', decoded key v' = Ok (Some st') ∧ evolves st st'.
Proof using D.
  intros (current & Hdec & Hcur) Hc.
  inversion Hc as [v1|payload pid policy prepared current' new w1 w2 v1 v1' Hrq Hkey Hprep Hdec' Hcall Hst]; subst.
  { split; [by exists None|]. intros st _. by left. }
  rewrite Hdec in Hdec'. apply (inj Ok) in Hdec' as <-.
  destruct (callback_stores _ _ _ _ _ _ _ _ _ _ Hrq Hkey Hprep Hcur Hcall Hst) as (st & -> & Hok & Hd & Hnew).
  split; [exists (Some st); split; [done|]; by intros ? [= <-]|].
  intros st0 Hst0. rewrite Hdec in Hst0. apply (inj Ok) in Hst0 as ->. right. exists st. split; [done|].
  by eapply verdict_evolves.
Qed.

Lemma changes_held key v v' : rtc (change key) v v' → held key v → held key v'.
Proof using D. induction 1 as [|v1 v2 v3 Hc _ IH]; [done|]. intros Hh. by apply IH, (change_held key v1). Qed.

Lemma none_held key : held key None.
Proof. by exists None. Qed.

(** A lookup writes nothing. *)
Lemma redis_get_quiet pid (r : R) (w : W) res r' w' :
  redis_get hmac_secret pid (r, w) = (res, (r', w')) → later r r' ∧ writes r' = writes r.
Proof using Type.
  unfold redis_get, sbind, slift, on_client, sret. destruct (redis_key hmac_secret pid) as [rkey|e];
    [|intros [= _ <- _]; split; [apply later_refl|done]].
  pose proof (client_get_law rkey r) as Hlaw. destruct (client_get rkey r) as [[[raw|]|e] r1]; cbn [snd] in Hlaw;
    [destruct (decode pid raw)|..]; by intros [= _ <- _].
Qed.

(** C8: workers that share a Redis server share sessions.  Whatever the others
    do meanwhile, an answered call of any worker made exactly one write,
    under its session's key and at one instant of the call, and this write is
    one change of the session's value: from what the server held at that
    instant.  If until then the value had only changed by expiry and by calls
    of workers, the answer is that of the state the call stored, which is what
    the session's state evolves to, or, where there was none, one prepared
    for this payload. *)
Theorem redis_calls_linear payload pid policy r w m out r' w' m' :
  request_ok payload policy →
  process detectors payload pid policy ((r, w), m) = (Ok out, ((r', w'), m')) →
  ∃ key rkey r1 r2, state_key (cp_consumer_id policy) pid = Ok key ∧ redis_key hmac_secret key = Ok rkey ∧
    later r r1 ∧ writes r1 = writes r ∧ later r1 r2 ∧ stamp r2 rkey = stamp r1 rkey + 1 ∧
    later r2 r' ∧ writes r' = writes r ++ [(rkey, value_at r2 rkey)] ∧
    change key (value_at r1 rkey) (value_at r2 rkey) ∧
    (rtc (change key) None (value_at r1 rkey) →
     ∃ st ms timings, decoded key (value_at r2 rkey) = Ok (Some st) ∧ state_ok key st ∧
       out = with_timings (outcome_of st) ms timings ∧
       match decoded key (value_at r1 rkey) with
       | Ok (Some st0) => verdict st0 payload policy = Ok st ∧ evolves st0 st
       | _ => prepares detectors payload key policy st
       end).
Proof using D.
  intros Hrq Hrun. apply process_Ok_inv in Hrun
    as (key & found & prepared & ra & w0 & w1 & w2 & w3 & new & o & ms & timings & Hkey & Hget & Hprep & Htr & Ho & ->).
  cbn [store_transition store_get shared_store redis_store] in Htr, Hget.
  apply redis_get_quiet in Hget as [Hla Hwa]. unfold redis_transition in Htr.
  apply sbind_Ok in Htr as (rkey & [r0' w0'] & Hrk & Hloop). unfold slift in Hrk. injection Hrk as Hrk <- <-.
  apply cas_loop_spec in Hloop as (rb & r2 & Hlb & Hwb & Hup & ->).
  destruct Hup as (r1 & current & w4 & w5 & Hl1 & Hw1 & Hdec & Hcall & Hl2 & Hstamp & Hw2 & Hst).
  destruct (reset_law r2) as [Hl3 Hw3].
  exists key, rkey, r1, r2. split_and!; try done; [exact (later_trans _ _ _ Hla (later_trans _ _ _ Hlb Hl1))|congruence|congruence| |].
  - eapply (change_called key payload pid policy prepared); [exact Hrq|exact Hkey|exact Hprep|exact Hdec|exact Hcall|exact Hst].
  - intros Hhist. destruct (changes_held key _ _ Hhist (none_held key)) as (current' & Hdec' & Hcur).
    rewrite Hdec in Hdec'. apply (inj Ok) in Hdec' as <-.
    destruct (callback_stores _ _ _ _ _ _ _ _ _ _ Hrq Hkey Hprep Hcur Hcall Hst) as (st & -> & Hok & Hd & Hnew).
    exists st, ms, timings. split_and!; [done|done| |].
    + f_equal. revert Ho. unfold outcome_of, outcome_from_state. by destruct (state st); intros [= ->].
    + rewrite Hdec. destruct current as [st0|]; [|done]. split; [done|]. by eapply verdict_evolves.
Qed.

(** Between two expiries a session's state only evolves, whoever calls. *)
Theorem redis_session_evolves key v0 v st :
  rtc (change key) None v0 → decoded key v0 = Ok (Some st) →
  rtc (λ v1 v2, change key v1 v2 ∧ v2 ≠ None) v0 v →
  ∃ st', decoded key v = Ok (Some st') ∧ evolves st st'.
Proof using D.
  intros Hhist Hst Hrun. pose proof (changes_held key _ _ Hhist (none_held key)) as Hh. clear Hhist.
  revert st Hst Hh. induction Hrun as [v|v0 v1 v2 [Hc Hne] _ IH]; intros st Hst Hh.
  { exists st. split; [done|by left]. }
  destruct (change_held key _ _ Hh Hc) as [Hh1 Hev]. destruct (Hev st Hst) as [?|(st1 & Hst1 & He1)]; [done|].
  destruct (IH st1 Hst1 Hh1) as (st2 & Hst2 & He2). exists st2. split; [done|]. by eapply evolves_trans.
Qed.
End Workers.

(** ** Witness: the first attempt is lost to another client *)

Section Witness.
#[local] Existing Instance plain_interpreter.
#[local] Instance sample_store : RestorationStore server Z := redis_store 3600 (u8 "secret").

Definition contended : server :=
  mkServer (λ _, None) (λ _, 0) [] []
    [[(match redis_key (u8 "secret") key1 with Ok k => k | Err _ => [] end, None)]].

Abbreviation shared_call :=
  (process (S := server) regex_detectors (rq_text ask_text) (rq_id ask_text) (rq_policy ask_text)
     ((contended, 0), empty_metrics)).

Lemma shared_call_ok : is_ok shared_call.1 = true.
Proof. vm_compute. reflexivity. Qed.

Lemma redis_calls_linear_witness :
  ∃ key rkey r1 r2, state_key (u8 "default") (u8 "p1") = Ok key ∧ redis_key (u8 "secret") key = Ok rkey ∧
    writes shared_call.2.1.1 = [(rkey, value_at r2 rkey)] ∧
    stamp r2 rkey = stamp r1 rkey + 1 ∧ change regex_detectors key (value_at r1 rkey) (value_at r2 rkey).
Proof.
  destruct shared_call as [[out|e] [[r' w'] m']] eqn:Hrun.
  - destruct (redis_calls_linear regex_detectors 3600 (u8 "secret") (rq_text ask_text) (rq_id ask_text) (rq_policy ask_text)
      contended 0 empty_metrics out r' w' m' ask_text_ok Hrun) as (key & rkey & r1 & r2 & Hk & Hr & _ & _ & _ & Hs & _ & Hw & Hc & _).
    exists key, rkey, r1, r2. split; [exact Hk|]. split; [exact Hr|]. split; [exact Hw|]. split; [exact Hs|exact Hc].
  - exfalso. pose proof shared_call_ok as Hok. rewrite Hrun in Hok. discriminate Hok.
Defined.
End Witness.
