(* ===== verification/Wiring.v ===== *)
(** * Settings and wiring ([app/config/settings.py], [app/api/dependencies.py])

    The composition root.  A factory is a program of small commands (look in
    the [lru_cache], read the settings, make an object, fill the cache); one
    program is run alone, or many are interleaved, as FastAPI runs the
    factories of concurrent requests in its thread pool.  [lru_cache] takes no
    lock while the function runs: a second call before the first has returned
    runs it again, the cache keeps the first result and each caller its own.
    Errors are not cached. *)

From S2P Require Import Prelude Unicode Domain PyStr Utf8 Policy Restoration Process Service Redis.

(** ** Settings *)

Record Settings := mkSettings {
  app_env : pystr;
  log_level : pystr;
  log_format : pystr;
  restoration_ttl_seconds : Z;
  restoration_max_entries : Z;
  restoration_store_backend : pystr;
  redis_url : pystr;
  masking_key : pystr;
  consumers_dir : pystr;
  default_consumer_id : pystr;
  host : pystr;
  port : Z;
  detection_llm_enabled : bool;
  llm_api_key : pystr;
  llm_base_url : pystr;
  rate_limit_max_requests : Z;
  rate_limit_window_seconds : Q
}.

(** The fields' defaults; the project's root is the deployment's. *)
Definition default_settings (project_root : pystr) : Settings := mkSettings
  (u8 "development") (u8 "INFO") (u8 "json") 3600 1000000 (u8 "memory") (u8 "redis://localhost:6379/0") []
  (project_root ++ u8 "/configs/consumers") (u8 "default") (u8 "0.0.0.0") 8000 false [] [] 1000 1.

(** ** Objects and caches *)

(** What [_build_fernet] of the in-memory store makes its key of. *)
Inductive fernet_key :=
  | GivenKey (key : bytes)
  | GeneratedKey (n : nat).

Inductive detector_object :=
  | RegexDetector
  | LLMDetector (base_url api_key : pystr).

(** The objects of the application; one refers to another by its address. *)
Inductive object :=
  | MetricsObject
  | RecorderObject (metrics : nat)
  | InMemoryStore (ttl_seconds max_entries : Z) (key : fernet_key)
  | RedisStore (url : pystr) (ttl_seconds : Z) (key hmac_secret : bytes)
  | PolicyProvider (policies : list (pystr * ConsumerPolicy))
  | DetectionEngineObject (detectors : list detector_object)
  | MaskingEngineObject
  | ProcessServiceObject (engine masking store recorder : nat)
  | LimiterObject (max_requests : Z) (window_seconds : Q).

(** The cached factories. *)
Inductive factory :=
  | FMetrics | FRecorder | FStore | FPolicies | FEngine | FMasking | FService | FLimiter.

#[export] Instance factory_eq_dec : EqDecision factory.
Proof. solve_decision. Defined.

(** The objects made so far, by address, and the filled caches. *)
Record wires := mkWires {
  objects : list object;
  caches : list (factory * nat)
}.

(** A step of a factory. *)
Inductive prog (E : Type) : Type :=
  | Done (r : result exn nat)
  | Lookup (f : factory) (k : option nat → prog E)
  | Make (o : object) (k : nat → prog E)
  | Fill (f : factory) (a : nat) (k : prog E)
  | Read (k : E → prog E)
  | Count (k : nat → prog E).
Arguments Done {E} _.
Arguments Lookup {E} _ _.
Arguments Make {E} _ _.
Arguments Fill {E} _ _ _.
Arguments Read {E} _.
Arguments Count {E} _.

Section Programs.
Context {E : Type}.

Fixpoint bind (p : prog E) (k : nat → prog E) : prog E :=
  match p with
  | Done (Ok a) => k a
  | Done (Err e) => Done (Err e)
  | Lookup f k' => Lookup f (λ c, bind (k' c) k)
  | Make o k' => Make o (λ a, bind (k' a) k)
  | Fill f a p => Fill f a (bind p k)
  | Read k' => Read (λ e, bind (k' e) k)
  | Count k' => Count (λ n, bind (k' n) k)
  end.

(** One command; nothing when the program is done. *)
Definition advance (e : E) (p : prog E) (s : wires) : prog E * wires :=
  match p with
  | Done r => (Done r, s)
  | Lookup f k => (k (dict_get f (caches s)), s)
  | Make o k => (k (length (objects s)), mkWires (objects s ++ [o]) (caches s))
  | Fill f a k =>
      (k, match dict_get f (caches s) with
          | Some _ => s
          | None => mkWires (objects s) (dict_set f a (caches s))
          end)
  | Read k => (k e, s)
  | Count k => (k (length (objects s)), s)
  end.

(** Alone, to the end. *)
Fixpoint run (e : E) (p : prog E) (s : wires) : result exn nat * wires :=
  match p with
  | Done r => (r, s)
  | Lookup f k => run e (k (dict_get f (caches s))) s
  | Make o k => run e (k (length (objects s))) (mkWires (objects s ++ [o]) (caches s))
  | Fill f a k => run e k (advance e (Fill f a k) s).2
  | Read k => run e (k e) s
  | Count k => run e (k (length (objects s))) s
  end.

(** [@lru_cache]. *)
Definition lru_cache (f : factory) (build : prog E) : prog E :=
  Lookup f (λ cached,
    match cached with
    | Some a => Done (Ok a)
    | None => bind build (λ a, Fill f a (Done (Ok a)))
    end).
End Programs.

(** ** The factories *)

(** The surroundings: environment variables, what pydantic makes of them and
    of the [.env] file, the policy files of a directory, and the constructors
    of [Fernet] and of the Redis client, which may refuse their argument. *)
Class Surroundings (E : Type) := {
  getenv : E → pystr → option pystr;
  get_settings : E → result exn Settings;
  policy_files : E → pystr → list policy_file;
  fernet_new : bytes → result exn unit;
  redis_from_url : pystr → result exn unit
}.

(** [memory.py]: [_build_fernet] of the in-memory store; [n] tells generated
    keys apart. *)
Definition MASKING_KEY : pystr := u8 "MASKING_KEY".
Definition APP_ENV : pystr := u8 "APP_ENV".

Section Factories.
Context {E : Type} `{U : UnicodeDB, !Surroundings E}.

Definition memory_build_fernet (masking_key : option pystr) (e : E) (n : nat) : result exn fernet_key :=
  match py_or masking_key (getenv e MASKING_KEY) with
  | Some (c :: s) => key ← utf8_encode (c :: s); _ ← fernet_new key; Ok (GivenKey key)
  | _ =>
      if bool_decide (str_lower (default (u8 "development") (getenv e APP_ENV)) = u8 "production")
      then Err ERuntimeError
      else Ok (GeneratedKey n)
  end.

Definition with_settings (k : Settings → prog E) : prog E :=
  Read (λ e, match get_settings e with Ok s => k s | Err x => Done (Err x) end).

Definition make (r : result exn object) : prog E :=
  match r with Ok o => Make o (λ a, Done (Ok a)) | Err x => Done (Err x) end.

Definition get_metrics : prog E := lru_cache FMetrics (make (Ok MetricsObject)).

Definition get_metrics_recorder : prog E :=
  lru_cache FRecorder (bind get_metrics (λ m, make (Ok (RecorderObject m)))).

Definition get_restoration_store : prog E :=
  lru_cache FStore (with_settings (λ settings, Read (λ e,
    if bool_decide (restoration_store_backend settings = u8 "redis") then
      make (_ ← redis_from_url (redis_url settings);
            keys ← redis_init (Some (masking_key settings)) None (getenv e MASKING_KEY);
            _ ← fernet_new (keys.1);
            Ok (RedisStore (redis_url settings) (restoration_ttl_seconds settings) (keys.1) (keys.2)))
    else
      Count (λ n, make (key ← memory_build_fernet (Some (masking_key settings)) e n;
            Ok (InMemoryStore (restoration_ttl_seconds settings) (restoration_max_entries settings) key)))))).

Definition get_policy_provider : prog E :=
  lru_cache FPolicies (with_settings (λ settings, Read (λ e,
    make (policies ← load_all (policy_files e (consumers_dir settings)); Ok (PolicyProvider policies))))).

Definition get_detection_engine : prog E :=
  lru_cache FEngine (with_settings (λ settings,
    make (Ok (DetectionEngineObject (RegexDetector ::
      if detection_llm_enabled settings then [LLMDetector (llm_base_url settings) (llm_api_key settings)] else []))))).

Definition get_masking_engine : prog E := lru_cache FMasking (make (Ok MaskingEngineObject)).

Definition get_process_service : prog E :=
  lru_cache FService
    (bind get_detection_engine (λ engine,
     bind get_masking_engine (λ masking,
     bind get_restoration_store (λ store,
     bind get_metrics_recorder (λ recorder,
       make (Ok (ProcessServiceObject engine masking store recorder))))))).

Definition get_rate_limiter : prog E :=
  lru_cache FLimiter (with_settings (λ settings,
    make (Ok (LimiterObject (rate_limit_max_requests settings) (rate_limit_window_seconds settings))))).

Definition factory_of (f : factory) : prog E :=
  match f with
  | FMetrics => get_metrics
  | FRecorder => get_metrics_recorder
  | FStore => get_restoration_store
  | FPolicies => get_policy_provider
  | FEngine => get_detection_engine
  | FMasking => get_masking_engine
  | FService => get_process_service
  | FLimiter => get_rate_limiter
  end.
End Factories.

(** ** Runs *)

Definition no_wires : wires := mkWires [] [].

Section Runs.
Context {E : Type} `{U : UnicodeDB, !Surroundings E}.

(** Factory calls one after the other, each in its own surroundings. *)
Fixpoint call_all (calls : list (E * factory)) (s : wires) : wires :=
  match calls with
  | [] => s
  | (e, f) :: calls => call_all calls (run e (factory_of f) s).2
  end.

(** Importing [app.main]. *)
Definition startup (e : E) : result exn nat * wires := run e get_rate_limiter no_wires.

(** Factory calls in progress, and one step of one of them. *)
Definition config : Type := list (prog E) * wires.

Inductive step : config → config → Prop :=
  | step_thread i e p ps s :
      ps !! i = Some p →
      step (ps, s) (<[i := (advance e p s).1]> ps, (advance e p s).2).

(** The steps of a schedule of thread numbers. *)
Fixpoint interleave (e : E) (schedule : list nat) (c : config) : config :=
  match schedule with
  | [] => c
  | i :: schedule =>
      interleave e schedule
        match c.1 !! i with
        | Some p => let '(p, s) := advance e p (c.2) in (<[i := p]> (c.1), s)
        | None => c
        end
  end.

Lemma interleave_reachable e schedule c : rtc step c (interleave e schedule c).
Proof.
  revert c. induction schedule as [|i schedule IH]; intros [ps s]; [done|]. cbn [interleave fst snd].
  destruct (ps !! i) as [p|] eqn:Hp; [|apply IH].
  eapply rtc_l; [exact (step_thread i e p ps s Hp)|]. destruct (advance e p s). apply IH.
Qed.

(** ** One call at a time *)

Lemma run_bind e (p : prog E) k s :
  run e (bind p k) s = match run e p s with (Ok a, s1) => run e (k a) s1 | (Err x, s1) => (Err x, s1) end.
Proof. revert s. induction p as [[a|x]| | | | |]; intros s; cbn [bind run]; auto. Qed.

Lemma run_lru_cached e f (build : prog E) s a :
  dict_get f (caches s) = Some a → run e (lru_cache f build) s = (Ok a, s).
Proof. intros Hc. unfold lru_cache. cbn [run]. by rewrite Hc. Qed.

Lemma run_lru_built e f (build : prog E) s :
  dict_get f (caches s) = None →
  run e (lru_cache f build) s =
    match run e build s with
    | (Ok a, s1) => (Ok a, (advance e (Fill f a (Done (Ok a))) s1).2)
    | (Err x, s1) => (Err x, s1)
    end.
Proof.
  intros Hc. unfold lru_cache. cbn [run]. rewrite Hc, run_bind. by destruct (run e build s) as [[a|x] s1].
Qed.

(** What a factory's object is, given the caches. *)
Definition made (f : factory) (o : object) (c : list (factory * nat)) : Prop :=
  match f with
  | FMetrics => o = MetricsObject
  | FRecorder => ∃ m, o = RecorderObject m ∧ dict_get FMetrics c = Some m
  | FStore => (∃ ttl max key, o = InMemoryStore ttl max key) ∨ ∃ url ttl key secret, o = RedisStore url ttl key secret
  | FPolicies => ∃ policies, o = PolicyProvider policies
  | FEngine => ∃ detectors, o = DetectionEngineObject (RegexDetector :: detectors)
  | FMasking => o = MaskingEngineObject
  | FService => ∃ engine masking store recorder, o = ProcessServiceObject engine masking store recorder ∧
      dict_get FEngine c = Some engine ∧ dict_get FMasking c = Some masking ∧
      dict_get FStore c = Some store ∧ dict_get FRecorder c = Some recorder
  | FLimiter => ∃ n q, o = LimiterObject n q
  end.

Definition wired (s : wires) : Prop := ∀ f a, dict_get f (caches s) = Some a →
  ∃ o, objects s !! a = Some o ∧ made f o (caches s).

(** Objects are never changed and caches never emptied. *)
Definition extends (s s' : wires) : Prop :=
  objects s `prefix_of` objects s' ∧ ∀ f a, dict_get f (caches s) = Some a → dict_get f (caches s') = Some a.

#[export] Instance extends_preorder : PreOrder extends.
Proof.
  split; [by split|]. intros s1 s2 s3 [H1 H1'] [H2 H2']. split; [by etrans|auto].
Qed.

Lemma made_extends f o s s' : extends s s' → made f o (caches s) → made f o (caches s').
Proof. intros [_ He]. destruct f; cbn [made]; naive_solver. Qed.

Lemma wired_make o s : wired s → wired (mkWires (objects s ++ [o]) (caches s)).
Proof.
  intros Hs f a Ha. destruct (Hs f a Ha) as (o' & Ho' & Hm). exists o'. split; [|done].
  cbn [objects]. by apply lookup_app_l_Some.
Qed.

Lemma extends_make o s : extends s (mkWires (objects s ++ [o]) (caches s)).
Proof. split; [by apply prefix_app_r|done]. Qed.

(** Filling a cache keeps the wiring. *)
Lemma wired_fill f a o s :
  wired s → objects s !! a = Some o → made f o (caches s) →
  let s' := mkWires (objects s) (dict_set f a (caches s)) in
  dict_get f (caches s) = None → wired s' ∧ extends s s'.
Proof.
  intros Hs Ho Hm s' Hf.
  assert (He : extends s s').
  { split; [done|]. intros g b Hg. cbn [caches s']. rewrite dict_get_set_ne; [done|]. intros ->. congruence. }
  split; [|done]. intros g b Hg. destruct (decide (g = f)) as [->|Hne].
  - cbn [caches s'] in Hg. rewrite dict_get_set_eq in Hg. injection Hg as <-. exists o. split; [done|].
    by eapply (made_extends _ _ s).
  - cbn [caches s'] in Hg. rewrite dict_get_set_ne in Hg by done. destruct (Hs g b Hg) as (o' & ? & ?).
    exists o'. split; [done|]. by eapply (made_extends _ _ s).
Qed.
(** A program under way to the object of [f], where [Q] holds; and one that
    returns what the cache of [f] then has. *)
Definition builds (Q : wires → Prop) (f : factory) (p : prog E) : Prop := ∀ e s, wired s → Q s →
  wired (run e p s).2 ∧ extends s (run e p s).2 ∧
  ∀ a, (run e p s).1 = Ok a → ∃ o, objects (run e p s).2 !! a = Some o ∧ made f o (caches (run e p s).2).
Definition provides (f : factory) (p : prog E) : Prop := ∀ e s, wired s →
  wired (run e p s).2 ∧ extends s (run e p s).2 ∧
  ∀ a, (run e p s).1 = Ok a → dict_get f (caches (run e p s).2) = Some a.
(** The caches it may fill. *)
Definition touches (fs : list factory) (p : prog E) : Prop := ∀ e s g,
  g ∉ fs → dict_get g (caches (run e p s).2) = dict_get g (caches s).

Lemma builds_make Q f r : (∀ o s, r = Ok o → Q s → made f o (caches s)) → builds Q f (make r).
Proof.
  intros HP e s Hs HQ. destruct r as [o|x]; cbn [make run fst snd]; [|by split_and!].
  split_and!; [by apply wired_make|apply extends_make|]. intros a [= <-]. exists o.
  cbn [objects]. rewrite lookup_app_r, Nat.sub_diag by lia. split; [done|by apply (HP o s)].
Qed.

Lemma builds_settings Q f k : (∀ settings, builds Q f (k settings)) → builds Q f (with_settings k).
Proof.
  intros Hk e s Hs HQ. unfold with_settings. cbn [run]. destruct (get_settings e) as [settings|x]; [by apply Hk|].
  by split_and!.
Qed.

Lemma builds_read Q f (k : E → prog E) : (∀ e, builds Q f (k e)) → builds Q f (Read k).
Proof. intros Hk e s Hs HQ. cbn [run]. by apply Hk. Qed.

Lemma builds_count Q f (k : nat → prog E) : (∀ n, builds Q f (k n)) → builds Q f (Count k).
Proof. intros Hk e s Hs HQ. cbn [run]. by apply Hk. Qed.

Lemma builds_bind (Q : wires → Prop) f g p k :
  provides g p → (∀ s s', Q s → extends s s' → Q s') →
  (∀ a, builds (λ s, Q s ∧ dict_get g (caches s) = Some a) f (k a)) → builds Q f (bind p k).
Proof.
  intros Hp HQ Hk e s Hs Hq. rewrite run_bind. destruct (Hp e s Hs) as (Hs1 & He1 & Ha).
  destruct (run e p s) as [[a|x] s1]; cbn [fst snd] in *; [|by split_and!].
  destruct (Hk a e s1 Hs1) as (Hs2 & He2 & Ho); [by split; [eapply HQ|apply Ha]|].
  split_and!; [done|by etrans|done].
Qed.

Lemma touches_make fs r : touches fs (make r).
Proof. intros e s g Hg. by destruct r. Qed.
Lemma touches_settings fs k : (∀ settings, touches fs (k settings)) → touches fs (with_settings k).
Proof. intros Hk e s g Hg. unfold with_settings. cbn [run]. destruct (get_settings e); [by apply Hk|done]. Qed.
Lemma touches_read fs (k : E → prog E) : (∀ e, touches fs (k e)) → touches fs (Read k).
Proof. intros Hk e s g Hg. cbn [run]. by apply Hk. Qed.
Lemma touches_count fs (k : nat → prog E) : (∀ n, touches fs (k n)) → touches fs (Count k).
Proof. intros Hk e s g Hg. cbn [run]. by apply Hk. Qed.
Lemma touches_bind fs p k : touches fs p → (∀ a, touches fs (k a)) → touches fs (bind p k).
Proof.
  intros Hp Hk e s g Hg. rewrite run_bind. specialize (Hp e s g Hg).
  destruct (run e p s) as [[a|x] s1]; [|done]. rewrite Hk by done. done.
Qed.
Lemma touches_lru fs f build : touches fs build → f ∈ fs → touches fs (lru_cache f build).
Proof.
  intros Hb Hf e s g Hg. destruct (dict_get f (caches s)) as [a|] eqn:Hc; [by rewrite (run_lru_cached _ _ _ _ _ Hc)|].
  rewrite run_lru_built by done. specialize (Hb e s g Hg). destruct (run e build s) as [[a|x] s1]; [|done].
  cbn [advance snd] in *. destruct (dict_get f (caches s1)); [done|]. cbn [caches].
  rewrite dict_get_set_ne; [done|]. set_solver.
Qed.
Lemma touches_more fs fs' p : touches fs p → fs ⊆ fs' → touches fs' p.
Proof. intros Hp Hsub e s g Hg. apply Hp. set_solver. Qed.

Lemma provides_lru fs f build :
  builds (λ _, True) f build → touches fs build → f ∉ fs → provides f (lru_cache f build).
Proof.
  intros Hb Ht Hf e s Hs. destruct (dict_get f (caches s)) as [a|] eqn:Hc.
  { rewrite (run_lru_cached _ _ _ _ _ Hc). cbn [fst snd]. split_and!; [done|done|]. by intros ? [= <-]. }
  rewrite run_lru_built by done. destruct (Hb e s Hs I) as (Hs1 & He1 & Ho). specialize (Ht e s f Hf).
  destruct (run e build s) as [[a|x] s1]; cbn [fst snd] in *; [|by split_and!].
  destruct (Ho a eq_refl) as (o & Ho' & Hm). cbn [advance snd]. rewrite Ht, Hc.
  destruct (wired_fill f a o s1 Hs1 Ho' Hm) as [Hw He]; [by rewrite Ht|]. split_and!; [done|by etrans|].
  intros b [= <-]. apply dict_get_set_eq.
Qed.
Create HintDb wiring.
#[local] Hint Resolve touches_make touches_settings touches_read touches_count touches_bind : wiring.

(** The caches the factories of a service fill. *)
Lemma touches_metrics : touches [FMetrics] get_metrics.
Proof. apply touches_lru; [auto with wiring|set_solver]. Qed.
Lemma touches_recorder : touches [FRecorder; FMetrics] get_metrics_recorder.
Proof.
  apply touches_lru; [|set_solver]. apply touches_bind; [|auto with wiring].
  eapply touches_more; [exact touches_metrics|set_solver].
Qed.
Lemma touches_store : touches [FStore] get_restoration_store.
Proof.
  apply touches_lru; [|set_solver]. apply touches_settings. intros settings. apply touches_read. intros e.
  case_bool_decide; auto with wiring.
Qed.
Lemma touches_engine : touches [FEngine] get_detection_engine.
Proof. apply touches_lru; [auto with wiring|set_solver]. Qed.
Lemma touches_masking : touches [FMasking] get_masking_engine.
Proof. apply touches_lru; [auto with wiring|set_solver]. Qed.

(** The factories one by one. *)
Lemma provides_metrics : provides FMetrics get_metrics.
Proof. apply (provides_lru []); [|auto with wiring|set_solver]. apply builds_make. by intros ? ? [= <-] _. Qed.

Lemma provides_recorder : provides FRecorder get_metrics_recorder.
Proof.
  apply (provides_lru [FMetrics]); [|apply touches_bind; [exact touches_metrics|auto with wiring]|set_solver].
  eapply builds_bind; [apply provides_metrics|done|]. intros m. apply builds_make.
  intros o s [= <-] [_ Hm]. by exists m.
Qed.

Lemma provides_store : provides FStore get_restoration_store.
Proof.
  apply (provides_lru []); [| |set_solver].
  - apply builds_settings. intros settings. apply builds_read. intros e. case_bool_decide.
    + apply builds_make. intros o s (u & _ & (keys & _ & (v & _ & [= <-])%bind_Ok)%bind_Ok)%bind_Ok _. right.
      by do 4 eexists.
    + apply builds_count. intros n. apply builds_make. intros o s (key & _ & [= <-])%bind_Ok _. left. by do 3 eexists.
  - apply touches_settings. intros settings. apply touches_read. intros e. case_bool_decide; auto with wiring.
Qed.

Lemma provides_policies : provides FPolicies get_policy_provider.
Proof.
  apply (provides_lru []); [|auto 6 with wiring|set_solver].
  apply builds_settings. intros settings. apply builds_read. intros e. apply builds_make.
  intros o s (ps & _ & [= <-])%bind_Ok _. by exists ps.
Qed.

Lemma provides_engine : provides FEngine get_detection_engine.
Proof.
  apply (provides_lru []); [|auto 6 with wiring|set_solver].
  apply builds_settings. intros settings. apply builds_make. intros o s [= <-] _. by eexists.
Qed.

Lemma provides_masking : provides FMasking get_masking_engine.
Proof. apply (provides_lru []); [|auto with wiring|set_solver]. apply builds_make. by intros ? ? [= <-] _. Qed.

Lemma provides_limiter : provides FLimiter get_rate_limiter.
Proof.
  apply (provides_lru []); [|auto 6 with wiring|set_solver].
  apply builds_settings. intros settings. apply builds_make. intros o s [= <-] _. by do 2 eexists.
Qed.
Lemma provides_service : provides FService get_process_service.
Proof.
  apply (provides_lru [FEngine; FMasking; FStore; FRecorder; FMetrics]); [| |set_solver].
  - assert (Hext : ∀ g (a : nat) s s', dict_get g (caches s) = Some a → extends s s' → dict_get g (caches s') = Some a)
      by (intros g a s s' Hg [_ He]; auto).
    apply (builds_bind _ _ FEngine); [apply provides_engine|done|intros engine].
    apply (builds_bind _ _ FMasking); [apply provides_masking|naive_solver|intros masking].
    apply (builds_bind _ _ FStore); [apply provides_store|naive_solver|intros store].
    apply (builds_bind _ _ FRecorder); [apply provides_recorder|naive_solver|intros recorder].
    apply builds_make. intros o s [= <-] [[[[_ He] Hm] Hs] Hr]. by exists engine, masking, store, recorder.
  - repeat (apply touches_bind; [|intros ?]); [| | | |apply touches_make];
      eapply touches_more; first [exact touches_engine|exact touches_masking|exact touches_store
                                 |exact touches_recorder|set_solver].
Qed.

Lemma factory_provides f : provides f (factory_of f).
Proof.
  destruct f; [apply provides_metrics|apply provides_recorder|apply provides_store|apply provides_policies
              |apply provides_engine|apply provides_masking|apply provides_service|apply provides_limiter].
Qed.

Lemma call_all_wired calls s : wired s → wired (call_all calls s) ∧ extends s (call_all calls s).
Proof.
  revert s. induction calls as [|[e f] calls IH]; intros s Hs; [done|]. cbn [call_all].
  destruct (factory_provides f e s Hs) as (Hs1 & He1 & _). destruct (IH _ Hs1) as [? ?].
  split; [done|by etrans].
Qed.

Lemma no_wires_wired : wired no_wires.
Proof. intros f a Ha. done. Qed.

Lemma run_cached e f s a : dict_get f (caches s) = Some a → run e (factory_of f) s = (Ok a, s).
Proof. intros Hc. destruct f; by apply run_lru_cached. Qed.
End Runs.

(** ** Properties *)

Section Properties.
Context {E : Type} `{U : UnicodeDB, !Surroundings E}.

(** C20: called one after the other, the factories build one application: the
    service a request gets is the one every later request gets, whatever the
    environment has become, the readiness probe asks the store that service
    writes to, and the metrics endpoint renders the registry it records to. *)
Theorem factories_shared (calls : list (E * factory)) e a s :
  run e get_process_service (call_all calls no_wires) = (Ok a, s) →
  ∃ engine masking store recorder metrics,
    objects s !! a = Some (ProcessServiceObject engine masking store recorder) ∧
    objects s !! recorder = Some (RecorderObject metrics) ∧
    ∀ more e', let s' := call_all more s in
      run e' get_process_service s' = (Ok a, s') ∧ run e' get_restoration_store s' = (Ok store, s') ∧
      run e' get_metrics s' = (Ok metrics, s').
Proof.
  intros Hrun. destruct (call_all_wired calls no_wires no_wires_wired) as [Hw0 _].
  destruct (provides_service e _ Hw0) as (Hw & _ & Ha). rewrite Hrun in *. cbn [fst snd] in *.
  specialize (Ha a eq_refl). destruct (Hw _ _ Ha) as (o & Ho & en & mk & st & rc & -> & _ & _ & Hst & Hrc).
  destruct (Hw _ _ Hrc) as (o & Hro & m & -> & Hm). exists en, mk, st, rc, m. split_and!; [done|done|].
  intros more e'. destruct (call_all_wired more s Hw) as [_ [_ Hext]].
  split_and!; [apply (run_cached e' FService)|apply (run_cached e' FStore)|apply (run_cached e' FMetrics)]; auto.
Qed.

(** Steps only add: an object made stays, a filled cache keeps its object. *)
Lemma advance_extends e (p : prog E) s : extends s (advance e p s).2.
Proof.
  destruct p as [r|f k|o k|f a k|k|k]; cbn [advance snd]; try reflexivity; [apply extends_make|].
  destruct (dict_get f (caches s)) as [b|] eqn:Hf; [reflexivity|]. split; [done|].
  intros g c Hg. cbn [caches]. rewrite dict_get_set_ne; [done|]. intros ->. congruence.
Qed.

Lemma steps_extend (c c' : config (E := E)) : rtc step c c' → extends c.2 c'.2.
Proof.
  induction 1 as [c|c1 c2 c3 Hstep _ IH]; [reflexivity|]. etrans; [|exact IH].
  destruct Hstep. apply advance_extends.
Qed.

(** However the calls of concurrent requests interleave, what a cache has
    been filled with is what it keeps, and a thread whose factory's cache was
    full when it began returns that object and changes nothing itself: from
    then on all requests share it. *)
Theorem warm_factory_agrees ps f a i (s : wires) c :
  dict_get f (caches s) = Some a → ps !! i = Some (factory_of (E := E) f) → rtc step (ps, s) c →
  dict_get f (caches c.2) = Some a ∧
  ∃ p, c.1 !! i = Some p ∧ (p = factory_of f ∨ p = Done (Ok a)) ∧
    ∀ e, advance e p c.2 = (Done (Ok a), c.2).
Proof.
  intros Hf Hi Hsteps. split; [by apply (steps_extend _ _ Hsteps)|].
  assert (Hgoal : ∃ p, c.1 !! i = Some p ∧ (p = factory_of f ∨ p = Done (Ok a))).
  { remember (ps, s) as c0 eqn:Hc0. assert (Hinv : dict_get f (caches c0.2) = Some a ∧ ∃ p, c0.1 !! i = Some p ∧
      (p = factory_of f ∨ p = Done (Ok a))) by (subst c0; cbn; eauto). clear Hc0 Hi Hf.
    induction Hsteps as [c|c1 c2 c3 Hstep _ IH]; [apply Hinv|]. apply IH. clear IH.
    destruct Hstep as [j e p ps' s' Hj]. destruct Hinv as (Hf & q & Hq & Hor). cbn [fst snd] in *.
    split; [by apply advance_extends|]. destruct (decide (i = j)) as [<-|Hne].
    - rewrite list_lookup_insert_eq by by eapply lookup_lt_Some. eexists. split; [done|]. right.
      rewrite Hq in Hj. injection Hj as <-. destruct Hor as [->| ->]; [|done].
      destruct f; cbn [factory_of]; unfold get_metrics, get_metrics_recorder, get_restoration_store,
        get_policy_provider, get_detection_engine, get_masking_engine, get_process_service, get_rate_limiter,
        lru_cache; cbn [advance fst]; by rewrite Hf.
    - exists q. by rewrite list_lookup_insert_ne. }
  destruct Hgoal as (p & Hp & Hor). exists p. split_and!; [done|done|]. intros e.
  pose proof (proj2 (steps_extend _ _ Hsteps) _ _ Hf) as Hc. cbn [snd] in Hc.
  destruct Hor as [->| ->]; [|done].
  destruct f; cbn [factory_of]; unfold get_metrics, get_metrics_recorder, get_restoration_store,
    get_policy_provider, get_detection_engine, get_masking_engine, get_process_service, get_rate_limiter,
    lru_cache; cbn [advance]; by rewrite Hc.
Qed.

(** A program returns, whatever is cached. *)
Lemma engine_returns (e : E) settings s : get_settings e = Ok settings → ∃ a, (run e get_detection_engine s).1 = Ok a.
Proof.
  intros Hs. unfold get_detection_engine, lru_cache. cbn [run]. destruct (dict_get FEngine (caches s)); [by eexists|].
  rewrite run_bind. unfold with_settings. cbn [run]. rewrite Hs. by eexists.
Qed.

Lemma masking_returns (e : E) s : ∃ a, (run e get_masking_engine s).1 = Ok a.
Proof.
  unfold get_masking_engine, lru_cache. cbn [run]. destruct (dict_get FMasking (caches s)); by eexists.
Qed.

(** The settings under which no key can be made. *)
Record keyless_production (e : E) (settings : Settings) : Prop := {
  kp_settings : get_settings e = Ok settings;
  kp_backend : restoration_store_backend settings ≠ u8 "redis";
  kp_key : masking_key settings = [];
  kp_environ : default [] (getenv e MASKING_KEY) = [];
  kp_production : str_lower (default (u8 "development") (getenv e APP_ENV)) = u8 "production"
}.

Lemma keyless_store (e : E) settings s :
  keyless_production e settings → dict_get FStore (caches s) = None →
  run e get_restoration_store s = (Err ERuntimeError, s).
Proof.
  intros [Hs Hb Hk He Hp] Hc. unfold get_restoration_store. rewrite run_lru_built by done.
  unfold with_settings. cbn [run]. rewrite Hs. cbn [run]. rewrite bool_decide_eq_false_2 by done. cbn [run].
  unfold memory_build_fernet. rewrite Hk, Hp, bool_decide_eq_true_2 by done.
  destruct (getenv e MASKING_KEY) as [[|]|]; done.
Qed.

(** With the in-memory store, no masking key and [APP_ENV=production] in
    the environment, importing the application succeeds; every request for
    the store or for the service then fails with the same error, and neither
    is ever cached. *)
Theorem production_without_key (e : E) settings :
  keyless_production e settings →
  (startup e).1 = Ok 0%nat ∧
  ∀ s f, f = FStore ∨ f = FService → dict_get FStore (caches s) = None → dict_get FService (caches s) = None →
    ∃ s', run e (factory_of f) s = (Err ERuntimeError, s') ∧
      dict_get FStore (caches s') = None ∧ dict_get FService (caches s') = None.
Proof.
  intros Hk. pose proof (kp_settings _ _ Hk) as Hs. split.
  { unfold startup, get_rate_limiter. rewrite run_lru_built by done. unfold with_settings. cbn [run].
    by rewrite Hs. }
  intros s f [->| ->] Hst Hsv; cbn [factory_of].
  { exists s. by rewrite (keyless_store e settings s Hk Hst). }
  unfold get_process_service. rewrite run_lru_built, run_bind by done.
  destruct (engine_returns e settings s Hs) as (en & Hen).
  pose proof (touches_engine e s FStore ltac:(set_solver)) as Hst1.
  pose proof (touches_engine e s FService ltac:(set_solver)) as Hsv1.
  destruct (run e get_detection_engine s) as [? s1]. cbn [fst snd] in *. subst. rewrite run_bind.
  destruct (masking_returns e s1) as (mk & Hmk).
  pose proof (touches_masking e s1 FStore ltac:(set_solver)) as Hst2.
  pose proof (touches_masking e s1 FService ltac:(set_solver)) as Hsv2.
  destruct (run e get_masking_engine s1) as [? s2]. cbn [fst snd] in *. subst. rewrite run_bind.
  rewrite (keyless_store e settings s2 Hk) by congruence. exists s2. split_and!; congruence.
Qed.

(** Unless the variable is in the process's environment, the settings'
    [app_env] has no say: a key is generated. *)
Lemma dotenv_production_generates (e : E) settings n :
  masking_key settings = [] → getenv e MASKING_KEY = None → getenv e APP_ENV = None →
  memory_build_fernet (Some (masking_key settings)) e n = Ok (GeneratedKey n).
Proof.
  intros Hk Hm Ha. unfold memory_build_fernet. rewrite Hk, Hm, Ha. cbn [py_or default].
  rewrite str_lower_plain; [done|]. by repeat constructor.
Qed.
End Properties.

(** ** Runs *)

(** Environment variables alone; constructors refuse nothing. *)
#[local] Instance plain_surroundings : Surroundings (list (pystr * pystr)) := {|
  getenv e name := dict_get name e;
  get_settings e := Ok (default_settings (u8 "/srv"));
  policy_files e dir := sample_files;
  fernet_new key := Ok tt;
  redis_from_url url := Ok tt
|}.

Definition no_env : list (pystr * pystr) := [].
Definition production_env : list (pystr * pystr) := [(APP_ENV, u8 "Production")].

(** Two requests on a fresh application: both look for a service, then for a
    store, before either has one; each makes its own. *)
Definition cold_start : config := ([get_process_service (E := list (pystr * pystr)); get_process_service], no_wires).
Definition race : list nat := replicate 9 0%nat ++ replicate 30 1%nat ++ replicate 30 0%nat.

(** C21: the caches do not make the objects unique at a cold start: two
    requests served at once can end with two services over two stores with
    two keys, of which later requests see one. *)
Theorem cold_start_two_stores :
  ∃ ps s a b store store' key key',
    rtc step cold_start (ps, s) ∧ ps = [Done (Ok a); Done (Ok b)] ∧
    (∃ en mk rc, objects s !! a = Some (ProcessServiceObject en mk store rc)) ∧
    (∃ en mk rc, objects s !! b = Some (ProcessServiceObject en mk store' rc)) ∧
    objects s !! store = Some (InMemoryStore 3600 1000000 (GeneratedKey key)) ∧
    objects s !! store' = Some (InMemoryStore 3600 1000000 (GeneratedKey key')) ∧
    store ≠ store' ∧ key ≠ key' ∧ dict_get FService (caches s) = Some b.
Proof.
  pose proof (interleave_reachable no_env race cold_start) as Hreach.
  destruct (interleave no_env race cold_start) as [ps s] eqn:Hc.
  vm_compute in Hc. injection Hc as <- <-.
  do 8 eexists. split; [exact Hreach|]. split; [reflexivity|].
  split; [do 3 eexists; reflexivity|]. split; [do 3 eexists; reflexivity|].
  split_and!; try reflexivity; discriminate.
Qed.

(** What the loser's clients see: a mask given out over one store is new to
    the other, and is answered as a payload. *)
Example mask_unknown_to_other_store :
  out_result (out_of (serve ask_text Service.fresh).1) = rq_text ask_mask ∧
  out_operation (out_of (serve ask_mask Service.fresh).1) = MASK ∧
  out_result (out_of (serve ask_mask Service.fresh).1) = rq_text ask_mask.
Proof. vm_compute. split_and!; reflexivity. Qed.

Definition key_settings : Settings := default_settings (u8 "/srv").

Lemma production_env_keyless : keyless_production production_env key_settings.
Proof.
  split; [reflexivity|discriminate|reflexivity|reflexivity|].
  vm_compute. reflexivity.
Qed.

Lemma production_without_key_witness :
  (startup production_env).1 = Ok 0%nat ∧
  ∃ s', run production_env get_process_service (startup production_env).2 = (Err ERuntimeError, s').
Proof.
  destruct (production_without_key production_env key_settings production_env_keyless) as [Hs Hf].
  split; [exact Hs|]. destruct (Hf (startup production_env).2 FService (or_intror eq_refl)) as (s' & Hrun & _);
    [vm_compute; reflexivity|vm_compute; reflexivity|]. exists s'. exact Hrun.
Defined.

Lemma factories_shared_witness :
  ∃ store metrics, ∀ more (e' : list (pystr * pystr)),
    (run e' get_restoration_store (call_all more (run no_env get_process_service no_wires).2)).1 = Ok store ∧
    (run e' get_metrics (call_all more (run no_env get_process_service no_wires).2)).1 = Ok metrics.
Proof.
  destruct (run no_env get_process_service no_wires) as [r s] eqn:Hrun.
  assert (Hr : r = Ok 5%nat) by (change r with (r, s).1; rewrite <-Hrun; vm_compute; reflexivity).
  rewrite Hr in Hrun.
  destruct (factories_shared [] no_env 5 s Hrun) as (en & mk & st & rc & m & _ & _ & Hall).
  exists st, m. intros more e'. cbn [snd]. destruct (Hall more e') as (_ & -> & ->). split; reflexivity.
Defined.

(** A request finds the limiter the import has made, whatever others do. *)
Lemma warm_factory_agrees_witness :
  dict_get FLimiter (caches (interleave no_env race ([get_rate_limiter; get_process_service], (startup no_env).2)).2)
    = Some 0%nat.
Proof.
  exact (proj1 (warm_factory_agrees [get_rate_limiter; get_process_service] FLimiter 0 0 (startup no_env).2 _
    eq_refl eq_refl (interleave_reachable no_env race _))).
Defined.
