(* ===== verification/Llm.v ===== *)
(** * The LLM detector ([app/detection/llm_detector.py])

    [LLMDetector] asks a language model for the personal data of a text and
    turns its JSON answer into entities.  The model is a third party:
    [LLMClient] is what the detector calls.  The answers are kept by
    [functools.lru_cache], which is modelled with its order of recency. *)

From S2P Require Import Prelude Domain PyStr Utf8 Json Masking.

(** A chat message, [dict\[str, str\]]. *)
Definition message := list (pystr * pystr).

(** [_CLIENT.complete]: it talks to a service and may raise. *)
Class LLMClient (W : Type) := {
  complete : pystr → list message → stateM W exn pystr
}.

Definition NL : pystr := [10].

(** A text with its double quotes written as apostrophes. *)
Definition quoted (s : pystr) : pystr := (λ c, if c =? 39 then 34 else c) <$> s.

(** [_SYSTEM_PROMPT]. *)
Definition SYSTEM_PROMPT : pystr := NL ++ join NL
  [ u8 "Найди в тексте персональные данные и верни JSON.";
    [];
    u8 "Типы: PERSON_NAME, BIRTH_DATE, BIRTH_PLACE, CITIZENSHIP, PASSPORT_NUMBER,";
    u8 "PASSPORT_ISSUER, PASSPORT_DIVISION_CODE, PASSPORT_ISSUE_DATE, DRIVER_LICENSE,";
    u8 "ADDRESS, EMAIL, PHONE, INN, BANK_CARD, CVV, PIN, CARDHOLDER_NAME.";
    [];
    u8 "Правила:";
    quoted (u8 "- 'text' — точная подстрока из текста, символ в символ.");
    u8 "- Адрес возвращай одним фрагментом целиком.";
    u8 "- Одно значение — одна запись, даже если встречается несколько раз.";
    u8 "- Находи всё, что похоже на ПД. Сомневаешься — возвращай.";
    u8 "- Только JSON, без markdown и пояснений.";
    [];
    quoted (u8 "Формат: {'entities':[{'type':'EMAIL','text':'a@b.ru'}]}") ] ++ NL.

(** [_FEW_SHOT_USER]. *)
Definition FEW_SHOT_USER : pystr :=
  u8 "Клиент Иванов Иван Иванович, 12.03.1985 г.р., паспорт 4510 123456, " ++
  u8 "г. Москва, ул. Ленина, д. 5, кв. 12, тел. +7 999 123-45-67, ivanov@mail.ru".

(** [_FEW_SHOT_ASSISTANT]. *)
Definition FEW_SHOT_ASSISTANT : pystr := quoted (
  u8 "{'entities':[" ++
  u8 "{'type':'PERSON_NAME','text':'Иванов Иван Иванович'}," ++
  u8 "{'type':'BIRTH_DATE','text':'12.03.1985'}," ++
  u8 "{'type':'PASSPORT_NUMBER','text':'4510 123456'}," ++
  u8 "{'type':'ADDRESS','text':'г. Москва, ул. Ленина, д. 5, кв. 12'}," ++
  u8 "{'type':'PHONE','text':'+7 999 123-45-67'}," ++
  u8 "{'type':'EMAIL','text':'ivanov@mail.ru'}" ++
  u8 "]}").

Definition llm_message (role content : pystr) : message := [(u8 "role", role); (u8 "content", content)].

(** [_MESSAGES]. *)
Definition MESSAGES : list message :=
  [llm_message (u8 "user") FEW_SHOT_USER; llm_message (u8 "assistant") FEW_SHOT_ASSISTANT].

(** ** Parsing the answer *)

(** [o\[key\]] with a [str] key. *)
Definition subscript (o : pyobj) (key : pystr) : result exn pyobj :=
  match o with
  | ODict d => result_of_option EKeyError (dict_get key d)
  | _ => Err ETypeError
  end.

(** [text.find(needle)]: a needle that is not a [str] raises. *)
Definition find_obj (text : pystr) (needle : pyobj) : result exn (pystr * Z) :=
  match needle with
  | OStr s => Ok (s, str_find text s)
  | _ => Err ETypeError
  end.

Definition llm_name : pystr := u8 "llm".

(** One iteration of the loop of [_parse_response]: no entity when the
    iteration continues early. *)
Definition parse_item (text : pystr) (item : pyobj) : result exn (list PIIEntity) :=
  raw_type ← subscript item (u8 "type");
  match PIIType_of raw_type with
  | None => Ok []
  | Some pii_type =>
      needle ← subscript item (u8 "text");
      '(value, start) ← find_obj text needle;
      Ok (if start =? -1 then []
          else [mkPIIEntity pii_type value start (start + slen value) (8 # 10) llm_name []])
  end.

(** [_parse_response]; [limit] is the recursion limit of the JSON scanner. *)
Definition parse_response (limit : nat) (text response : pystr) : result exn (list PIIEntity) :=
  payload ← json_loads limit response;
  items ← subscript payload (u8 "entities") ≫= py_iter;
  entities ← mapR (parse_item text) items;
  Ok (concat entities).

(** ** [functools.lru_cache(maxsize=1024)]

    The entries from the most to the least recently used. *)

Definition maxsize : nat := 1024.
Definition lru := list (pystr * pystr).

Section Detector.
Context {W : Type} `{!LLMClient W}.

(** [_complete_cached]: a hit makes the entry the most recent one, a miss
    calls the client and evicts the least recent entry of a full cache; a
    call that raises caches nothing. *)
Definition complete_cached (text : pystr) : stateM (lru * W) exn pystr := λ '(cache, w),
  match dict_get text cache with
  | Some response => (Ok response, ((text, response) :: dict_del text cache, w))
  | None =>
      match complete SYSTEM_PROMPT (MESSAGES ++ [llm_message (u8 "user") text]) w with
      | (Ok response, w) => (Ok response, ((text, response) :: take (maxsize - 1) cache, w))
      | (Err e, w) => (Err e, (cache, w))
      end
  end.

(** [detect]: any exception is an empty answer. *)
Definition llm_detect (enabled : bool) (limit : nat) (text : pystr) (context : DetectionContext)
    : stateM (lru * W) exn (list PIIEntity) :=
  if negb enabled then sret []
  else λ s,
    match (response <-- complete_cached text; slift (parse_response limit text response)) s with
    | (Ok entities, s) => (Ok entities, s)
    | (Err _, s) => (Ok [], s)
    end.

(** The texts answered in a sequence of calls, latest first, and the state
    they leave. *)
Fixpoint ask_all (texts history : list pystr) (s : lru * W) : list pystr * (lru * W) :=
  match texts with
  | [] => (history, s)
  | text :: texts =>
      match complete_cached text s with
      | (Ok _, s) => ask_all texts (text :: history) s
      | (Err _, s) => ask_all texts history s
      end
  end.
End Detector.

(** The distinct texts of a history, in the same order. *)
Fixpoint recent (history : list pystr) : list pystr :=
  match history with
  | [] => []
  | text :: history => text :: filter (λ t, t ≠ text) (recent history)
  end.

(** ** The answer's entities *)

(** An entity that lies in the text, where its value occurs first. *)
Definition located (text : pystr) (e : PIIEntity) : Prop :=
  0 <= start e ∧ end_ e <= slen text ∧ slice text (start e) (end_ e) = value e ∧
  (∀ i, (i < Z.to_nat (start e))%nat → prefixb (value e) (drop i text) = false) ∧
  confidence e = (8 # 10) ∧ detector e = llm_name.

Lemma str_find_first s needle i :
  str_find s needle ≠ -1 → (i < Z.to_nat (str_find s needle))%nat → prefixb needle (drop i s) = false.
Proof.
  unfold str_find. destruct (find_nat needle s) as [n|] eqn:Hf; [|done]. intros _ Hi.
  by apply (find_nat_first needle s n); [|lia].
Qed.

Lemma parse_item_located text item es :
  parse_item text item = Ok es → Forall (located text) es.
Proof.
  unfold parse_item. intros (raw & _ & H)%bind_Ok. destruct (PIIType_of raw) as [t|]; simplify_eq/=; [|done].
  apply bind_Ok in H as (needle & _ & H). destruct needle; simplify_eq/=.
  destruct (Z.eqb_spec (str_find text s) (-1)) as [|Hne]; simplify_eq/=; [done|].
  constructor; [|done]. pose proof (str_find_span text s Hne) as (? & ? & ?).
  unfold located; simpl. split_and!; try done. intros i Hi. by apply str_find_first.
Qed.

Lemma parse_response_located limit text response es :
  parse_response limit text response = Ok es → Forall (located text) es.
Proof.
  unfold parse_response. intros (payload & _ & (items & _ & (ess & Hess & [= <-])%bind_Ok)%bind_Ok)%bind_Ok.
  apply mapR_Ok in Hess. apply Forall_concat. 
  induction Hess as [|item e items ess He _ IH]; constructor; [by eapply parse_item_located | done].
Qed.

(** The answer a model is asked for: every value with its type. *)
Definition answer_item (a : PIIType * pystr) : pyobj :=
  ODict [(u8 "type", OStr (pii_value a.1)); (u8 "text", OStr a.2)].
Definition answer (l : list (PIIType * pystr)) : pyobj :=
  ODict [(u8 "entities", OList (answer_item <$> l))].

(** The entities it names. *)
Definition named (text : pystr) (a : PIIType * pystr) : option PIIEntity :=
  if str_find text a.2 =? -1 then None
  else Some (mkPIIEntity a.1 a.2 (str_find text a.2) (str_find text a.2 + slen a.2) (8 # 10) llm_name []).

Lemma parse_answer_item text a :
  parse_item text (answer_item a) = Ok (option_list (named text a)).
Proof.
  destruct a as [t s]. unfold parse_item, answer_item. cbn [fst snd].
  change (subscript _ (u8 "type")) with (@Ok exn _ (OStr (pii_value t))). cbn [mbind result_bind].
  rewrite PIIType_of_value.
  change (subscript _ (u8 "text")) with (@Ok exn _ (OStr s)). cbn.
  unfold named. cbn. by destruct (str_find text s =? -1).
Qed.

Lemma parse_answer_items text l :
  mapR (parse_item text) (answer_item <$> l) = Ok ((λ a, option_list (named text a)) <$> l).
Proof.
  induction l as [|a l IH]; [done|]. cbn [fmap list_fmap mapR]. rewrite parse_answer_item.
  cbn [mbind result_bind]. by rewrite IH.
Qed.

Lemma scalar_check s :
  forallb (λ c, is_code_point c && negb (is_surrogate c)) s = true → Forall scalar s.
Proof.
  intros Hs. rewrite forallb_forall in Hs. apply Forall_forall. intros c Hc%list_elem_of_In.
  apply Hs in Hc. apply andb_true_iff in Hc as [? ?%negb_true_iff]. done.
Qed.

Lemma keys_NoDup (l : list (pystr * pyobj)) : bool_decide (NoDup l.*1) = true → NoDup l.*1.
Proof. apply bool_decide_eq_true_1. Qed.

Lemma answer_item_serializable a : Forall scalar a.2 → serializable (answer_item a).
Proof.
  intros Ha. constructor.
  - apply (bool_decide_eq_true_1 _). vm_compute. reflexivity.
  - constructor; [split; [apply scalar_check; reflexivity | constructor; apply scalar_check; by destruct a.1]|].
    constructor; [split; [apply scalar_check; reflexivity | by constructor] | done].
Qed.

Lemma answer_serializable l : Forall (λ a, Forall scalar a.2) l → serializable (answer l).
Proof.
  intros Hl. constructor; [apply NoDup_singleton|]. constructor; [|done].
  split; [apply scalar_check; reflexivity|]. constructor. apply Forall_fmap.
  eapply Forall_impl; [exact Hl | apply answer_item_serializable].
Qed.

Lemma answer_depth l : (depth (answer l) <= 3)%nat.
Proof.
  assert (depth (answer l) = S (max_list [S (max_list (depth <$> (answer_item <$> l)))])) as -> by reflexivity.
  enough (max_list (depth <$> (answer_item <$> l)) <= 1)%nat by (unfold id in *; cbn [max_list_with]; lia).
  induction l as [|a l IH]; [apply le_S, le_n|].
  assert (max_list (depth <$> (answer_item <$> a :: l)) = Nat.max 1 (max_list (depth <$> (answer_item <$> l)))) as ->
    by reflexivity. lia.
Qed.

Section Theorems.
Context {W : Type} `{!LLMClient W}.

(** C29: the detector never raises, whatever the client does and answers, and
    every entity it reports lies in the text, at the first occurrence of its
    value, with confidence 0.8 and the detector's name. *)
Theorem llm_detect_located enabled limit text context (s : lru * W) :
  ∃ es s', llm_detect enabled limit text context s = (Ok es, s') ∧ Forall (located text) es.
Proof.
  unfold llm_detect. destruct enabled; cbn [negb]; [|by exists [], s].
  unfold sbind, slift. destruct (complete_cached text s) as [[response|e] s1]; [|by exists [], s1].
  destruct (parse_response limit text response) as [es|e] eqn:Hp; [|by exists [], s1].
  exists es, s1. split; [done | by eapply parse_response_located].
Qed.

(** When the client answers with the JSON text of a list of typed values
    and the text is not in the cache, the detector reports exactly those
    values that occur in the text, in order, and remembers the answer. *)
Theorem llm_answer_roundtrip (limit : nat) (l : list (PIIType * pystr)) text context cache (w w' : W) response :
  Forall (λ a, Forall scalar a.2) l → (3 <= limit)%nat →
  json_dumps (answer l) = Some response →
  dict_get text cache = None →
  complete SYSTEM_PROMPT (MESSAGES ++ [llm_message (u8 "user") text]) w = (Ok response, w') →
  llm_detect true limit text context (cache, w) =
    (Ok (omap (named text) l), ((text, response) :: take (maxsize - 1) cache, w')).
Proof.
  intros Hl Hlimit Hdump Hmiss Hclient.
  destruct (json_reads_back (answer l) limit) as (r & Hr & Hload).
  { by apply answer_serializable. }
  { pose proof (answer_depth l). lia. }
  rewrite Hdump in Hr. injection Hr as <-.
  unfold llm_detect, sbind, slift, complete_cached. cbn [negb]. rewrite Hmiss, Hclient.
  unfold parse_response. rewrite Hload. cbn [mbind result_bind].
  change (subscript (answer l) (u8 "entities")) with (@Ok exn _ (OList (answer_item <$> l))).
  cbn [mbind result_bind py_iter]. rewrite parse_answer_items. cbn [mbind result_bind].
  f_equal. f_equal. clear. induction l as [|a l IH]; [done|]. cbn. 
  destruct (named text a); cbn; by rewrite IH.
Qed.

(** ** The cache *)

Lemma filter_absent (x : pystr) (l : list pystr) : x ∉ l → filter (λ t, t ≠ x) l = l.
Proof.
  induction l as [|y l IH]; [done|]. intros [??]%not_elem_of_cons.
  rewrite filter_cons_True by done. f_equal. auto.
Qed.

Lemma filter_take_absent (x : pystr) n l :
  x ∉ take n l → take n (filter (λ t, t ≠ x) l) = take n l.
Proof.
  revert n. induction l as [|y l IH]; intros [|n] Hx; [done..|].
  cbn in Hx. apply not_elem_of_cons in Hx as [Hxy Hx].
  rewrite filter_cons_True by done. cbn. f_equal. by apply IH.
Qed.

Lemma filter_take_present (x : pystr) n l :
  NoDup l → x ∈ take n l → filter (λ t, t ≠ x) (take n l) = take (n - 1) (filter (λ t, t ≠ x) l).
Proof.
  revert n. induction l as [|y l IH]; intros [|n] Hl Hx; cbn in Hx; [by destruct (not_elem_of_nil x)..|].
  apply NoDup_cons in Hl as [Hy Hl]. cbn [take]. destruct (decide (y = x)) as [->|Hne].
  - rewrite !filter_cons_False by naive_solver. replace (S n - 1)%nat with n by lia.
    rewrite (filter_absent x l) by done. apply filter_absent. intros (i & Hi & _)%elem_of_take. apply Hy. by eapply list_elem_of_lookup_2.
  - apply elem_of_cons in Hx as [->|Hx]; [done|].
    rewrite !filter_cons_True by done. destruct n as [|n]; [by destruct (not_elem_of_nil x)|].
    cbn [Nat.sub take]. rewrite (IH (S n)) by done. f_equal. f_equal. lia.
Qed.

Lemma recent_elem h x : x ∈ recent h ↔ x ∈ h.
Proof.
  induction h as [|y h IH]; [done|]. cbn [recent]. rewrite !elem_of_cons, list_elem_of_filter, IH.
  destruct (decide (x = y)); naive_solver.
Qed.

Lemma recent_NoDup h : NoDup (recent h).
Proof.
  induction h as [|y h IH]; cbn [recent]; [constructor|]. apply NoDup_cons. split.
  - rewrite list_elem_of_filter. naive_solver.
  - by apply NoDup_filter.
Qed.

(** The cache after a history of answered texts: their latest distinct ones,
    each with an answer of [answers]. *)
Definition caches (answers : pystr → pystr → Prop) (history : list pystr) (cache : lru) : Prop :=
  cache.*1 = take maxsize (recent history) ∧ Forall (λ p, answers p.1 p.2) cache.

Lemma dict_del_filter (x : pystr) (cache : lru) :
  NoDup cache.*1 → (dict_del x cache).*1 = filter (λ t, t ≠ x) cache.*1.
Proof.
  induction cache as [|[k v] cache IH]; intros Hnd; [done|]. rewrite fmap_cons in Hnd |- *. cbn [fst dict_del] in *.
  apply NoDup_cons in Hnd as [Hk Hnd]. destruct (decide (x = k)) as [<-|Hne].
  - rewrite filter_cons_False by naive_solver. symmetry. by apply filter_absent.
  - rewrite fmap_cons, filter_cons_True by done. f_equal. by apply IH.
Qed.

Definition in_cache (text : pystr) (cache : lru) : bool := bool_decide (text ∈ cache.*1).

Lemma caches_hit answers h cache text response :
  caches answers h cache → dict_get text cache = Some response →
  caches answers (text :: h) ((text, response) :: dict_del text cache) ∧ answers text response.
Proof.
  intros [Hkeys Hans] Hget. pose proof (dict_get_elem _ _ _ Hget) as Hin.
  assert (Hnd : NoDup cache.*1).
  { rewrite Hkeys. eapply sublist_NoDup; [apply recent_NoDup | apply sublist_take]. }
  rewrite Forall_forall in Hans. split; [split|by apply (Hans _ Hin)].
  - rewrite fmap_cons, dict_del_filter by done. cbn [fst recent]. 
    assert (Hx : text ∈ take maxsize (recent h)) by (rewrite <-Hkeys; by apply (list_elem_of_fmap_2 fst) in Hin).
    rewrite Hkeys, filter_take_present by (done || apply recent_NoDup). done.
  - constructor; [by apply (Hans _ Hin)|]. apply Forall_forall. intros p Hp. apply Hans.
    clear -Hp. induction cache as [|[k v] cache IH]; [done|]. cbn in Hp. 
    destruct (decide (text = k)); rewrite elem_of_cons in *; naive_solver.
Qed.

Lemma caches_miss (answers : pystr → pystr → Prop) h cache text response :
  caches answers h cache → dict_get text cache = None → answers text response →
  caches answers (text :: h) ((text, response) :: take (maxsize - 1) cache).
Proof.
  intros [Hkeys Hans] Hget Hresp. apply dict_get_None in Hget. split.
  - rewrite fmap_cons, fmap_take, Hkeys. cbn [fst recent].
    change maxsize with (S (maxsize - 1)). rewrite firstn_cons. f_equal.
    rewrite take_take. replace (S (maxsize - 1) - 1 `min` S (maxsize - 1))%nat with (maxsize - 1)%nat by lia.
    symmetry. apply filter_take_absent. rewrite Hkeys in Hget. intros Hin. apply Hget.
    apply elem_of_take in Hin as (i & Hi & ?). apply elem_of_take. exists i. split; [done|]. unfold maxsize in *. lia.
  - constructor; [done|]. by apply Forall_take.
Qed.

(** What the client may answer to a text. *)
Definition client_answers (text response : pystr) : Prop :=
  ∃ w w' : W, complete SYSTEM_PROMPT (MESSAGES ++ [llm_message (u8 "user") text]) w = (Ok response, w').

Lemma complete_cached_step h cache (w : W) text :
  caches client_answers h cache →
  match complete_cached text (cache, w) with
  | (Ok _, (cache', _)) => caches client_answers (text :: h) cache'
  | (Err _, (cache', _)) => cache' = cache
  end.
Proof.
  intros Hc. unfold complete_cached. destruct (dict_get text cache) as [r|] eqn:Hget.
  - by apply (caches_hit _ _ _ _ _ Hc Hget).
  - destruct (complete _ _ w) as [[r|e] w'] eqn:Hr; [|done].
    apply caches_miss; [done..|]. by exists w, w'.
Qed.

Lemma ask_all_caches texts h cache (w : W) h' cache' w' :
  caches client_answers h cache → ask_all texts h (cache, w) = (h', (cache', w')) →
  caches client_answers h' cache'.
Proof.
  revert h cache w. induction texts as [|text texts IH]; intros h cache w Hc; cbn [ask_all].
  - by intros [= <- <- <-].
  - pose proof (complete_cached_step h cache w text Hc) as Hstep.
    destruct (complete_cached text (cache, w)) as [[r|e] [cache1 w1]].
    + apply IH, Hstep.
    + subst cache1. by apply IH.
Qed.

(** After any sequence of requests the cache holds exactly the 1024 most
    recently answered distinct texts, each with an answer of the client; the
    next text is answered from it without a call when it is one of those, and
    otherwise by the client, whose failure is passed on and not kept. *)
Theorem llm_cache_recent (texts : list pystr) (w : W) (h : list pystr) cache w' text :
  ask_all texts [] ([], w) = (h, (cache, w')) →
  cache.*1 = take maxsize (recent h) ∧
  (∀ t r, dict_get t cache = Some r → client_answers t r) ∧
  (if decide (text ∈ take maxsize (recent h))
   then ∃ r cache', complete_cached text (cache, w') = (Ok r, (cache', w')) ∧ client_answers text r
   else ∃ cache', complete_cached text (cache, w') =
          ((complete SYSTEM_PROMPT (MESSAGES ++ [llm_message (u8 "user") text]) w').1,
           (cache', (complete SYSTEM_PROMPT (MESSAGES ++ [llm_message (u8 "user") text]) w').2))).
Proof.
  intros Hrun. assert (caches client_answers h cache) as Hc.
  { eapply (ask_all_caches texts []); [|exact Hrun]. by split. }
  pose proof Hc as [Hkeys Hans]. rewrite Forall_forall in Hans.
  split; [done|]. split; [intros t r Hr%dict_get_elem; by apply (Hans _ Hr)|].
  rewrite <-Hkeys. unfold complete_cached. destruct (decide (text ∈ cache.*1)) as [Hin|Hnin].
  - destruct (dict_get text cache) as [r|] eqn:Hget.
    + do 2 eexists. split; [done|]. by apply (caches_hit _ _ _ _ _ Hc Hget).
    + by apply dict_get_None in Hget.
  - apply dict_get_None in Hnin. rewrite Hnin. destruct (complete _ _ w') as [[r|e] w1]; by eexists.
Qed.
End Theorems.

(** ** Witnesses *)

(** A client that gives the prepared answers one after the other, and then
    fails. *)
#[local] Instance scripted : LLMClient (list pystr) := {
  complete _ _ script :=
    match script with
    | [] => (Err (EOther (u8 "llm.Unavailable")), [])
    | r :: script => (Ok r, script)
    end
}.

Definition sample_text : pystr := u8 "почта a@b.ru, тел. 12, почта a@b.ru".
Definition sample_answer : list (PIIType * pystr) :=
  [(EMAIL, u8 "a@b.ru"); (PHONE, u8 "12"); (INN, u8 "7707083893")].

Lemma llm_answer_roundtrip_witness :
  ∃ response, llm_detect true 100 sample_text (default_context []) ([], [response]) =
    (Ok (omap (named sample_text) sample_answer), ([(sample_text, response)], [])).
Proof.
  exists (default [] (json_dumps (answer sample_answer))).
  apply (llm_answer_roundtrip 100 sample_answer); [|lia|vm_compute; reflexivity..].
  repeat constructor; vm_compute; done.
Defined.

Lemma llm_cache_recent_witness :
  ∃ r cache', complete_cached (u8 "b") ([(u8 "b", u8 "2"); (u8 "a", u8 "1")], @nil pystr) = (Ok r, (cache', [])) ∧
    client_answers (W := list pystr) (u8 "b") r.
Proof.
  assert (Hrun : ask_all [u8 "a"; u8 "b"; u8 "c"] [] ([], [u8 "1"; u8 "2"]) =
    ([u8 "b"; u8 "a"], ([(u8 "b", u8 "2"); (u8 "a", u8 "1")], []))) by (vm_compute; reflexivity).
  exact (proj2 (proj2 (llm_cache_recent _ _ _ _ _ (u8 "b") Hrun))).
Defined.

(** The model's own example: the few-shot answer names six values of the
    few-shot text, all of them located. *)
Example few_shot_parsed :
  (entities ← parse_response 100 FEW_SHOT_USER FEW_SHOT_ASSISTANT;
   Ok (map (λ e, (pii_type e, start e, end_ e)) entities)) =
  Ok [(PERSON_NAME, 7, 27); (BIRTH_DATE, 29, 39); (PASSPORT_NUMBER, 54, 65); (ADDRESS, 67, 102);
             (PHONE, 109, 125); (EMAIL, 127, 141)].
Proof. vm_compute. reflexivity. Qed.

(** A malformed answer is cached like any other: the same text stays without
    entities although the client would now answer well. *)
Example malformed_answer_cached :
  let good := default [] (json_dumps (answer sample_answer)) in
  let run := llm_detect true 100 sample_text (default_context []) in
  (run ([], [u8 "not JSON"; good])).1 = Ok [] ∧
  (run (run ([], [u8 "not JSON"; good])).2).1 = Ok [] ∧
  (run (run ([], [u8 "not JSON"; good])).2).2.2 = [good].
Proof. vm_compute. split_and!; reflexivity. Qed.

(** ** The client of the deployed service

    [_OpenAICompatClient] ([app/api/dependencies.py]) over [httpx]: the JSON of
    a successful response, or the exception; [py_str] is [str(o)]. *)

Class HttpClient (W : Type) := {
  http_post_json : pystr → pyobj → list (pystr * pystr) → stateM W exn pyobj;
  py_str : pyobj → pystr;
  py_str_of_str s : py_str (OStr s) = s
}.

Section OpenAI.
Context {W : Type} `{!HttpClient W}.

(** [o\[0\]] of a JSON value. *)
Definition first_item (o : pyobj) : result exn pyobj :=
  match o with
  | OList (x :: _) => Ok x
  | OList [] => Err EIndexError
  | OStr (c :: _) => Ok (OStr [c])
  | OStr [] => Err EIndexError
  | ODict _ => Err EKeyError
  | _ => Err ETypeError
  end.

Definition message_obj (m : message) : pyobj := ODict ((λ '(k, v), (k, OStr v)) <$> m).

(** [complete]: the request and the text of the first choice. *)
Definition openai_complete (base_url api_key system : pystr) (messages : list message) : stateM W exn pystr :=
  let payload := ODict [(u8 "model", OStr (u8 "gpt-4o-mini")); (u8 "temperature", OInt 0);
                        (u8 "messages", OList (message_obj (llm_message (u8 "system") system) ::
                                               (message_obj <$> messages)))] in
  let headers := [(u8 "Authorization", u8 "Bearer " ++ api_key)] in
  response <-- http_post_json (rstrip_char 47 base_url ++ u8 "/chat/completions") payload headers;
  slift (choices ← subscript response (u8 "choices");
         choice ← first_item choices;
         msg ← subscript choice (u8 "message");
         text ← subscript msg (u8 "content");
         Ok (py_str text)).

#[export] Instance openai_client (base_url api_key : pystr) : LLMClient W := {|
  complete := openai_complete base_url api_key
|}.

(** The chat answer is the text of the response, and of a response without
    choices an exception the detector swallows. *)
Lemma openai_complete_text base_url api_key system messages (w w' : W) text rest :
  http_post_json (rstrip_char 47 base_url ++ u8 "/chat/completions")
    (ODict [(u8 "model", OStr (u8 "gpt-4o-mini")); (u8 "temperature", OInt 0);
            (u8 "messages", OList (message_obj (llm_message (u8 "system") system) :: (message_obj <$> messages)))])
    [(u8 "Authorization", u8 "Bearer " ++ api_key)] w =
    (Ok (ODict [(u8 "choices", OList (ODict [(u8 "message", ODict [(u8 "content", OStr text)])] :: rest))]), w') →
  openai_complete base_url api_key system messages w = (Ok text, w').
Proof.
  intros Hpost. unfold openai_complete, sbind. rewrite Hpost. unfold slift. f_equal.
  change (Ok (E := exn) (py_str (OStr text)) = Ok text). by rewrite py_str_of_str.
Qed.
End OpenAI.
