(* ===== verification/Pipeline.v ===== *)
(** * The LLM pipeline ([app/processing/secure_llm_pipeline.py], [app/llm/])

    [SecureLLMPipeline.run]: detect, mask, hand the masked prompt to a
    language model, and put the originals back into what it writes.  The
    model is a third party behind [LLMAdapter]; [mock_llm] is the repository's
    own [MockLLMAdapter]. *)

From S2P Require Import Prelude Unicode Domain PyStr Logging World Validators Regex Detector Restoration.
From S2P Require Import MemoryStore Process Service Strategies Masking Resolution Policy.

(** [LLMAdapter]. *)
Class LLMAdapter (W : Type) := {
  generate : pystr → stateM W exn pystr
}.

(** [MockLLMAdapter]: the prompt, unchanged. *)
Definition mock_llm (W : Type) : LLMAdapter W := {| generate prompt := sret prompt |}.

(** [for replacement, original in masking.mappings: restored.replace(...)]. *)
Definition restore (llm_output : pystr) (maps : list (pystr * pystr)) : pystr :=
  fold_left (λ restored '(replacement, original), str_replace restored replacement original) maps llm_output.

Section Pipeline.
Context `{U : UnicodeDB} {W : Type} `{!TokenSource W, !Logger W, !LLMAdapter W}.
Context (detectors : list (PIIDetector W)).

(** [SecureLLMPipeline.run]. *)
Definition run (text : pystr) (policy : ConsumerPolicy) : stateM W exn pystr :=
  let context := default_context (cp_consumer_id policy) in
  detection <-- engine_detect detectors text context;
  let entities := filter (λ e, pii_type e ∈ cp_enabled_types policy) (dr_entities detection) in
  masking <-- mask text entities (cp_masking policy) (cp_context_rules policy);
  llm_output <-- generate (masked_text masking);
  sret (restore llm_output (mappings masking)).
End Pipeline.

(** ** Placeholders

    What [TokenizeStrategy] and [SyntheticStrategy] write: angle brackets
    around text without any. *)

Definition placeholder (r : pystr) : Prop :=
  ∃ b, r = 60 :: b ++ [62] ∧ 60 ∉ b ∧ 62 ∉ b.

Lemma placeholder_prefix r r' s : placeholder r → placeholder r' → prefixb r (r' ++ s) = true → r = r'.
Proof.
  intros (b & -> & Hb & Hb') (b' & -> & Hc & Hc') (t & Ht)%prefixb_spec.
  injection Ht as Ht. rewrite <-!app_assoc in Ht. f_equal. f_equal.
  revert b' Hc Hc' Ht. induction b as [|x b IH]; intros [|x' b'] Hc Hc' Ht; simpl in Ht; simplify_eq/=;
    [done|set_solver..|].
  f_equal. apply IH; set_solver.
Qed.

(** A replacement of placeholders passes over text without ['<']. *)
Lemma replace_plain r o s t :
  placeholder r → 60 ∉ s → replace_go r o 0 (s ++ t) = s ++ replace_go r o 0 t.
Proof.
  intros (b & -> & _). induction s as [|c s IH]; intros Hs; [done|].
  apply not_elem_of_cons in Hs as [Hc Hs]. cbn [app replace_go prefixb].
  rewrite (proj2 (Z.eqb_neq 60 c)) by done. cbn [andb]. by rewrite IH.
Qed.

Lemma replace_here r o t : placeholder r → replace_go r o 0 (r ++ t) = o ++ replace_go r o 0 t.
Proof.
  intros (b & -> & _). pose proof (replace_go_hit (60 :: b ++ [62]) o [] t) as Hhit.
  apply Hhit; [done|]. change ([] ++ ?l ++ t) with (l ++ t).
  assert (prefixb (60 :: b ++ [62]) ((60 :: b ++ [62]) ++ t) = true) as Hp by (apply prefixb_spec; by exists t).
  cbn [app] in *. cbn [find_nat]. by rewrite Hp.
Qed.

Lemma replace_other r r' o t :
  placeholder r → placeholder r' → r ≠ r' → replace_go r o 0 (r' ++ t) = r' ++ replace_go r o 0 t.
Proof.
  intros Hr Hr' Hne. destruct (prefixb r (r' ++ t)) eqn:Hp; [by apply placeholder_prefix in Hp|].
  pose proof Hr' as (b & -> & Hb & _). cbn [app replace_go] in *. rewrite Hp.
  f_equal. apply replace_plain; [done|]. set_solver.
Qed.

(** ** What a model may do with the prompt

    A text made of pieces without ['<'] and of placeholders with their
    originals. *)

Inductive piece :=
  | Words (s : pystr)
  | Kept (replacement original : pystr).

Definition piece_ok (maps : list (pystr * pystr)) (p : piece) : Prop :=
  match p with
  | Words s => 60 ∉ s
  | Kept r o => (r, o) ∈ maps
  end.

(** The pieces as the model sees them, and with the originals. *)
Definition masked_form (ps : list piece) : pystr :=
  concat ((λ p, match p with Words s => s | Kept r _ => r end) <$> ps).
Definition plain_form (ps : list piece) : pystr :=
  concat ((λ p, match p with Words s => s | Kept _ o => o end) <$> ps).

Definition put_back (r : pystr) (p : piece) : piece :=
  match p with
  | Words s => Words s
  | Kept r' o => if decide (r' = r) then Words o else Kept r' o
  end.

Lemma plain_form_put_back r ps : plain_form (put_back r <$> ps) = plain_form ps.
Proof.
  unfold plain_form. rewrite <-list_fmap_compose. f_equal. apply list_fmap_ext. intros i p _.
  destruct p as [s|r' o]; [done|]. cbn. by case_decide.
Qed.

Lemma replace_pieces r o maps ps :
  NoDup (((r, o) :: maps).*1) → Forall (λ p, placeholder p.1 ∧ 60 ∉ p.2) ((r, o) :: maps) →
  Forall (piece_ok ((r, o) :: maps)) ps →
  str_replace (masked_form ps) r o = masked_form (put_back r <$> ps) ∧
  Forall (piece_ok maps) (put_back r <$> ps).
Proof.
  intros Hnd Hmaps Hps. rewrite fmap_cons in Hnd. apply NoDup_cons in Hnd as [Hr Hnd].
  apply Forall_cons in Hmaps as [[Hph Ho] Hmaps]. cbn [fst snd] in *.
  assert (Hrep : ∀ s, str_replace s r o = replace_go r o 0 s) by (by destruct Hph as (b & -> & _)).
  rewrite Hrep. induction Hps as [|p ps Hp Hps [IH1 IH2]]; [done|].
  unfold masked_form in *. rewrite !fmap_cons. cbn [concat]. destruct p as [s|r' o']; cbn [put_back piece_ok] in *.
  - rewrite replace_plain, IH1 by done. split; [done|]. by constructor.
  - case_decide as Heq.
    + subst r'. assert (o' = o) as ->.
      { apply elem_of_cons in Hp as [[= ->]|Hp]; [done|]. destruct Hr. by apply (list_elem_of_fmap_2 fst) in Hp. }
      rewrite replace_here, IH1 by done. split; [done|]. by constructor.
    + apply elem_of_cons in Hp as [[= -> ->]|Hp]; [done|].
      rewrite Forall_forall in Hmaps. destruct (Hmaps _ Hp) as [Hph' _].
      rewrite replace_other, IH1 by (done || congruence). split; [done|]. by constructor.
Qed.

Lemma restore_pieces maps ps :
  NoDup (maps.*1) → Forall (λ p, placeholder p.1 ∧ 60 ∉ p.2) maps → Forall (piece_ok maps) ps →
  restore (masked_form ps) maps = plain_form ps.
Proof.
  revert ps. induction maps as [|[r o] maps IH]; intros ps Hnd Hmaps Hps; cbn [restore fold_left].
  - unfold masked_form, plain_form. f_equal. apply list_fmap_ext. intros i p Hp.
    rewrite Forall_lookup in Hps. specialize (Hps i p Hp). destruct p; [done|]. by apply elem_of_nil in Hps.
  - destruct (replace_pieces r o maps ps Hnd Hmaps Hps) as [-> Hok].
    rewrite fmap_cons in Hnd. apply NoDup_cons in Hnd as [_ Hnd]. apply Forall_cons in Hmaps as [_ Hmaps].
    unfold restore in IH. rewrite IH by done. apply plain_form_put_back.
Qed.

Section PlaceholderPolicy.
Context `{U : UnicodeDB} {W : Type} `{!TokenSource W, !Logger W}.

(** [secrets.token_hex] writes hexadecimal digits. *)
Definition is_hex (c : Z) : bool := ((48 <=? c) && (c <=? 57)) || ((97 <=? c) && (c <=? 102)).
Context (token_hex_digits : ∀ n (w : W), Forall (λ c, is_hex c = true) (token_hex n w).1).

(** Every type is tokenized or replaced by a synthetic placeholder. *)
Definition placeholder_policy (strat : list (PIIType * MaskingStrategyEnum)) : Prop :=
  ∀ t, strategy_for strat t = TOKENIZE ∨ strategy_for strat t = SYNTHETIC.

Lemma bracket_free (c : Z) s : forallb (λ d, negb (d =? c)) s = true → c ∉ s.
Proof.
  intros Hs Hin. rewrite forallb_forall in Hs. apply list_elem_of_In, Hs in Hin.
  apply negb_true_iff, Z.eqb_neq in Hin. done.
Qed.

Lemma token_bracket_free n (w : W) : 60 ∉ (token_hex n w).1 ∧ 62 ∉ (token_hex n w).1.
Proof using token_hex_digits.
  pose proof (token_hex_digits n w) as Ht. rewrite Forall_forall in Ht.
  split; intros Hin; by specialize (Ht _ Hin).
Qed.

Lemma placeholder_of (prefix : pystr) t n (w : W) :
  forallb (λ d, negb (d =? 60)) prefix = true → forallb (λ d, negb (d =? 62)) prefix = true →
  placeholder (60 :: prefix ++ pii_value t ++ u8 ":" ++ (token_hex n w).1 ++ u8 ">").
Proof using token_hex_digits.
  intros H60 H62. exists (prefix ++ pii_value t ++ u8 ":" ++ (token_hex n w).1).
  destruct (token_bracket_free n w) as [Ht60 Ht62].
  assert (60 ∉ pii_value t ∧ 62 ∉ pii_value t) as [Hv60 Hv62]
    by (split; apply bracket_free; by destruct t).
  split; [by rewrite <-!app_assoc|].
  rewrite !not_elem_of_app. split; split_and!; try done; by apply bracket_free.
Qed.

Lemma placeholder_strategy strat t e (w w' : W) r :
  placeholder_policy strat → strategy_mask (strategy_for strat t) e w = (Ok r, w') → placeholder r.
Proof using token_hex_digits.
  intros Hp. destruct (Hp t) as [-> | ->]; cbn [strategy_mask].
  - unfold tokenize_mask. pose proof (placeholder_of (u8 "TOKEN:") (pii_type e) 8 w eq_refl eq_refl) as Hph.
    destruct (token_hex 8 w) as [tok w1]. intros Hr%(f_equal fst)%(inj Ok). by subst r.
  - unfold synthetic_mask. pose proof (placeholder_of (u8 "SYNTHETIC:") (pii_type e) 8 w eq_refl eq_refl) as Hph.
    destruct (token_hex 8 w) as [tok w1]. intros Hr%(f_equal fst)%(inj Ok). by subst r.
Qed.

(** The masked text as pieces. *)
Fixpoint pieces_of (segs : list segment) (tail : pystr) : list piece :=
  match segs with
  | [] => [Words tail]
  | s :: segs => Words (gap s) :: Kept (repl s) (orig s) :: pieces_of segs tail
  end.

Lemma pieces_of_forms segs tail :
  masked_form (pieces_of segs tail) = masked_of segs ++ tail ∧
  plain_form (pieces_of segs tail) = plain_of segs ++ tail.
Proof.
  unfold masked_form, plain_form. induction segs as [|s segs [IH1 IH2]]; [split; apply app_nil_r|].
  cbn [pieces_of masked_of plain_of]. rewrite !fmap_cons. cbn [concat]. by rewrite IH1, IH2, <-!app_assoc.
Qed.

Lemma pieces_of_ok segs tail maps :
  60 ∉ plain_of segs ++ tail → (∀ s, s ∈ segs → pair_of s ∈ maps) → Forall (piece_ok maps) (pieces_of segs tail).
Proof.
  induction segs as [|s segs IH]; cbn [plain_of pieces_of]; intros Hp Hm; [by repeat constructor|].
  rewrite <-!app_assoc, !(not_elem_of_app (gap s)), (not_elem_of_app (orig s)) in Hp. destruct Hp as (Hg & _ & Hp).
  repeat constructor; [done|apply (Hm s); set_solver|]. apply IH; [done|set_solver].
Qed.

(** Masking with placeholders: what the mappings hold, and the masked text in
    pieces. *)
Lemma mask_placeholders text entities strat context_rules (w w' : W) res :
  placeholder_policy strat → 60 ∉ text →
  mask text entities strat context_rules w = (Ok res, w') →
  Forall (λ p, placeholder p.1 ∧ 60 ∉ p.2) (mappings res) ∧
  ∃ ps, Forall (piece_ok (mappings res)) ps ∧ masked_form ps = masked_text res ∧ plain_form ps = text.
Proof using token_hex_digits.
  intros Hpol Htext Hm.
  apply mask_segments in Hm as (rules & segs & tail & _ & _ & -> & -> & -> & _ & _ & Hrepl).
  split.
  - apply Forall_fmap, Forall_forall. intros s Hs. cbn. split.
    + apply list_elem_of_lookup in Hs as [i Hi].
      destruct (Forall2_lookup_l _ _ _ _ _ Hrepl Hi) as (e & _ & r1 & r2 & Hr). by eapply placeholder_strategy.
    + clear -Hs Htext. induction segs as [|s' segs IH]; [by apply elem_of_nil in Hs|].
      cbn [plain_of] in Htext. rewrite <-!app_assoc, !(not_elem_of_app (gap s')), (not_elem_of_app (orig s')) in Htext.
      destruct Htext as (? & ? & ?). apply elem_of_cons in Hs as [->|Hs]; [done|]. by apply IH.
  - exists (pieces_of segs tail). destruct (pieces_of_forms segs tail) as [-> ->].
    split; [|done]. apply pieces_of_ok; [done|]. intros s Hs. by apply list_elem_of_fmap_2.
Qed.

Context (detectors : list (PIIDetector W)).

(** The entities [run] masks. *)
Definition enabled_entities (policy : ConsumerPolicy) (d : DetectionResult) : list PIIEntity :=
  filter (λ e, pii_type e ∈ cp_enabled_types policy) (dr_entities d).

(** C28: under a policy of tokens and synthetic values, for a text without an
    opening angle bracket whose placeholders came out distinct, and a model
    that answers in words without an opening angle bracket and placeholders
    it was given, moved, repeated or dropped, the pipeline returns the
    model's text with each placeholder replaced by its own original. *)
Theorem pipeline_restores_placeholders `{!LLMAdapter W} text policy (w : W) d w1 res w2 ps w3 :
  engine_detect detectors text (default_context (cp_consumer_id policy)) w = (Ok d, w1) →
  mask text (enabled_entities policy d) (cp_masking policy) (cp_context_rules policy) w1 = (Ok res, w2) →
  placeholder_policy (cp_masking policy) → 60 ∉ text → NoDup (mappings res).*1 →
  Forall (piece_ok (mappings res)) ps → generate (masked_text res) w2 = (Ok (masked_form ps), w3) →
  run detectors text policy w = (Ok (plain_form ps), w3).
Proof using token_hex_digits.
  intros Hd Hm Hpol Htext Hnd Hps Hgen.
  destruct (mask_placeholders _ _ _ _ _ _ _ Hpol Htext Hm) as [Hmaps _].
  unfold run, sbind, enabled_entities in *. rewrite Hd, Hm, Hgen. unfold sret. by rewrite restore_pieces.
Qed.

(** Round trip through the mock model: a text without an opening angle
    bracket that is masked with distinct placeholders comes back unchanged. *)
Theorem pipeline_mock_roundtrip text policy (w : W) d w1 res w2 :
  engine_detect detectors text (default_context (cp_consumer_id policy)) w = (Ok d, w1) →
  mask text (enabled_entities policy d) (cp_masking policy) (cp_context_rules policy) w1 = (Ok res, w2) →
  placeholder_policy (cp_masking policy) → 60 ∉ text → NoDup (mappings res).*1 →
  @run _ W _ _ (mock_llm W) detectors text policy w = (Ok text, w2).
Proof using token_hex_digits.
  intros Hd Hm Hpol Htext Hnd.
  destruct (mask_placeholders _ _ _ _ _ _ _ Hpol Htext Hm) as [Hmaps (ps & Hps & Hmf & Hpf)].
  unfold run, sbind, enabled_entities in *. rewrite Hd, Hm. unfold generate, mock_llm, sret.
  by rewrite <-Hmf, restore_pieces, Hpf.
Qed.
End PlaceholderPolicy.

(** ** Witnesses *)

Section Runs.
#[local] Existing Instance plain_interpreter.

#[local] Instance run_tokens : TokenSource Z := world_token.
#[local] Instance run_logger : Logger Z := world_logger.

(** A model that writes the prompt twice. *)
#[local] Instance echo_twice : LLMAdapter Z := {| generate prompt := sret (prompt ++ u8 " / " ++ prompt) |}.

Definition token_policy : ConsumerPolicy :=
  mkPolicy (u8 "llm") true all_pii_types ((λ t, (t, TOKENIZE)) <$> all_pii_types) true (pin_rule false).
Definition prompt_text : pystr := u8 "a@b.ru, c@d.ru".

Lemma token_policy_placeholders : placeholder_policy (cp_masking token_policy).
Proof. intros t. left. by destruct t. Qed.

Lemma tick_token_hex n (w : Z) : Forall (λ c, is_hex c = true) (token_hex n w).1.
Proof.
  change (Forall (λ c, is_hex c = true) (replicate (Z.to_nat (2 * n)) (97 + w mod 6))).
  apply Forall_replicate. unfold is_hex. pose proof (Z.mod_pos_bound w 6 ltac:(lia)).
  apply orb_true_iff. right. apply andb_true_iff. rewrite !Z.leb_le. lia.
Qed.

Definition result_or {A} (a : A) (r : result exn A) : A := match r with Ok a => a | Err _ => a end.

(** The detection and the masking of the prompt, evaluated. *)
Definition detected : DetectionResult * Z := Eval vm_compute in
  let '(d, w) := engine_detect regex_detectors prompt_text (default_context (cp_consumer_id token_policy)) 0 in
  (result_or (mkDetectionResult [] []) d, w).
Definition masked : MaskingResult * Z := Eval vm_compute in
  let '(m, w) := mask prompt_text (enabled_entities token_policy detected.1)
                   (cp_masking token_policy) (cp_context_rules token_policy) detected.2 in
  (result_or (mkMaskingResult [] [] []) m, w).
Abbreviation masking_result := (masked.1).

Lemma detected_ok :
  engine_detect regex_detectors prompt_text (default_context (cp_consumer_id token_policy)) 0 =
    (Ok detected.1, detected.2).
Proof. vm_compute. reflexivity. Qed.
Lemma masked_ok :
  mask prompt_text (enabled_entities token_policy detected.1) (cp_masking token_policy)
    (cp_context_rules token_policy) detected.2 = (Ok masking_result, masked.2).
Proof. vm_compute. reflexivity. Qed.
Lemma masked_distinct : NoDup (mappings masking_result).*1.
Proof. apply (bool_decide_eq_true_1 _). vm_compute. reflexivity. Qed.
Lemma prompt_no_bracket : 60 ∉ prompt_text.
Proof. apply (bool_decide_eq_true_1 _). vm_compute. reflexivity. Qed.

(** What the echoing model writes, in pieces. *)
Definition once : list piece :=
  match mappings masking_result with
  | [(r1, o1); (r2, o2)] => [Kept r1 o1; Words (u8 ", "); Kept r2 o2]
  | _ => []
  end.
Definition echoed : list piece := once ++ [Words (u8 " / ")] ++ once.

Definition piece_okb (maps : list (pystr * pystr)) (p : piece) : bool :=
  match p with
  | Words s => bool_decide (60 ∉ s)
  | Kept r o => bool_decide ((r, o) ∈ maps)
  end.
Lemma piece_okb_ok maps p : piece_okb maps p = true → piece_ok maps p.
Proof. destruct p; apply bool_decide_eq_true_1. Qed.
Lemma echoed_ok : Forall (piece_ok (mappings masking_result)) echoed.
Proof.
  assert (forallb (piece_okb (mappings masking_result)) echoed = true) as Hb by (vm_compute; reflexivity).
  rewrite forallb_forall in Hb. apply Forall_forall. intros p Hp%list_elem_of_In. by apply piece_okb_ok, Hb.
Qed.

Lemma pipeline_restores_placeholders_witness :
  plain_form echoed = u8 "a@b.ru, c@d.ru / a@b.ru, c@d.ru" ∧
  run regex_detectors prompt_text token_policy 0 = (Ok (plain_form echoed), masked.2).
Proof.
  split; [vm_compute; reflexivity|].
  apply (pipeline_restores_placeholders tick_token_hex regex_detectors prompt_text token_policy 0 detected.1
           detected.2 masking_result masked.2 echoed masked.2).
  - exact detected_ok.
  - exact masked_ok.
  - exact token_policy_placeholders.
  - exact prompt_no_bracket.
  - exact masked_distinct.
  - exact echoed_ok.
  - vm_compute. reflexivity.
Defined.

Lemma pipeline_mock_roundtrip_witness :
  @run _ Z _ _ (mock_llm Z) regex_detectors prompt_text token_policy 0 = (Ok prompt_text, masked.2).
Proof.
  apply (pipeline_mock_roundtrip tick_token_hex regex_detectors prompt_text token_policy 0 detected.1
           detected.2 masking_result masked.2).
  - exact detected_ok.
  - exact masked_ok.
  - exact token_policy_placeholders.
  - exact prompt_no_bracket.
  - exact masked_distinct.
Defined.

(** Equal masks are not told apart: under the default policy both addresses
    of the prompt have the mask [*@*.**], and the unchanged prompt comes back
    with the first address twice. *)
Example equal_masks_restore_first :
  (@run _ Z _ _ (mock_llm Z) regex_detectors prompt_text default_policy 0).1 = Ok (u8 "a@b.ru, a@b.ru").
Proof. vm_compute. reflexivity. Qed.
End Runs.
