(* ===== verification/LogSetup.v ===== *)
(** * Log set-up and request context ([app/observability/logging.py], [app/api/middleware.py])

    What [main.py] does to the application's logger when it is imported, and
    [RequestContextMiddleware], the other way to give requests their id, which
    [main.py] does not add. *)

From S2P Require Import Prelude Unicode Domain PyStr Utf8 Logging.

(** ** The logger *)

Inductive formatter := JsonFormatter | TextFormatter.

(** A logger as [logging] keeps it: its level, the formatters of its handlers
    (each a [StreamHandler] on the standard output) and whether records go on
    to the root logger. *)
Record logger := mkLogger {
  level : pystr;
  handlers : list formatter;
  propagate : bool
}.

(** The names [Logger.setLevel] knows. *)
Definition LEVELS : list pystr :=
  [u8 "CRITICAL"; u8 "FATAL"; u8 "ERROR"; u8 "WARN"; u8 "WARNING"; u8 "INFO"; u8 "DEBUG"; u8 "NOTSET"].

Section Setup.
Context `{U : UnicodeDB}.
(** [str.upper], whose tables [UnicodeDB] does not have. *)
Context (str_upper : pystr → pystr).

Definition _build_formatter (log_format : pystr) : formatter :=
  if bool_decide (str_lower log_format = u8 "json") then JsonFormatter else TextFormatter.

(** [Formatter("%(asctime)s %(levelname)s %(name)s %(message)s")]. *)
Definition format_text `{PyRepr} (asctime : pystr) (r : log_record) : pystr :=
  asctime ++ [32] ++ levelname r ++ [32] ++ logger_name r ++ [32] ++ getMessage r.

Definition setLevel (name : pystr) (l : logger) : result exn logger :=
  if decide (name ∈ LEVELS) then Ok (mkLogger name (handlers l) (propagate l)) else Err EValueError.

Definition configure_logging (log_level log_format : pystr) (root : logger) : result exn logger :=
  let handler := _build_formatter log_format in
  root ← setLevel (str_upper log_level) root;
  Ok (mkLogger (level root) [handler] false).

(** Configuring again, with whatever settings, leaves no trace of the first
    time: every record is written once, in the last format, and not handed to
    the root logger. *)
Theorem configure_logging_last log_level log_format log_level' log_format' root root1 :
  configure_logging log_level log_format root = Ok root1 →
  configure_logging log_level' log_format' root1 = configure_logging log_level' log_format' root ∧
  ∀ root2, configure_logging log_level' log_format' root1 = Ok root2 →
    handlers root2 = [_build_formatter log_format'] ∧ propagate root2 = false ∧ level root2 ∈ LEVELS.
Proof.
  intros _. unfold configure_logging, setLevel.
  destruct (decide (str_upper log_level' ∈ LEVELS)) as [Hin|]; cbn [mbind result_bind]; [|done].
  split; [done|]. by intros root2 [= <-].
Qed.
End Setup.

(** ** [RequestContextMiddleware] *)

(** An ASGI message and scope, as far as the middleware looks into them. *)
Record message := mkMessage {
  m_type : pystr;
  m_headers : option (list (bytes * bytes));
  m_body : bytes
}.

Record scope := mkScope {
  s_type : pystr;
  s_headers : list (bytes * bytes);
  s_state : option (list (pystr * pystr))
}.

Definition REQUEST_ID_HEADER : bytes := u8 "x-request-id".

(** [dict(pairs)]. *)
Definition dict_of (pairs : list (bytes * bytes)) : list (bytes * bytes) :=
  fold_left (λ d p, dict_set (p.1) (p.2) d) pairs [].

Section RequestContext.
Context {W : Type} `{!UuidSource W}.

(** The wrapped application: the messages it sends and how it ends. *)
Definition asgi_app : Type := scope → W → (list message * result exn unit) * W.

Definition send_wrapper (request_id : bytes) (m : message) : message :=
  if bool_decide (m_type m = u8 "http.response.start")
  then mkMessage (m_type m) (Some (default [] (m_headers m) ++ [(REQUEST_ID_HEADER, request_id)])) (m_body m)
  else m.

(** [headers.get(...) or str(uuid.uuid4()).encode()]. *)
Definition context_request_id (headers : list (bytes * bytes)) (w : W) : result exn bytes * W :=
  match dict_get REQUEST_ID_HEADER (dict_of headers) with
  | Some (c :: id) => (Ok (c :: id), w)
  | _ => let '(u, w) := uuid4 w in (utf8_encode u, w)
  end.

Definition request_context (app : asgi_app) : asgi_app := λ sc w,
  if negb (bool_decide (s_type sc = u8 "http")) then app sc w
  else
    match context_request_id (s_headers sc) w with
    | (Err e, w) => (([], Err e), w)
    | (Ok request_id, w) =>
        match utf8_decode request_id, s_state sc with
        | Err e, _ => (([], Err e), w)
        | Ok _, None => (([], Err EKeyError), w)
        | Ok text, Some state =>
            let '((messages, r), w) :=
              app (mkScope (s_type sc) (s_headers sc) (Some (dict_set (u8 "request_id") text state))) w in
            ((send_wrapper request_id <$> messages, r), w)
        end
    end.

(** Bodies and other messages pass unchanged. *)
Lemma send_wrapper_other id m :
  m_type m ≠ u8 "http.response.start" → send_wrapper id m = m.
Proof. intros Hm. unfold send_wrapper. by rewrite bool_decide_eq_false_2. Qed.

(** A request with an id gets it: the application sees it in its state, the
    start of the response carries it behind the headers it had, and nothing
    else that is sent changes. *)
Theorem request_context_echoes app sc w id text state :
  s_type sc = u8 "http" → dict_get REQUEST_ID_HEADER (dict_of (s_headers sc)) = Some id → id ≠ [] →
  utf8_decode id = Ok text → s_state sc = Some state →
  ∃ inner messages r w', inner = mkScope (s_type sc) (s_headers sc) (Some (dict_set (u8 "request_id") text state)) ∧
    app inner w = ((messages, r), w') ∧
    request_context app sc w = ((send_wrapper id <$> messages, r), w') ∧
    ∀ m, m ∈ messages → m_type m = u8 "http.response.start" →
      m_headers (send_wrapper id m) = Some (default [] (m_headers m) ++ [(REQUEST_ID_HEADER, id)]).
Proof.
  intros Ht Hh Hne Hd Hs. unfold request_context. rewrite bool_decide_eq_true_2 by done. cbn [negb].
  unfold context_request_id. rewrite Hh. destruct id as [|c id]; [done|]. rewrite Hd, Hs.
  set (inner := mkScope _ _ _). destruct (app inner w) as [[messages r] w'] eqn:Happ.
  exists inner, messages, r, w'. split_and!; [done|done|done|]. intros m _ Hm. unfold send_wrapper.
  by rewrite bool_decide_eq_true_2.
Qed.
End RequestContext.
