(* ===== verification/LogLines.v ===== *)
(** * The lines a request adds to the log

    Which code logs what, in a world that keeps the log ([Logged]): the
    outside, the detectors and the in-memory store log nothing, and a call of
    the process service logs nothing but the masking engine's warnings about
    the policy it was given ([engine_line]).  What a store and detectors have
    to promise for this is [QuietStore] and [QuietDetectors]. *)

From S2P Require Import Prelude Unicode Domain PyStr Utf8 Hashes Json Metrics Logging Strategies.
From S2P Require Import Masking Resolution Regex Validators Detector Policy Restoration World StoreInterface.
From S2P Require Import MemoryStore Process Service.

Section Writes.
Context {V : Type}.

(** From [w] to [w'] only records of [P] have been logged, under the context
    of [w], which is that of [w'] too. *)
Definition writes (P : log_record → Prop) (w w' : Logged V) : Prop :=
  context_id w' = context_id w ∧
  ∃ rs, lines w' = lines w ++ (pair (context_id w) <$> rs) ∧ Forall P rs.

#[export] Instance writes_preorder P : PreOrder (writes P).
Proof.
  split.
  - intros w. split; [done|]. exists []. by rewrite app_nil_r.
  - intros w1 w2 w3 (Hc & rs & Hl & Hr) (Hc' & rs' & Hl' & Hr'). split; [congruence|]. exists (rs ++ rs').
    rewrite Hl', Hl, Hc, fmap_app, (assoc_L (++)). split; [done|]. by apply Forall_app.
Qed.

Lemma writes_weaken (P Q : log_record → Prop) w w' : (∀ r, P r → Q r) → writes P w w' → writes Q w w'.
Proof. intros HPQ (Hc & rs & Hl & Hr). split; [done|]. exists rs. split; [done|]. by eapply Forall_impl. Qed.

Lemma writes_outer {A} P (f : V → A * V) w : writes P w (outer f w).2.
Proof. unfold outer. destruct (f (outside w)) as [x v]. split; [done|]. exists []. by rewrite app_nil_r. Qed.

Lemma writes_emit (P : log_record → Prop) r w : P r → writes P w (emit r w).
Proof. intros Hr. split; [done|]. exists [r]. split; [done|]. by constructor. Qed.

Lemma writes_emit_all (P : log_record → Prop) rs w : Forall P rs → writes P w (emit_all rs w).
Proof.
  unfold emit_all. intros Hrs. revert w. induction Hrs as [|r rs Hr _ IH]; intros w; cbn [fold_left]; [done|].
  etrans; [by apply (writes_emit P r)|apply IH].
Qed.

(** Nothing is logged. *)
Definition silent (w w' : Logged V) : Prop := context_id w' = context_id w ∧ lines w' = lines w.

Lemma writes_nothing w w' : writes (λ _, False) w w' ↔ silent w w'.
Proof.
  split.
  - intros (Hc & rs & Hl & Hr). split; [done|]. destruct Hr; [|done]. by rewrite Hl, app_nil_r.
  - intros [Hc Hl]. split; [done|]. exists []. by rewrite app_nil_r.
Qed.

(** A computation on a state with such a world inside logs only records of
    [P]. *)
Section LogsAt.
Context {T : Type} (world : T → Logged V) (P : log_record → Prop).

Definition logs_at {A} (m : stateM T exn A) : Prop := ∀ t, writes P (world t) (world (m t).2).

Lemma logs_ret {A} (x : A) : logs_at (sret x). Proof. by intros t. Qed.
Lemma logs_raise {A} e : logs_at (A := A) (sraise e). Proof. by intros t. Qed.
Lemma logs_lift {A} (r : result exn A) : logs_at (slift r). Proof. by intros t. Qed.
Lemma logs_bind {A B} (m : stateM T exn A) (k : A → stateM T exn B) :
  logs_at m → (∀ x, logs_at (k x)) → logs_at (sbind m k).
Proof.
  intros Hm Hk t. unfold sbind. specialize (Hm t). destruct (m t) as [[x|e] t1]; cbn [snd] in *; [|done].
  etrans; [exact Hm|apply Hk].
Qed.
Lemma logs_timed `{!PerfCounter T} {A} (m : stateM T exn A) :
  (∀ t, writes P (world t) (world (perf_counter t).2)) → logs_at m → logs_at (timed m).
Proof.
  intros Hp Hm t. unfold timed. pose proof (Hp t) as H1. destruct (perf_counter t) as [q t1]. cbn [snd] in *.
  pose proof (Hm t1) as H2. destruct (m t1) as [[x|e] t2]; cbn [snd] in *; pose proof (Hp t2) as H3;
    destruct (perf_counter t2); cbn [snd] in *; etrans; [exact H1|by etrans|exact H1|by etrans].
Qed.
End LogsAt.

Abbreviation logs P m := (logs_at (λ w : Logged V, w) P m).

(** The engine's own lines, in the state of the service. *)
Lemma logs_step {A} P (m : engineM A) : Forall P (m []).2 → logs P (engine_step (R := Logged V) m).
Proof. intros Hm w. unfold engine_step. destruct (m []) as [r rs]. by apply writes_emit_all. Qed.

Context `{!World V}.

Lemma logs_monotonic P : logs P read_monotonic.
Proof. intros w. unfold read_monotonic. pose proof (writes_outer P monotonic w : writes P w (monotonic w).2) as Hw. by destruct (monotonic w). Qed.
Lemma logs_utc_now P : logs P read_utc_now.
Proof. intros w. unfold read_utc_now. pose proof (writes_outer P utc_now w : writes P w (utc_now w).2) as Hw. by destruct (utc_now w). Qed.
Lemma logs_encrypt P b : logs P (encrypt b).
Proof.
  intros w. unfold encrypt. pose proof (writes_outer P (fernet_encrypt b) w : writes P w (fernet_encrypt b w).2) as Hw. by destruct (fernet_encrypt b w).
Qed.
Lemma logs_today P : logs P (λ w, let '(d, w) := date_today w in (Ok d, w)).
Proof. intros w. pose proof (writes_outer P date_today w : writes P w (date_today w).2) as Hw. by destruct (date_today w). Qed.
Lemma writes_perf P (w : Logged V) : writes P w (perf_counter w).2.
Proof. exact (writes_outer P perf_counter w). Qed.
Lemma logs_token P n : logs P (λ w, let '(t, w) := token_hex n w in (Ok t, w)).
Proof. intros w. pose proof (writes_outer P (token_hex n) w : writes P w (token_hex n w).2) as Hw. by destruct (token_hex n w). Qed.
End Writes.

Abbreviation logs P m := (logs_at (λ w, w) P m).

Create HintDb logs.
#[export] Hint Resolve logs_ret logs_raise logs_lift logs_monotonic logs_utc_now logs_encrypt logs_today logs_token : logs.

(** Walks down a computation written with [<--]. *)
Ltac go_logs :=
  repeat (eauto 2 with logs; first [apply logs_bind | case_match | progress intros]); eauto 2 with logs.

(** ** Stores and detectors that do not log *)

Class QuietStore (S V : Type) `{!RestorationStore S (Logged V)} := {
  get_writes P k s w : writes P w (store_get k (s, w)).2.2;
  transition_writes P k fn s w : (∀ c, logs P (fn c)) → writes P w (store_transition k fn (s, w)).2.2
}.

Class QuietDetectors {V} (detectors : list (PIIDetector (Logged V))) :=
  detectors_quiet P text context : logs P (engine_detect detectors text context).

(** *** The in-memory store *)

Section Memory.
Context `{I : Interpreter} {V : Type} `{!World V} (ttl_seconds max_entries : Z).
Context (P : log_record → Prop).

Abbreviation store_logs m := (logs_at (snd : store_data * Logged V → Logged V) P m).

Lemma store_logs_get : store_logs get_data. Proof. by intros [d w]. Qed.
Lemma store_logs_set d : store_logs (set_data d). Proof. by intros [d' w]. Qed.
Lemma store_logs_world {A} (m : stateM (Logged V) exn A) : logs P m → store_logs (MemoryStore.on_world m).
Proof. intros Hm [d w]. unfold MemoryStore.on_world. specialize (Hm w). by destruct (m w). Qed.
Lemma store_logs_encode st : logs P (encode (W := Logged V) st).
Proof. unfold encode. go_logs. Qed.
#[local] Hint Resolve store_logs_get store_logs_set store_logs_world store_logs_encode : logs.

Lemma memory_get_logs k : store_logs (get k).
Proof. unfold get. go_logs. Qed.
Lemma transition_logs k fn : (∀ c, logs P (fn c)) → store_logs (transition ttl_seconds max_entries k fn).
Proof.
  intros Hfn. unfold transition, transition_read, transition_write, evict_expired_locked, put. go_logs.
Qed.
End Memory.

#[export] Instance memory_quiet `{I : Interpreter} {V} `{!World V} ttl_seconds max_entries :
  QuietStore (RestorationStore0 := memory_store ttl_seconds max_entries) store_data V.
Proof. split; intros P k; [intros s w; apply (memory_get_logs P k (s, w))|intros fn s w Hfn; by apply (transition_logs _ _ P k fn Hfn (s, w))]. Qed.

(** *** The regex detector *)

Section Detectors.
Context `{U : UnicodeDB} {V : Type} `{!World V}.
Context (P : log_record → Prop).
Abbreviation quiet m := (logs_at (λ w : Logged V, w) P m).

Lemma birth_date_logs s : quiet (is_birth_date s).
Proof. unfold is_birth_date. go_logs. Qed.
#[local] Hint Resolve birth_date_logs : logs.

Lemma validate_logs t v : quiet (validate t v).
Proof.
  unfold validate. destruct (dict_get t VALIDATORS) as [f|] eqn:Hf; [|apply logs_ret].
  apply dict_get_elem in Hf. unfold VALIDATORS in Hf.
  repeat (apply elem_of_cons in Hf as [Hf|Hf]; [injection Hf as -> ->; eauto with logs|]). by inversion Hf.
Qed.
#[local] Hint Resolve validate_logs : logs.

Lemma detect_logs text context : quiet (Detector.detect text context).
Proof.
  assert (Hm : ∀ t ms es, quiet (detect_matches t text ms es)).
  { intros t ms. induction ms as [|m ms IH]; intros es; cbn [detect_matches]; unfold detect_match; go_logs. }
  unfold Detector.detect. generalize (@nil PIIEntity). induction RULES as [|[t r] rules IH]; intros es;
    cbn [detect_rules]; go_logs.
Qed.
End Detectors.

#[export] Instance regex_quiet `{U : UnicodeDB} {V} `{!World V} : QuietDetectors (V := V) regex_detectors.
Proof.
  intros P text context. unfold engine_detect, regex_detectors. cbn [run_detectors]. pose proof (detect_logs (V := V) P).
  go_logs.
Qed.

(** ** A call of the service *)

Section Process.
Context `{U : UnicodeDB, H : HashLib} {S V : Type} `{!World V, !RestorationStore S (Logged V), !QuietStore S V}.
Context (detectors : list (PIIDetector (Logged V))) `{!QuietDetectors detectors}.

Lemma strategy_logs P st e : logs P (strategy_mask (R := Logged V) st e).
Proof.
  intros w. assert (Ht : ∀ n, writes P w (token_hex n w).2) by (intros n; exact (writes_outer P (token_hex n) w)).
  destruct st; cbn [strategy_mask]; [done|done|..]; unfold tokenize_mask, synthetic_mask;
    match goal with |- context [token_hex ?n w] => specialize (Ht n); by destruct (token_hex n w) end.
Qed.

Lemma mask_logs text entities strat context_rules :
  logs (engine_line context_rules) (mask (R := Logged V) text entities strat context_rules).
Proof.
  unfold mask. apply logs_bind.
  { apply logs_step. rewrite _select_spans_eq. apply span_warnings_lines. }
  intros valid. apply logs_bind; [apply logs_step, rule_warnings_lines|]. intros rules.
  apply logs_bind; [|by intros [[? ?] ?]; apply logs_ret].
  generalize (sorted_by start_leb valid) as ordered. generalize (@nil pystr), (@nil (pystr * pystr)), 0.
  intros pieces maps cursor ordered. revert pieces maps cursor.
  induction ordered; intros; cbn [mask_loop]; pose proof strategy_logs; go_logs.
Qed.

(** What the service logs under a policy. *)
Abbreviation policy_line policy := (engine_line (cp_context_rules policy)).

Lemma prepare_logs payload key policy : logs (policy_line policy) (prepare_mask detectors payload key policy).
Proof using All. unfold prepare_mask. pose proof mask_logs. pose proof detectors_quiet. go_logs. Qed.

Lemma transition_state_logs current payload key policy prepared :
  logs (policy_line policy) (transition_state detectors current payload key policy prepared).
Proof using All. unfold transition_state. pose proof prepare_logs. go_logs. Qed.

Abbreviation world_in_store := (snd : S * Logged V → Logged V).
Abbreviation world_in := (λ st : (S * Logged V) * Metrics, st.1.2).

Lemma process_body_logs payload key policy :
  logs_at world_in_store (policy_line policy) (process_body detectors payload key policy).
Proof using All.
  assert (Hp : ∀ t : S * Logged V, writes (policy_line policy) t.2 (perf_counter t).2.2).
  { intros [s w]. unfold perf_counter at 1, store_perf. pose proof (writes_perf (policy_line policy) w).
    by destruct (perf_counter w). }
  unfold process_body, maybe_prepare. apply logs_bind; [apply logs_timed; [done|]|].
  { intros [s w]. apply get_writes. }
  intros [found ms]. apply logs_bind.
  { destruct found; [apply logs_ret|]. apply logs_bind; [|by intros [? ?]; apply logs_ret].
    apply logs_timed; [done|]. intros [s w]. unfold in_world.
    pose proof (prepare_logs payload key policy w). by destruct (prepare_mask _ _ _ _ w). }
  intros [prepared timings]. apply logs_bind; [apply logs_timed; [done|]|].
  { intros [s w]. apply transition_writes. intros c. apply logs_bind; [apply transition_state_logs|go_logs]. }
  intros [st tms]. go_logs.
Qed.

Lemma process_logs payload payload_id policy :
  logs_at world_in (policy_line policy) (process detectors payload payload_id policy).
Proof using All.
  assert (Hrec : ∀ f, logs_at world_in (policy_line policy) (record (S := S) (W := Logged V) f)) by by intros f [[s w] m].
  unfold process. case_match; [by apply logs_raise|]. apply logs_bind; [apply logs_lift|]. intros key.
  apply logs_bind; [|intros [[? ?] ?]; go_logs].
  intros [[s w] m]. unfold in_store.
  assert (Hb : logs_at world_in_store (policy_line policy) (timed (process_body detectors payload key policy))).
  { apply logs_timed; [|apply process_body_logs]. intros [s1 w1]. unfold perf_counter at 1, store_perf.
    pose proof (writes_perf (policy_line policy) w1). by destruct (perf_counter w1). }
  specialize (Hb (s, w)). by destruct (timed _ (s, w)).
Qed.
End Process.
