(* ===== verification/Api.v ===== *)
(** * The HTTP service ([app/main.py], [app/api/])

    One request through the application: the rate limiter outermost, then
    [observe_http_request], then the exception handlers, then the endpoints,
    and [handle_unexpected] around everything.  Starlette and FastAPI are
    third parties: [Framework] is what they answer themselves, and the order
    in which [serve_http] nests the parts is theirs (a middleware added later
    is outside one added earlier; a handler is chosen by the exception's
    class, the most specific first). *)

From S2P Require Import Prelude Unicode Domain PyStr Utf8 Hashes Json RateLimit Metrics Resolution Logging.
From S2P Require Import Strategies Masking Policy Restoration World StoreInterface Process LogLines.

(** ** Requests and responses *)

(** Header names are lower case, as Starlette keeps them. *)
Record http_request := mkHttp {
  http_method : pystr;
  http_path : pystr;
  http_headers : list (pystr * pystr);
  http_body : bytes
}.

Record http_response := mkResponse {
  status : Z;
  content : pyobj;
  resp_headers : list (pystr * pystr)
}.

(** The body of [POST /process] against [ProcessRequest] ([Field(min_length=1)]
    on both texts, or the detail of the 422 answer), the Prometheus text, and
    the answers to every request that is none of the application's. *)
Class Framework := {
  parse_request : list (pystr * pystr) → bytes → result pyobj (pystr * pystr);
  parse_request_min_length h b p i : parse_request h b = Ok (p, i) → p ≠ [] ∧ i ≠ [];
  metrics_text : Metrics → pystr;
  other_route : http_request → http_response
}.

Definition set_header (name v : pystr) (r : http_response) : http_response :=
  mkResponse (status r) (content r) (dict_set name v (resp_headers r)).

Definition X_REQUEST_ID : pystr := u8 "x-request-id".

(** [{"error": ..., "message": ...}]. *)
Definition error_content (error message : pystr) : pyobj :=
  ODict [(u8 "error", OStr error); (u8 "message", OStr message)].

(** [get_consumer_id]. *)
Definition get_consumer_id `{U : UnicodeDB} (default_consumer_id : pystr) (x_consumer_id : option pystr) : pystr :=
  match x_consumer_id with
  | None => default_consumer_id
  | Some s =>
      match str_lower (strip s) with
      | [] => default_consumer_id
      | normalized => normalized
      end
  end.

(** [type(exc).__name__]; a third-party class is written with its module. *)
Definition exn_name (e : exn) : pystr :=
  match e with
  | EProxy _ => u8 "PIIProxyError"
  | EValueError => u8 "ValueError"
  | EIndexError => u8 "IndexError"
  | EKeyError => u8 "KeyError"
  | ETypeError => u8 "TypeError"
  | EAttributeError => u8 "AttributeError"
  | EOverflowError => u8 "OverflowError"
  | EUnicodeEncodeError => u8 "UnicodeEncodeError"
  | EUnicodeDecodeError => u8 "UnicodeDecodeError"
  | ERuntimeError => u8 "RuntimeError"
  | EOther name => default name (last (split_char name 46))
  end.

(** [round(x, 3)] of a duration, of which a log line keeps whether it is zero:
    half a thousandth rounds to the even zero. *)
Definition round3 (x : Q) : pyobj :=
  OFloat (negb (Qle_bool x (1 # 2000) && Qle_bool (- (1 # 2000)) x)).

(** [log_extra] of a call. *)
Definition warning := u8 "WARNING".
Definition error_level := u8 "ERROR".
Definition info := u8 "INFO".

Definition log_call (level logger event : pystr) (extra : list (pystr * pyobj)) : log_record :=
  mkLogRecord level (get_logger logger) event [] ((u8 "event", OStr event) :: extra) None.

Section App.
Context `{U : UnicodeDB, H : HashLib, F : Framework} {S V : Type}.
Context `{!World V, !RestorationStore S (Logged V), !UuidSource V}.
Abbreviation W := (Logged V).
Context (detectors : list (PIIDetector W)).
Context (policies : list (pystr * ConsumerPolicy)) (default_consumer_id : pystr).

(** ** The application's state

    The service with its metrics, in a world with the log and the context
    variable; the rate limiter; and [request.state.request_id] of the request
    being served. *)
Record app := mkApp {
  app_service : (S * W) * Metrics;
  app_limiter : SlidingWindowRateLimiter;
  request_id : option pystr
}.
Definition appM (A : Type) : Type := stateM app exn A.

Definition app_world (a : app) : W := (app_service a).1.2.
Definition app_log (a : app) : list log_line := lines (app_world a).

Definition on_service {A} (m : procM (S := S) (W := W) A) : appM A := λ a,
  let '(r, sv) := m (app_service a) in (r, mkApp sv (app_limiter a) (request_id a)).
Definition on_metrics (f : Metrics → Metrics) : appM unit := on_service (record f).
Definition on_world {A} (m : stateM W exn A) : appM A := on_service (in_store (in_world m)).
Definition log (r : log_record) : appM unit := on_world (λ w, (Ok tt, emit r w)).
Definition set_request_id (id : option pystr) : appM unit := λ a,
  (Ok tt, mkApp (app_service a) (app_limiter a) id).
Definition get_request_id : appM (option pystr) := λ a, (Ok (request_id a), a).

(** The context variable: [token = set_request_id(id)], [reset_request_id(token)]. *)
Definition with_context (var : option pystr) (w : W) : W := mkLogged (outside w) var (lines w).
Definition set_context (id : pystr) : appM (option pystr) := on_world (λ w,
  let '(token, var) := RequestIdVar.set_request_id id (context_id w) in (Ok token, with_context var w)).
Definition reset_context (token : option pystr) : appM unit := on_world (λ w,
  (Ok tt, with_context (RequestIdVar.reset_request_id token (context_id w)) w)).

(** ** Error handlers ([errors.py]) *)

Definition opt_str (o : option pystr) : pyobj := match o with Some s => OStr s | None => ONone end.

Definition request_headers (id : option pystr) : list (pystr * pystr) :=
  match id with Some id => [(X_REQUEST_ID, id)] | None => [] end.

Definition handle_domain_error (exc : proxy_error) : appM http_response :=
  _ <-- on_metrics (record_error (error_type (err_class exc)));
  id <-- get_request_id;
  _ <-- log (log_call warning (u8 "api.errors") (u8 "request_error")
          [(u8 "request_id", opt_str id); (u8 "error_type", OStr (error_type (err_class exc)));
           (u8 "status_code", OInt (status_code (err_class exc)))]);
  let headers := request_headers id in
  let headers := match err_retry_after exc with
                 | Some n => dict_set (u8 "retry-after") (int_repr n) headers
                 | None => headers
                 end in
  sret (mkResponse (status_code (err_class exc)) (error_content (error_type (err_class exc)) (err_message exc)) headers).

Definition handle_processing_error (exc : proxy_error) : appM http_response :=
  _ <-- on_metrics (record_error (error_type (err_class exc)));
  id <-- get_request_id;
  _ <-- log (log_call error_level (u8 "api.errors") (u8 "processing_error")
          [(u8 "request_id", opt_str id); (u8 "error_type", OStr (error_type (err_class exc)));
           (u8 "status_code", OInt 500)]);
  sret (mkResponse 500 (error_content (u8 "PROCESSING_ERROR") (u8 "internal error")) (request_headers id)).

Definition handle_unexpected (exc : exn) : appM http_response :=
  _ <-- on_metrics (record_error (u8 "INTERNAL_ERROR"));
  id <-- get_request_id;
  _ <-- log (log_call error_level (u8 "api.errors") (u8 "unexpected_error")
          [(u8 "request_id", opt_str id); (u8 "error_type", OStr (u8 "INTERNAL_ERROR"));
           (u8 "exception_type", OStr (exn_name exc)); (u8 "status_code", OInt 500)]);
  sret (mkResponse 500 (error_content (u8 "INTERNAL_ERROR") (u8 "internal error")) (request_headers id)).

(** The handlers by class; [ProcessingError] has its own. *)
Definition handle_errors (route : appM http_response) : appM http_response := λ a,
  match route a with
  | (Err (EProxy exc), a) =>
      if bool_decide (err_class exc = CProcessingError) then handle_processing_error exc a
      else handle_domain_error exc a
  | (r, a) => (r, a)
  end.

(** ** Endpoints ([api/routes]) *)

Definition process_endpoint (headers : list (pystr * pystr)) (payload payload_id : pystr) : appM http_response :=
  let consumer_id := get_consumer_id default_consumer_id (dict_get (u8 "x-consumer-id") headers) in
  policy <-- slift (get_policy policies consumer_id);
  outcome <-- on_service (process detectors payload payload_id policy);
  payload_id_hash <-- slift (hash_identifier payload_id 12);
  _ <-- log (log_call info (u8 "api.process") (u8 "process_completed")
          [(u8 "operation", OStr (operation_value (out_operation outcome)));
           (u8 "payload_id_hash", OStr payload_id_hash); (u8 "consumer_id", OStr consumer_id);
           (u8 "detected_types", OList (OStr <$> out_detected_types outcome));
           (u8 "entity_count", OInt (out_entity_count outcome));
           (u8 "duration_ms", round3 (out_duration_ms outcome))]);
  sret (mkResponse 200 (ODict [(u8 "result", OStr (out_result outcome))]) []).

(** [readiness]. *)
Definition readiness : appM http_response := λ a,
  match (_ <-- slift (get_policy policies (u8 "default"));
         on_service (in_store (store_get (S := S) (W := W) (u8 "__readiness_probe__")))) a with
  | (Ok _, a) => (Ok (mkResponse 200 (ODict [(u8 "status", OStr (u8 "ready"))]) []), a)
  | (Err _, a) => (Ok (mkResponse 503 (ODict [(u8 "status", OStr (u8 "not_ready"))]) []), a)
  end.

Definition health : appM http_response := sret (mkResponse 200 (ODict [(u8 "status", OStr (u8 "ok"))]) []).

Definition metrics_endpoint : appM http_response := λ a,
  (Ok (mkResponse 200 (OStr (metrics_text (app_service a).2)) []), a).

Definition router (req : http_request) : appM http_response :=
  if bool_decide (http_path req = u8 "/process") && bool_decide (http_method req = u8 "POST") then
    match parse_request (http_headers req) (http_body req) with
    | Ok (payload, payload_id) => process_endpoint (http_headers req) payload payload_id
    | Err detail => sret (mkResponse 422 (ODict [(u8 "detail", detail)]) [])
    end
  else if bool_decide (http_method req = u8 "GET") && bool_decide (http_path req = u8 "/health") then health
  else if bool_decide (http_method req = u8 "GET") && bool_decide (http_path req = u8 "/health/ready") then readiness
  else if bool_decide (http_method req = u8 "GET") && bool_decide (http_path req = u8 "/metrics") then metrics_endpoint
  else sret (other_route req).

(** [getattr(request.scope.get("route"), "path", "unmatched")]. *)
Definition route_path (path : pystr) : pystr :=
  if decide (path ∈ [u8 "/process"; u8 "/health"; u8 "/health/ready"; u8 "/metrics"]) then path
  else u8 "unmatched".

(** ** Middleware *)

Definition track {A} (body : appM A) : appM A := λ a,
  let '(r, a) := (_ <-- on_metrics (safe (Inc inflight_requests [] 1)); body) a in
  (r, (on_metrics (safe (Dec inflight_requests [])) a).2).

(** [observe_http_request]: the [finally] block runs whatever came out. *)
Definition observe_http (req : http_request) (call_next : appM http_response) : appM http_response :=
  id <-- on_world (normalize_request_id (dict_get X_REQUEST_ID (http_headers req)));
  _ <-- set_request_id (Some id);
  token <-- set_context id;
  started <-- on_world (λ w, let '(t, w) := perf_counter w in (Ok t, w));
  λ a,
    let '(r, a) := track call_next a in
    let status_code := match r with Ok response => status response | Err _ => 500 end in
    (stopped <-- on_world (λ w, let '(t, w) := perf_counter w in (Ok t, w));
     let duration_seconds := (stopped - started)%Q in
     let path := route_path (http_path req) in
     _ <-- on_metrics (observe_http_request (http_method req) path (int_repr status_code) duration_seconds);
     _ <-- log (log_call info (u8 "http") (u8 "http_request_completed")
             [(u8 "request_id", OStr id); (u8 "method", OStr (http_method req)); (u8 "path", OStr path);
              (u8 "status_code", OInt status_code); (u8 "duration_ms", round3 (duration_seconds * 1000))]);
     _ <-- reset_context token;
     slift (set_header X_REQUEST_ID id <$> r)) a.

(** [RateLimitMiddleware]: the body it sends as bytes is the JSON of the
    content. *)
Definition too_many_requests : http_response :=
  mkResponse 429 (error_content (u8 "SERVICE_OVERLOADED") (u8 "too many requests"))
    [(u8 "content-type", u8 "application/json"); (u8 "retry-after", u8 "1")].

Definition GLOBAL_KEY : pystr := u8 "global".

Definition over_rate_line : log_record :=
  mkLogRecord warning (get_logger (u8 "api.middleware")) (u8 "rate_limited global") [] [] None.

Definition limiter_allow : appM bool :=
  now <-- on_world read_monotonic;
  λ a, let '(ok, l) := allow GLOBAL_KEY now (app_limiter a) in
       (Ok ok, mkApp (app_service a) l (request_id a)).

Definition rate_limited (req : http_request) (inner : appM http_response) : appM http_response :=
  if bool_decide (http_path req = u8 "/process") then
    ok <-- limiter_allow;
    if (ok : bool) then inner
    else
      _ <-- log over_rate_line;
      sret too_many_requests
  else inner.

(** [app(scope, receive, send)] for one request. *)
Definition serve_http (req : http_request) : app → http_response * app := λ a,
  let '(_, a) := set_request_id None a in
  match rate_limited req (observe_http req (handle_errors (router req))) a with
  | (Ok response, a) => (response, a)
  | (Err e, a) =>
      match handle_unexpected e a with
      | (Ok response, a) => (response, a)
      | (Err _, a) => (mkResponse 500 ONone [], a)
      end
  end.
End App.
Arguments app : clear implicits.

(** ** Facts *)

Section Facts.
Context `{U : UnicodeDB, H : HashLib, F : Framework} {S V : Type}.
Context `{!World V, !RestorationStore S (Logged V), !UuidSource V}.
Abbreviation W := (Logged V).
Context (detectors : list (PIIDetector W)).
Context (policies : list (pystr * ConsumerPolicy)) (default_consumer_id : pystr).

(** The payload id of an answered request can be hashed for the log. *)
Lemma process_hashable payload pid policy st out st' n :
  process (S := S) (W := W) detectors payload pid policy st = (Ok out, st') → ∃ h, hash_identifier pid n = Ok h.
Proof.
  unfold process. case_match; [by intros [=]|].
  intros (key & st1 & Hkey & _)%sbind_Ok. unfold slift in Hkey. injection Hkey as Hkey _.
  unfold state_key in Hkey. apply bind_Ok in Hkey as (data & Hdata & _).
  apply utf8_encode_app_Ok in Hdata as (b1 & b2 & _ & Hb & _).
  change (0 :: pid) with ([0] ++ pid) in Hb. apply utf8_encode_app_Ok in Hb as (b3 & b4 & _ & Hpid & _).
  unfold hash_identifier. rewrite Hpid. by eexists.
Qed.

Abbreviation app := (app S V).
Abbreviation appM := (appM (S := S) (V := V)).

(** [w'] is no earlier than [w], by any clock that no effect turns back. *)
Definition later (w w' : W) : Prop :=
  ∀ L : WorldLaws V, (∀ v : V, clock v <= clock (uuid4 v).2) → clock (outside w) <= clock (outside w').

#[export] Instance later_preorder : PreOrder later.
Proof. split; [by intros w L _|]. intros w1 w2 w3 H1 H2 L Hu. specialize (H1 L Hu). specialize (H2 L Hu). lia. Qed.

(** ... and nothing has been logged. *)
Definition elapsed (w w' : W) : Prop := later w w' ∧ silent w w'.

#[export] Instance elapsed_preorder : PreOrder elapsed.
Proof.
  split; [by split|]. intros w1 w2 w3 [H1 [Hc Hl]] [H2 [Hc' Hl']]. split; [by etrans|]. split; congruence.
Qed.

Lemma elapsed_outer {A} (f : V → A * V) w :
  (∀ L : WorldLaws V, (∀ v : V, clock v <= clock (uuid4 v).2) → ∀ v, clock v <= clock (f v).2) →
  elapsed w (outer f w).2.
Proof.
  intros Hf. split; [|apply writes_nothing, writes_outer]. intros L Hu. rewrite outer_outside. by apply Hf.
Qed.
Lemma elapsed_perf w : elapsed w (perf_counter w).2.
Proof. apply elapsed_outer. intros L _ v. apply perf_clock. Qed.
Lemma elapsed_monotonic w : elapsed w (monotonic w).2.
Proof. apply elapsed_outer. intros L _ v. pose proof (monotonic_after v). pose proof (monotonic_clock v). lia. Qed.
Lemma elapsed_request_id v w : elapsed w (normalize_request_id v w).2.
Proof.
  unfold normalize_request_id. pose proof (elapsed_outer uuid4 w (λ _ Hu, Hu) : elapsed w (uuid4 w).2) as Hu.
  destruct (uuid4 w). by repeat case_match.
Qed.
Lemma outer_context {A} (f : V → A * V) c w :
  outer f (with_context c w) = ((outer f w).1, with_context c (outer f w).2).
Proof. unfold outer, with_context. cbn [outside context_id lines]. by destruct (f (outside w)). Qed.
Lemma later_emit r w : later w (emit r w).
Proof. intros L _. apply Z.le_refl. Qed.

(** The line of a request that has been served. *)
Definition completed_line (id method path : pystr) (status : Z) (duration : Q) : log_record :=
  log_call info (u8 "http") (u8 "http_request_completed")
    [(u8 "request_id", OStr id); (u8 "method", OStr method); (u8 "path", OStr path);
     (u8 "status_code", OInt status); (u8 "duration_ms", round3 (duration * 1000))].

(** Request ids are safe tokens if the generated ones are. *)
Definition safe_id (id : pystr) : Prop := (∀ v : V, request_id_match (uuid4 v).1 = true) → request_id_match id = true.

Definition status_of (r : result exn http_response) : Z := match r with Ok response => status response | Err _ => 500 end.

(** [observe_http_request] around any application. *)
Lemma observe_http_spec req (call_next : appM http_response) (a : app) :
  ∃ id w1 r a2 w3 d, safe_id id ∧ elapsed (app_world a) w1 ∧ elapsed (app_world a2) w3 ∧
    call_next (mkApp (((app_service a).1.1, with_context (Some id) w1),
                      safe (Inc inflight_requests [] 1) (app_service a).2) (app_limiter a) (Some id)) = (r, a2) ∧
    observe_http req call_next a =
      (set_header X_REQUEST_ID id <$> r,
       mkApp (((app_service a2).1.1,
               with_context (context_id (app_world a))
                 (emit (completed_line id (http_method req) (route_path (http_path req)) (status_of r) d) w3)),
              observe_http_request (http_method req) (route_path (http_path req)) (int_repr (status_of r)) d
                (safe (Dec inflight_requests []) (app_service a2).2))
         (app_limiter a2) (request_id a2)).
Proof.
  destruct a as [[[s w] m] limiter rid]. unfold app_world. cbn [app_service fst snd].
  assert (∃ id w1, normalize_request_id (dict_get X_REQUEST_ID (http_headers req)) w = (Ok id, w1) ∧ safe_id id)
    as (id & w0 & Hid & Hsafe).
  { assert (Hu : safe_id (uuid4 w).1) by (intros Hv; exact (eq_trans (f_equal _ (outer_fst uuid4 w)) (Hv _))).
    unfold normalize_request_id. destruct (uuid4 w) as [u w1]. repeat case_match; do 2 eexists; split; try done.
    by intros _. }
  pose proof (elapsed_request_id (dict_get X_REQUEST_ID (http_headers req)) w) as Hw0. rewrite Hid in Hw0.
  unfold observe_http, set_context, sbind, on_world, on_service, in_store, in_world. cbn [app_service]. rewrite Hid.
  cbn [set_request_id app_service app_limiter RequestIdVar.set_request_id].
  pose proof (elapsed_perf w0) as Hw1.
  assert (Hp : perf_counter (with_context (Some id) w0) =
    ((perf_counter w0).1, with_context (Some id) (perf_counter w0).2)) by exact (outer_context perf_counter _ w0).
  rewrite Hp. destruct (perf_counter w0) as [t0 w1]. cbn [fst snd] in *.
  unfold track, sbind, on_metrics, on_service, record. cbn [app_service app_limiter request_id fst snd].
  destruct (call_next _) as [r [[[s2 w2] m2] l2 rid2]] eqn:Hcall.
  cbn [app_service app_limiter request_id fst snd].
  pose proof (elapsed_perf w2) as Hw3. destruct (perf_counter w2) as [t1 w3].
  exists id, w1. do 4 eexists. split; [exact Hsafe|]. split; [by etrans|]. split; [|split; [exact Hcall|]]; [exact Hw3|].
  destruct Hw0 as [_ [Hc0 _]]. cbn [snd] in Hc0. rewrite <-Hc0. reflexivity.
Qed.

(** What the endpoint computes, and the response the contract asks for. *)
Definition endpoint_result (headers : list (pystr * pystr)) (payload payload_id : pystr) (sv : (S * W) * Metrics)
    : result exn pystr * ((S * W) * Metrics) :=
  match get_policy policies (get_consumer_id default_consumer_id (dict_get (u8 "x-consumer-id") headers)) with
  | Err e => (Err e, sv)
  | Ok policy => let '(r, sv) := process detectors payload payload_id policy sv in (out_result <$> r, sv)
  end.

Definition answer_of (id : pystr) (r : result exn pystr) : http_response :=
  match r with
  | Ok text => mkResponse 200 (ODict [(u8 "result", OStr text)]) [(X_REQUEST_ID, id)]
  | Err (EProxy exc) =>
      if decide (err_class exc = CProcessingError) then
        mkResponse 500 (error_content (u8 "PROCESSING_ERROR") (u8 "internal error")) [(X_REQUEST_ID, id)]
      else
        mkResponse (status_code (err_class exc)) (error_content (error_type (err_class exc)) (err_message exc))
          ((X_REQUEST_ID, id) ::
             match err_retry_after exc with Some n => [(u8 "retry-after", int_repr n)] | None => [] end)
  | Err _ => mkResponse 500 (error_content (u8 "INTERNAL_ERROR") (u8 "internal error")) [(X_REQUEST_ID, id)]
  end.

Lemma set_header_again id r rest : resp_headers r = (X_REQUEST_ID, id) :: rest → set_header X_REQUEST_ID id r = r.
Proof.
  destruct r as [st c h]. cbn [resp_headers]. intros ->. unfold set_header. cbn [status content resp_headers dict_set].
  by rewrite decide_True.
Qed.

(** The endpoint under the exception handlers. *)
Lemma endpoint_handled headers payload pid id (a : app) :
  request_id a = Some id →
  let '(res, sv) := endpoint_result headers payload pid (app_service a) in
  ∃ r a2, handle_errors (process_endpoint detectors policies default_consumer_id headers payload pid) a = (r, a2) ∧
    (app_service a2).1.1 = sv.1.1 ∧ later sv.1.2 (app_world a2) ∧ request_id a2 = Some id ∧ app_limiter a2 = app_limiter a ∧
    match r with
    | Ok response => set_header X_REQUEST_ID id response = answer_of id res ∧ status response = status (answer_of id res)
    | Err e => res = Err e ∧ ∀ exc, e ≠ EProxy exc
    end.
Proof.
  intros Hid. destruct a as [sv limiter rid]. cbn [request_id app_service app_limiter] in *. subst rid.
  assert (Hproxy : ∀ exc sv', ∃ r a2,
    (if bool_decide (err_class exc = CProcessingError)
     then handle_processing_error exc (mkApp sv' limiter (Some id))
     else handle_domain_error (S := S) (V := V) exc (mkApp sv' limiter (Some id))) = (r, a2) ∧
    (app_service a2).1.1 = sv'.1.1 ∧ later sv'.1.2 (app_world a2) ∧ request_id a2 = Some id ∧ app_limiter a2 = limiter ∧
    match r with
    | Ok response => set_header X_REQUEST_ID id response = answer_of id (Err (EProxy exc)) ∧
        status response = status (answer_of id (Err (EProxy exc)))
    | Err e => @Err exn pystr (EProxy exc) = Err e ∧ ∀ exc, e ≠ EProxy exc
    end).
  { intros exc [[s w] m]. unfold answer_of. destruct (decide (err_class exc = CProcessingError)) as [Hc|Hc].
    - rewrite bool_decide_eq_true_2 by done. do 2 eexists. split; [reflexivity|].
      split_and!; try done. apply later_emit.
    - rewrite bool_decide_eq_false_2 by done. do 2 eexists. split; [reflexivity|]. cbn [request_headers].
      destruct (err_retry_after exc); split_and!; try done; apply later_emit. }
  unfold endpoint_result, handle_errors, process_endpoint, sbind, slift.
  destruct (get_policy _ _) as [policy|e] eqn:Hpol.
  - unfold on_service. cbn [app_service app_limiter request_id].
    destruct (process detectors payload pid policy sv) as [[out|e] sv'] eqn:Hproc; cbn [fmap result_fmap].
    + destruct (process_hashable _ _ _ _ _ _ 12 Hproc) as [h Hh]. rewrite Hh. destruct sv' as [[s w] m].
      do 2 eexists. split; [reflexivity|]. split_and!; try done. apply later_emit.
    + destruct e; try (do 2 eexists; split; [reflexivity|]; split_and!; done). apply Hproxy.
  - destruct e; try (do 2 eexists; split; [reflexivity|]; split_and!; done). apply Hproxy.
Qed.

(** Requests below the middleware leave [request.state] alone. *)
Definition keeps_id {A} (m : appM A) : Prop := ∀ a, request_id (m a).2 = request_id a.

Lemma keeps_ret {A} (x : A) : keeps_id (sret x). Proof. done. Qed.
Lemma keeps_lift {A} (r : result exn A) : keeps_id (slift r). Proof. done. Qed.
Lemma keeps_get : keeps_id get_request_id. Proof. done. Qed.
Lemma keeps_service {A} (m : procM A) : keeps_id (on_service m).
Proof. intros a. unfold on_service. by destruct (m (app_service a)). Qed.
Lemma keeps_log r : keeps_id (log r). Proof. apply keeps_service. Qed.
Lemma keeps_metrics f : keeps_id (on_metrics f). Proof. apply keeps_service. Qed.
Lemma keeps_bind {A B} (m : appM A) (k : A → appM B) :
  keeps_id m → (∀ x, keeps_id (k x)) → keeps_id (sbind m k).
Proof.
  intros Hm Hk a. specialize (Hm a). unfold sbind. destruct (m a) as [[x|e] a1]; [|done].
  by rewrite (Hk x a1).
Qed.
Create HintDb keeps.
#[local] Hint Resolve keeps_ret keeps_lift keeps_log keeps_get keeps_service keeps_metrics keeps_bind : keeps.

Lemma keeps_domain exc : keeps_id (handle_domain_error exc). Proof. unfold handle_domain_error. auto 10 with keeps. Qed.
Lemma keeps_processing exc : keeps_id (handle_processing_error exc).
Proof. unfold handle_processing_error. auto 10 with keeps. Qed.
Lemma keeps_unexpected exc : keeps_id (handle_unexpected exc).
Proof. unfold handle_unexpected. auto 10 with keeps. Qed.

Lemma keeps_readiness : keeps_id (readiness policies).
Proof.
  intros a. unfold readiness. set (m := sbind _ _).
  assert (Hm : keeps_id m) by (unfold m; auto with keeps). specialize (Hm a). by destruct (m a) as [[] ?].
Qed.

Lemma keeps_router req : keeps_id (router detectors policies default_consumer_id req).
Proof.
  unfold router. repeat case_match; auto using keeps_readiness with keeps; try done.
  unfold process_endpoint. auto 10 with keeps.
Qed.

Lemma keeps_handlers (route : appM http_response) : keeps_id route → keeps_id (handle_errors route).
Proof.
  intros Hr a. specialize (Hr a). unfold handle_errors. destruct (route a) as [[x|e] a1]; [done|].
  destruct e; try done. case_match; [rewrite keeps_processing | rewrite keeps_domain]; done.
Qed.

(** The rate limiter lets the request through. *)
Definition admits (req : http_request) (a : app) : bool :=
  negb (bool_decide (http_path req = u8 "/process")) ||
  (allow GLOBAL_KEY (monotonic (app_service a).1.2).1 (app_limiter a)).1.

(** What [serve_http] is, once the limiter has been asked. *)
Lemma rate_limited_spec req inner (a : app) :
  ∃ w1 l, elapsed (app_world a) w1 ∧ rate_limited req inner a =
    (if admits req a then inner (mkApp (((app_service a).1.1, w1), (app_service a).2) l (request_id a))
     else (Ok too_many_requests,
           mkApp (((app_service a).1.1, emit over_rate_line w1), (app_service a).2) l (request_id a))).
Proof.
  destruct a as [[[s w] m] limiter rid]. unfold rate_limited, admits. cbn [app_service app_limiter fst snd].
  destruct (bool_decide (http_path req = u8 "/process")); cbn [negb orb].
  - unfold limiter_allow, sbind, on_world, on_service, in_store, in_world, read_monotonic. cbn [app_service].
    pose proof (elapsed_monotonic w) as Hw. destruct (monotonic w) as [now w1].
    cbn [app_service app_limiter request_id fst snd].
    destruct (allow GLOBAL_KEY now limiter) as [[] l]; cbn [fst]; by exists w1, l.
  - by exists w, limiter.
Qed.

(** The line and the state [handle_unexpected] leaves. *)
Definition unexpected_line (id : pystr) (e : exn) : log_record :=
  log_call error_level (u8 "api.errors") (u8 "unexpected_error")
    [(u8 "request_id", OStr id); (u8 "error_type", OStr (u8 "INTERNAL_ERROR"));
     (u8 "exception_type", OStr (exn_name e)); (u8 "status_code", OInt 500)].

Definition after_unexpected (id : pystr) (e : exn) (a : app) : app :=
  mkApp (((app_service a).1.1, emit (unexpected_line id e) (app_world a)),
         record_error (u8 "INTERNAL_ERROR") (app_service a).2) (app_limiter a) (Some id).

(** One request as the application sees it: [inner] runs in a state that has
    the store, the log, and the metrics but for the in-flight gauge of [a]; the
    context variable is the request's id during it and what it was after. *)
Lemma serve_http_spec req (a : app) :
  admits req a = true →
  ∃ id w1 l r a2 w3 d, safe_id id ∧ elapsed (app_world a) w1 ∧ elapsed (app_world a2) w3 ∧
    handle_errors (router detectors policies default_consumer_id req)
      (mkApp (((app_service a).1.1, with_context (Some id) w1), safe (Inc inflight_requests [] 1) (app_service a).2)
         l (Some id)) = (r, a2) ∧
    let m := observe_http_request (http_method req) (route_path (http_path req)) (int_repr (status_of r)) d
               (safe (Dec inflight_requests []) (app_service a2).2) in
    let line := completed_line id (http_method req) (route_path (http_path req)) (status_of r) d in
    let a3 := mkApp (((app_service a2).1.1, with_context (context_id (app_world a)) (emit line w3)), m)
                (app_limiter a2) (Some id) in
    request_id a2 = Some id ∧
    serve_http detectors policies default_consumer_id req a =
      match r with
      | Ok response => (set_header X_REQUEST_ID id response, a3)
      | Err e => (answer_of id (Err (EOther [])), after_unexpected id e a3)
      end.
Proof.
  intros Hadm. unfold serve_http. cbn [set_request_id].
  set (a0 := mkApp (app_service a) (app_limiter a) None).
  destruct (rate_limited_spec req
    (observe_http req (handle_errors (router detectors policies default_consumer_id req))) a0) as (w1 & l & Hw1 & ->).
  change (admits req a0) with (admits req a). rewrite Hadm. set (a1 := mkApp _ l _).
  destruct (observe_http_spec req (handle_errors (router detectors policies default_consumer_id req)) a1)
    as (id & w2 & r & a2 & w3 & d & Hs & Hw2 & Hw3 & Hcall & ->).
  exists id, w2, l, r, a2, w3, d. split; [exact Hs|]. split; [by etrans|]. split; [exact Hw3|]. split; [exact Hcall|].
  assert (Hrid : request_id a2 = Some id).
  { pose proof (keeps_handlers _ (keeps_router req)) as Hk.
    match type of Hcall with ?f ?x = _ => specialize (Hk x) end. by rewrite Hcall in Hk. }
  split; [exact Hrid|]. destruct Hw1 as [_ [Hc1 _]]. rewrite Hrid.
  change (context_id (app_world a1)) with (context_id w1). rewrite Hc1. by destruct r.
Qed.

(** One admitted and well-formed [POST /process]: the service is run once, in
    a world the limiter and the request id have been read from. *)
Lemma process_http_run req payload payload_id (a : app) :
  http_path req = u8 "/process" → http_method req = u8 "POST" →
  parse_request (http_headers req) (http_body req) = Ok (payload, payload_id) → admits req a = true →
  ∃ id w0 m0, later (app_world a) w0 ∧
    let '(res, sv) := endpoint_result (http_headers req) payload payload_id (((app_service a).1.1, w0), m0) in
    let '(response, a') := serve_http detectors policies default_consumer_id req a in
    response = answer_of id res ∧ (app_service a').1.1 = sv.1.1 ∧ later sv.1.2 (app_world a').
Proof.
  intros Hpath Hmeth Hparse Hadm.
  destruct (serve_http_spec req a Hadm) as (id & w1 & l & r & a2 & w3 & d & _ & Hw1 & Hw3 & Hrun & Hid & ->).
  exists id, (with_context (Some id) w1), (safe (Inc inflight_requests [] 1) (app_service a).2).
  split; [exact (proj1 Hw1)|].
  unfold router in Hrun. rewrite !bool_decide_eq_true_2, Hparse in Hrun by done. cbn [andb] in Hrun.
  set (a1 := mkApp _ l _) in Hrun.
  pose proof (endpoint_handled (http_headers req) payload payload_id id a1 eq_refl) as Hh.
  change (app_service a1) with
    (((app_service a).1.1, with_context (Some id) w1), safe (Inc inflight_requests [] 1) (app_service a).2) in Hh.
  destruct (endpoint_result _ _ _ _) as [res sv]. destruct Hh as (r' & a2' & Hrun' & Hsv & Hlater & _ & _ & Hr).
  rewrite Hrun in Hrun'. injection Hrun' as <- <-.
  assert (Hend : later sv.1.2 w3) by (etrans; [exact Hlater|exact (proj1 Hw3)]).
  rewrite <-Hsv. destruct r as [response|e].
  - by destruct Hr as [Hr _].
  - destruct Hr as [-> Hne]. split; [|done]. destruct e; try done. by destruct (Hne e).
Qed.

(** C15: the contract of [POST /process], for every outcome.  An admitted and
    well-formed request runs the process service once on the store it found,
    under the policy of its normalized consumer; the response is 200 with the
    result, the status, type and message of a domain error (with [Retry-After]
    when overloaded), or 500 with a fixed message for processing errors and
    anything unexpected; it carries the request id, and the store is left as
    the service left it. *)
Theorem process_http_contract req payload payload_id (a : app) :
  http_path req = u8 "/process" → http_method req = u8 "POST" →
  parse_request (http_headers req) (http_body req) = Ok (payload, payload_id) → admits req a = true →
  ∃ id w0 m0,
    let '(res, sv) := endpoint_result (http_headers req) payload payload_id (((app_service a).1.1, w0), m0) in
    (serve_http detectors policies default_consumer_id req a).1 = answer_of id res ∧
    (app_service (serve_http detectors policies default_consumer_id req a).2).1.1 = sv.1.1.
Proof.
  intros Hpath Hmeth Hparse Hadm.
  destruct (process_http_run req payload payload_id a Hpath Hmeth Hparse Hadm) as (id & w0 & m0 & _ & Hrun).
  exists id, w0, m0. destruct (endpoint_result _ _ _ _) as [res sv].
  destruct (serve_http _ _ _ _ _). destruct Hrun as (? & ? & _). done.
Qed.

(** C17: a request over the rate is refused with 429 and [Retry-After] before
    anything else sees it: the store, the metrics and the policies are not
    touched and no request id is set. *)
Theorem over_rate_refused req (a : app) :
  admits req a = false →
  let '(response, a') := serve_http detectors policies default_consumer_id req a in
  response = too_many_requests ∧ (app_service a').1.1 = (app_service a).1.1 ∧
  (app_service a').2 = (app_service a).2 ∧ dict_get X_REQUEST_ID (resp_headers response) = None.
Proof.
  intros Hadm. unfold serve_http. cbn [set_request_id].
  set (a0 := mkApp (app_service a) (app_limiter a) None).
  destruct (rate_limited_spec req
    (observe_http req (handle_errors (router detectors policies default_consumer_id req))) a0) as (w1 & l & _ & ->).
  change (admits req a0) with (admits req a). rewrite Hadm. done.
Qed.
End Facts.
