(* ===== verification/ApiRuns.v ===== *)
(** * The HTTP service on concrete requests

    The whole application evaluated: default policy, regex detector,
    in-memory store, a limiter of three requests a second.  The witnesses of
    the properties of [Api]. *)

From S2P Require Import Prelude Unicode Domain PyStr Utf8 Hashes Json RateLimit Metrics Resolution Logging.
From S2P Require Import Regex Validators Detector Strategies Masking Policy Restoration World StoreInterface.
From S2P Require Import MemoryStore Process Service Api.

#[local] Existing Instance plain_interpreter.
#[local] Instance run_store : RestorationStore store_data (Logged Z) := memory_store 1000000 100.

#[local] Instance one_uuid : UuidSource Z := λ w, (u8 "00000000-0000-4000-8000-000000000000", w + 1).

(** The two fields of a JSON body. *)
Definition body_field (o : pyobj) (key : pystr) : option pystr :=
  match o with
  | ODict d => match dict_get key d with Some (OStr (c :: s)) => Some (c :: s) | _ => None end
  | _ => None
  end.

Definition parse_body (b : bytes) : result pyobj (pystr * pystr) :=
  match utf8_decode b with
  | Err _ => Err ONone
  | Ok s =>
      match json_loads 1000 s with
      | Err _ => Err ONone
      | Ok o =>
          match body_field o (u8 "payload"), body_field o (u8 "payload_id") with
          | Some p, Some i => Ok (p, i)
          | _, _ => Err ONone
          end
      end
  end.

Lemma body_field_nonempty o key s : body_field o key = Some s → s ≠ [].
Proof. unfold body_field. repeat case_match; naive_solver. Qed.

#[local] Program Instance json_framework : Framework := {|
  parse_request h b := parse_body b;
  metrics_text m := [];
  other_route req := mkResponse 404 (ODict [(u8 "detail", OStr (u8 "Not Found"))]) []
|}.
Next Obligation.
  intros h b p i. unfold parse_body. repeat case_match; try done. intros [= <- <-].
  split; by eapply body_field_nonempty.
Qed.

Definition post (text : pystr) : http_request :=
  mkHttp (u8 "POST") (u8 "/process") [(X_REQUEST_ID, u8 "r-1")]
    match json_dumps (ODict [(u8 "payload", OStr text); (u8 "payload_id", OStr (u8 "p1"))]) with
    | Some s => match utf8_encode s with Ok b => b | Err _ => [] end
    | None => []
    end.

Definition policies : list (pystr * ConsumerPolicy) := [(u8 "default", default_policy)].
Definition serve_one (req : http_request) (a : app store_data Z) : http_response * app store_data Z :=
  serve_http regex_detectors policies (u8 "default") req a.

(** Before the first request: an empty store, log and context. *)
Definition start_app : app store_data Z :=
  mkApp ((fresh.1.1, mkLogged fresh.1.2 None []), fresh.2) (new_limiter 3 1000) None.
Abbreviation app1 := ((serve_one (post (u8 "a@b.ru")) start_app).2).
Abbreviation app2 := ((serve_one (post (u8 "*@*.**")) app1).2).
Abbreviation app3 := ((serve_one (post (u8 "other text")) app2).2).

Definition shown (r : http_response) : Z * pyobj := (status r, content r).

(** Mask, demask, a mismatch, and one request too many. *)
Example http_session :
  shown (serve_one (post (u8 "a@b.ru")) start_app).1 = (200, ODict [(u8 "result", OStr (u8 "*@*.**"))]) ∧
  shown (serve_one (post (u8 "*@*.**")) app1).1 = (200, ODict [(u8 "result", OStr (u8 "a@b.ru"))]) ∧
  shown (serve_one (post (u8 "other text")) app2).1 =
    (422, error_content (u8 "INVALID_PAYLOAD") (u8 "payload does not match stored state")) ∧
  shown (serve_one (post (u8 "a@b.ru")) app3).1 =
    (429, error_content (u8 "SERVICE_OVERLOADED") (u8 "too many requests")).
Proof. vm_compute. split_and!; reflexivity. Qed.

Lemma start_admits req : admits req start_app = true.
Proof. unfold admits. destruct (negb _); [done|]. vm_compute. reflexivity. Qed.

Lemma post_parsed :
  parse_request (http_headers (post (u8 "a@b.ru"))) (http_body (post (u8 "a@b.ru"))) = Ok (u8 "a@b.ru", u8 "p1").
Proof. vm_compute. reflexivity. Qed.

Lemma process_http_contract_witness :
  ∃ id w0 m0,
    let '(res, sv) := endpoint_result regex_detectors policies (u8 "default") (http_headers (post (u8 "a@b.ru")))
                        (u8 "a@b.ru") (u8 "p1") (((app_service start_app).1.1, w0), m0) in
    (serve_http regex_detectors policies (u8 "default") (post (u8 "a@b.ru")) start_app).1 = answer_of id res ∧
    (app_service (serve_http regex_detectors policies (u8 "default") (post (u8 "a@b.ru")) start_app).2).1.1 = sv.1.1.
Proof.
  assert (Hpath : http_path (post (u8 "a@b.ru")) = u8 "/process") by reflexivity.
  assert (Hmeth : http_method (post (u8 "a@b.ru")) = u8 "POST") by reflexivity.
  pose proof (process_http_contract regex_detectors policies (u8 "default") (post (u8 "a@b.ru")) (u8 "a@b.ru")
    (u8 "p1") start_app Hpath Hmeth post_parsed (start_admits _)) as Hc.
  exact Hc.
Defined.

Definition get_health : http_request := mkHttp (u8 "GET") (u8 "/health") [] [].

(** A limiter that lets nothing through. *)
Definition closed_app : app store_data Z := mkApp (app_service start_app) (new_limiter 0 1000) None.

Lemma closed_refuses : admits (post (u8 "a@b.ru")) closed_app = false.
Proof. vm_compute. reflexivity. Qed.

Lemma over_rate_refused_witness :
  let '(response, a') := serve_http regex_detectors policies (u8 "default") (post (u8 "a@b.ru")) closed_app in
  response = too_many_requests ∧ (app_service a').1.1 = (app_service closed_app).1.1 ∧
  (app_service a').2 = (app_service closed_app).2 ∧
  dict_get X_REQUEST_ID (resp_headers response) = None.
Proof.
  exact (over_rate_refused regex_detectors policies (u8 "default") (post (u8 "a@b.ru")) closed_app
    closed_refuses).
Defined.
