(* ===== verification/EndToEnd.v ===== *)
(** * The service from end to end

    What a client sees over many HTTP requests: whatever the requests and
    their outcomes (any route, refused over the rate, malformed, failing),
    sessions survive them, and a text masked under a fresh id comes back when
    its mask is posted.  Proved over the interfaces of the store, the
    detectors, the framework and the outside world. *)

From S2P Require Import Prelude Unicode Domain PyStr Utf8 Hashes Json RateLimit Metrics Resolution Logging.
From S2P Require Import Strategies Masking Policy Restoration World StoreInterface Process Api.

Abbreviation world_of := app_world.

Section EndToEnd.
Context `{U : UnicodeDB, H : HashLib, I : Interpreter, F : Framework} {S V : Type}.
Context `{!World V, !WorldLaws V, !RestorationStore S (Logged V), L : !StoreLaws S (Logged V), !UuidSource V}.
Abbreviation W := (Logged V).
Context (detectors : list (PIIDetector W)) `{D : !DetectorsOk detectors}.
Context (policies : list (pystr * ConsumerPolicy)) (default_consumer_id : pystr).

Abbreviation app := (app S V).
Abbreviation appM := (appM (S := S) (V := V)).
Abbreviation serve := (serve_http detectors policies default_consumer_id).

(** Requests one after the other. *)
Fixpoint serve_all (reqs : list http_request) (a : app) : app :=
  match reqs with
  | [] => a
  | req :: reqs => serve_all reqs (serve req a).2
  end.

Definition store_of (a : app) : S := (app_service a).1.1.

(** The body's text, if it has one, is a string Python can hold. *)
Definition request_fits (req : http_request) : Prop :=
  ∀ p i, parse_request (http_headers req) (http_body req) = Ok (p, i) → valid_text p = true ∧ slen p < 2 ^ 63.

(** [req] posts [payload] under [pid] for [consumer]. *)
Record posts (req : http_request) (consumer payload pid : pystr) : Prop := {
  posts_path : http_path req = u8 "/process";
  posts_method : http_method req = u8 "POST";
  posts_consumer : get_consumer_id default_consumer_id (dict_get (u8 "x-consumer-id") (http_headers req)) = consumer;
  posts_parsed : parse_request (http_headers req) (http_body req) = Ok (payload, pid)
}.

(** [200 {"result": text}]. *)
Definition answers (r : http_response) (text : pystr) : Prop :=
  status r = 200 ∧ content r = ODict [(u8 "result", OStr text)].

(** What the clocks and the loaded policies give. *)
Record wiring_ok : Prop := {
  uuid_forward (v : V) : clock v <= clock (uuid4 v).2;
  policies_text consumer policy : get_policy policies consumer = Ok policy → valid_text (cp_consumer_id policy) = true
}.
Context (wiring : wiring_ok).

(** ** Sessions survive *)

(** From one state of the service to another, time moves forwards and live
    sessions stay, but for their status. *)
Definition keeps_sessions (sw sw' : S * W) : Prop :=
  service_ok sw.1 sw.2 →
  service_ok sw'.1 sw'.2 ∧ clock sw.2 <= clock sw'.2 ∧
  ∀ u k st, clock sw'.2 <= u → live sw.1 u k = Some st → ∃ st', live sw'.1 u k = Some st' ∧ evolves st st'.

#[local] Instance keeps_sessions_preorder : PreOrder keeps_sessions.
Proof.
  split.
  - intros sw Hok. split_and!; [done|lia|]. intros u k st _ Hl. exists st. by split; [|left].
  - intros sw1 sw2 sw3 H12 H23 Hok. destruct (H12 Hok) as (Hok2 & ? & Hl12).
    destruct (H23 Hok2) as (Hok3 & ? & Hl23). split_and!; [done|lia|]. intros u k st Hu Hl.
    destruct (Hl12 u k st) as (st2 & Hl2 & He2); [lia|done|].
    destruct (Hl23 u k st2) as (st3 & Hl3 & He3); [done|done|]. exists st3. split; [done|]. by eapply evolves_trans.
Qed.

(** The world alone moved on. *)
Lemma keeps_world s w w' : clock w <= clock w' → keeps_sessions (s, w) (s, w').
Proof.
  intros Hw Hok. cbn [fst snd] in *. split_and!; [by eapply service_ok_later|done|].
  intros u k st _ Hl. exists st. by split; [|left].
Qed.

Definition preserves {A} (m : appM A) : Prop := ∀ a, keeps_sessions (app_service a).1 (app_service (m a).2).1.

Lemma preserves_ret {A} (x : A) : preserves (sret x). Proof. by intros a. Qed.
Lemma preserves_lift {A} (r : result exn A) : preserves (slift r). Proof. by intros a. Qed.
Lemma preserves_get : preserves get_request_id. Proof. by intros a. Qed.
Lemma preserves_set id : preserves (set_request_id id). Proof. by intros a. Qed.
Lemma preserves_metrics f : preserves (on_metrics f).
Proof. intros [[sw m] ? ?]. unfold on_metrics, on_service, record. cbn [app_service snd fst]. done. Qed.
Lemma preserves_bind {A B} (m : appM A) (k : A → appM B) :
  preserves m → (∀ x, preserves (k x)) → preserves (sbind m k).
Proof.
  intros Hm Hk a. specialize (Hm a). unfold sbind. destruct (m a) as [[x|e] a1]; [|done]. cbn [snd] in Hm.
  etrans; [exact Hm|apply Hk].
Qed.
Lemma preserves_world {A} (m : stateM W exn A) : forward m → preserves (on_world m).
Proof.
  intros Hm [[[s w] mt] ? ?]. unfold on_world, on_service, in_store, in_world. cbn [app_service].
  specialize (Hm w). destruct (m w) as [r w1]. cbn [app_service fst snd] in *. by apply keeps_world.
Qed.
Lemma preserves_log r : preserves (log r).
Proof. apply preserves_world. intros w. apply Z.le_refl. Qed.
Lemma preserves_context id : preserves (set_context id).
Proof. apply preserves_world. intros w. apply Z.le_refl. Qed.
Lemma preserves_reset token : preserves (reset_context token).
Proof. apply preserves_world. intros w. apply Z.le_refl. Qed.
Create HintDb preserves.
#[local] Hint Resolve preserves_ret preserves_lift preserves_log preserves_get preserves_set preserves_metrics
  preserves_bind preserves_world preserves_context preserves_reset : preserves.

Lemma preserves_process payload pid policy :
  request_ok payload policy → preserves (on_service (process detectors payload pid policy)).
Proof using D.
  intros Hrq [[[s w] m] lim rid] Hok. unfold on_service. cbn [app_service fst snd] in *.
  set (r := mkRequest payload pid policy).
  destruct (process_any detectors r s w m Hok Hrq) as (res & s' & w' & m' & Hrun & Hok' & Hclk & _).
  change (process detectors payload pid policy (s, w, m)) with
    (process detectors (rq_text r) (rq_id r) (rq_policy r) ((s, w), m)).
  rewrite Hrun. cbn [app_service fst snd]. split_and!; [done|done|]. intros u k st Hu Hl.
  destruct (process_step detectors r s w m k st u Hok Hrq Hl) as (s2 & w2 & m2 & Hrun2 & _ & _ & Hst).
  rewrite Hrun in Hrun2. injection Hrun2 as <- <- <-. destruct (Hst Hu) as (st' & ? & Hst').
  exists st'. split; [done|]. destruct Hst' as [->|[-> _]]; [by left|].
  destruct (state st) eqn:Hs; [by right|left]. destruct st. cbn in Hs. by subst.
Qed.

Lemma preserves_store_get key : preserves (on_service (in_store (store_get (S := S) (W := W) key))).
Proof.
  intros [[[s w] m] lim rid] Hok. unfold on_service, in_store. cbn [app_service fst snd] in *.
  destruct (store_get_law key s w) as (t & s' & w' & -> & ? & ? & Hok' & Hag); [apply Hok|].
  cbn [app_service fst snd]. split_and!; [by eapply (service_ok_agree t)|lia|].
  intros u k st Hu Hl. exists st. rewrite Hag by lia. by split; [|left].
Qed.
#[local] Hint Resolve preserves_store_get : preserves.

(** From one run of a computation to the computation. *)
Ltac as_preserves :=
  match goal with
  | |- keeps_sessions _ (app_service (?m ?a).2).1 =>
      let Hm := fresh in assert (Hm : preserves m); [|exact (Hm a)]
  end.

Lemma preserves_domain exc : preserves (handle_domain_error exc).
Proof. unfold handle_domain_error. auto 10 with preserves. Qed.
Lemma preserves_processing exc : preserves (handle_processing_error exc).
Proof. unfold handle_processing_error. auto 10 with preserves. Qed.
Lemma preserves_unexpected exc : preserves (handle_unexpected exc).
Proof. unfold handle_unexpected. auto 10 with preserves. Qed.

Lemma preserves_handlers (route : appM http_response) : preserves route → preserves (handle_errors route).
Proof.
  intros Hr a. specialize (Hr a). unfold handle_errors. destruct (route a) as [[x|e] a1]; [done|].
  cbn [snd] in Hr. etrans; [exact Hr|].
  destruct e; try reflexivity. case_match; [apply preserves_processing | apply preserves_domain].
Qed.

Lemma preserves_readiness : preserves (readiness policies).
Proof.
  intros a. unfold readiness. set (m := sbind _ _).
  assert (Hm : preserves m) by (unfold m; auto with preserves). specialize (Hm a). by destruct (m a) as [[] ?].
Qed.

Lemma preserves_endpoint headers payload pid :
  valid_text payload = true → slen payload < 2 ^ 63 →
  preserves (process_endpoint detectors policies default_consumer_id headers payload pid).
Proof using D wiring.
  intros Hv Hl a. unfold process_endpoint. unfold sbind at 1, slift.
  destruct (get_policy _ _) as [policy|e] eqn:Hpol; [|done]. as_preserves.
  apply preserves_bind; [|auto 10 with preserves]. apply preserves_process.
  split; [done|done|]. by eapply policies_text.
Qed.

Lemma preserves_router req : request_fits req → preserves (router detectors policies default_consumer_id req).
Proof using D wiring.
  intros Hfit. unfold router. repeat case_match; auto using preserves_readiness with preserves; try (by intros a).
  apply preserves_endpoint; by eapply Hfit.
Qed.

Lemma preserves_track {A} (m : appM A) : preserves m → preserves (track m).
Proof.
  intros Hm a. unfold track.
  assert (Hb : preserves (sbind (on_metrics (safe (Inc inflight_requests [] 1))) (λ _, m))) by auto with preserves.
  specialize (Hb a). destruct (sbind _ _ a) as [r a1]. cbn [snd] in *.
  etrans; [exact Hb|apply preserves_metrics].
Qed.

Lemma request_id_forward v : forward (W := W) (normalize_request_id v).
Proof using wiring. intros w. exact (proj1 (elapsed_request_id v w) _ (uuid_forward wiring)). Qed.
Lemma perf_forward : forward (W := W) (λ w, let '(t, w) := perf_counter w in (Ok t, w)).
Proof. intros w. pose proof (perf_clock w) as Hw. by destruct (perf_counter w). Qed.
#[local] Hint Resolve request_id_forward perf_forward : preserves.

Lemma preserves_observe req (inner : appM http_response) : preserves inner → preserves (observe_http req inner).
Proof using wiring.
  intros Hi. unfold observe_http. apply preserves_bind; [auto with preserves|]. intros id.
  apply preserves_bind; [auto with preserves|]. intros _. apply preserves_bind; [auto with preserves|].
  intros token. apply preserves_bind; [auto with preserves|]. intros started a. pose proof (preserves_track inner Hi a) as Ht. destruct (track inner a) as [r a1].
  etrans; [exact Ht|]. revert a1 Ht. intros a1 _. cbv zeta.
  as_preserves. auto 12 with preserves.
Qed.

Lemma preserves_limiter : preserves limiter_allow.
Proof.
  unfold limiter_allow. apply preserves_bind; [apply preserves_world, forward_monotonic|].
  intros now a. by destruct (allow _ _ _).
Qed.

Lemma preserves_rate req (inner : appM http_response) : preserves inner → preserves (rate_limited req inner).
Proof.
  intros Hi. unfold rate_limited. case_match; [|done]. apply preserves_bind; [apply preserves_limiter|].
  intros [|]; auto with preserves.
Qed.

(** One request, on any route and with any outcome. *)
Lemma serve_keeps req a :
  request_fits req → keeps_sessions (app_service a).1 (app_service (serve req a).2).1.
Proof using D wiring.
  intros Hfit. unfold serve_http. pose proof (preserves_set None a) as H0.
  destruct (set_request_id None a) as [r0 a0]. etrans; [exact H0|]. clear H0.
  pose proof (preserves_rate req _ (preserves_observe req _ (preserves_handlers _ (preserves_router req Hfit))) a0) as H1.
  destruct (rate_limited _ _ a0) as [[response|e] a1]; [exact H1|]. etrans; [exact H1|]. clear H1.
  pose proof (preserves_unexpected e a1) as H2. by destruct (handle_unexpected e a1) as [[] ?].
Qed.

Lemma serve_all_keeps reqs a :
  Forall request_fits reqs → keeps_sessions (app_service a).1 (app_service (serve_all reqs a)).1.
Proof using D wiring.
  intros Hfit. revert a. induction Hfit as [|req reqs Hreq _ IH]; intros a; [reflexivity|].
  cbn [serve_all]. etrans; [by apply serve_keeps|apply IH].
Qed.

(** ** Mask and demask over HTTP *)

Lemma answer_of_Ok id (r : result exn pystr) text :
  answers (answer_of id r) text → r = Ok text.
Proof.
  intros [Hs Hc]. destruct r as [t|e]; [by injection Hc as ->|]. destruct e; try done.
  - unfold answer_of in Hc. by destruct (decide (err_class e = CProcessingError)).
Qed.

(** An admitted post under a policy is one call of the service. *)
Lemma post_served req consumer policy payload pid (a : app) :
  posts req consumer payload pid → get_policy policies consumer = Ok policy → admits req a = true →
  ∃ id w0 m0 res s1 w1 m1, clock (world_of a) <= clock w0 ∧
    process detectors payload pid policy ((store_of a, w0), m0) = (res, ((s1, w1), m1)) ∧
    (serve req a).1 = answer_of id (out_result <$> res) ∧
    store_of (serve req a).2 = s1 ∧ clock w1 <= clock (world_of (serve req a).2).
Proof using wiring.
  intros [Hpath Hmeth Hcons Hparse] Hpol Hadm.
  destruct (process_http_run detectors policies default_consumer_id req payload pid a Hpath Hmeth Hparse Hadm)
    as (id & w0 & m0 & Hw0 & Hrun).
  unfold endpoint_result in Hrun. rewrite Hcons, Hpol in Hrun.
  exists id, w0, m0. unfold store_of, world_of.
  destruct (process detectors payload pid policy _) as [res [[s1 w1] m1]].
  destruct (serve_http _ _ _ req a) as [response a']. cbn [fst snd] in *. destruct Hrun as (-> & <- & Hw1).
  exists res, (app_service a').1.1, w1, m1. split_and!; try done.
  - exact (Hw0 _ (uuid_forward wiring)).
  - exact (Hw1 _ (uuid_forward wiring)).
Qed.

(** The first post of a fresh id, answered with 200. *)
Lemma first_post req consumer policy payload pid key masked (a : app) :
  posts req consumer payload pid → get_policy policies consumer = Ok policy → admits req a = true →
  request_fits req → service_ok (store_of a) (world_of a) →
  state_key (cp_consumer_id policy) pid = Ok key →
  (∀ t, clock (world_of a) <= t → live (store_of a) t key = None) →
  answers (serve req a).1 masked →
  ∃ st, state_ok key st ∧ original_text st = payload ∧ Restoration.masked_text st = masked ∧
    consumer_id st = cp_consumer_id policy ∧
    ∀ u, clock (world_of (serve req a).2) <= u → u < clock (world_of a) + store_ttl →
      live (store_of (serve req a).2) u key = Some st.
Proof using D wiring.
  intros Hpost Hpol Hadm Hfit Hok Hkey Hfresh Hans.
  destruct (parse_request_min_length _ _ _ _ (posts_parsed _ _ _ _ Hpost)) as [Hp Hpid].
  destruct (Hfit _ _ (posts_parsed _ _ _ _ Hpost)) as [Hv Hlen].
  assert (Hrq : request_ok payload policy) by (split; [done|done|by eapply policies_text]).
  destruct (post_served _ _ _ _ _ _ Hpost Hpol Hadm) as (id & w0 & m0 & res & s1 & w1 & m1 & Hw0 & Hrun & Hresp & -> & Hw1).
  rewrite Hresp in Hans. apply answer_of_Ok in Hans. destruct res as [out|e]; [|done]. apply (inj Ok) in Hans.
  destruct (process_stored detectors payload pid policy key _ _ _ _ _ _ _ Hp Hpid (service_ok_later _ _ _ Hok Hw0) Hrq Hkey Hrun)
    as (_ & Hclk & st & t & t2 & ms & timings & ? & ? & ? & Hw & Hst & -> & Hv').
  rewrite Hfresh in Hv' by lia.
  destruct (prepared_session detectors _ _ _ _ _ Hrq Hkey Hv') as (_ & Hss & Ho).
  injection Hss as Hc Horig _. rewrite Ho in Hans. exists st. split_and!; try done.
  intros u ? ?. rewrite Hw by lia. rewrite decide_True by done. rewrite (proj2 (Z.ltb_lt u _)) by lia.
  by rewrite with_id_same by apply Hst.
Qed.

(** What was masked over HTTP comes back over HTTP. *)
Lemma mask_returns req req' reqs consumer policy payload pid key masked (a : app) :
  posts req consumer payload pid → posts req' consumer masked pid →
  get_policy policies consumer = Ok policy → cp_demasking_enabled policy = true →
  state_key (cp_consumer_id policy) pid = Ok key →
  service_ok (store_of a) (world_of a) → Forall request_fits (req :: req' :: reqs) →
  (∀ t, clock (world_of a) <= t → live (store_of a) t key = None) →
  admits req a = true → answers (serve req a).1 masked →
  (hash_payload masked = hash_payload payload → masked = payload) →
  let b := serve_all reqs (serve req a).2 in
  admits req' b = true → clock (world_of (serve req' b).2) < clock (world_of a) + store_ttl →
  answers (serve req' b).1 payload.
Proof using D wiring.
  intros Hpost Hpost' Hpol Hdem Hkey Hok Hfits Hfresh Hadm Hans Hcf b Hadm' Hclk.
  apply Forall_cons in Hfits as [Hfit Hfits]. apply Forall_cons in Hfits as [Hfit' Hfits].
  destruct (first_post _ _ _ _ _ _ _ _ Hpost Hpol Hadm Hfit Hok Hkey Hfresh Hans) as (st & Hst & <- & <- & Hc & Hlive).
  destruct (serve_keeps req a Hfit Hok) as (Hok1 & Ha1 & _).
  destruct (serve_all_keeps reqs (serve req a).2 Hfits Hok1) as (Hok2 & Ha2 & Hkeep).
  destruct (post_served _ _ _ _ _ _ Hpost' Hpol Hadm') as (id & w0 & m0 & res & s1 & w1 & m1 & Hw0 & Hrun & Hresp & _ & Hw1).
  destruct (parse_request_min_length _ _ _ _ (posts_parsed _ _ _ _ Hpost')) as [Hp Hpid].
  destruct (Hfit' _ _ (posts_parsed _ _ _ _ Hpost')) as [Hv Hlen].
  assert (Hrq : request_ok (Restoration.masked_text st) policy) by (split; [done|done|by eapply policies_text]).
  unfold b, store_of, world_of in *.
  destruct (masked_returns detectors st pid policy key _ _ _ _ _ _ _ Hst Hp Hpid (service_ok_later _ _ _ Hok2 Hw0) Hrq
    (eq_sym Hc) Hdem Hkey Hcf Hrun) as (out & -> & Hout).
  - intros t ? ?. apply Hkeep; [lia|]. apply Hlive; lia.
  - rewrite Hresp. cbn [fmap result_fmap]. rewrite Hout. done.
Qed.

(** C1: what a client can rely on.  A post of a fresh payload id answered
    with 200 gives a text; whatever requests of whatever clients are served
    in between (other routes, other consumers, the same id, over the rate,
    malformed, failing), when that text is posted under the id by the same
    consumer within the store's lifetime and admitted, the answer is 200 with
    the payload of the first post, if the policy allows demasking and the hash
    does not take the mask for the payload. *)
Theorem http_roundtrip req req' reqs consumer policy payload pid key masked (a : app) :
  posts req consumer payload pid → posts req' consumer masked pid →
  get_policy policies consumer = Ok policy → cp_demasking_enabled policy = true →
  state_key (cp_consumer_id policy) pid = Ok key →
  service_ok (store_of a) (world_of a) → Forall request_fits (req :: req' :: reqs) →
  (∀ t, clock (world_of a) <= t → live (store_of a) t key = None) →
  admits req a = true → answers (serve req a).1 masked →
  (hash_payload masked = hash_payload payload → masked = payload) →
  let b := serve_all reqs (serve req a).2 in
  admits req' b = true → clock (world_of (serve req' b).2) < clock (world_of a) + store_ttl →
  answers (serve req' b).1 payload.
Proof using D wiring. exact (mask_returns req req' reqs consumer policy payload pid key masked a). Qed.

(** C4: no traffic hurts a session: along every sequence of HTTP requests, of
    any consumers, on any routes and with any outcomes, the service's state
    stays well formed, time does not go back, and a state that was live until
    [u] is still found until [u], with its texts, hash, mappings and owner
    unchanged and its status moved, if at all, from MASKED to DEMASKED. *)
Theorem http_keeps_sessions reqs (a : app) :
  service_ok (store_of a) (world_of a) → Forall request_fits reqs →
  let b := serve_all reqs a in
  service_ok (store_of b) (world_of b) ∧ clock (world_of a) <= clock (world_of b) ∧
  ∀ u k st, clock (world_of b) <= u → live (store_of a) u k = Some st →
    ∃ st', live (store_of b) u k = Some st' ∧ evolves st st'.
Proof using D wiring. intros Hok Hfits. exact (serve_all_keeps reqs a Hfits Hok). Qed.
End EndToEnd.
