(* ===== verification/Responses.v ===== *)
(** * The type of the service's answers

    The schemas of [app/api/schemas/process.py], of the error handlers and of
    the health routes, as one relation between a route and the answers it may
    have, and the proof that no request gets another. *)

From S2P Require Import Prelude Unicode Domain PyStr Utf8 Hashes Json RateLimit Metrics Resolution Logging.
From S2P Require Import Strategies Masking Policy Restoration World StoreInterface Process Api.

(** A route of the application. *)
Inductive route :=
  | Process | Health | Ready | MetricsText.

Definition route_of (req : http_request) : option route :=
  if bool_decide (http_path req = u8 "/process") && bool_decide (http_method req = u8 "POST") then Some Process
  else if bool_decide (http_method req = u8 "GET") then
    if bool_decide (http_path req = u8 "/health") then Some Health
    else if bool_decide (http_path req = u8 "/health/ready") then Some Ready
    else if bool_decide (http_path req = u8 "/metrics") then Some MetricsText
    else None
  else None.

(** [ProcessResponse], [HealthResponse] and the probe's answers. *)
Definition result_body (text : pystr) : pyobj := ODict [(u8 "result", OStr text)].
Definition status_body (text : pystr) : pyobj := ODict [(u8 "status", OStr text)].

(** Status and body by route; the headers besides the request id. *)
Inductive answer_type : route → Z → pyobj → list (pystr * pystr) → Prop :=
  | type_result text : answer_type Process 200 (result_body text) []
  | type_invalid detail : answer_type Process 422 (ODict [(u8 "detail", detail)]) []
  | type_domain c message retry :
      c ≠ CProcessingError →
      answer_type Process (status_code c) (error_content (error_type c) message)
        match retry with Some n => [(u8 "retry-after", int_repr n)] | None => [] end
  | type_processing : answer_type Process 500 (error_content (u8 "PROCESSING_ERROR") (u8 "internal error")) []
  | type_internal : answer_type Process 500 (error_content (u8 "INTERNAL_ERROR") (u8 "internal error")) []
  | type_health : answer_type Health 200 (status_body (u8 "ok")) []
  | type_ready : answer_type Ready 200 (status_body (u8 "ready")) []
  | type_not_ready : answer_type Ready 503 (status_body (u8 "not_ready")) []
  | type_metrics text : answer_type MetricsText 200 (OStr text) [].

Section Responses.
Context `{U : UnicodeDB, H : HashLib, F : Framework} {S V : Type}.
Context `{!World V, !RestorationStore S (Logged V), !UuidSource V}.
Context (detectors : list (PIIDetector (Logged V))).
Context (policies : list (pystr * ConsumerPolicy)) (default_consumer_id : pystr).

Abbreviation app := (app S V).
Abbreviation serve := (serve_http detectors policies default_consumer_id).

(** What the service answers to a call of the endpoint is of the type. *)
Lemma answer_typed id (r : result exn pystr) :
  ∃ headers, answer_type Process (status (answer_of id r)) (content (answer_of id r)) headers ∧
    resp_headers (answer_of id r) = (X_REQUEST_ID, id) :: headers.
Proof.
  destruct r as [text|e]; [eexists; split; [apply type_result|done]|].
  destruct e as [exc| | | | | | | | | |]; try (eexists; split; [apply type_internal|done]).
  unfold answer_of. destruct (decide (err_class exc = CProcessingError)) as [Hc|Hc].
  - eexists. split; [apply type_processing|done].
  - eexists. split; [by apply (type_domain _ _ (err_retry_after exc))|done].
Qed.

(** The handlers around a route of the application. *)
Lemma routed_typed req rt (a : app) id :
  route_of req = Some rt → request_id a = Some id →
  match (handle_errors (router detectors policies default_consumer_id req) a).1 with
  | Ok response => ∃ headers, answer_type rt (status response) (content response) headers ∧
      resp_headers (set_header X_REQUEST_ID id response) = (X_REQUEST_ID, id) :: headers
  | Err e => rt = Process
  end.
Proof.
  intros Hrt Hid. unfold route_of in Hrt. unfold router.
  destruct (bool_decide (http_path req = u8 "/process") && bool_decide (http_method req = u8 "POST")).
  - injection Hrt as <-. destruct (parse_request _ _) as [[payload pid]|detail].
    2: { eexists. split; [apply type_invalid|done]. }
    pose proof (endpoint_handled detectors policies default_consumer_id (http_headers req) payload pid id a Hid) as Hh.
    destruct (endpoint_result _ _ _ _ _ _ _) as [res sv]. destruct Hh as (r & a2 & -> & _ & _ & _ & _ & Hr).
    cbn [fst]. destruct r as [response|e]; [|done]. destruct Hr as [Hr _].
    destruct (answer_typed id res) as (headers & Ht & Hh). rewrite <-Hr in Ht, Hh. by exists headers.
  - destruct (bool_decide (http_method req = u8 "GET")); [|done]. cbn [andb].
    destruct (bool_decide (http_path req = u8 "/health")); [injection Hrt as <-|].
    { eexists. split; [apply type_health|done]. }
    destruct (bool_decide (http_path req = u8 "/health/ready")); [injection Hrt as <-|].
    { unfold handle_errors, readiness. set (m := sbind _ _).
      destruct (m a) as [[x|e] a1]; eexists; (split; [|done]); [apply type_ready|apply type_not_ready]. }
    destruct (bool_decide (http_path req = u8 "/metrics")); [injection Hrt as <-|done].
    eexists. split; [apply type_metrics|done].
Qed.

(** C19: every answer of the application has the type of its route: [POST
    /process] gives a result, a validation detail, or an error with its type
    and message, under the status of that kind, and the other routes their
    own bodies; each carries the id of the request and [Retry-After] at most
    with a domain error.  A request over the rate is the only one answered
    outside of that. *)
Theorem answers_typed req rt (a : app) :
  route_of req = Some rt →
  let r := (serve req a).1 in
  if admits req a then
    ∃ id headers, answer_type rt (status r) (content r) headers ∧ resp_headers r = (X_REQUEST_ID, id) :: headers
  else r = too_many_requests.
Proof.
  intros Hrt. destruct (admits req a) eqn:Hadm.
  - destruct (serve_http_spec detectors policies default_consumer_id req a Hadm)
      as (id & w1 & l & r & a2 & w3 & d & _ & _ & _ & Hrun & _ & ->).
    match type of Hrun with _ ?a1 = _ => pose proof (routed_typed req rt a1 id Hrt eq_refl) as Ht end.
    rewrite Hrun in Ht. cbn [fst] in Ht. destruct r as [response|e].
    + destruct Ht as (headers & Ht & Hh). by exists id, headers.
    + subst rt. exists id, []. split; [apply type_internal|done].
  - unfold serve_http. cbn [set_request_id].
    set (a0 := mkApp (app_service a) (app_limiter a) None).
    destruct (rate_limited_spec req
      (observe_http req (handle_errors (router detectors policies default_consumer_id req))) a0) as (w1 & l & _ & ->).
    change (admits req a0) with (admits req a). by rewrite Hadm.
Qed.
End Responses.
