(* ===== verification/Outcomes.v ===== *)
(** * Every request is counted and logged once

    What [observe_http_request] records about a request, and that nothing
    below it - the error handlers, the endpoints, the process service, the
    store and the detectors - touches the collectors or writes the line that
    it uses for that. *)

From S2P Require Import Prelude Unicode Domain PyStr Utf8 Hashes Json RateLimit Metrics Resolution Logging.
From S2P Require Import Strategies Masking Policy Restoration World StoreInterface Process LogLines Api.

(** ** Calls and lines below the middleware *)

Definition collector_of (c : metric_call) : collector :=
  match c with Inc c _ _ | Dec c _ | Observe c _ _ | SetTo c _ _ => c end.

Definition inner_call (c : metric_call) : Prop :=
  collector_of c ∉ [http_requests; http_request_duration; inflight_requests].
Definition inner_record (r : log_record) : Prop := log_message r ≠ u8 "http_request_completed".

(** Only calls of [inner_call] are made on the way from [m] to [m']. *)
Definition calls_inside (m m' : Metrics) : Prop :=
  ∃ calls, mt_calls m' = mt_calls m ++ calls ∧ Forall inner_call calls.

#[export] Instance calls_inside_preorder : PreOrder calls_inside.
Proof.
  split; [by exists []; rewrite app_nil_r|]. intros m1 m2 m3 (l & H1 & Hl) (l' & H2 & Hl'). exists (l ++ l').
  rewrite H2, H1, (assoc_L (++)). split; [done|]. by apply Forall_app.
Qed.

Lemma calls_safe c m : inner_call c → calls_inside m (safe c m).
Proof. intros Hc. exists [c]. split; [done|]. by constructor. Qed.

Ltac inner := apply calls_safe; apply (bool_decide_eq_true_1 _); reflexivity.

Lemma calls_error e m : calls_inside m (record_error e m).
Proof. inner. Qed.
Lemma calls_entities n m : calls_inside m (record_entities n m).
Proof. inner. Qed.
Lemma calls_size n m : calls_inside m (record_payload_size n m).
Proof. inner. Qed.
Lemma calls_request op ms m : calls_inside m (recorder_request op ms m).
Proof. unfold recorder_request, record_operation. etrans; inner. Qed.
Lemma calls_stage stage ms m : calls_inside m (recorder_stage stage ms m).
Proof.
  unfold recorder_stage, record_stage. set (m1 := safe _ m). assert (H1 : calls_inside m m1) by (unfold m1; inner).
  case_match; [|exact H1]. etrans; [exact H1|]. exists [SetTo stage_max [(u8 "stage", stage)] (seconds ms)].
  split; [done|]. constructor; [|done]. apply (bool_decide_eq_true_1 _). reflexivity.
Qed.
Lemma calls_stages timings m : calls_inside m (fold_left (λ m p, recorder_stage (p.1) (p.2) m) timings m).
Proof.
  revert m. induction timings as [|p timings IH]; intros m; cbn [fold_left]; [done|].
  etrans; [apply calls_stage|apply IH].
Qed.

Lemma engine_line_inner context_rules r : engine_line context_rules r → inner_record r.
Proof. unfold inner_record. destruct 1; apply (bool_decide_eq_false_1 _); vm_compute; reflexivity. Qed.

Section Outcomes.
Context `{U : UnicodeDB, H : HashLib, F : Framework} {S V : Type}.
Context `{!World V, !RestorationStore S (Logged V), !UuidSource V, !QuietStore S V}.
Context (detectors : list (PIIDetector (Logged V))) `{!QuietDetectors detectors}.
Context (policies : list (pystr * ConsumerPolicy)) (default_consumer_id : pystr).

Abbreviation app := (app S V).
Abbreviation appM := (appM (S := S) (V := V)).
Abbreviation service := ((S * Logged V) * Metrics)%type.

(** ** The process service *)

Definition quiet_calls {A} (m : procM (S := S) (W := Logged V) A) : Prop := ∀ st : service, calls_inside st.2 (m st).2.2.

Lemma quiet_ret {A} (x : A) : quiet_calls (sret x). Proof. by intros st. Qed.
Lemma quiet_raise {A} e : quiet_calls (A := A) (sraise e). Proof. by intros st. Qed.
Lemma quiet_lift {A} (r : result exn A) : quiet_calls (slift r). Proof. by intros st. Qed.
Lemma quiet_store {A} (m : storeM A) : quiet_calls (in_store m).
Proof. intros [sw mt]. unfold in_store. by destruct (m sw). Qed.
Lemma quiet_record f : (∀ m, calls_inside m (f m)) → quiet_calls (record f).
Proof. intros Hf [sw mt]. apply Hf. Qed.
Lemma quiet_bind {A B} (m : procM A) (k : A → procM B) :
  quiet_calls m → (∀ x, quiet_calls (k x)) → quiet_calls (sbind m k).
Proof.
  intros Hm Hk st. unfold sbind. specialize (Hm st). destruct (m st) as [[x|e] st1]; cbn [snd] in *; [|done].
  etrans; [exact Hm|apply Hk].
Qed.

Lemma process_quiet payload payload_id policy : quiet_calls (process detectors payload payload_id policy).
Proof.
  unfold process. case_match; [apply quiet_raise|]. apply quiet_bind; [apply quiet_lift|]. intros key.
  apply quiet_bind; [apply quiet_store|]. intros [[outcome timings] ms]. cbv zeta.
  apply quiet_bind; [apply quiet_record, calls_request|]. intros _.
  apply quiet_bind; [apply quiet_record, calls_entities|]. intros _. apply quiet_bind; [apply quiet_lift|]. intros data.
  apply quiet_bind; [apply quiet_record, calls_size|]. intros _.
  apply quiet_bind; [apply quiet_record; intros m; apply calls_stages|]. intros _. apply quiet_ret.
Qed.

(** ** Below the middleware *)

Definition inside {A} (m : appM A) : Prop := ∀ a,
  calls_inside (app_service a).2 (app_service (m a).2).2 ∧ writes inner_record (app_world a) (app_world (m a).2).

Lemma inside_ret {A} (x : A) : inside (sret x). Proof. by intros a. Qed.
Lemma inside_lift {A} (r : result exn A) : inside (slift r). Proof. by intros a. Qed.
Lemma inside_get : inside get_request_id. Proof. by intros a. Qed.
Lemma inside_bind {A B} (m : appM A) (k : A → appM B) : inside m → (∀ x, inside (k x)) → inside (sbind m k).
Proof.
  intros Hm Hk a. destruct (Hm a) as [Hc Hl]. unfold sbind. destruct (m a) as [[x|e] a1]; [|done].
  destruct (Hk x a1) as [Hc1 Hl1]. cbn [snd] in *. split; by etrans.
Qed.
Lemma inside_service {A} (m : procM A) :
  quiet_calls m → logs_at (λ st : service, st.1.2) inner_record m → inside (on_service m).
Proof.
  intros Hm Hl a. specialize (Hm (app_service a)). specialize (Hl (app_service a)).
  unfold on_service, app_world. by destruct (m (app_service a)).
Qed.
Lemma inside_metrics f : (∀ m, calls_inside m (f m)) → inside (on_metrics f).
Proof. intros Hf. apply inside_service; [by apply quiet_record|]. by intros [[s w] m]. Qed.
Lemma inside_log r : inner_record r → inside (log r).
Proof.
  intros Hr. apply inside_service; [apply quiet_store|]. intros [[s w] m]. by apply (writes_emit inner_record).
Qed.
Lemma inside_process payload pid policy : inside (on_service (process detectors payload pid policy)).
Proof using All.
  apply inside_service; [apply process_quiet|]. intros st. eapply writes_weaken; [|by apply process_logs].
  apply engine_line_inner.
Qed.
Create HintDb inside.
#[local] Hint Resolve inside_ret inside_lift inside_get inside_bind inside_metrics inside_log inside_process
  calls_error : inside.

(** A line of the application other than that of the middleware. *)
Lemma inside_log_call level logger event extra :
  event ≠ u8 "http_request_completed" → inside (log (log_call level logger event extra)).
Proof. intros He. by apply inside_log. Qed.

Ltac other_event := apply inside_log_call; apply (bool_decide_eq_false_1 _); vm_compute; reflexivity.

Lemma inside_domain exc : inside (handle_domain_error exc).
Proof.
  unfold handle_domain_error. apply inside_bind; [auto with inside|]. intros _. apply inside_bind; [auto with inside|].
  intros id. apply inside_bind; [other_event|auto with inside].
Qed.
Lemma inside_processing exc : inside (handle_processing_error exc).
Proof.
  unfold handle_processing_error. apply inside_bind; [auto with inside|]. intros _.
  apply inside_bind; [auto with inside|]. intros id. apply inside_bind; [other_event|auto with inside].
Qed.

Lemma inside_endpoint headers payload pid :
  inside (process_endpoint detectors policies default_consumer_id headers payload pid).
Proof using All.
  unfold process_endpoint. apply inside_bind; [auto with inside|]. intros policy.
  apply inside_bind; [auto with inside|]. intros outcome. apply inside_bind; [auto with inside|]. intros h.
  apply inside_bind; [other_event|auto with inside].
Qed.

Lemma inside_readiness : inside (readiness policies).
Proof using QuietStore0.
  intros a. unfold readiness. set (m := sbind _ _).
  assert (Hm : inside m); [|specialize (Hm a); by destruct (m a) as [[] ?]].
  apply inside_bind; [apply inside_lift|]. intros _. apply inside_service; [apply quiet_store|].
  intros [[s w] m']. unfold in_store. pose proof (get_writes inner_record (u8 "__readiness_probe__") s w) as Hw.
  by destruct (store_get _ (s, w)) as [r [s1 w1]].
Qed.

Lemma inside_router req : inside (router detectors policies default_consumer_id req).
Proof using All.
  unfold router. repeat case_match; try apply inside_ret;
    [apply inside_endpoint|apply inside_readiness|by intros a].
Qed.

Lemma inside_handlers (route : appM http_response) : inside route → inside (handle_errors route).
Proof.
  intros Hr a. specialize (Hr a) as [Hc Hl]. unfold handle_errors. destruct (route a) as [[x|e] a1]; [done|].
  cbn [snd] in *. destruct e as [exc| | | | | | | | | |]; try done.
  assert (Hthen : ∀ m : appM http_response, inside m →
    calls_inside (app_service a).2 (app_service (m a1).2).2 ∧ writes inner_record (app_world a) (app_world (m a1).2)).
  { intros m Hm. destruct (Hm a1). split; by etrans. }
  case_match; apply Hthen; [apply inside_processing|apply inside_domain].
Qed.

(** ** The record of a request *)

Lemma observed_calls me pa st d m :
  mt_calls (observe_http_request me pa st d (safe (Dec inflight_requests []) m)) =
    mt_calls m ++ [Dec inflight_requests [];
                   Inc http_requests [(u8 "method", me); (u8 "path", pa); (u8 "status", st)] 1;
                   Observe http_request_duration [(u8 "method", me); (u8 "path", pa)] d].
Proof. unfold observe_http_request, safe. cbn [mt_calls]. by rewrite <-!app_assoc. Qed.

(** C16: every admitted request, on any route and with any outcome, is counted
    once and logged once.  To the metrics it adds the in-flight gauge going up,
    calls that leave the request counter, the request durations and that gauge
    alone, the gauge going down, one count and one duration under its method,
    its route and the status that is sent, and, for an exception nobody
    handled, the error; what was recorded before stays.  To the log it adds
    exactly one line [http_request_completed], with that status and duration
    and with the request id the response carries. *)
Theorem http_outcome_recorded req (a : app) :
  admits req a = true →
  let '(response, a') := serve_http detectors policies default_consumer_id req a in
  ∃ id d calls before after unexpected,
    mt_calls (app_service a').2 =
      mt_calls (app_service a).2 ++ [Inc inflight_requests [] 1] ++ calls ++
      [Dec inflight_requests [];
       Inc http_requests [(u8 "method", http_method req); (u8 "path", route_path (http_path req));
                          (u8 "status", int_repr (status response))] 1;
       Observe http_request_duration [(u8 "method", http_method req); (u8 "path", route_path (http_path req))] d]
      ++ (if unexpected : bool then [Inc errors [(u8 "error_type", u8 "INTERNAL_ERROR")] 1] else []) ∧
    Forall inner_call calls ∧
    (unexpected = true → response = answer_of id (Err (EOther []))) ∧
    dict_get X_REQUEST_ID (resp_headers response) = Some id ∧
    app_log a' = app_log a ++ before ++
      [(Some id, completed_line id (http_method req) (route_path (http_path req)) (status response) d)] ++ after ∧
    Forall (λ l, inner_record (l.2)) (before ++ after).
Proof using All.
  intros Hadm. destruct (serve_http_spec detectors policies default_consumer_id req a Hadm)
    as (id & w1 & l & r & a2 & w3 & d & _ & [_ [_ Hl1]] & [_ [Hc3 Hl3]] & Hrun & _ & ->).
  pose proof (inside_handlers _ (inside_router req)) as Hin.
  match type of Hrun with _ ?a1 = _ => destruct (Hin a1) as [(calls & Hcalls & Hok) (Hc & rs & Hlog & Hrs)] end.
  rewrite Hrun in Hcalls, Hc, Hlog. cbn in Hcalls, Hc, Hlog.
  assert (Hbefore : Forall (λ l : log_line, inner_record (l.2)) (pair (Some id) <$> rs)) by by apply Forall_fmap.
  assert (Hline : lines w3 = app_log a ++ (pair (Some id) <$> rs)) by (rewrite Hl3, Hlog, Hl1; done).
  destruct r as [response|e]; exists id, d, calls, (pair (Some id) <$> rs).
  - exists [], false. cbn [app_service fst snd]. rewrite observed_calls, Hcalls, app_nil_r, <-!app_assoc.
    split_and!; [done|done|done|apply dict_get_set_eq| |by rewrite app_nil_r].
    unfold app_log, app_world. cbn. by rewrite Hc3, Hline, Hc, <-app_assoc.
  - exists [(context_id (app_world a), unexpected_line id e)], true. cbn [after_unexpected app_service fst snd].
    unfold record_error. cbn [safe mt_calls]. rewrite observed_calls, Hcalls, <-!app_assoc.
    split_and!; [done|done|done|done| |].
    + unfold app_log, app_world. cbn. by rewrite Hc3, Hline, Hc, <-!app_assoc.
    + apply Forall_app. split; [done|]. constructor; [|done].
      apply (bool_decide_eq_false_1 _). vm_compute. reflexivity.
Qed.
End Outcomes.
