(* ===== verification/LogSafety.v ===== *)
(** * What the logs may hold

    [logging.py] promises that no payload, original text, mapping or entity
    value is ever logged.  A line written while a request is served is one of
    the application's own, with a fixed message and only fields of the kinds
    below - among the values that come from a client there are only its
    request id (a short safe token), its HTTP method and a configured
    consumer's name - or one of the masking engine's warnings, whose arguments
    are names of PII types and values of the policy's own rules
    ([Masking.engine_line]).  The lines of a request are all written with the
    request id of its response ([log_lines_correlated]): the error handlers
    name it themselves, the others take it from the context variable, which
    holds it from [observe_http_request] on until that has returned. *)

From S2P Require Import Prelude Unicode Domain PyStr Utf8 Hashes Json RateLimit Metrics Resolution Logging.
From S2P Require Import Strategies Masking Policy Restoration World StoreInterface Process LogLines Api EndToEnd.

Definition EVENTS : list pystr :=
  [u8 "request_error"; u8 "processing_error"; u8 "unexpected_error"; u8 "process_completed";
   u8 "http_request_completed"; u8 "rate_limited global"].
Definition ROUTES : list pystr := [u8 "/process"; u8 "/health"; u8 "/health/ready"; u8 "/metrics"; u8 "unmatched"].

Section LogSafety.
Context `{U : UnicodeDB, H : HashLib, I : Interpreter, F : Framework, PR : PyRepr} {S V : Type}.
Context `{!World V, !WorldLaws V, !RestorationStore S (Logged V), L : !StoreLaws S (Logged V), !UuidSource V}.
Context `{QS : !QuietStore S V}.
Abbreviation W := (Logged V).
Context (detectors : list (PIIDetector W)) `{D : !DetectorsOk detectors, QD : !QuietDetectors detectors}.
Context (policies : list (pystr * ConsumerPolicy)) (default_consumer_id : pystr).
Context (wiring : wiring_ok (V := V) policies) (uuid4_safe : ∀ v : V, request_id_match (uuid4 v).1 = true).

Abbreviation app := (app S V).
Abbreviation appM := (appM (S := S) (V := V)).
Abbreviation serve := (serve_http detectors policies default_consumer_id).

(** The request a line is about: its method, and its id once it has one. *)
Record line_context := mkContext { lc_method : pystr; lc_id : option pystr }.

(** What a field may hold in the lines of a request. *)
Inductive field_ok (c : line_context) : pystr → pyobj → Prop :=
  | field_event e : e ∈ EVENTS → field_ok c (u8 "event") (OStr e)
  | field_request_id : field_ok c (u8 "request_id") (opt_str (lc_id c))
  | field_method : field_ok c (u8 "method") (OStr (lc_method c))
  | field_path p : p ∈ ROUTES → field_ok c (u8 "path") (OStr p)
  | field_status n : field_ok c (u8 "status_code") (OInt n)
  | field_operation op : field_ok c (u8 "operation") (OStr (operation_value op))
  | field_payload_id pid h : hash_identifier pid 12 = Ok h → field_ok c (u8 "payload_id_hash") (OStr h)
  | field_consumer name p : get_policy policies name = Ok p → field_ok c (u8 "consumer_id") (OStr name)
  | field_types ts : field_ok c (u8 "detected_types") (OList ((λ t, OStr (pii_value t)) <$> ts))
  | field_count n : field_ok c (u8 "entity_count") (OInt n)
  | field_duration x : field_ok c (u8 "duration_ms") (round3 x)
  | field_error_class e : field_ok c (u8 "error_type") (OStr (error_type e))
  | field_internal_error : field_ok c (u8 "error_type") (OStr (u8 "INTERNAL_ERROR"))
  | field_exception e : field_ok c (u8 "exception_type") (OStr (exn_name e)).

(** The lines the application writes itself, and the engine's under one of the
    configured policies. *)
Definition fixed_line (c : line_context) (r : log_record) : Prop :=
  log_message r ∈ EVENTS ∧ log_args r = [] ∧ exc_class r = None ∧ Forall (λ f, field_ok c (f.1) (f.2)) (log_extra r).
Definition policy_line (r : log_record) : Prop :=
  ∃ consumer policy, get_policy policies consumer = Ok policy ∧ engine_line (cp_context_rules policy) r.
Definition safe_line (c : line_context) (r : log_record) : Prop := fixed_line c r ∨ policy_line r.

(** Logged while the context variable is [var], it is written with the id of
    the request. *)
Definition correlated (c : line_context) (var : option pystr) (r : log_record) : Prop :=
  ∀ id, lc_id c = Some id → ∀ timestamp,
    dict_get (u8 "request_id") (format_payload timestamp (opt_str var) r) = Some (OStr id).

Definition request_record (c : line_context) (var : option pystr) (r : log_record) : Prop :=
  safe_line c r ∧ correlated c var r.

Lemma request_id_field : u8 "request_id" ∈ STRUCTURED_FIELDS.
Proof. apply (bool_decide_eq_true_1 _); vm_compute; reflexivity. Qed.

(** Either the record names the id or the context does. *)
Lemma correlated_by_field c var r :
  exc_class r = None → dict_get (u8 "request_id") (log_extra r) = Some (opt_str (lc_id c)) → correlated c var r.
Proof.
  intros He Hf id Hid timestamp. rewrite format_payload_fields, He. unfold attribute. rewrite Hf, Hid. cbn.
  rewrite decide_True; [done|]. split; [apply request_id_field|done].
Qed.
Lemma correlated_by_context c r :
  exc_class r = None → dict_get (u8 "request_id") (log_extra r) = None → correlated c (lc_id c) r.
Proof.
  intros He Hf id Hid timestamp. rewrite format_payload_fields, He. unfold attribute. rewrite Hf, Hid.
  rewrite (decide_False (P := _ ∈ _ ∧ _)) by naive_solver. by rewrite decide_True.
Qed.

Lemma engine_request_record c policy consumer r :
  get_policy policies consumer = Ok policy → engine_line (cp_context_rules policy) r →
  request_record c (lc_id c) r.
Proof.
  intros Hp Hr. split; [right; by exists consumer, policy|]. by apply correlated_by_context; destruct Hr.
Qed.

Definition app_ok (c : line_context) (var : option pystr) (a : app) : Prop :=
  service_ok (store_of a) (world_of a) ∧ request_id a = lc_id c ∧ context_id (world_of a) = var.

(** [m] keeps the application well formed, adds only safe lines to the log
    and returns what [P] says. *)
Definition safe {A} (c : line_context) (var : option pystr) (P : A → Prop) (m : appM A) : Prop := ∀ a, app_ok c var a →
  app_ok c var (m a).2 ∧ writes (request_record c var) (world_of a) (world_of (m a).2) ∧ ∀ x, (m a).1 = Ok x → P x.

Section Steps.
Context (c : line_context) (var : option pystr).
Abbreviation safe := (safe c var).

Lemma safe_ret {A} (P : A → Prop) x : P x → safe P (sret x).
Proof. intros HP a Ha. split_and!; [done|done|]. by intros ? [= <-]. Qed.
Lemma safe_lift {A} (P : A → Prop) (r : result exn A) : (∀ x, r = Ok x → P x) → safe P (slift r).
Proof. intros HP a Ha. by split_and!. Qed.
Lemma safe_get : safe (λ id, id = lc_id c) get_request_id.
Proof. intros a Ha. split_and!; [done|done|]. intros ? [= <-]. apply Ha. Qed.

Lemma safe_bind {A B} (P : A → Prop) (Q : B → Prop) (m : appM A) (k : A → appM B) :
  safe P m → (∀ x, P x → safe Q (k x)) → safe Q (sbind m k).
Proof.
  intros Hm Hk a Ha. destruct (Hm a Ha) as (Ha1 & Hl1 & HP). unfold sbind.
  destruct (m a) as [[x|e] a1]; cbn [fst snd] in *; [|by split_and!].
  destruct (Hk x (HP x eq_refl) a1 Ha1) as (Ha2 & Hl2 & HQ).
  split_and!; [done|by etrans|done].
Qed.

(** A call of the service. *)
Lemma safe_service {A} (P : A → Prop) (R : log_record → Prop) (m : procM A) :
  preserves (on_service m) → (∀ s w mt x st, service_ok s w → m ((s, w), mt) = (Ok x, st) → P x) →
  logs_at (λ st : (S * W) * Metrics, st.1.2) R m → (∀ r, R r → request_record c var r) →
  safe P (on_service m).
Proof.
  intros Hp HP Hl HR [sv l id] (Ha & Hid & Hc). specialize (Hp (mkApp sv l id) Ha). specialize (Hl sv).
  apply (writes_weaken R _ _ _ HR) in Hl. destruct sv as [[s w] mt].
  unfold store_of, app_world, on_service in *. cbn [app_service request_id fst snd] in *.
  destruct (m ((s, w), mt)) as [r [[s1 w1] mt1]] eqn:Hm. cbn [app_service request_id fst snd] in *.
  split_and!; [split_and!; [by apply Hp|done|]|done|intros x ->; by eapply HP].
  cbn. rewrite (proj1 Hl). done.
Qed.

Lemma safe_metrics (f : Metrics → Metrics) : safe (λ _, True) (on_metrics f).
Proof.
  apply (safe_service _ (λ _, False)); [apply preserves_metrics|done| |done]. by intros [[s w] m].
Qed.

Lemma safe_log (P : unit → Prop) r : request_record c var r → P tt → safe P (log r).
Proof.
  intros Hr HP. apply (safe_service _ (λ r', r' = r)); [apply preserves_log|by intros ? ? ? []| |by intros ? ->].
  intros [[s w] m]. by apply (writes_emit (λ r', r' = r)).
Qed.

Lemma safe_weaken {A} (P Q : A → Prop) m : (∀ x, P x → Q x) → safe P m → safe Q m.
Proof. intros HPQ Hm a Ha. destruct (Hm a Ha) as (? & ? & ?). split_and!; auto. Qed.

(** ** The handlers *)

Definition fields_ok (fs : list (pystr * pyobj)) : Prop := Forall (λ f, field_ok c (f.1) (f.2)) fs.

(** A line of the application that names the id. *)
Lemma named_record level logger event extra :
  event ∈ EVENTS → fields_ok extra →
  request_record c var (log_call level logger event ((u8 "request_id", opt_str (lc_id c)) :: extra)).
Proof.
  intros He Hf. split; [left|by apply correlated_by_field].
  split_and!; [done|done|done|]. constructor; [by apply field_event|]. constructor; [apply field_request_id|done].
Qed.

Ltac event := apply (bool_decide_eq_true_1 _); vm_compute; reflexivity.
Ltac fields := repeat (apply Forall_cons; split; [by constructor|]); apply Forall_nil_2.

Lemma safe_domain exc : safe (λ _, True) (handle_domain_error exc).
Proof.
  unfold handle_domain_error. eapply safe_bind; [apply safe_metrics|intros _ _].
  eapply safe_bind; [apply safe_get|intros id ->]. apply (safe_bind (λ _, True) (λ _, True)); [|intros _ _; by apply safe_ret].
  apply safe_log; [|done]. apply named_record; [event|fields].
Qed.

Lemma safe_processing exc : safe (λ _, True) (handle_processing_error exc).
Proof.
  unfold handle_processing_error. eapply safe_bind; [apply safe_metrics|intros _ _].
  eapply safe_bind; [apply safe_get|intros id ->]. apply (safe_bind (λ _, True) (λ _, True)); [|intros _ _; by apply safe_ret].
  apply safe_log; [|done]. apply named_record; [event|fields].
Qed.

Lemma unexpected_record id e :
  lc_id c = Some id → request_record c var (unexpected_line id e).
Proof.
  intros Hid. pose proof (named_record error_level (u8 "api.errors") (u8 "unexpected_error")
    [(u8 "error_type", OStr (u8 "INTERNAL_ERROR")); (u8 "exception_type", OStr (exn_name e)); (u8 "status_code", OInt 500)])
    as Hr. rewrite Hid in Hr. apply Hr; [event|]. constructor; [apply field_internal_error|]. fields.
Qed.

Lemma completed_record id path status duration :
  lc_id c = Some id → request_record c var (completed_line id (lc_method c) (route_path path) status duration).
Proof.
  intros Hid. pose proof (named_record info (u8 "http") (u8 "http_request_completed")
    [(u8 "method", OStr (lc_method c)); (u8 "path", OStr (route_path path)); (u8 "status_code", OInt status);
     (u8 "duration_ms", round3 (duration * 1000))]) as Hr.
  rewrite Hid in Hr. apply Hr; [event|]. constructor; [apply (field_method c)|].
  constructor; [|constructor; [by constructor|]; constructor; [by constructor|done]].
  constructor. unfold route_path. case_decide as Hin; [set_solver|]. event.
Qed.

Lemma safe_handlers (route : appM http_response) : safe (λ _, True) route → safe (λ _, True) (handle_errors route).
Proof.
  intros Hr a Ha. destruct (Hr a Ha) as (Ha1 & Hl1 & _). unfold handle_errors.
  assert (Hthen : ∀ m : appM http_response, safe (λ _, True) m →
    app_ok c var (m (route a).2).2 ∧
    writes (request_record c var) (world_of a) (world_of (m (route a).2).2) ∧
    ∀ x, (m (route a).2).1 = Ok x → True).
  { intros m Hm. destruct (Hm _ Ha1) as (? & Hl2 & _). split_and!; [done|by etrans|done]. }
  assert (Hkeep := Hthen (slift (route a).1) (safe_lift (λ _, True) _ (λ _ _, Logic.I))).
  destruct (route a) as [[x|e] a1]; cbn [fst snd] in *; [done|].
  destruct e; try exact Hkeep. case_match; apply Hthen; [apply safe_processing | apply safe_domain].
Qed.
End Steps.

(** ** Routes and middleware *)

Lemma type_names l : Forall (λ t, ∃ ty, t = pii_value ty) l → ∃ ts, l = pii_value <$> ts.
Proof. induction 1 as [|t l [ty ->] _ [ts ->]]; [by exists []|by exists (ty :: ts)]. Qed.

Lemma process_types payload pid policy s w m out st :
  service_ok s w → request_ok payload policy →
  process detectors payload pid policy ((s, w), m) = (Ok out, st) →
  ∃ ts, out_detected_types out = pii_value <$> ts.
Proof using D.
  intros Hok Hrq Hrun. set (r := mkRequest payload pid policy). destruct st as [[s1 w1] m1].
  destruct (process_any detectors r s w m Hok Hrq) as (res & s' & w' & m' & Hrun' & _ & _ & Hcase).
  change (process detectors payload pid policy ((s, w), m)) with
    (process detectors (rq_text r) (rq_id r) (rq_policy r) ((s, w), m)) in Hrun.
  rewrite Hrun in Hrun'. injection Hrun' as <- <- <- <-.
  destruct Hcase as [(e & t & ? & _)|(key & out' & Hout & Hp & Hpid & Hkey)]; [done|].
  destruct (process_stored detectors _ _ _ _ _ _ _ _ _ _ _ Hp Hpid Hok Hrq Hkey Hrun)
    as (_ & _ & st & _ & _ & ms & timings & _ & _ & _ & _ & Hst & -> & _).
  destruct (type_names _ (so_types _ _ Hst)) as (ts & Hts). exists ts.
  cbn [with_timings out_detected_types]. unfold outcome_of. by destruct (state st).
Qed.

Lemma safe_endpoint c headers payload pid :
  valid_text payload = true → slen payload < 2 ^ 63 →
  safe c (lc_id c) (λ _, True) (process_endpoint detectors policies default_consumer_id headers payload pid).
Proof using D wiring QS QD.
  intros Hv Hl. unfold process_endpoint.
  eapply (safe_bind _ _ (λ p, get_policy policies (get_consumer_id default_consumer_id
    (dict_get (u8 "x-consumer-id") headers)) = Ok p)); [by apply safe_lift|intros policy Hpol].
  assert (Hrq : request_ok payload policy) by (split; [done|done|by eapply policies_text]).
  eapply (safe_bind _ _ (λ out, ∃ ts, out_detected_types out = pii_value <$> ts)).
  { eapply safe_service; [by apply preserves_process| |by apply process_logs|].
    - intros s w mt out st Hok Hrun. by eapply process_types.
    - intros r Hr. by eapply engine_request_record. }
  intros out [ts Hts]. eapply (safe_bind _ _ (λ h, hash_identifier pid 12 = Ok h)); [by apply safe_lift|intros h Hh].
  apply (safe_bind _ _ (λ _, True) (λ _, True)); [|intros _ _; by apply safe_ret].
  apply safe_log; [|done]. split; [left|by apply correlated_by_context].
  split_and!; [apply (bool_decide_eq_true_1 _); vm_compute; reflexivity|done|done|].
  constructor; [apply field_event, (bool_decide_eq_true_1 _); vm_compute; reflexivity|].
  constructor; [by constructor|]. constructor; [by eapply field_payload_id|]. constructor; [by eapply field_consumer|].
  constructor; [cbn [fst snd]; rewrite Hts, <-list_fmap_compose; apply field_types|].
  constructor; [by constructor|]. constructor; [by constructor|done].
Qed.

Lemma safe_router c req :
  request_fits req → safe c (lc_id c) (λ _, True) (router detectors policies default_consumer_id req).
Proof using D wiring QS QD.
  intros Hfit. unfold router. repeat case_match; try (by apply safe_ret).
  - apply safe_endpoint; by eapply Hfit.
  - intros a Ha. unfold readiness. set (m := sbind _ _).
    assert (Hm : safe c (lc_id c) (λ _, True) m).
    { unfold m. eapply (safe_bind _ _ (λ _, True)); [by apply safe_lift|intros _ _].
      apply (safe_service _ _ _ (λ _, False)); [apply preserves_store_get|done| |done].
      intros [[s w] mt]. unfold in_store. pose proof (get_writes (λ _, False) (u8 "__readiness_probe__") s w) as Hw.
      by destruct (store_get _ (s, w)) as [r [s1 w1]]. }
    destruct (Hm a Ha) as (? & ? & _). by destruct (m a) as [[] ?].
  - intros a Ha. by split_and!.
Qed.

(** The lines of a request: their context is its id, or what it was before
    the request. *)
Definition request_line (c : line_context) (before : option pystr) (l : log_line) : Prop :=
  (l.1 = lc_id c ∨ l.1 = before) ∧ request_record c (l.1) (l.2).

Definition adds (c : line_context) (a a' : app) : Prop :=
  context_id (world_of a') = context_id (world_of a) ∧
  ∃ added, app_log a' = app_log a ++ added ∧ Forall (request_line c (context_id (world_of a))) added.

Lemma over_rate_safe c var : lc_id c = None → request_record c var over_rate_line.
Proof.
  intros Hc. split; [|intros id Hid; congruence]. left.
  split_and!; [apply (bool_decide_eq_true_1 _); vm_compute; reflexivity|done|done|done].
Qed.

(** What was logged while the request was served, and one line more. *)
Lemma adds_writes c (a : app) w w' :
  context_id w = lc_id c → writes (request_record c (lc_id c)) w w' → silent (world_of a) (with_context (context_id (world_of a)) w) →
  ∃ added, lines w' = app_log a ++ added ∧ Forall (request_line c (context_id (world_of a))) added.
Proof.
  intros Hc (_ & rs & Hl & Hrs) [_ Hs]. cbn in Hs. exists (pair (lc_id c) <$> rs). unfold app_log.
  rewrite Hl, Hs, Hc. split; [done|]. apply Forall_fmap. eapply Forall_impl; [exact Hrs|].
  intros r Hr. split; [by left|exact Hr].
Qed.

Lemma adds_line c (a : app) added var r :
  Forall (request_line c (context_id (world_of a))) added → var = lc_id c ∨ var = context_id (world_of a) →
  request_record c var r → Forall (request_line c (context_id (world_of a))) (added ++ [(var, r)]).
Proof. intros Ha Hv Hr. apply Forall_app. split; [done|]. constructor; [by split|constructor]. Qed.

(** A request the limiter lets through. *)
Lemma admitted_safe req (a : app) :
  admits req a = true → request_fits req → service_ok (store_of a) (world_of a) →
  let '(response, a') := serve req a in
  ∃ id, request_id_match id = true ∧ adds (mkContext (http_method req) (Some id)) a a' ∧
    dict_get X_REQUEST_ID (resp_headers response) = Some id.
Proof using D wiring uuid4_safe QS QD.
  intros Hadm Hfit Ha. destruct (serve_http_spec detectors policies default_consumer_id req a Hadm)
    as (id & w1 & l & r & a2 & w3 & d & Hid & [Hw1 [Hc1 Hl1]] & [_ [Hc3 Hl3]] & Hrun & _ & Hserve).
  set (c := mkContext (http_method req) (Some id)). set (a1 := mkApp _ l (Some id)) in Hrun.
  assert (Ha1 : app_ok c (Some id) a1).
  { split_and!; [|done|done]. eapply service_ok_later; [exact Ha|]. exact (Hw1 _ (uuid_forward _ wiring)). }
  destruct (safe_handlers c (Some id) _ (safe_router c req Hfit) a1 Ha1) as ((_ & _ & Hc2) & Hlog & _).
  rewrite Hrun in Hc2, Hlog. cbn [snd] in Hc2, Hlog.
  destruct (adds_writes c a (world_of a1) (world_of a2)) as (added & Hadd & Hok); [done|exact Hlog|by split|].
  pose proof (completed_record c (Some id) id (http_path req) (status_of r) d eq_refl) as Hdone.
  apply (adds_line c a added (Some id) _ Hok (or_introl eq_refl)) in Hdone.
  rewrite Hserve. destruct r as [response|e]; exists id; (split; [by apply Hid|]).
  - split; [|apply dict_get_set_eq]. split; [done|]. eexists. split; [|exact Hdone].
    unfold app_log, app_world. cbn. rewrite Hc3, Hl3, Hadd, Hc2. by rewrite <-app_assoc.
  - pose proof (unexpected_record c (context_id (world_of a)) id e eq_refl) as Hun.
    apply (adds_line c a _ _ _ Hdone (or_intror eq_refl)) in Hun.
    split; [|done]. split; [done|]. eexists. split; [|exact Hun].
    unfold app_log, app_world. cbn. rewrite Hc3, Hl3, Hadd, Hc2. by rewrite <-!app_assoc.
Qed.

(** One request: its lines are about it, and it is answered with their id. *)
Lemma serve_safe req (a : app) : request_fits req → service_ok (store_of a) (world_of a) →
  let '(response, a') := serve req a in
  ∃ rid, match rid with Some id => request_id_match id = true | None => True end ∧
    adds (mkContext (http_method req) rid) a a' ∧ dict_get X_REQUEST_ID (resp_headers response) = rid.
Proof using D wiring uuid4_safe QS QD.
  intros Hfit Ha. destruct (admits req a) eqn:Hadm.
  - pose proof (admitted_safe req a Hadm Hfit Ha) as Hsafe. destruct (serve req a) as [response a'].
    destruct Hsafe as (id & ?). by exists (Some id).
  - unfold serve_http. cbn [set_request_id]. set (a0 := mkApp _ _ None).
    destruct (rate_limited_spec req
      (observe_http req (handle_errors (router detectors policies default_consumer_id req))) a0) as (w1 & l & [_ [Hc Hl]] & ->).
    change (admits req a0) with (admits req a). rewrite Hadm. exists None. split_and!; [done| |done].
    split; [exact Hc|]. exists [(context_id (world_of a), over_rate_line)]. split.
    + unfold app_log, app_world. cbn. by rewrite Hl, Hc.
    + apply (adds_line _ a [] _ _ (Forall_nil_2 _) (or_intror eq_refl)). by apply over_rate_safe.
Qed.

(** C18: nothing a request carries as text is ever logged: whatever requests
    are served, with whatever outcomes, every line added to the log is either
    one of the application's own, with a fixed message, no arguments, no
    exception text, and only fields that hold fixed names, numbers, a digest
    of the payload id, the name of a configured consumer, a short safe request
    id and the HTTP method; or a warning of the masking engine, whose arguments
    are names of PII types and values of the context rules of a configured
    policy.  The context it is written in is that request id or what it was
    before the requests. *)
Theorem logs_hold_no_payload reqs (a : app) :
  service_ok (store_of a) (world_of a) → Forall request_fits reqs →
  ∃ added, app_log (serve_all detectors policies default_consumer_id reqs a) = app_log a ++ added ∧
    Forall (λ l, ∃ req rid, req ∈ reqs ∧ match rid with Some id => request_id_match id = true | None => True end ∧
                   (l.1 = rid ∨ l.1 = context_id (world_of a)) ∧
                   safe_line (mkContext (http_method req) rid) (l.2)) added.
Proof using D wiring uuid4_safe QS QD PR.
  intros Ha Hfits. revert a Ha. induction Hfits as [|req reqs Hfit _ IH]; intros a Ha; cbn [serve_all].
  { exists []. by rewrite app_nil_r. }
  pose proof (serve_safe req a Hfit Ha) as Hserve.
  destruct (serve_keeps detectors policies default_consumer_id wiring req a Hfit Ha) as (Ha1 & _).
  destruct (serve req a) as [response a1]. destruct Hserve as (rid & Hrid & (Hc & l1 & Hl1 & Hs1) & _). cbn [snd] in *.
  destruct (IH _ Ha1) as (l2 & Hl2 & Hs2). rewrite Hc in Hs2.
  exists (l1 ++ l2). rewrite Hl2, Hl1, (assoc_L (++)). split; [done|]. apply Forall_app. split.
  - eapply Forall_impl; [exact Hs1|]. intros l [Hvar [Hr _]]. exists req, rid. split_and!; [left|done|done|done].
  - eapply Forall_impl; [exact Hs2|]. intros l (q & id & Hq & Hr). exists q, id. split; [by right|done].
Qed.

(** C31: log lines can be followed: every line a request adds to the log - the
    middleware's, the endpoint's, the masking engine's, the error handlers',
    those logged after the context variable was reset among them - is written
    by the JSON formatter, with the context it is logged in, under the request
    id the response carries. *)
Theorem log_lines_correlated req (a : app) :
  request_fits req → service_ok (store_of a) (world_of a) →
  let '(response, a') := serve req a in
  ∃ added, app_log a' = app_log a ++ added ∧
    ∀ id, dict_get X_REQUEST_ID (resp_headers response) = Some id →
      request_id_match id = true ∧
      ∀ timestamp var r, (var, r) ∈ added →
        dict_get (u8 "request_id") (format_payload timestamp (opt_str var) r) = Some (OStr id).
Proof using D wiring uuid4_safe QS QD.
  intros Hfit Ha. pose proof (serve_safe req a Hfit Ha) as Hserve. destruct (serve req a) as [response a'].
  destruct Hserve as (rid & Hrid & (_ & added & Hl & Hs) & Hr). exists added. split; [done|].
  rewrite Hr. intros id ->. split; [done|]. intros timestamp var r Hin.
  rewrite Forall_forall in Hs. destruct (Hs _ Hin) as [_ [_ Hcor]]. by apply Hcor.
Qed.
End LogSafety.
