(* ===== verification/EndToEndRuns.v ===== *)
(** * End-to-end runs

    The properties of [EndToEnd], [Responses], [Outcomes] and [LogSafety] on the assembled
    service: a text is masked, other requests are served, and its mask is
    posted back. *)

From S2P Require Import Prelude Unicode Domain PyStr Utf8 Hashes Json RateLimit Metrics Resolution Logging.
From S2P Require Import Regex Validators Detector Strategies Masking Policy Restoration World StoreInterface.
From S2P Require Import MemoryStore Process Service LogLines Api ApiRuns EndToEnd Responses Outcomes LogSafety.

#[local] Existing Instance plain_interpreter.
#[local] Existing Instance ApiRuns.run_store.
#[local] Existing Instance one_uuid.
#[local] Existing Instance json_framework.
#[local] Instance run_laws : StoreLaws store_data (Logged Z) := memory_store_laws 1000000 100 ltac:(lia).
#[local] Instance run_quiet : QuietStore store_data Z := memory_quiet 1000000 100.
(** The [repr] of strings without quotes; the lines below have no others. *)
#[local] Instance quoted : PyRepr := λ o, match o with OStr s => [39] ++ s ++ [39] | _ => [] end.

Definition get_ready : http_request := mkHttp (u8 "GET") (u8 "/health/ready") [] [].

Abbreviation first := (post (u8 "a@b.ru")).
Abbreviation back := (post (u8 "*@*.**")).
Definition traffic : list http_request := [get_health; post (u8 "other text"); get_ready].

Lemma policies_wired : wiring_ok (V := Z) policies.
Proof.
  split; [intros w; simpl; lia|]. intros consumer policy. unfold get_policy, policies. cbn [dict_get].
  destruct (decide _) as [_|_]; [|done]. cbn [cp_enabled default_policy]. intros [= <-]. vm_compute. reflexivity.
Qed.

Lemma fits_by (req : http_request) :
  match parse_request (http_headers req) (http_body req) with
  | Ok (p, _) => valid_text p && (slen p <? 2 ^ 63)
  | Err _ => true
  end = true → request_fits req.
Proof.
  unfold request_fits. intros Hc p i Hp. rewrite Hp in Hc. apply andb_true_iff in Hc as [? ?%Z.ltb_lt]. done.
Qed.

Lemma first_fits : request_fits first. Proof. apply fits_by. vm_compute. reflexivity. Qed.
Lemma back_fits : request_fits back. Proof. apply fits_by. vm_compute. reflexivity. Qed.
Lemma traffic_fits : Forall request_fits traffic.
Proof.
  unfold traffic. rewrite !Forall_cons. split_and!; try (apply fits_by; vm_compute; reflexivity). by apply Forall_nil.
Qed.

Lemma start_ok : service_ok (store_of start_app) (world_of start_app).
Proof. split; [apply mem_ok_empty|]. intros t k st _. done. Qed.

Lemma first_posts : posts (u8 "default") first (u8 "default") (u8 "a@b.ru") (u8 "p1").
Proof. split; vm_compute; reflexivity. Qed.
Lemma back_posts : posts (u8 "default") back (u8 "default") (u8 "*@*.**") (u8 "p1").
Proof. split; vm_compute; reflexivity. Qed.

Abbreviation after_traffic :=
  (serve_all regex_detectors policies (u8 "default") traffic
     (serve_http regex_detectors policies (u8 "default") first start_app).2).

Lemma first_answered :
  answers (serve_http regex_detectors policies (u8 "default") first start_app).1 (u8 "*@*.**").
Proof. split; vm_compute; reflexivity. Qed.
Lemma back_admitted : admits back after_traffic = true.
Proof. vm_compute. reflexivity. Qed.

Lemma http_roundtrip_witness :
  answers (serve_http regex_detectors policies (u8 "default") back after_traffic).1 (u8 "a@b.ru").
Proof.
  refine (http_roundtrip regex_detectors policies (u8 "default") policies_wired first back traffic (u8 "default")
    default_policy (u8 "a@b.ru") (u8 "p1") key1 (u8 "*@*.**") start_app first_posts back_posts eq_refl eq_refl
    key1_ok start_ok _ _ (start_admits _) first_answered _ back_admitted _).
  - constructor; [exact first_fits|]. constructor; [exact back_fits|exact traffic_fits].
  - intros t _. reflexivity.
  - intros Hh. exfalso. revert Hh. vm_compute. discriminate.
  - apply Z.ltb_lt. vm_compute. reflexivity.
Defined.

Lemma http_keeps_sessions_witness :
  clock (world_of start_app) <= clock (world_of (serve_all regex_detectors policies (u8 "default") traffic start_app)).
Proof.
  exact (proj1 (proj2 (http_keeps_sessions regex_detectors policies (u8 "default") policies_wired traffic start_app
    start_ok traffic_fits))).
Defined.

(** The first post is answered with a result and the request's id. *)
Lemma answers_typed_witness :
  ∃ id headers,
    answer_type Process (status (serve_http regex_detectors policies (u8 "default") first start_app).1)
      (content (serve_http regex_detectors policies (u8 "default") first start_app).1) headers ∧
    resp_headers (serve_http regex_detectors policies (u8 "default") first start_app).1 = (X_REQUEST_ID, id) :: headers.
Proof.
  pose proof (answers_typed regex_detectors policies (u8 "default") first Process start_app eq_refl) as Ht.
  cbv zeta in Ht. rewrite (start_admits first) in Ht. exact Ht.
Defined.

Lemma one_uuid_safe (w : Z) : request_id_match (uuid4 w).1 = true.
Proof. vm_compute. reflexivity. Qed.

(** A request for a health check, counted and logged once. *)
Lemma http_outcome_recorded_witness :
  let '(response, a') := serve_http regex_detectors policies (u8 "default") get_health start_app in
  ∃ id d calls before after unexpected,
    mt_calls (app_service a').2 =
      mt_calls (app_service start_app).2 ++ [Inc inflight_requests [] 1] ++ calls ++
      [Dec inflight_requests [];
       Inc http_requests [(u8 "method", http_method get_health); (u8 "path", route_path (http_path get_health));
                          (u8 "status", int_repr (status response))] 1;
       Observe http_request_duration [(u8 "method", http_method get_health);
                                      (u8 "path", route_path (http_path get_health))] d]
      ++ (if unexpected : bool then [Inc errors [(u8 "error_type", u8 "INTERNAL_ERROR")] 1] else []) ∧
    Forall inner_call calls ∧
    (unexpected = true → response = answer_of id (Err (EOther []))) ∧
    dict_get X_REQUEST_ID (resp_headers response) = Some id ∧
    app_log a' = app_log start_app ++ before ++
      [(Some id, completed_line id (http_method get_health) (route_path (http_path get_health)) (status response) d)]
      ++ after ∧
    Forall (λ l, inner_record (l.2)) (before ++ after).
Proof.
  exact (http_outcome_recorded regex_detectors policies (u8 "default") get_health start_app (start_admits _)).
Defined.

Lemma logs_hold_no_payload_witness :
  ∃ added,
    app_log (serve_all regex_detectors policies (u8 "default") (first :: traffic) start_app) = app_log start_app ++ added ∧
    Forall (λ l, ∃ req rid, req ∈ first :: traffic ∧
                   match rid with Some id => request_id_match id = true | None => True end ∧
                   (l.1 = rid ∨ l.1 = context_id (world_of start_app)) ∧
                   safe_line policies (mkContext (http_method req) rid) (l.2)) added.
Proof.
  exact (logs_hold_no_payload regex_detectors policies (u8 "default") policies_wired one_uuid_safe (first :: traffic)
    start_app start_ok (Forall_cons_2 _ _ _ first_fits traffic_fits)).
Defined.

(** *** Under a policy with a misspelt rule *)

Definition misspelt_policy : ConsumerPolicy :=
  mkPolicy (cp_consumer_id default_policy) (cp_enabled default_policy) (cp_enabled_types default_policy)
    (cp_masking default_policy) (cp_demasking_enabled default_policy)
    (OList [ODict [(u8 "type", OStr (u8 "PIN_CODE")); (u8 "requires", OList [OStr (u8 "BANK_CARD")])]]).
Definition misspelt : list (pystr * ConsumerPolicy) := [(u8 "default", misspelt_policy)].

Lemma misspelt_wired : wiring_ok (V := Z) misspelt.
Proof.
  split; [intros w; simpl; lia|]. intros consumer policy. unfold get_policy, misspelt. cbn [dict_get].
  destruct (decide _) as [_|_]; [|done]. cbn [cp_enabled misspelt_policy default_policy]. intros [= <-].
  vm_compute. reflexivity.
Qed.

Definition rendered (l : log_line) : option pystr * pystr := (l.1, getMessage (l.2)).

(** The engine's warning is a line of the request's log, under its id. *)
Example engine_warning_logged :
  rendered <$> app_log (serve_http regex_detectors misspelt (u8 "default") first start_app).2 =
    [(Some (u8 "r-1"), u8 "context rule has unknown PII type 'PIN_CODE'; skipped");
     (Some (u8 "r-1"), u8 "process_completed"); (Some (u8 "r-1"), u8 "http_request_completed")].
Proof. vm_compute. reflexivity. Qed.

(** The first post under that policy adds three lines, the engine's among
    them, and each is written with the id it returns. *)
Lemma log_lines_correlated_witness :
  ∃ added id,
    app_log (serve_http regex_detectors misspelt (u8 "default") first start_app).2 = app_log start_app ++ added ∧
    length added = 3%nat ∧
    ∀ timestamp var r, (var, r) ∈ added →
      dict_get (u8 "request_id") (format_payload timestamp (opt_str var) r) = Some (OStr id).
Proof.
  pose proof (log_lines_correlated regex_detectors misspelt (u8 "default") misspelt_wired one_uuid_safe first start_app
    first_fits start_ok) as Hlog.
  assert (Hlen : length (app_log (serve_http regex_detectors misspelt (u8 "default") first start_app).2) = 3%nat)
    by (vm_compute; reflexivity).
  assert (Hid : ∃ id, dict_get X_REQUEST_ID
      (resp_headers (serve_http regex_detectors misspelt (u8 "default") first start_app).1) = Some id)
    by (eexists; vm_compute; reflexivity).
  destruct (serve_http _ _ _ first start_app) as [response a]. destruct Hlog as (added & Hl & Hr).
  destruct Hid as [id Hid]. exists added, id. cbn [fst snd] in *. rewrite Hl in Hlen. split; [exact Hl|].
  split; [exact Hlen|]. exact (proj2 (Hr id Hid)).
Defined.
