(* ===== verification/SmokeTest.v ===== *)
(** * The smoke test ([scripts/smoke_test.py])

    The client of [scripts/smoke_test.py] over the application: its requests
    are served one after the other, what it prints is kept, and it stops at
    the first assertion that does not hold.  It passes against the assembled
    service. *)

From S2P Require Import Prelude Unicode Domain PyStr Utf8 Hashes Json RateLimit Metrics Resolution Logging.
From S2P Require Import Regex Validators Detector Strategies Masking Policy Restoration World StoreInterface.
From S2P Require Import MemoryStore Process Service Api ApiRuns.

Definition ORIGINAL : pystr := u8 "Напишите мне на test@example.com или +7 999 123-45-67".

(** How the script can stop: an assertion with its message, [json()] without
    the key, and a result that is no text (which the service never sends). *)
Inductive failure :=
  | AssertionError (message : pystr)
  | NoResult
  | NotText.

Section Client.
Context {A : Type}.
(** The service as [httpx] reaches it, and the requests it builds. *)
Context (serve : http_request → A → http_response * A).
Context (get_request : pystr → http_request) (post_json : pystr → pystr → http_request).

Abbreviation client := (stateM (A * list pystr) failure).

Definition send (req : http_request) : client http_response := λ '(a, out),
  let '(response, a) := serve req a in (Ok response, (a, out)).
Definition print (line : pystr) : client unit := λ '(a, out), (Ok tt, (a, out ++ [line])).
Definition assert_ (b : bool) (message : pystr) : client unit :=
  if b then sret tt else sraise (AssertionError message).

Definition client_get (path : pystr) : client http_response := send (get_request path).
Definition client_post (payload payload_id : pystr) : client http_response := send (post_json payload payload_id).

Definition field (key : pystr) (response : http_response) : option pyobj :=
  match content response with ODict d => dict_get key d | _ => None end.

(** [response.json()\["result"\]]. *)
Definition json_result (response : http_response) : client pystr :=
  match field (u8 "result") response with
  | Some (OStr text) => sret text
  | Some _ => sraise NotText
  | None => sraise NoResult
  end.

(** [health.json() == {"status": "ok"}]. *)
Definition status_ok (response : http_response) : bool :=
  match content response with
  | ODict [(k, OStr v)] => bool_decide (k = u8 "status") && bool_decide (v = u8 "ok")
  | _ => false
  end.

Definition main : client unit :=
  health <-- client_get (u8 "/health");
  _ <-- assert_ (status health =? 200) (u8 "health failed: " ++ int_repr (status health));
  _ <-- assert_ (status_ok health) [];
  _ <-- print (u8 "health: ok");
  let payload_id := u8 "smoke-1" in
  mask <-- client_post ORIGINAL payload_id;
  _ <-- assert_ (status mask =? 200) (u8 "mask failed: " ++ int_repr (status mask));
  masked <-- json_result mask;
  _ <-- assert_ (negb (bool_decide (masked = ORIGINAL))) [];
  _ <-- print (u8 "mask: ok");
  mask_retry <-- client_post ORIGINAL payload_id;
  retried <-- json_result mask_retry;
  _ <-- assert_ (bool_decide (retried = masked)) [];
  _ <-- print (u8 "mask retry: ok");
  demask <-- client_post masked payload_id;
  _ <-- assert_ (status demask =? 200) (u8 "demask failed: " ++ int_repr (status demask));
  demasked <-- json_result demask;
  _ <-- assert_ (bool_decide (demasked = ORIGINAL)) [];
  _ <-- print (u8 "demask: ok");
  demask_retry <-- client_post masked payload_id;
  again <-- json_result demask_retry;
  _ <-- assert_ (bool_decide (again = ORIGINAL)) [];
  _ <-- print (u8 "demask retry: ok");
  print (u8 "smoke test passed").
End Client.

(** ** Runs *)

#[local] Existing Instance plain_interpreter.
#[local] Existing Instance ApiRuns.run_store.
#[local] Existing Instance one_uuid.
#[local] Existing Instance json_framework.

Definition post_to (text pid : pystr) : http_request :=
  mkHttp (u8 "POST") (u8 "/process") []
    match json_dumps (ODict [(u8 "payload", OStr text); (u8 "payload_id", OStr pid)]) with
    | Some s => match utf8_encode s with Ok b => b | Err _ => [] end
    | None => []
    end.
Definition get_at (path : pystr) : http_request := mkHttp (u8 "GET") path [] [].

Definition smoke (rate : Z) (a : app store_data Z) :=
  main serve_one get_at post_to (mkApp (app_service a) (new_limiter rate 1000) None, []).

Definition lines_of {A} (r : result failure unit * (A * list pystr)) : result failure unit * list pystr :=
  (r.1, r.2.2).

(** The smoke test passes against the assembled service. *)
Theorem smoke_test_passes :
  lines_of (smoke 4 start_app) = (Ok tt, [u8 "health: ok"; u8 "mask: ok"; u8 "mask retry: ok"; u8 "demask: ok";
    u8 "demask retry: ok"; u8 "smoke test passed"]).
Proof. vm_compute. reflexivity. Qed.
