(* ===== verification/Packaging.v ===== *)
(** * Submission packaging ([scripts/package_submission.py])

    Which files of a project tree go into the submission archive, and what an
    archive must look like to be accepted.  The tree is what [os.walk] sees;
    an archive is its entries and the verdict of [testzip]; installing and
    smoke-testing an unpacked archive is not modelled. *)

From S2P Require Import Prelude Unicode Domain PyStr.

Definition EXCLUDED_DIRS : list pystr :=
  [u8 ".git"; u8 ".kilo"; u8 ".idea"; u8 ".vscode"; u8 ".venv"; u8 ".deps"; u8 "venv"; u8 "env"; u8 "__pycache__";
   u8 ".pytest_cache"; u8 ".mypy_cache"; u8 ".ruff_cache"; u8 "coverage"; u8 "htmlcov"; u8 "node_modules";
   u8 "target"; u8 "build"; u8 "dist"; u8 "out"; u8 "bin"; u8 "obj"; u8 "artifacts"; u8 ".egg-info"].
Definition EXCLUDED_SUFFIXES : list pystr := [u8 ".pyc"; u8 ".pyo"; u8 ".log"; u8 ".zip"].
Definition REQUIRED_FILES : list pystr :=
  [u8 "README.md"; u8 "pyproject.toml"; u8 "app/main.py"; u8 "configs/consumers/default.yaml"; u8 "Dockerfile";
   u8 "docker-compose.yml"; u8 ".env.example"; u8 "tests/conftest.py"; u8 "tests/unit/test_masking.py";
   u8 "scripts/package_submission.py"; u8 "docs/architecture.md"].

(** ** Paths *)

(** A [PurePosixPath]: its root and the parts after it. *)
Record path := mkPath { path_root : pystr; path_tail : list pystr }.

Definition path_parts (p : path) : list pystr :=
  match path_root p with [] => path_tail p | r => r :: path_tail p end.

(** [path.name]. *)
Definition path_name (p : path) : pystr := default [] (last (path_tail p)).

(** [path.suffix]: from the last dot, unless it starts or ends the name. *)
Definition suffix (name : pystr) : pystr :=
  match rfind_nat [46] name with
  | Some i => if (0 <? Z.of_nat i) && (Z.of_nat i <? slen name - 1) then drop i name else []
  | None => []
  end.

(** [PurePosixPath(s)]: exactly two leading slashes are a root of their own,
    empty and ["."] parts are dropped. *)
Definition parse_path (s : pystr) : path :=
  let root := if startswith s [47; 47] && negb (startswith s [47; 47; 47]) then [47; 47]
              else if startswith s [47] then [47] else [] in
  mkPath root (filter (λ part, part ≠ [] ∧ part ≠ [46]) (split_char s 47)).

Definition relative_path (parts : list pystr) : path := mkPath [] parts.
Definition as_posix (parts : list pystr) : pystr := join [47] parts.

Section Names.
Context `{U : UnicodeDB}.

Definition is_secret_environment_file (name : pystr) : bool :=
  startswith name (u8 ".env") && negb (bool_decide (name = u8 ".env.example")).

Definition is_pytest_temp_dir (name : pystr) : bool :=
  let lowered := str_lower name in
  startswith lowered (u8 ".pytest") || startswith lowered (u8 "pytest-") || str_in (u8 "pytest-basetemp") lowered
  || str_in (u8 "pytest-temp") lowered || str_in (u8 ".pytest") lowered.

(** A part that excludes everything below it. *)
Definition excluded_part (part : pystr) : bool :=
  bool_decide (part ∈ EXCLUDED_DIRS) || endswith part (u8 ".egg-info") || is_pytest_temp_dir part.

Definition is_excluded_relative (p : path) : bool :=
  is_secret_environment_file (path_name p)
  || bool_decide (str_lower (suffix (path_name p)) ∈ EXCLUDED_SUFFIXES)
  || existsb excluded_part (path_parts p).

Definition unsafe_archive_name (name : pystr) : bool :=
  let normalized := parse_path (str_replace name [92] [47]) in
  negb (bool_decide (path_root normalized = []))
  || match path_parts normalized with [] => true | first :: _ => endswith first [58] end
  || bool_decide ([46; 46] ∈ path_parts normalized).

(** ** The project tree *)

Inductive node :=
  | File (data : bytes)
  | Symlink
  | Dir (entries : list (pystr * node)).

Definition name_leb {A} (a b : pystr * A) : bool := str_leb a.1 b.1.

Definition is_dir (n : node) : bool := match n with Dir _ => true | _ => false end.

(** The loop over the file names of one directory. *)
Definition files_here (excluded : list (list pystr)) (dir : list pystr) (entries : list (pystr * node))
    : list (list pystr * bytes) :=
  omap (λ '(name, child),
    match child with
    | File data =>
        if bool_decide (dir ++ [name] ∈ excluded) || is_excluded_relative (relative_path (dir ++ [name]))
        then None else Some (dir ++ [name], data)
    | _ => None
    end) entries.

(** [os.walk] with the loop body of [collect_files]: the files of a directory
    in the order of their names, then its directories in theirs; links are
    neither collected nor followed. *)
Fixpoint walk (excluded : list (list pystr)) (dir : list pystr) (n : node) : list (list pystr * bytes) :=
  match n with
  | Dir entries =>
      let here := files_here excluded dir (sorted_by name_leb entries) in
      let below := (λ '(name, child),
                      (name, if is_dir child && negb (excluded_part name) then walk excluded (dir ++ [name]) child
                             else [])) <$> entries in
      here ++ concat (snd <$> sorted_by name_leb below)
  | _ => []
  end.

Definition posix_leb (a b : list pystr * bytes) : bool := str_leb (as_posix a.1) (as_posix b.1).

Definition collect_files (root : node) (excluded : list (list pystr)) : list (list pystr * bytes) :=
  sorted_by posix_leb (walk excluded [] root).

(** ** Archives *)

Record archive := mkArchive {
  entries : list (pystr * bytes);
  testzip : option pystr
}.

Definition names (z : archive) : list pystr := (entries z).*1.

Definition forbidden_name (name : pystr) : bool :=
  unsafe_archive_name name || is_excluded_relative (parse_path (str_replace name [92] [47])).

Definition validate_zip (z : archive) : result exn unit :=
  match testzip z with
  | Some _ => Err ERuntimeError
  | None =>
      match filter (λ name, forbidden_name name = true) (names z) with
      | _ :: _ => Err ERuntimeError
      | [] =>
          match filter (λ name, name ∉ names z) REQUIRED_FILES with
          | _ :: _ => Err ERuntimeError
          | [] => Ok tt
          end
      end
  end.

(** [build_zip]: [output], when it lies in the tree, is left out. *)
Definition build_zip (root : node) (output : option (list pystr)) : result exn archive :=
  let files := collect_files root (match output with Some p => [p] | None => [] end) in
  let z := mkArchive ((λ '(p, data), (as_posix p, data)) <$> files) None in
  _ ← validate_zip z;
  Ok z.
End Names.

(** [archive.testzip()] of entries just written finds nothing wrong, so
    [build_zip] makes an archive whose verdict is [None]. *)

(** ** The files of a tree *)

Fixpoint file_at (n : node) (p : list pystr) : option bytes :=
  match p, n with
  | [], File data => Some data
  | name :: p, Dir es => child ← dict_get name es; file_at child p
  | _, _ => None
  end.

(** Names as a file system has them: distinct within a directory, not empty,
    no slash, not ["."] or [".."]. *)
Definition name_ok (name : pystr) : Prop := name ≠ [] ∧ 47 ∉ name ∧ name ≠ [46] ∧ name ≠ [46; 46].

Inductive tree_ok : node → Prop :=
  | ok_file data : tree_ok (File data)
  | ok_link : tree_ok Symlink
  | ok_dir es : NoDup es.*1 → Forall (λ e, name_ok e.1 ∧ tree_ok e.2) es → tree_ok (Dir es).

Section NodeInd.
Context (P : node → Prop).
Context (Hfile : ∀ data, P (File data)) (Hlink : P Symlink) (Hdir : ∀ es, Forall (λ e, P e.2) es → P (Dir es)).

Fixpoint node_deep_ind (n : node) : P n :=
  match n with
  | File data => Hfile data
  | Symlink => Hlink
  | Dir es => Hdir es ((fix go es := match es return Forall (λ e, P e.2) es with
                                   | [] => Forall_nil_2 _
                                   | e :: es => Forall_cons_2 _ _ _ (node_deep_ind e.2) (go es)
                                   end) es)
  end.
End NodeInd.

Section Walk.
Context `{U : UnicodeDB} (excluded : list (list pystr)).

(** What puts the path [p] into the archive. *)
Definition wanted (p : list pystr) : Prop :=
  p ∉ excluded ∧ is_excluded_relative (relative_path p) = false.

Lemma last_app_singleton {A} (l : list A) x : last (l ++ [x]) = Some x.
Proof. apply last_snoc. Qed.

Lemma here_elem dir es p d :
  (p, d) ∈ files_here excluded dir es ↔ ∃ name, p = dir ++ [name] ∧ (name, File d) ∈ es ∧ wanted p.
Proof.
  unfold files_here. rewrite list_elem_of_omap. unfold wanted. split.
  - intros ([name child] & Hin & Hc). destruct child as [data| |]; try done.
    destruct (bool_decide _) eqn:He; [done|]. apply bool_decide_eq_false in He.
    destruct (is_excluded_relative _) eqn:Hx; [done|]. injection Hc as <- <-. by exists name.
  - intros (name & -> & Hin & He & Hx). exists (name, File d). split; [done|].
    rewrite bool_decide_eq_false_2, Hx by done. done.
Qed.

Lemma concat_elem {A} (x : A) (ls : list (list A)) : x ∈ concat ls ↔ ∃ l, l ∈ ls ∧ x ∈ l.
Proof. rewrite list_elem_of_In, in_concat. setoid_rewrite <-list_elem_of_In. naive_solver. Qed.

Lemma below_elem {A B} (g : pystr → A → list B) (es : list (pystr * A)) x :
  x ∈ concat (snd <$> sorted_by name_leb ((λ '(name, child), (name, g name child)) <$> es)) ↔
    ∃ name child, (name, child) ∈ es ∧ x ∈ g name child.
Proof.
  rewrite concat_elem. split.
  - intros (l & Hl & Hx). apply list_elem_of_fmap in Hl as ([name l'] & -> & Hin).
    rewrite elem_of_sorted_by in Hin. apply list_elem_of_fmap in Hin as ([name' child] & [= -> ->] & Hin). eauto.
  - intros (name & child & Hin & Hx). exists (g name child). split; [|done].
    apply list_elem_of_fmap. exists (name, g name child). split; [done|].
    rewrite elem_of_sorted_by. apply list_elem_of_fmap. by exists (name, child).
Qed.

Lemma walk_elem n dir p d :
  tree_ok n →
  (p, d) ∈ walk excluded dir n ↔
    ∃ q, p = dir ++ q ∧ q ≠ [] ∧ file_at n q = Some d ∧ existsb excluded_part (removelast q) = false ∧ wanted p.
Proof.
  revert dir. induction n as [data| |es IH] using node_deep_ind; intros dir Hok; cbn [walk].
  - split; [by intros ?%elem_of_nil|]. intros (q & _ & Hq & Hf & _). by destruct q.
  - split; [by intros ?%elem_of_nil|]. intros (q & _ & Hq & Hf & _). by destruct q.
  - inversion_clear Hok as [| |? Hnd Hes]. rewrite Forall_forall in IH, Hes.
    rewrite elem_of_app, here_elem, below_elem. setoid_rewrite elem_of_sorted_by. split.
    + intros [(name & -> & Hin & Hw)|(name & child & Hin & Hx)].
      * exists [name]. split; [done|]. split; [done|]. split; [|done].
        cbn [file_at]. by rewrite (dict_elem_get _ _ _ Hnd Hin).
      * destruct (is_dir child) eqn:Hd; [|by apply elem_of_nil in Hx].
        destruct (excluded_part name) eqn:He; [by apply elem_of_nil in Hx|]. cbn [andb negb] in Hx.
        apply (IH (name, child) Hin) in Hx as (q & -> & Hq & Hf & Hx & Hw); [|by apply (Hes _ Hin)].
        exists (name :: q). rewrite <-app_assoc in Hw |- *. split; [done|]. split; [done|].
        cbn [file_at]. rewrite (dict_elem_get _ _ _ Hnd Hin). split; [done|]. split; [|done].
        destruct q as [|y q]; [done|]. cbn [removelast existsb]. by rewrite He.
    + intros (q & -> & Hq & Hf & Hx & Hw). destruct q as [|name q]; [done|]. cbn [file_at] in Hf.
      destruct (dict_get name es) as [child|] eqn:Hget; [|done]. apply dict_get_elem in Hget as Hin.
      cbn [mbind option_bind] in Hf. destruct q as [|y q].
      * left. exists name. split; [done|]. split; [|done]. destruct child; try done. by injection Hf as ->.
      * right. exists name, child. split; [done|].
        cbn [removelast existsb] in Hx. apply orb_false_iff in Hx as [He Hx].
        assert (is_dir child = true) as -> by (by destruct child). rewrite He. cbn [andb negb].
        apply (IH (name, child) Hin); [by apply (Hes _ Hin)|]. exists (y :: q). by rewrite <-app_assoc.
Qed.

Lemma existsb_removelast {A} (f : A → bool) l : existsb f l = false → existsb f (removelast l) = false.
Proof.
  induction l as [|x l IH]; [done|]. cbn [existsb]. intros [Hx Hl]%orb_false_iff.
  destruct l as [|y l]; [done|]. cbn [removelast existsb] in *. rewrite Hx. by apply IH.
Qed.

Lemma collect_elem root p d :
  tree_ok root →
  (p, d) ∈ collect_files root excluded ↔ p ≠ [] ∧ file_at root p = Some d ∧ wanted p.
Proof.
  intros Hok. unfold collect_files. rewrite elem_of_sorted_by, walk_elem by done. split.
  - by intros (q & -> & ? & ? & _ & ?).
  - intros (Hp & Hf & Hw). exists p. split; [done|]. split; [done|]. split; [done|]. split; [|done].
    destruct Hw as [_ Hx]. unfold is_excluded_relative in Hx. apply orb_false_iff in Hx as [_ Hx].
    by apply existsb_removelast.
Qed.
End Walk.

(** ** Posix names and paths *)

Lemma as_posix_inj p q :
  p ≠ [] → q ≠ [] → Forall name_ok p → Forall name_ok q → as_posix p = as_posix q → p = q.
Proof.
  intros Hp Hq Hps Hqs Heq. assert (Hok : ∀ l, Forall name_ok l → Forall (λ p, 47 ∉ p) l).
  { intros l Hl. eapply Forall_impl; [exact Hl|]. by intros x (_ & ? & _). }
  rewrite <-(split_join 47 p), <-(split_join 47 q) by auto. unfold as_posix in Heq. by rewrite Heq.
Qed.

Lemma as_posix_head p ps : name_ok p → ∃ c s, as_posix (p :: ps) = c :: s ∧ c ≠ 47.
Proof.
  intros (Hne & Hs & _). destruct p as [|c p]; [done|]. apply not_elem_of_cons in Hs as [Hc _].
  unfold as_posix. cbn [join]. destruct ps; by do 2 eexists.
Qed.

(** The archive name of a path is read back as the path. *)
Lemma parse_as_posix ps : ps ≠ [] → Forall name_ok ps → parse_path (as_posix ps) = relative_path ps.
Proof.
  intros Hne Hps. destruct ps as [|p ps]; [done|]. pose proof Hps as [Hp _]%Forall_cons.
  destruct (as_posix_head p ps Hp) as (c & s & Hcs & Hc).
  unfold parse_path, relative_path. unfold as_posix in *.
  rewrite split_join; [|done|eapply Forall_impl; [exact Hps|]; by intros x (_ & ? & _)].
  assert (Hstart : ∀ l, startswith (join [47] (p :: ps)) (47 :: l) = false).
  { intros l. rewrite Hcs. unfold startswith. cbn [prefixb]. by rewrite (proj2 (Z.eqb_neq 47 c)). }
  rewrite !Hstart. cbn [andb]. f_equal. clear Hcs Hstart Hne Hp.
  induction Hps as [|q l (Hq & _ & Hq' & _) Hl IH]; [done|]. rewrite filter_cons_True by done. by f_equal.
Qed.

Lemma join_elem c ps x : x ∈ join [c] ps → x = c ∨ ∃ p, p ∈ ps ∧ x ∈ p.
Proof.
  induction ps as [|p ps IH]; [by intros ?%elem_of_nil|]. destruct ps as [|q ps]; cbn [join].
  - intros Hx. right. exists p. set_solver.
  - change ([c] ++ ?l) with (c :: l). rewrite elem_of_app, elem_of_cons.
    intros [Hx|[->|Hx]]; [right; exists p; set_solver|by left|].
    destruct (IH Hx) as [->|(r & Hr & Hx')]; [by left|right; exists r; set_solver].
Qed.

(** Tree paths are made of names. *)
Lemma file_at_names n p d : tree_ok n → file_at n p = Some d → Forall name_ok p.
Proof.
  revert n. induction p as [|name p IH]; intros n Hok Hf; [constructor|].
  destruct n as [data| |es]; try done. cbn [file_at] in Hf. destruct (dict_get name es) as [child|] eqn:Hget; [|done].
  cbn [mbind option_bind] in Hf. apply dict_get_elem in Hget. inversion_clear Hok as [| |? _ Hes].
  rewrite Forall_forall in Hes. destruct (Hes _ Hget) as [Hname Hchild]. constructor; [done|]. by eapply IH.
Qed.

Section Collect.
Context `{U : UnicodeDB} (excluded : list (list pystr)).

Lemma concat_perm {A} (l l' : list (list A)) : l ≡ₚ l' → concat l ≡ₚ concat l'.
Proof.
  induction 1 as [|x l l' _ IH|x y l|l1 l2 l3 _ IH1 _ IH2]; cbn [concat]; [done|by rewrite IH| |by rewrite IH1].
  by rewrite !(assoc_L (++)), (comm (++) x y).
Qed.

Lemma below_NoDup {A B} (g : pystr → A → list B) (es : list (pystr * A)) :
  NoDup es.*1 → (∀ name child, (name, child) ∈ es → NoDup (g name child)) →
  (∀ name child name' child' x, (name, child) ∈ es → (name', child') ∈ es →
     x ∈ g name child → x ∈ g name' child' → name = name') →
  NoDup (concat (snd <$> sorted_by name_leb ((λ '(name, child), (name, g name child)) <$> es))).
Proof.
  intros Hnd Hg Hdisj.
  assert (Hperm : concat (snd <$> sorted_by name_leb ((λ '(name, child), (name, g name child)) <$> es))
    ≡ₚ concat ((λ '(name, child), g name child) <$> es)).
  { assert ((λ '(name, child), g name child) <$> es = snd <$> ((λ '(name, child), (name, g name child)) <$> es)) as ->.
    { rewrite <-list_fmap_compose. apply list_fmap_ext. by intros i [??] _. }
    apply concat_perm, fmap_Permutation, sorted_by_perm. }
  rewrite Hperm. clear Hperm. induction es as [|[name child] es IH]; [constructor|].
  rewrite fmap_cons in Hnd. rewrite fmap_cons. apply NoDup_cons in Hnd as [Hname Hnd]. cbn [concat].
  apply NoDup_app. split; [apply Hg; set_solver|]. split.
  - intros x Hx Hin. apply concat_elem in Hin as (l & Hl & Hx').
    apply list_elem_of_fmap in Hl as ([name' child'] & -> & Hin).
    assert (name = name') as <- by (apply (Hdisj name child name' child' x); set_solver).
    apply Hname. by apply (list_elem_of_fmap_2 fst) in Hin.
  - apply IH; [done|intros; apply Hg; set_solver|]. intros n c n' c' x ????. apply (Hdisj n c n' c' x); set_solver.
Qed.

Lemma files_here_NoDup dir es : NoDup es.*1 → NoDup (files_here excluded dir es).
Proof.
  induction es as [|[name child] es IH]; [constructor|]. rewrite fmap_cons. intros [Hname Hnd]%NoDup_cons.
  unfold files_here. cbn [omap list_omap]. fold (files_here excluded dir es).
  destruct child as [data| |]; try by apply IH. destruct (_ || _); [by apply IH|].
  constructor; [|by apply IH]. intros Hin. apply here_elem in Hin as (name' & Heq & Hin & _).
  apply (inj (dir ++.)) in Heq. injection Heq as <-. apply Hname. by apply (list_elem_of_fmap_2 fst) in Hin.
Qed.

Lemma walk_NoDup n dir : tree_ok n → NoDup (walk excluded dir n).
Proof.
  revert dir. induction n as [data| |es IH] using node_deep_ind; intros dir Hok; cbn [walk]; try constructor.
  inversion_clear Hok as [| |? Hnd Hes]. rewrite Forall_forall in IH, Hes.
  assert (Hsub : ∀ name child x, (name, child) ∈ es →
    x ∈ (if is_dir child && negb (excluded_part name) then walk excluded (dir ++ [name]) child else []) →
    ∃ q, q ≠ [] ∧ x.1 = dir ++ name :: q).
  { intros name child [p d] Hin Hx. case_match; [|by apply elem_of_nil in Hx].
    apply walk_elem in Hx as (q & -> & Hq & _); [|by apply (Hes _ Hin)]. exists q. by rewrite <-app_assoc. }
  apply NoDup_app. split; [|split].
  - apply files_here_NoDup. by rewrite (fmap_Permutation fst _ _ (sorted_by_perm name_leb es)).
  - intros [p d] Hh Hb. apply here_elem in Hh as (name & -> & _). apply below_elem in Hb as (name' & child & Hin & Hx).
    destruct (Hsub _ _ _ Hin Hx) as (q & Hq & Heq). cbn in Heq. apply (inj (dir ++.)) in Heq. injection Heq as _ Heq.
    by destruct q.
  - apply (below_NoDup (λ name child,
      if is_dir child && negb (excluded_part name) then walk excluded (dir ++ [name]) child else []) es Hnd).
    + intros name child Hin. case_match; [|constructor]. apply (IH _ Hin). by apply (Hes _ Hin).
    + intros n c n' c' x Hin Hin' Hx Hx'. destruct (Hsub _ _ _ Hin Hx) as (q & _ & Hq).
      destruct (Hsub _ _ _ Hin' Hx') as (q' & _ & Hq'). rewrite Hq in Hq'.
      apply (inj (dir ++.)) in Hq'. by injection Hq'.
Qed.

Lemma posix_sorted root : StronglySorted (λ a b, posix_leb a b = true) (collect_files root excluded).
Proof.
  apply sorted_by_sorted; intros; [apply str_leb_total|by eapply str_leb_trans].
Qed.

(** What is collected is exactly the regular files of the tree that lie
    below no excluded directory, are no secret environment file, have no
    excluded suffix and are not the archive being written; each once, in the
    order of their names, whatever order the file system lists them in. *)
Theorem collect_files_exact root :
  tree_ok root →
  (∀ p d, (p, d) ∈ collect_files root excluded ↔
     p ≠ [] ∧ file_at root p = Some d ∧ p ∉ excluded ∧ is_excluded_relative (relative_path p) = false) ∧
  NoDup (collect_files root excluded) ∧
  StronglySorted (λ a b, str_leb (as_posix a.1) (as_posix b.1) = true) (collect_files root excluded) ∧
  (∀ root', tree_ok root' → (∀ p, p ≠ [] → file_at root' p = file_at root p) →
     collect_files root' excluded = collect_files root excluded).
Proof.
  intros Hok. assert (Hnd : ∀ r, tree_ok r → NoDup (collect_files r excluded)).
  { intros r Hr. unfold collect_files. rewrite sorted_by_perm. by apply walk_NoDup. }
  refine (conj _ (conj (Hnd _ Hok) (conj (posix_sorted root) _))).
  - intros p d. rewrite collect_elem by done. unfold wanted. done.
  - intros root' Hok' Hsame.
    assert (Helem : ∀ x, x ∈ collect_files root' excluded ↔ x ∈ collect_files root excluded).
    { intros [p d]. rewrite !collect_elem by done. split; intros (? & Hf & ?); (rewrite Hsame in Hf || rewrite <-Hsame in Hf); done. }
    apply (StronglySorted_unique_strong (λ a b, posix_leb a b = true)).
    + intros [p d] [p' d'] Hin Hin' Hle Hge. apply Helem in Hin.
      apply collect_elem in Hin as (Hp & Hf & _); [|done]. apply collect_elem in Hin' as (Hp' & Hf' & _); [|done].
      assert (p = p') as <-.
      { apply as_posix_inj; [done|done|by apply (file_at_names root p d)|by apply (file_at_names root p' d')|].
        by apply str_leb_antisym. }
      congruence.
    + apply posix_sorted.
    + apply posix_sorted.
    + apply NoDup_Permutation; auto.
Qed.
End Collect.

(** ** Archives *)

(** Names a Windows path would read differently: backslashes, and a first
    part that looks like a drive. *)
Definition portable (root : node) : Prop :=
  ∀ p d, file_at root p = Some d → Forall (λ name, 92 ∉ name) p ∧ (∀ first, head p = Some first → endswith first [58] = false).

Lemma filter_nil_iff {A} (P : A → Prop) `{!∀ x, Decision (P x)} l : filter P l = [] ↔ Forall (λ x, ¬ P x) l.
Proof.
  induction l as [|x l IH]; [done|]. rewrite filter_cons, Forall_cons. case_decide; naive_solver.
Qed.

Section Build.
Context `{U : UnicodeDB}.

Lemma posix_name_read p :
  p ≠ [] → Forall name_ok p → Forall (λ name, 92 ∉ name) p →
  parse_path (str_replace (as_posix p) [92] [47]) = relative_path p.
Proof.
  intros Hp Hok Hbs. assert (str_replace (as_posix p) [92] [47] = as_posix p) as ->; [|by apply parse_as_posix].
  apply replace_go_absent, find_char_absent. intros Hin. apply join_elem in Hin as [?|(q & Hq & Hin)]; [done|].
  rewrite Forall_forall in Hbs. by apply (Hbs q).
Qed.

Lemma wanted_allowed p :
  p ≠ [] → Forall name_ok p → Forall (λ name, 92 ∉ name) p →
  (∀ first, head p = Some first → endswith first [58] = false) →
  is_excluded_relative (relative_path p) = false → forbidden_name (as_posix p) = false.
Proof.
  intros Hp Hok Hbs Hdrive Hx. unfold forbidden_name, unsafe_archive_name.
  rewrite posix_name_read, Hx by done. unfold relative_path, path_parts. cbn [path_root path_tail].
  rewrite bool_decide_eq_true_2 by done. destruct p as [|first p]; [done|]. rewrite (Hdrive first) by done.
  rewrite bool_decide_eq_false_2; [done|]. intros Hin. rewrite Forall_forall in Hok.
  by destruct (Hok _ Hin) as (_ & _ & _ & ?).
Qed.

(** On a portable tree the archive built is accepted by the validation it
    runs, unless a required file is missing, which is the only way to fail;
    its entries are exactly the collected files, so no secret environment
    file, generated file or excluded directory is ever in it. *)
Theorem build_zip_spec root output :
  tree_ok root → portable root →
  let excluded := match output with Some p => [p] | None => [] end in
  match build_zip root output with
  | Ok z => validate_zip z = Ok tt ∧
      (∀ name d, (name, d) ∈ entries z ↔ ∃ p, name = as_posix p ∧ p ≠ [] ∧ file_at root p = Some d ∧
         p ∉ excluded ∧ is_excluded_relative (relative_path p) = false) ∧
      (∀ name, name ∈ names z → is_excluded_relative (parse_path name) = false ∧ unsafe_archive_name name = false)
  | Err e => e = ERuntimeError ∧
      ∃ r, r ∈ REQUIRED_FILES ∧ ∀ p d, (p, d) ∈ collect_files root excluded → as_posix p ≠ r
  end.
Proof.
  intros Hok Hport excluded. unfold build_zip. fold excluded.
  set (z := mkArchive _ None).
  assert (Hentry : ∀ name d, (name, d) ∈ entries z ↔ ∃ p, name = as_posix p ∧ p ≠ [] ∧ file_at root p = Some d ∧
    p ∉ excluded ∧ is_excluded_relative (relative_path p) = false).
  { intros name d. unfold z. cbn [entries]. rewrite list_elem_of_fmap. split.
    - intros ([p d'] & [= -> ->] & Hin). apply collect_elem in Hin as (? & ? & ? & ?); [by exists p|done].
    - intros (p & -> & ? & ? & ? & ?). exists (p, d). split; [done|]. by apply collect_elem. }
  assert (Hname : ∀ name, name ∈ names z → ∃ p d, name = as_posix p ∧ p ≠ [] ∧ file_at root p = Some d ∧
    is_excluded_relative (relative_path p) = false).
  { intros name Hin. apply list_elem_of_fmap in Hin as ([name' d] & -> & Hin).
    apply Hentry in Hin as (p & -> & ? & ? & ? & ?). by exists p, d. }
  assert (Hallowed : ∀ name, name ∈ names z → forbidden_name name = false).
  { intros name (p & d & -> & Hp & Hf & Hx)%Hname. destruct (Hport p d Hf).
    apply wanted_allowed; try done. by eapply file_at_names. }
  assert (filter (λ name, forbidden_name name = true) (names z) = []) as Hnone.
  { apply filter_nil_iff, Forall_forall. intros name Hin. by rewrite (Hallowed _ Hin). }
  assert (Hval : validate_zip z = match filter (λ name, name ∉ names z) REQUIRED_FILES with
                                  | _ :: _ => Err ERuntimeError | [] => Ok tt end).
  { unfold validate_zip. change (testzip z) with (@None pystr). cbv iota. by rewrite Hnone. }
  rewrite Hval. destruct (filter _ REQUIRED_FILES) as [|r l] eqn:Hreq; cbn [mbind result_bind].
  - split; [done|]. split; [exact Hentry|]. intros name Hin. destruct (Hname _ Hin) as (p & d & -> & Hp & Hf & Hx).
    pose proof (Hallowed _ Hin) as Hforb. unfold forbidden_name in Hforb. apply orb_false_iff in Hforb as [Hsafe _].
    split; [|done]. rewrite parse_as_posix; [done|done|by eapply file_at_names].
  - split; [done|]. assert (Hr : r ∈ r :: l) by set_solver. rewrite <-Hreq in Hr.
    apply list_elem_of_filter in Hr as [Hr Hin]. exists r. split; [done|].
    intros p d Hp Heq. apply Hr. subst r. unfold z, names. cbn [entries].
    apply list_elem_of_fmap. exists (as_posix p, d). split; [done|].
    apply list_elem_of_fmap. by exists (p, d).
Qed.

(** An archive is accepted exactly when it reads back intact, holds every
    required file, and no entry whose name escapes the directory it is
    unpacked in or is excluded from submissions. *)
Theorem validate_zip_spec z :
  validate_zip z = Ok tt ↔
    testzip z = None ∧ (∀ r, r ∈ REQUIRED_FILES → r ∈ names z) ∧
    ∀ name, name ∈ names z →
      is_excluded_relative (parse_path (str_replace name [92] [47])) = false ∧
      let p := parse_path (str_replace name [92] [47]) in
      path_root p = [] ∧ [46; 46] ∉ path_tail p ∧ ∃ first, head (path_tail p) = Some first ∧ endswith first [58] = false.
Proof.
  assert (Hsafe : ∀ name, forbidden_name name = false ↔
    is_excluded_relative (parse_path (str_replace name [92] [47])) = false ∧
      let p := parse_path (str_replace name [92] [47]) in
      path_root p = [] ∧ [46; 46] ∉ path_tail p ∧ ∃ first, head (path_tail p) = Some first ∧ endswith first [58] = false).
  { intros name. unfold forbidden_name, unsafe_archive_name. set (p := parse_path _).
    rewrite !orb_false_iff, negb_false_iff, bool_decide_eq_true, bool_decide_eq_false. cbv zeta.
    destruct p as [[|c root] [|first tail]]; unfold path_parts; cbn [path_root path_tail head];
      naive_solver. }
  unfold validate_zip. destruct (testzip z) as [bad|]; [naive_solver|].
  destruct (filter (λ name, forbidden_name name = true) (names z)) as [|bad l] eqn:Hforb.
  - apply filter_nil_iff in Hforb. rewrite Forall_forall in Hforb.
    destruct (filter (λ name, name ∉ names z) REQUIRED_FILES) as [|r l] eqn:Hreq.
    + apply filter_nil_iff in Hreq. rewrite Forall_forall in Hreq. split; [intros _|done].
      split; [done|]. split; [intros r Hr; apply dec_stable; by apply Hreq|].
      intros name Hin. apply Hsafe, not_true_is_false. by apply Hforb.
    + split; [done|]. intros (_ & Hall & _). assert (Hr : r ∈ r :: l) by set_solver. rewrite <-Hreq in Hr.
      apply list_elem_of_filter in Hr as [Hr Hin]. by destruct (Hr (Hall r Hin)).
  - split; [done|]. intros (_ & _ & Hall). assert (Hb : bad ∈ bad :: l) by set_solver. rewrite <-Hforb in Hb.
    apply list_elem_of_filter in Hb as [Hb Hin]. apply Hall, Hsafe in Hin. congruence.
Qed.
End Build.

(** ** Witnesses *)

Definition file (name : pystr) : pystr * node := (name, File []).
Definition dir (name : pystr) (es : list (pystr * node)) : pystr * node := (name, Dir es).

(** A small project with a secret, a cache and a link in it. *)
Definition sample_tree : node := Dir
  [file (u8 "README.md"); file (u8 "pyproject.toml"); file (u8 "Dockerfile"); file (u8 "docker-compose.yml");
   file (u8 ".env.example"); file (u8 ".env"); (u8 "link", Symlink);
   dir (u8 "app") [file (u8 "main.py"); dir (u8 "__pycache__") [file (u8 "main.pyc")]];
   dir (u8 "configs") [dir (u8 "consumers") [file (u8 "default.yaml")]];
   dir (u8 "tests") [file (u8 "conftest.py"); dir (u8 "unit") [file (u8 "test_masking.py")]];
   dir (u8 "scripts") [file (u8 "package_submission.py")]; dir (u8 "docs") [file (u8 "architecture.md")]].

Definition name_okb (name : pystr) : bool :=
  bool_decide (name ≠ [] ∧ 47 ∉ name ∧ name ≠ [46] ∧ name ≠ [46; 46]).

Fixpoint tree_okb (n : node) : bool :=
  match n with
  | Dir es => bool_decide (NoDup es.*1) && forallb (λ '(name, child), name_okb name && tree_okb child) es
  | _ => true
  end.

Lemma tree_okb_ok n : tree_okb n = true → tree_ok n.
Proof.
  induction n as [data| |es IH] using node_deep_ind; [constructor..|]. cbn [tree_okb].
  intros [Hnd%bool_decide_eq_true Hes]%andb_true_iff. constructor; [done|].
  rewrite forallb_forall in Hes. rewrite Forall_forall in IH |- *. intros [name child] Hin.
  pose proof (Hes _ (proj1 (list_elem_of_In _ _) Hin)) as [Hn Hc]%andb_true_iff.
  split; [by apply bool_decide_eq_true in Hn | by apply (IH _ Hin)].
Qed.

Lemma sample_tree_ok : tree_ok sample_tree.
Proof. apply tree_okb_ok. vm_compute. reflexivity. Qed.

(** Portability from the names in the tree. *)
Fixpoint names_in (n : node) : list pystr :=
  match n with Dir es => concat ((λ '(name, child), name :: names_in child) <$> es) | _ => [] end.

Lemma names_in_path n p d : file_at n p = Some d → Forall (λ name, name ∈ names_in n) p.
Proof.
  revert n. induction p as [|name p IH]; intros n Hf; [constructor|].
  destruct n as [data| |es]; try done. cbn [file_at] in Hf. destruct (dict_get name es) as [child|] eqn:Hget; [|done].
  cbn [mbind option_bind] in Hf. apply dict_get_elem in Hget. apply IH in Hf.
  assert (Hsub : ∀ x, x ∈ name :: names_in child → x ∈ names_in (Dir es)).
  { intros x Hx. cbn [names_in]. apply concat_elem. exists (name :: names_in child). split; [|done].
    apply list_elem_of_fmap. by exists (name, child). }
  constructor; [apply Hsub; set_solver|]. eapply Forall_impl; [exact Hf|]. intros x Hx. apply Hsub. set_solver.
Qed.

Lemma names_portable n :
  forallb (λ name, bool_decide (92 ∉ name) && negb (endswith name [58])) (names_in n) = true → portable n.
Proof.
  intros Hall p d Hf%names_in_path. rewrite forallb_forall in Hall.
  assert (Hn : ∀ name, name ∈ p → 92 ∉ name ∧ endswith name [58] = false).
  { intros name Hin. rewrite Forall_forall in Hf. apply Hf, list_elem_of_In, Hall, andb_true_iff in Hin as [H1 H2].
    apply bool_decide_eq_true in H1. by apply negb_true_iff in H2. }
  split; [apply Forall_forall; intros name Hin; by apply Hn|]. intros first Hfirst. apply Hn.
  destruct p; [done|]. injection Hfirst as ->. set_solver.
Qed.

Lemma sample_tree_portable : portable sample_tree.
Proof. apply names_portable. vm_compute. reflexivity. Qed.

Lemma sample_builds : is_ok (build_zip sample_tree (Some [u8 "submission.zip"])) = true.
Proof. vm_compute. reflexivity. Qed.

Lemma build_zip_spec_witness :
  ∃ z, build_zip sample_tree (Some [u8 "submission.zip"]) = Ok z ∧ validate_zip z = Ok tt ∧
    (∀ name, name ∈ names z → is_excluded_relative (parse_path name) = false ∧ unsafe_archive_name name = false).
Proof.
  pose proof (build_zip_spec sample_tree (Some [u8 "submission.zip"]) sample_tree_ok sample_tree_portable) as Hspec.
  pose proof sample_builds as Hok. destruct (build_zip sample_tree (Some [u8 "submission.zip"])) as [z|e].
  - exists z. split; [reflexivity|]. split; [exact (proj1 Hspec)|exact (proj2 (proj2 Hspec))].
  - discriminate Hok.
Defined.

Lemma collect_files_exact_witness :
  (u8 "app/main.py" ∈ as_posix <$> (collect_files sample_tree []).*1) ∧ NoDup (collect_files sample_tree []).
Proof.
  split; [apply (bool_decide_eq_true_1 _); vm_compute; reflexivity|].
  exact (proj1 (proj2 (collect_files_exact [] sample_tree sample_tree_ok))).
Defined.

(** Eleven files: the secret, the cache and the link stay out. *)
Example sample_archive :
  match build_zip sample_tree None with Ok z => names z = sorted_by str_leb REQUIRED_FILES | Err _ => False end.
Proof. vm_compute. reflexivity. Qed.

Example forbidden_names :
  forallb forbidden_name [u8 "../secret.txt"; u8 "/absolute.txt"; u8 ".env.secret"; u8 ".git/config"; u8 "x.pyc";
                          u8 "C:/x"; u8 "a\..\b"; []] = true.
Proof. vm_compute. reflexivity. Qed.
