(* ===== verification/PackageRun.v ===== *)
(** * Submission packaging: the command ([scripts/package_submission.py])

    [smoke_validate_zip], which unpacks an archive, installs it and runs it,
    and [main].  The archives of the disk, temporary directories, the
    processes that are started and the search for [pytest] are the host's. *)

From S2P Require Import Prelude Unicode Domain PyStr Utf8 Hashes Json Packaging.

Class BuildHost (W : Type) := {
  sys_executable : pystr;
  read_zip : pystr → stateM W exn archive;         (* zipfile.ZipFile(path, "r") *)
  write_zip : pystr → archive → stateM W exn unit;
  file_size : pystr → stateM W exn Z;              (* path.stat().st_size *)
  source_tree : W → node;                          (* PROJECT_ROOT *)
  inside_tree : pystr → option (list pystr);       (* a path relative to it *)
  resolve : pystr → pystr;
  parent : pystr → pystr;
  make_temp : stateM W exn pystr;
  remove_temp : pystr → stateM W exn unit;
  mkdir : pystr → stateM W exn unit;               (* with parents, unless it exists *)
  extractall : archive → pystr → stateM W exn unit;
  process_run : list pystr → pystr → stateM W exn Z;  (* subprocess.run: the exit code *)
  find_pytest : W → bool
}.

Definition CalledProcessError : exn := EOther (u8 "subprocess.CalledProcessError").

Definition SMOKE : pystr := u8
  "from fastapi.testclient import TestClient; from app.main import app; c = TestClient(app); r = c.post('/process', json={'payload': 'test@example.com', 'payload_id': 'smoke'}); assert r.status_code == 200, r.text; masked = r.json()['result']; r2 = c.post('/process', json={'payload': masked, 'payload_id': 'smoke'}); assert r2.status_code == 200 and r2.json()['result'] == 'test@example.com', r2.text; print('smoke ok')".

(** The command line. *)
Record arguments := mkArguments {
  a_output : pystr;
  a_validate_only : option pystr;
  a_smoke_only : option pystr
}.

Section Run.
Context {W : Type} `{U : UnicodeDB, !BuildHost W}.

(** The host, the processes that ended with their exit codes, what was
    printed, and the temporary directories in use. *)
Record run_state := mkRun {
  host : W;
  ended : list (list pystr * Z);
  printed : list pystr;
  temps : list pystr
}.
Definition runM (A : Type) : Type := stateM run_state exn A.

Definition on_host {A} (m : stateM W exn A) : runM A := λ st,
  let '(r, w) := m (host st) in (r, mkRun w (ended st) (printed st) (temps st)).
Definition print (line : pystr) : runM unit := λ st,
  (Ok tt, mkRun (host st) (ended st) (printed st ++ [line]) (temps st)).

(** [subprocess.run(command, cwd=dir, ...)] and its exit code. *)
Definition subprocess_run (command : list pystr) (dir : pystr) : runM Z := λ st,
  match process_run command dir (host st) with
  | (Ok code, w) => (Ok code, mkRun w (ended st ++ [(command, code)]) (printed st) (temps st))
  | (Err e, w) => (Err e, mkRun w (ended st) (printed st) (temps st))
  end.

(** ... with [check=True]. *)
Definition checked_run (command : list pystr) (dir : pystr) : runM unit :=
  code <-- subprocess_run command dir;
  if code =? 0 then sret tt else sraise CalledProcessError.

(** [with tempfile.TemporaryDirectory() as tmp]. *)
Definition with_temp {A} (body : pystr → runM A) : runM A := λ st,
  match on_host make_temp st with
  | (Ok tmp, st) =>
      let '(r, st) := body tmp (mkRun (host st) (ended st) (printed st) (tmp :: temps st)) in
      match on_host (remove_temp tmp) st with
      | (Ok _, st) => (r, mkRun (host st) (ended st) (printed st) (tail (temps st)))
      | (Err e, st) => (Err e, st)
      end
  | (Err e, st) => (Err e, st)
  end.

Definition _dev_deps_available : runM bool := λ st, (Ok (find_pytest (host st)), st).

Definition pip_install (what : pystr) : list pystr :=
  [sys_executable; u8 "-m"; u8 "pip"; u8 "install"; u8 "-e"; what].
Definition smoke_command : list pystr := [sys_executable; u8 "-c"; SMOKE].
Definition pytest_command (basetemp : pystr) : list pystr :=
  [sys_executable; u8 "-m"; u8 "pytest"; u8 "tests/integration/test_process.py"; u8 "-q"; u8 "--basetemp"; basetemp].

Definition pytest_subset (extract_dir : pystr) : runM unit :=
  available <-- _dev_deps_available;
  if negb (available : bool) then print (u8 "smoke pytest subset skipped: dev toolchain (pytest) not available")
  else
    _ <-- checked_run (pip_install (u8 ".[dev]")) extract_dir;
    let pytest_basetemp := extract_dir ++ u8 "/.pytest-temp" in
    _ <-- on_host (mkdir pytest_basetemp);
    code <-- subprocess_run (pytest_command pytest_basetemp) extract_dir;
    if negb (code =? 0) then sraise ERuntimeError
    else print (u8 "smoke pytest subset: ok").

Definition checked_zip (path : pystr) : runM archive :=
  z <-- on_host (read_zip path);
  _ <-- slift (validate_zip z);
  sret z.

Definition smoke_validate_zip (output_path : pystr) : runM unit :=
  _ <-- checked_zip output_path;
  _ <-- with_temp (λ tmp,
    let extract_dir := tmp ++ u8 "/extract" in
    _ <-- on_host (mkdir extract_dir);
    z <-- on_host (read_zip output_path);
    _ <-- on_host (extractall z extract_dir);
    _ <-- checked_run (pip_install (u8 ".")) extract_dir;
    _ <-- checked_run smoke_command extract_dir;
    pytest_subset extract_dir);
  print (u8 "Smoke-validated " ++ resolve output_path).

(** [build_zip(args.output)]: the archive is on the disk when it is validated. *)
Definition build (output_path : pystr) : runM unit :=
  tree <-- (λ st, (Ok (source_tree (host st)), st));
  let output_path := resolve output_path in
  _ <-- on_host (mkdir (parent output_path));
  let files := collect_files tree (match inside_tree output_path with Some p => [p] | None => [] end) in
  _ <-- on_host (write_zip output_path (mkArchive ((λ '(p, data), (as_posix p, data)) <$> files) None));
  _ <-- checked_zip output_path;
  size <-- on_host (file_size output_path);
  print (u8 "Created " ++ output_path ++ u8 " with " ++ int_repr (slen files) ++ u8 " files (" ++
         int_repr size ++ u8 " bytes, validated)").

Definition main (args : arguments) : runM Z :=
  match a_smoke_only args with
  | Some path => _ <-- smoke_validate_zip path; sret 0
  | None =>
      match a_validate_only args with
      | Some path =>
          _ <-- checked_zip path;
          _ <-- print (u8 "Validated " ++ resolve path);
          sret 0
      | None => _ <-- build (a_output args); sret 0
      end
  end.
End Run.

(** ** What acceptance rests on *)

Section Facts.
Context {W : Type} `{U : UnicodeDB, !BuildHost W}.

Lemma on_host_Ok {A} (m : stateM W exn A) st a st' :
  on_host m st = (Ok a, st') →
  (∃ w, m (host st) = (Ok a, w)) ∧ ended st' = ended st ∧ temps st' = temps st.
Proof. unfold on_host. destruct (m (host st)) as [r w]. intros [= -> <-]. split_and!; [by exists w|done|done]. Qed.

Lemma print_Ok line st a st' :
  print (W := W) line st = (Ok a, st') → ended st' = ended st ∧ temps st' = temps st.
Proof. by intros [= _ <-]. Qed.

Lemma run_Ok command dir st code st' :
  subprocess_run (W := W) command dir st = (Ok code, st') →
  ended st' = ended st ++ [(command, code)] ∧ temps st' = temps st.
Proof. unfold subprocess_run. destruct (process_run _ _ _) as [[c|e] w]; [|done]. by intros [= <- <-]. Qed.

Lemma checked_Ok command dir st a st' :
  checked_run (W := W) command dir st = (Ok a, st') →
  ended st' = ended st ++ [(command, 0)] ∧ temps st' = temps st.
Proof.
  unfold checked_run. intros (code & st1 & Hrun%run_Ok & Hc)%sbind_Ok. revert Hc.
  destruct (Z.eqb_spec code 0) as [->|]; [|done]. by intros [= _ <-].
Qed.

Lemma checked_zip_Ok path st z st' :
  checked_zip (W := W) path st = (Ok z, st') →
  (∃ w w', read_zip path w = (Ok z, w')) ∧ validate_zip z = Ok tt ∧ ended st' = ended st ∧ temps st' = temps st.
Proof.
  unfold checked_zip. intros (z' & st1 & Hread & (u & st2 & Hv & Hret)%sbind_Ok)%sbind_Ok.
  apply on_host_Ok in Hread as ((w & Hread) & He & Ht). injection Hret as <- <-. unfold slift in Hv.
  injection Hv as Hv <-. destruct u. split_and!; [by do 2 eexists|done|done|done].
Qed.

Lemma with_temp_Ok {A} (body : pystr → runM A) st a st' :
  with_temp (W := W) body st = (Ok a, st') →
  ∃ tmp st1 st2, ended st1 = ended st ∧ temps st1 = tmp :: temps st ∧ body tmp st1 = (Ok a, st2) ∧
    ended st' = ended st2 ∧ temps st' = tail (temps st2).
Proof.
  unfold with_temp. destruct (on_host make_temp st) as [[tmp|e] st0] eqn:Hmake; [|done].
  apply on_host_Ok in Hmake as (_ & He & Ht). set (st1 := mkRun _ _ _ _).
  destruct (body tmp st1) as [r st2] eqn:Hbody. destruct (on_host (remove_temp tmp) st2) as [[u|e] st3] eqn:Hrem; [|done].
  apply on_host_Ok in Hrem as (_ & He3 & Ht3). intros [= -> <-]. exists tmp, st1, st2. cbn [ended temps st1].
  split_and!; [done|by rewrite Ht|done|done|by rewrite Ht3].
Qed.

(** The processes of an accepted archive, in order. *)
Definition smoke_processes (extract_dir : pystr) (pytest : bool) : list (list pystr) :=
  [pip_install (W := W) (u8 "."); smoke_command] ++
  if pytest then [pip_install (u8 ".[dev]"); pytest_command (extract_dir ++ u8 "/.pytest-temp")] else [].

Lemma pytest_subset_Ok dir st a st' :
  pytest_subset (W := W) dir st = (Ok a, st') →
  temps st' = temps st ∧ ended st' = ended st ++
    ((λ c, (c, 0)) <$> if find_pytest (host st)
                       then [pip_install (u8 ".[dev]"); pytest_command (dir ++ u8 "/.pytest-temp")] else []).
Proof.
  unfold pytest_subset. intros (b & st1 & Hb & Hrest)%sbind_Ok. injection Hb as <- <-.
  destruct (find_pytest (host st)); cbn [negb fmap list_fmap] in *.
  - apply sbind_Ok in Hrest as (u & st2 & [He Ht]%checked_Ok & (u' & st3 & Hmk & (code & st4 & [He4 Ht4]%run_Ok & Hc)%sbind_Ok)%sbind_Ok).
    apply on_host_Ok in Hmk as (_ & He3 & Ht3). revert Hc.
    destruct (Z.eqb_spec code 0) as [->|]; [|done]. intros [Hep Htp]%print_Ok.
    split; [congruence|]. by rewrite Hep, He4, He3, He, <-(assoc_L (++)).
  - apply print_Ok in Hrest as [He Ht]. by rewrite app_nil_r.
Qed.

(** An archive passes the smoke test only if it is valid and every process
    started for it ended with code 0: the installation, the mask and demask
    script, and, when pytest can be found, the installation of the
    development tools and the tests; the temporary directory is gone. *)
Theorem smoke_accepts path st st' :
  smoke_validate_zip (W := W) path st = (Ok tt, st') →
  ∃ z extract_dir w w', read_zip path w = (Ok z, w') ∧ validate_zip z = Ok tt ∧ temps st' = temps st ∧
    ∃ st1, ended st' = ended st ++ ((λ c, (c, 0)) <$> smoke_processes extract_dir (find_pytest (host st1))).
Proof.
  unfold smoke_validate_zip. intros (z & st1 & Hz & (u & st2 & Htemp & Hprint)%sbind_Ok)%sbind_Ok.
  apply checked_zip_Ok in Hz as ((w & w' & Hread) & Hv & He1 & Ht1). apply print_Ok in Hprint as [He' Ht'].
  apply with_temp_Ok in Htemp as (tmp & sa & sb & Hea & Hta & Hbody & He2 & Ht2).
  apply sbind_Ok in Hbody as (u1 & s1 & (_ & Hm1 & Hm2)%on_host_Ok & Hbody).
  apply sbind_Ok in Hbody as (z' & s2 & (_ & Hr1 & Hr2)%on_host_Ok & Hbody).
  apply sbind_Ok in Hbody as (u2 & s3 & (_ & Hx1 & Hx2)%on_host_Ok & Hbody).
  apply sbind_Ok in Hbody as (u3 & s4 & [Hi1 Hi2]%checked_Ok & Hbody).
  apply sbind_Ok in Hbody as (u4 & s5 & [Hs1 Hs2]%checked_Ok & Hsub).
  apply pytest_subset_Ok in Hsub as [Ht5 He5].
  exists z, (tmp ++ u8 "/extract"), w, w'. split_and!; [done|done| |].
  - rewrite Ht', Ht2, Ht5, Hs2, Hi2, Hx2, Hr2, Hm2, Hta. done.
  - exists s5. rewrite He', He2, He5, Hs1, Hi1, Hx1, Hr1, Hm1, Hea, He1, <-!(assoc_L (++)).
    unfold smoke_processes. by rewrite fmap_app, <-!(assoc_L (++)).
Qed.
End Facts.

(** ** Runs *)

(** A disk of archives; every process ends with 0 but, where [tests_pass] is
    false, the tests. *)
Record machine := mkMachine {
  disk : list (pystr * archive);
  has_pytest : bool;
  tests_pass : bool
}.

#[local] Instance sample_host : BuildHost machine := {|
  sys_executable := u8 "python";
  read_zip path m := (match dict_get path (disk m) with Some z => Ok z | None => Err (EOther (u8 "FileNotFoundError")) end, m);
  write_zip path z m := (Ok tt, mkMachine (dict_set path z (disk m)) (has_pytest m) (tests_pass m));
  file_size path m := (Ok 1000, m);
  source_tree m := sample_tree;
  inside_tree path := Some [path];
  resolve path := path;
  parent path := u8 ".";
  make_temp m := (Ok (u8 "/tmp/t"), m);
  remove_temp tmp m := (Ok tt, m);
  mkdir path m := (Ok tt, m);
  extractall z path m := (Ok tt, m);
  process_run command dir m :=
    (Ok (if bool_decide (u8 "pytest" ∈ command) && negb (tests_pass m) then 1 else 0), m);
  find_pytest m := has_pytest m
|}.

Definition zip_path : pystr := u8 "submission.zip".
Definition start (pytest pass : bool) : run_state := mkRun (mkMachine [] pytest pass) [] [] [].
Definition then_smoke (pytest pass : bool) : result exn Z * run_state :=
  (_ <-- main (mkArguments zip_path None None); main (mkArguments zip_path None (Some zip_path))) (start pytest pass).

(** An archive is built, validated and smoke-tested; tests that fail are not
    passed over. *)
Example smoke_runs :
  (then_smoke true true).1 = Ok 0 ∧
  printed (then_smoke true true).2 =
    [u8 "Created submission.zip with 11 files (1000 bytes, validated)"; u8 "smoke pytest subset: ok";
     u8 "Smoke-validated submission.zip"] ∧
  slen (ended (then_smoke true true).2) = 4 ∧
  (then_smoke true false).1 = Err ERuntimeError ∧ temps (then_smoke true false).2 = [] ∧
  (then_smoke false false).1 = Ok 0 ∧ slen (ended (then_smoke false false).2) = 2.
Proof. vm_compute. split_and!; reflexivity. Qed.

Lemma smoke_accepts_witness :
  ∃ z dir st1, validate_zip z = Ok tt ∧ ended (then_smoke true true).2 =
    ((λ c, (c, 0)) <$> smoke_processes (W := machine) dir (find_pytest (host st1))).
Proof.
  set (st := (main (mkArguments zip_path None None) (start true true)).2).
  assert (Hst : ended st = []) by (vm_compute; reflexivity).
  assert (Hend : ended (then_smoke true true).2 = ended (smoke_validate_zip zip_path st).2) by (vm_compute; reflexivity).
  assert (Hok : (smoke_validate_zip zip_path st).1 = Ok tt) by (vm_compute; reflexivity).
  rewrite Hend. destruct (smoke_validate_zip zip_path st) as [r st'] eqn:Hrun. cbn [fst snd] in *. rewrite Hok in Hrun.
  destruct (smoke_accepts zip_path st st' Hrun) as (z & dir & w & w' & _ & Hv & _ & st1 & He).
  exists z, dir, st1. split; [exact Hv|]. rewrite He, Hst. reflexivity.
Defined.
