(* ===== verification/Benchmark.v ===== *)
(** * The load benchmark ([scripts/benchmark.py])

    What one simulated user does against [POST /process], the counters the
    users share, and the exit code.  A counter is only ever incremented under
    its lock, so a run is the list of what happened, in any order the threads
    interleave it.  The HTTP client is a third party. *)

From Stdlib Require Import QArith.Qround.
From S2P Require Import Prelude Unicode Domain PyStr Hashes Json Format Strategies Restoration World Validators Metrics Logging Llm.

(** [ORIGINAL] and [MASKED_SENTINELS]. *)
Definition ORIGINAL : pystr :=
  u8 "Клиент Иванов Иван Иванович, паспорт 4509 123456, ИНН 7707083893, " ++
  u8 "карта 4111 1111 1111 1111, телефон +7 999 123-45-67, " ++
  u8 "email test@example.com, дата рождения 15.03.1990".
Definition MASKED_SENTINELS : list pystr :=
  [u8 "test@example.com"; u8 "+7 999 123-45-67"; u8 "4111 1111 1111 1111"; u8 "7707083893"; u8 "4509 123456";
   u8 "Иванов Иван Иванович"].

(** ** Counters *)

Inductive counter :=
  | total_requests | mask_attempts | demask_attempts | successful_mask | successful_demask
  | http_2xx | http_429 | functional_errors | transport_errors.

#[export] Instance counter_eq_dec : EqDecision counter.
Proof. solve_decision. Defined.

(** What happens to the counters. *)
Inductive event :=
  | Bump (c : counter)
  | Latency (ms : Q).

(** [_Counters]: the value of every counter, and the latencies. *)
Record counters := mkCounters {
  count : counter → Z;
  latencies : list Q
}.

Definition new_counters : counters := mkCounters (λ _, 0) [].

Definition bump (c : counter) (s : counters) : counters :=
  mkCounters (λ c', if decide (c' = c) then count s c' + 1 else count s c') (latencies s).
Definition record_latency (ms : Q) (s : counters) : counters := mkCounters (count s) (latencies s ++ [ms]).

Definition happen (s : counters) (e : event) : counters :=
  match e with Bump c => bump c s | Latency ms => record_latency ms s end.

(** The counters after the events, in the order the locks were taken. *)
Definition tally (es : list event) : counters := fold_left happen es new_counters.

(** ** One user *)

(** The answer of the service as [httpx] gives it: [response.json()] may
    raise. *)
Record answer := mkAnswer {
  ans_status : Z;
  ans_headers : list (pystr * pystr);
  ans_json : result exn pyobj
}.

(** [client.post("/process", json=...)]; [is_http_error] says which exceptions
    are [httpx.HTTPError]. *)
Class BenchClient (W : Type) := {
  post : pystr → pystr → stateM W exn answer;
  is_http_error : exn → bool
}.

Section User.
Context {W : Type} `{!BenchClient W, !World W, !UuidSource W}.

(** A user's state: the world and what has happened so far. *)
Definition userM (A : Type) : Type := stateM (W * list event) exn A.

Definition note (e : event) : userM unit := λ '(w, es), (Ok tt, (w, es ++ [e])).
Definition in_w {A} (f : W → A * W) : userM A := λ '(w, es), let '(a, w) := f w in (Ok a, (w, es)).

(** [except (ValueError, KeyError, TypeError)]. *)
Definition is_parse_error (e : exn) : bool :=
  is_value_error e || bool_decide (e = EKeyError) || bool_decide (e = ETypeError).

(** The result of a 200 answer. *)
Definition read_result (response : answer) : userM (option pystr) :=
  match (o ← ans_json response; subscript o (u8 "result")) with
  | Err e => if is_parse_error e then _ <-- note (Bump functional_errors); sret None else sraise e
  | Ok (OStr s) => sret (Some s)
  | Ok _ => _ <-- note (Bump functional_errors); sret None
  end.

(** [_post]. *)
Definition _post (payload_id payload : pystr) : userM (option pystr) :=
  started <-- in_w perf_counter;
  λ '(w, es),
    match post payload_id payload w with
    | (Err e, w) =>
        (if is_http_error e then
           _ <-- note (Bump transport_errors); _ <-- note (Bump total_requests); sret None
         else sraise e) (w, es)
    | (Ok response, w) =>
        (stopped <-- in_w perf_counter;
         _ <-- note (Latency ((stopped - started) * 1000));
         _ <-- note (Bump total_requests);
         if ans_status response =? 429 then
           _ <-- note (Bump http_429);
           match dict_get (u8 "retry-after") (ans_headers response) with
           | None => _ <-- note (Bump functional_errors); sret None
           | Some _ => sret None
           end
         else if negb (ans_status response =? 200) then
           _ <-- note (Bump functional_errors); sret None
         else
           _ <-- note (Bump http_2xx);
           read_result response) (w, es)
    end.

(** One turn of the loop of [_run_user]. *)
Definition user_turn : userM unit :=
  payload_id <-- in_w uuid4;
  _ <-- note (Bump mask_attempts);
  masked <-- _post payload_id ORIGINAL;
  match masked with
  | None => sret tt
  | Some masked =>
      _ <-- note (Bump successful_mask);
      if existsb (λ sentinel, str_in sentinel masked) MASKED_SENTINELS then note (Bump functional_errors)
      else
        _ <-- note (Bump demask_attempts);
        demasked <-- _post payload_id masked;
        match demasked with
        | None => sret tt
        | Some demasked =>
            _ <-- note (Bump successful_demask);
            if bool_decide (demasked = ORIGINAL) then sret tt else note (Bump functional_errors)
        end
  end.

(** The loop, for at most [fuel] turns; [None]: the fuel did not last until
    the deadline. *)
Fixpoint turns (fuel : nat) (deadline : Z) : userM (option unit) :=
  match fuel with
  | O => sret None
  | S fuel =>
      now <-- in_w monotonic;
      if now <? deadline then _ <-- user_turn; turns fuel deadline else sret (Some tt)
  end.

(** [_run_user]. *)
Definition run_user (fuel : nat) (duration : Z) : userM (option unit) :=
  now <-- in_w monotonic;
  turns fuel (now + duration).
End User.

(** ** The report *)

(** [percentile]. *)
Definition percentile (values : list Q) (p : Q) : Q :=
  match values with
  | [] => 0%Q
  | _ =>
      let values := sorted_by Qle_bool values in
      let index := Z.min (slen values - 1) (Qfloor (inject_Z (slen values) * p)) in
      default 0%Q (values !! Z.to_nat index)
  end.

(** The exit code of [main]. *)
Definition exit_code (c : counters) : Z :=
  if negb (count c mask_attempts + count c demask_attempts =? count c total_requests) then 3
  else if count c total_requests =? 0 then 2
  else if negb (count c functional_errors =? 0) || negb (count c transport_errors =? 0) then 1
  else if (count c successful_mask =? 0) || (count c successful_demask =? 0) then 1
  else 0.

(** [error_rate]. *)
Definition error_rate (c : counters) : Q :=
  if count c total_requests =? 0 then 0%Q
  else (inject_Z (count c functional_errors + count c transport_errors) / inject_Z (count c total_requests))%Q.

(** ** What is printed *)

(** The line on [stderr] that goes with an exit code other than 0. *)
Definition error_line (c : counters) : option pystr :=
  let n k := int_repr (count c k) in
  if negb (count c mask_attempts + count c demask_attempts =? count c total_requests) then
    Some (u8 "ERROR: counter mismatch: mask_attempts + demask_attempts != total_requests")
  else if count c total_requests =? 0 then Some (u8 "ERROR: no requests were made")
  else if negb (count c functional_errors =? 0) || negb (count c transport_errors =? 0) then
    Some (u8 "ERROR: functional/transport errors detected (functional=" ++ n functional_errors ++ u8 " transport="
          ++ n transport_errors ++ u8 ")")
  else if (count c successful_mask =? 0) || (count c successful_demask =? 0) then
    Some (u8 "ERROR: no successful mask/demask roundtrip (successful_mask=" ++ n successful_mask
          ++ u8 " successful_demask=" ++ n successful_demask ++ u8 ")")
  else None.

Definition mean (l : list Q) : Q := match l with [] => 0%Q | _ => (foldr Qplus 0 l / inject_Z (slen l))%Q end.

Definition report_lines (users : Z) (duration elapsed : Q) (c : counters) : list pystr :=
  let n k := int_repr (count c k) in
  let rps := if Qeq_bool elapsed 0 then 0%Q else (inject_Z (count c total_requests) / elapsed)%Q in
  let at_ p := fixed 2 (percentile (latencies c) p) ++ u8 "ms" in
  [u8 "users=" ++ int_repr users ++ u8 " duration=" ++ fixed 0 duration ++ u8 "s";
   u8 "achieved_rps=" ++ fixed 1 rps;
   u8 "total_requests=" ++ n total_requests;
   u8 "mask_attempts=" ++ n mask_attempts ++ u8 " demask_attempts=" ++ n demask_attempts ++ u8 " (successful_mask="
     ++ n successful_mask ++ u8 " successful_demask=" ++ n successful_demask ++ u8 ")";
   u8 "http_2xx=" ++ n http_2xx ++ u8 " http_429=" ++ n http_429;
   u8 "functional_errors=" ++ n functional_errors ++ u8 " transport_errors=" ++ n transport_errors;
   u8 "avg=" ++ fixed 2 (mean (latencies c)) ++ u8 "ms p50=" ++ at_ (1 # 2) ++ u8 " p95=" ++ at_ (95 # 100)
     ++ u8 " p99=" ++ at_ (99 # 100);
   u8 "error_rate=" ++ fixed 4 (error_rate c)].

(** [main] once the pool is done: what goes to [stdout] and [stderr], and the
    exit code. *)
Definition main_report (users : Z) (duration elapsed : Q) (c : counters) : list pystr * option pystr * Z :=
  (report_lines users duration elapsed c, error_line c, exit_code c).

(** An error is printed exactly when the exit code says so. *)
Lemma error_line_iff c : error_line c = None ↔ exit_code c = 0.
Proof. unfold error_line, exit_code. repeat case_match; done. Qed.

(** ** Accounting *)

Definition is_bump (c : counter) (e : event) : bool :=
  match e with Bump c' => bool_decide (c' = c) | Latency _ => false end.
Definition is_latency (e : event) : bool := match e with Latency _ => true | _ => false end.

Abbreviation bumps := (λ c, occurrences (is_bump c)).

Lemma tally_from es s c : count (fold_left happen es s) c = count s c + bumps c es.
Proof.
  revert s. induction es as [|e es IH]; intros s; cbn [fold_left occurrences]; [lia|]. rewrite IH.
  destruct e as [c'|ms]; cbn [happen bump record_latency count is_bump]; [|lia].
  destruct (decide (c' = c)) as [->|Hne].
  - rewrite decide_True, bool_decide_eq_true_2 by done. lia.
  - rewrite decide_False, bool_decide_eq_false_2 by congruence. lia.
Qed.

Lemma tally_count es c : count (tally es) c = bumps c es.
Proof. unfold tally. rewrite tally_from. cbn. lia. Qed.

Lemma tally_latencies es : slen (latencies (tally es)) = occurrences is_latency es.
Proof.
  unfold tally. assert (∀ s, slen (latencies (fold_left happen es s)) = slen (latencies s) + occurrences is_latency es) as Hall.
  { induction es as [|e es IH]; intros s; cbn [fold_left occurrences]; [lia|]. rewrite IH.
    destruct e; cbn [happen bump record_latency latencies is_latency]; [lia|]. rewrite slen_app. change (slen [ms]) with 1. lia. }
  apply Hall.
Qed.

(** The books of a list of events. *)
Record balanced (es : list event) : Prop := {
  every_post : bumps total_requests es = bumps mask_attempts es + bumps demask_attempts es;
  mask_subset : bumps successful_mask es <= bumps mask_attempts es;
  demask_subset : bumps successful_demask es <= bumps demask_attempts es;
  demask_after_mask : bumps demask_attempts es <= bumps successful_mask es;
  successes_are_200 : bumps successful_mask es + bumps successful_demask es <= bumps http_2xx es;
  answers : bumps http_2xx es + bumps http_429 es + bumps transport_errors es <= bumps total_requests es;
  other_answers : bumps total_requests es <=
    bumps http_2xx es + bumps http_429 es + bumps transport_errors es + bumps functional_errors es;
  timed_answers : occurrences is_latency es = bumps total_requests es - bumps transport_errors es
}.

Lemma balanced_nil : balanced [].
Proof. split; done. Qed.
Lemma balanced_app es es' : balanced es → balanced es' → balanced (es ++ es').
Proof. intros [] []. split; rewrite !occurrences_app; lia. Qed.
Lemma balanced_perm es es' : es ≡ₚ es' → balanced es → balanced es'.
Proof. intros Hp [?????]. split; rewrite <-!(occurrences_perm _ _ _ Hp); lia. Qed.
Lemma balanced_concat ess : Forall balanced ess → balanced (concat ess).
Proof. induction 1; [apply balanced_nil|]. by apply balanced_app. Qed.

Section UserFacts.
Context {W : Type} `{!BenchClient W, !World W, !UuidSource W}.

(** What one [_post] adds. *)
Record post_events (r : option pystr) (d : list event) : Prop := {
  pe_total : bumps total_requests d = 1;
  pe_quiet : bumps mask_attempts d = 0 ∧ bumps demask_attempts d = 0 ∧ bumps successful_mask d = 0 ∧
             bumps successful_demask d = 0;
  pe_answer : bumps http_2xx d + bumps http_429 d + bumps transport_errors d <= 1;
  pe_other : 1 <= bumps http_2xx d + bumps http_429 d + bumps transport_errors d + bumps functional_errors d;
  pe_timed : occurrences is_latency d = 1 - bumps transport_errors d;
  pe_success : is_Some r → bumps http_2xx d = 1
}.

Lemma note_run e (w : W) es : note e (w, es) = (Ok tt, (w, es ++ [e])).
Proof. done. Qed.

Ltac books := repeat split; try (intros [? [=]]); vm_compute; congruence.

Lemma post_spec payload_id payload (w : W) es r w' es' :
  _post payload_id payload (w, es) = (Ok r, (w', es')) → ∃ d, es' = es ++ d ∧ post_events r d.
Proof.
  unfold _post, sbind at 1, in_w at 1. destruct (perf_counter w) as [t0 w0].
  destruct (post payload_id payload w0) as [[response|e] w1].
  2:{ destruct (is_http_error e); [|by intros [=]]. unfold sbind. rewrite !note_run. intros [= <- <- <-].
      eexists. rewrite <-app_assoc. split; [reflexivity|]. split; (done || by intros [? [=]]). }
  unfold in_w. unfold sbind at 1. destruct (perf_counter w1) as [t1 w2].
  unfold sbind at 1. rewrite note_run. unfold sbind at 1. rewrite note_run.
  destruct (ans_status response =? 429); [|destruct (ans_status response =? 200)]; cbn [negb].
  - unfold sbind at 1. rewrite note_run. destruct (dict_get _ _); unfold sbind; rewrite ?note_run; unfold sret;
      intros [= <- <- <-]; eexists; (rewrite <-!app_assoc; split; [reflexivity|]); split; (done || by intros [? [=]]).
  - unfold sbind at 1. rewrite note_run. unfold read_result. set (parsed := ans_json response ≫= _).
    assert (Hdone : ∀ x, (sret x : userM (W := W) (option pystr)) (w2, ((es ++ [Latency ((t1 - t0) * 1000)])
        ++ [Bump total_requests]) ++ [Bump http_2xx]) = (Ok r, (w', es')) → ∃ d, es' = es ++ d ∧ post_events r d).
    { intros x [= <- <- <-]. eexists. rewrite <-!app_assoc. split; [reflexivity|]. by split. }
    destruct parsed as [o|e].
    + destruct o; try (unfold sbind; rewrite note_run; unfold sret; intros [= <- <- <-]; eexists;
        rewrite <-!app_assoc; split; [reflexivity|]; by split). apply Hdone.
    + destruct (is_parse_error e); [|by intros [=]]. unfold sbind. rewrite note_run. unfold sret. intros [= <- <- <-].
      eexists. rewrite <-!app_assoc. split; [reflexivity|]. by split.
  - unfold sbind. rewrite note_run. unfold sret. intros [= <- <- <-]. eexists. rewrite <-!app_assoc.
    split; [reflexivity|]. split; (done || by intros [? [=]]).
Qed.

(** Evaluates the counts of listed events. *)
Ltac count_bumps :=
  rewrite !occurrences_app;
  repeat match goal with
  | |- context [occurrences ?f (?e :: ?l)] =>
      let v := eval vm_compute in (if f e then 1 else 0) in
      change (occurrences f (e :: l)) with (v + occurrences f l)
  end;
  repeat match goal with |- context [occurrences ?f []] => change (occurrences f []) with 0 end.

(** One turn keeps the books. *)
Lemma turn_spec (w : W) es w' es' :
  user_turn (w, es) = (Ok tt, (w', es')) → ∃ d, es' = es ++ d ∧ balanced d.
Proof.
  unfold user_turn, in_w. unfold sbind at 1. destruct (uuid4 w) as [pid w0].
  unfold sbind at 1. rewrite note_run.
  intros (masked & [w1 es1] & Hpost & Hrest)%sbind_Ok. apply post_spec in Hpost as (d & -> & Hd).
  destruct masked as [masked|].
  2:{ injection Hrest as <- <-. exists ([Bump mask_attempts] ++ d). rewrite app_assoc. split; [done|].
      destruct Hd as [? (? & ? & ? & ?) ? ? ? _]. pose proof (occurrences_nonneg (is_bump http_2xx) d).
      split; count_bumps; lia. }
  unfold sbind at 1 in Hrest. rewrite note_run in Hrest.
  assert (Hd2 : bumps http_2xx d = 1) by (by apply Hd).
  destruct (existsb _ _).
  { rewrite note_run in Hrest. injection Hrest as <- <-.
    exists ([Bump mask_attempts] ++ d ++ [Bump successful_mask] ++ [Bump functional_errors]).
    rewrite <-!app_assoc. split; [done|]. destruct Hd as [? (? & ? & ? & ?) ? ? ? _].
    split; count_bumps; lia. }
  unfold sbind at 1 in Hrest. rewrite note_run in Hrest.
  apply sbind_Ok in Hrest as (demasked & [w2 es2] & Hpost & Hrest). apply post_spec in Hpost as (d2 & -> & Hd').
  assert (Hfinal : ∃ f, es' = (((((es ++ [Bump mask_attempts]) ++ d) ++ [Bump successful_mask]) ++ [Bump demask_attempts])
    ++ d2) ++ f ∧ ((f = [] ∧ demasked = None) ∨
                   (∃ g, f = Bump successful_demask :: g ∧ is_Some demasked ∧ (g = [] ∨ g = [Bump functional_errors])))).
  { destruct demasked as [x|].
    - unfold sbind in Hrest. rewrite note_run in Hrest. case_bool_decide.
      + injection Hrest as <- <-. exists [Bump successful_demask]. split; [done|]. right. exists []. naive_solver.
      + rewrite note_run in Hrest. injection Hrest as <- <-. exists [Bump successful_demask; Bump functional_errors].
        rewrite <-!app_assoc. split; [done|]. right. exists [Bump functional_errors]. naive_solver.
    - injection Hrest as <- <-. exists []. rewrite app_nil_r. split; [done|]. by left. }
  destruct Hfinal as (f & -> & Hf).
  exists ([Bump mask_attempts] ++ d ++ [Bump successful_mask] ++ [Bump demask_attempts] ++ d2 ++ f).
  rewrite <-!app_assoc. split; [done|].
  destruct Hd as [? (? & ? & ? & ?) ? ? ? _], Hd' as [? (? & ? & ? & ?) ? ? ? Hsome].
  destruct Hf as [[-> _]|(g & -> & Hx & Hg)].
  - pose proof (occurrences_nonneg (is_bump http_2xx) d2). split; count_bumps; lia.
  - specialize (Hsome Hx). destruct Hg as [-> | ->]; split; count_bumps; lia.
Qed.

Lemma turns_spec fuel deadline (w : W) es w' es' :
  turns fuel deadline (w, es) = (Ok (Some tt), (w', es')) → ∃ d, es' = es ++ d ∧ balanced d.
Proof.
  revert w es. induction fuel as [|fuel IH]; intros w es; cbn [turns]; [by intros [=]|].
  unfold in_w. unfold sbind at 1. destruct (monotonic w) as [now w1]. destruct (now <? deadline).
  - intros ([] & [w2 es2] & Hturn & Hrest)%sbind_Ok.
    apply turn_spec in Hturn as (d & -> & Hd). apply IH in Hrest as (d' & -> & Hd').
    exists (d ++ d'). rewrite app_assoc. split; [done|]. by apply balanced_app.
  - intros [= <- <-]. exists []. rewrite app_nil_r. split; [done|apply balanced_nil].
Qed.

Definition completed (es : list event) : Prop :=
  ∃ fuel duration (w w' : W), run_user fuel duration (w, []) = (Ok (Some tt), (w', es)).

Lemma completed_balanced es : completed es → balanced es.
Proof.
  intros (fuel & duration & w & w' & Hrun). unfold run_user, in_w in Hrun. unfold sbind at 1 in Hrun.
  destruct (monotonic w) as [now w1]. by apply turns_spec in Hrun as (d & -> & Hd).
Qed.

(** C32: the report adds up, however the users' threads interleave.  When every
    user has finished: each POST was a mask or a demask attempt, the successes
    are among the attempts and the 200 answers, every request that is neither
    200, 429 nor a transport error is a functional error, and every answer is
    timed; so the reconciliation error (exit 3) cannot occur, and exit 0 means
    that there were requests, no errors, and a mask and a demask that worked. *)
Theorem benchmark_reconciles (traces : list (list event)) es :
  Forall completed traces → es ≡ₚ concat traces →
  let c := count (tally es) in
  c total_requests = c mask_attempts + c demask_attempts ∧
  c successful_mask <= c mask_attempts ∧ c successful_demask <= c demask_attempts <= c successful_mask ∧
  c successful_mask + c successful_demask <= c http_2xx ∧
  c http_2xx + c http_429 + c transport_errors <= c total_requests ∧
  c total_requests <= c http_2xx + c http_429 + c transport_errors + c functional_errors ∧
  slen (latencies (tally es)) = c total_requests - c transport_errors ∧
  exit_code (tally es) ≠ 3 ∧
  (exit_code (tally es) = 0 ↔
     0 < c total_requests ∧ c functional_errors = 0 ∧ c transport_errors = 0 ∧
     0 < c successful_mask ∧ 0 < c successful_demask).
Proof.
  intros Hc Hp c. assert (Hb : balanced es).
  { eapply balanced_perm; [symmetry; exact Hp|]. apply balanced_concat. eapply Forall_impl; [exact Hc|].
    apply completed_balanced. }
  assert (Hcount : ∀ k, c k = bumps k es) by (intros k; apply tally_count).
  assert (Hpos : ∀ k, 0 <= c k) by (intros k; rewrite Hcount; apply occurrences_nonneg).
  destruct Hb. rewrite tally_latencies. unfold exit_code.
  rewrite !tally_count, <-!Hcount in *. 
  pose proof (Hpos total_requests). pose proof (Hpos functional_errors). pose proof (Hpos transport_errors).
  pose proof (Hpos successful_mask). pose proof (Hpos successful_demask).
  rewrite (proj2 (Z.eqb_eq _ _)) by lia. cbn [negb].
  refine (conj _ (conj _ (conj _ (conj _ (conj _ (conj _ (conj _ (conj _ _)))))))); try lia.
  - repeat case_match; lia.
  - destruct (Z.eqb_spec (c total_requests) 0); [lia|].
    destruct (Z.eqb_spec (c functional_errors) 0), (Z.eqb_spec (c transport_errors) 0); cbn [negb orb]; try lia.
    destruct (Z.eqb_spec (c successful_mask) 0), (Z.eqb_spec (c successful_demask) 0); cbn [orb]; lia.
Qed.

(** ** The loop ends *)

(** One more turn after [fuel] turns that did not reach the deadline. *)
Lemma turns_more fuel deadline s s' :
  turns fuel deadline s = (Ok None, s') →
  turns (S fuel) deadline s =
    sbind (in_w monotonic) (λ now, if now <? deadline then sbind user_turn (λ _, sret None) else sret (Some tt)) s'.
Proof.
  revert s. induction fuel as [|fuel IH]; intros [w es].
  - intros [= <-]. cbn [turns]. unfold sbind, in_w. by destruct (monotonic w).
  - intros Hrun. cbn [turns] in Hrun. cbn [turns]. unfold sbind at 1 in Hrun. unfold sbind at 1. unfold in_w at 1 in Hrun.
    unfold in_w at 1. destruct (monotonic w) as [now w1]. destruct (now <? deadline); [|done].
    unfold sbind at 1 in Hrun. unfold sbind at 1. destruct (user_turn (w1, es)) as [[[]|e] s1]; [|done].
    by apply IH.
Qed.

(** A user stops at its first reading of the clock past its deadline:
    whatever its turns have done, once [time.monotonic()] has passed the
    deadline the loop returns, and nothing more happens. *)
Theorem benchmark_user_stops `{!WorldLaws W} fuel duration (w w1 : W) es es1 :
  run_user fuel duration (w, es) = (Ok None, (w1, es1)) → (monotonic w).1 + duration <= clock w1 →
  run_user (S fuel) duration (w, es) = (Ok (Some tt), ((monotonic w1).2, es1)).
Proof.
  unfold run_user. intros Hrun Hclk. unfold sbind at 1 in Hrun. unfold sbind at 1. unfold in_w at 1 in Hrun.
  unfold in_w at 1. destruct (monotonic w) as [now w0]. cbn [fst snd] in *.
  apply turns_more in Hrun as ->. unfold sbind, in_w. pose proof (monotonic_after w1).
  destruct (monotonic w1) as [now1 w2]. cbn [fst snd] in *. by destruct (Z.ltb_spec now1 (now + duration)); [lia|].
Qed.
End UserFacts.

(** ** Percentiles *)

(** How many values are at most, and how many below, a bound. *)
Definition at_most (v : Q) (l : list Q) : Z := slen (filter (λ x, Qle_bool x v = true) l).
Definition below (v : Q) (l : list Q) : Z := slen (filter (λ x, Qle_bool v x = false) l).

Lemma Qle_bool_total x y : Qle_bool x y = true ∨ Qle_bool y x = true.
Proof. rewrite !Qle_bool_iff. destruct (Qlt_le_dec x y); [left; by apply Qlt_le_weak|by right]. Qed.
Lemma Qle_bool_trans x y z : Qle_bool x y = true → Qle_bool y z = true → Qle_bool x z = true.
Proof. rewrite !Qle_bool_iff. apply Qle_trans. Qed.

Lemma sorted_take_all (l : list Q) k v :
  StronglySorted (λ x y, Qle_bool x y = true) l → l !! k = Some v →
  Z.of_nat k + 1 <= at_most v l ∧ below v l <= Z.of_nat k.
Proof.
  unfold at_most, below. intros Hs. revert k. induction Hs as [|x l Hs IH Hx]; intros k Hk; [done|].
  rewrite Forall_forall in Hx. destruct k as [|k].
  - injection Hk as <-. assert (Qle_bool x x = true) as Hrefl by (apply Qle_bool_iff, Qle_refl).
    rewrite (filter_cons_True _ x), (filter_cons_False _ x) by congruence.
    assert (filter (λ y, Qle_bool x y = false) l = []) as ->.
    { clear -Hx. induction l as [|y l IH]; [done|]. rewrite filter_cons_False by (rewrite Hx; set_solver).
      apply IH. set_solver. }
    unfold slen. cbn [length]. lia.
  - cbn in Hk. apply IH in Hk as Hk'. assert (Qle_bool x v = true) as Hxv by (apply Hx; by eapply list_elem_of_lookup_2).
    rewrite (filter_cons_True _ x) by done. rewrite (filter_cons _ x). unfold slen in *.
    case_decide; cbn [length] in *; lia.
Qed.

(** [percentile] is the nearest-rank percentile: one of the values, at
    least which a share of more than [p] of them do not exceed (all, for the
    last one), while at most a share of [p] is smaller. *)
Theorem percentile_rank (values : list Q) (p : Q) :
  values ≠ [] → (0 <= p)%Q →
  let v := percentile values p in
  v ∈ values ∧ (inject_Z (below v values) <= inject_Z (slen values) * p)%Q ∧
  (at_most v values = slen values ∨ (inject_Z (slen values) * p < inject_Z (at_most v values))%Q).
Proof.
  intros Hne Hp v. set (l := sorted_by Qle_bool values).
  assert (Hperm : l ≡ₚ values) by apply sorted_by_perm.
  assert (Hsorted : StronglySorted (λ x y, Qle_bool x y = true) l)
    by (apply sorted_by_sorted; [apply Qle_bool_total|apply Qle_bool_trans]).
  assert (Hlen : slen l = slen values) by (unfold slen; by rewrite Hperm).
  assert (Hpos : 0 < slen values) by (destruct values; [done|unfold slen; cbn [length]; lia]).
  set (r := Qfloor (inject_Z (slen values) * p)).
  assert (Hr : 0 <= r).
  { change 0 with (Qfloor 0). apply Qfloor_resp_le. apply Qmult_le_0_compat; [|done].
    change 0%Q with (inject_Z 0). rewrite <-Zle_Qle. lia. }
  pose proof (Qfloor_le (inject_Z (slen values) * p)) as Hfl.
  pose proof (Qlt_floor (inject_Z (slen values) * p)) as Hfu. fold r in Hfl, Hfu.
  set (k := Z.to_nat (Z.min (slen values - 1) r)).
  assert (Hv : ∃ x, l !! k = Some x).
  { apply lookup_lt_is_Some. unfold slen in *. lia. }
  destruct Hv as [x Hx]. assert (v = x) as ->.
  { assert (v = default 0%Q (l !! Z.to_nat (Z.min (slen l - 1) (Qfloor (inject_Z (slen l) * p))))) as ->.
    { unfold v, l, percentile. clear -Hne. destruct values; [by destruct Hne|reflexivity]. }
    rewrite Hlen. fold r k. by rewrite Hx. }
  assert (Hcount : ∀ (P : Q → Prop) `{!∀ x, Decision (P x)}, slen (filter P values) = slen (filter P l))
    by (intros P ?; unfold slen; by rewrite Hperm).
  destruct (sorted_take_all l k x Hsorted Hx) as [Ham Hbe].
  assert (below x values = below x l ∧ at_most x values = at_most x l) as [-> ->] by (split; apply Hcount).
  split; [rewrite <-Hperm; by eapply list_elem_of_lookup_2|]. split.
  - eapply Qle_trans; [|exact Hfl]. rewrite <-Zle_Qle. lia.
  - destruct (Z.le_gt_cases (slen values - 1) r).
    + left. assert (at_most x l <= slen l); [|lia]. unfold at_most, slen. pose proof (length_filter (λ y, Qle_bool y x = true) l). lia.
    + right. eapply Qlt_le_trans; [exact Hfu|]. rewrite <-Zle_Qle. lia.
Qed.

(** ** Witnesses *)

(** A service that masks the benchmark's text and gives it back. *)
#[local] Instance honest_client : BenchClient Z := {|
  post payload_id payload w :=
    (Ok (mkAnswer 200 [] (Ok (ODict [(u8 "result",
       OStr (if bool_decide (payload = ORIGINAL) then u8 "***" else ORIGINAL))]))), w + 1);
  is_http_error e := true
|}.
#[local] Instance bench_uuid : UuidSource Z := λ w, (u8 "id", w + 1).

Definition sample_trace : list event := (run_user 10 20 (0, [])).2.2.

Lemma sample_completed : completed sample_trace.
Proof. exists 10%nat, 20, 0, (run_user 10 20 (0, [])).2.1. vm_compute. reflexivity. Qed.

Lemma benchmark_reconciles_witness :
  exit_code (tally (sample_trace ++ sample_trace)) = 0 ∧ exit_code (tally (sample_trace ++ sample_trace)) ≠ 3.
Proof.
  split; [vm_compute; reflexivity|].
  assert (Hperm : sample_trace ++ sample_trace ≡ₚ concat [sample_trace; sample_trace])
    by (cbn [concat]; by rewrite app_nil_r).
  exact (proj1 (proj2 (proj2 (proj2 (proj2 (proj2 (proj2 (proj2 (benchmark_reconciles [sample_trace; sample_trace] _
    (Forall_cons_2 _ _ _ sample_completed (Forall_cons_2 _ _ _ sample_completed (Forall_nil_2 _))) Hperm))))))))).
Defined.

Lemma benchmark_user_stops_witness :
  ∃ es, run_user 1 3 (0, []) = (Ok (Some tt), es) ∨ (run_user 1 3 (0, [])).1 = Ok None ∧ run_user 2 3 (0, []) = (Ok (Some tt), es).
Proof.
  destruct (run_user 1 3 (0, [])) as [r [w1 es1]] eqn:Hrun.
  assert (Hn : (run_user 1 3 (0, [])).1 = Ok None ∧ 3 <= clock (run_user 1 3 (0, [])).2.1) by (vm_compute; split; [reflexivity|discriminate]).
  rewrite Hrun in Hn. destruct Hn as [Hr Hclk]. cbn [fst snd] in Hr, Hclk. subst r.
  eexists. right. split; [reflexivity|]. exact (benchmark_user_stops 1 3 0 w1 [] es1 Hrun Hclk).
Defined.

Lemma percentile_rank_witness :
  let v := percentile [3 # 1; 1 # 1; 2 # 1]%Q (95 # 100) in
  v ∈ [3 # 1; 1 # 1; 2 # 1]%Q ∧ at_most v [3 # 1; 1 # 1; 2 # 1]%Q = 3.
Proof.
  assert (Hne : [3 # 1; 1 # 1; 2 # 1]%Q ≠ []) by discriminate.
  assert (Hp : (0 <= 95 # 100)%Q) by (intros [=]).
  split; [exact (proj1 (percentile_rank _ (95 # 100) Hne Hp))|vm_compute; reflexivity].
Defined.
