(* ===== verification/Score.v ===== *)
(** * Scoring the detector ([benchmarks/score.py])

    Span-level true and false positives and false negatives per type over the
    cases of a dataset, the metrics, and the quality gate.  The dataset is
    taken as read from its YAML file.  The metrics are exact rationals. *)

From Stdlib Require Import QArith.Qfield QArith.Qabs Lqa.
From S2P Require Import Prelude Unicode Domain PyStr Json Format Strategies Masking Resolution.

(** [_span_key]. *)
Definition span_key : Type := pystr * Z * Z.

Record case := mkCase {
  case_id : pystr;
  case_text : pystr;
  case_expected : list (span_key * pystr)
}.

Definition MIN_RECALL : Q := 1 # 2.
Definition MIN_OVERALL_RECALL : Q := 8 # 10.
Definition MIN_OVERALL_F1 : Q := 8 # 10.

(** [_REQUIRED_TYPES], sorted when they are visited. *)
Definition REQUIRED_TYPES : list pystr :=
  sorted_by str_leb
    (pii_value <$> [PERSON_NAME; BIRTH_DATE; BIRTH_PLACE; PASSPORT_NUMBER; CITIZENSHIP; PASSPORT_ISSUER;
                    PASSPORT_DIVISION_CODE; PASSPORT_ISSUE_DATE; DRIVER_LICENSE; ADDRESS; COUNTRY; POSTAL_CODE; CITY;
                    STREET; HOUSE; APARTMENT; EMAIL; PHONE; INN; BANK_CARD; CVV; PIN; CARDHOLDER_NAME]).

(** [defaultdict(int)]. *)
Definition tallies : Type := list (pystr * Z).
Definition tally_of (t : pystr) (d : tallies) : Z := default 0 (dict_get t d).
Definition incr (t : pystr) (d : tallies) : tallies := dict_set t (tally_of t d + 1) d.

Record score := mkScore {
  tp : tallies;
  fp : tallies;
  fn : tallies;
  false_positives : list (pystr * pystr * pystr)
}.

Definition no_score : score := mkScore [] [] [] [].

Definition key_type (k : span_key) : pystr := k.1.1.

(** [{_span_key(...): value for e in found}]. *)
Definition spans_dict (l : list (span_key * pystr)) : list (span_key * pystr) :=
  fold_left (λ d '(k, v), dict_set k v d) l [].

Definition found_spans (found : list PIIEntity) : list (span_key * pystr) :=
  spans_dict ((λ e, ((pii_value (pii_type e), start e, end_ e), value e)) <$> found).

(** [for key, value in found_spans.items()]. *)
Definition count_found (id : pystr) (expected : list (span_key * pystr)) (s : score) (kv : span_key * pystr) : score :=
  let '(k, v) := kv in
  if dict_mem k expected then mkScore (incr (key_type k) (tp s)) (fp s) (fn s) (false_positives s)
  else mkScore (tp s) (incr (key_type k) (fp s)) (fn s)
         (match expected with [] => false_positives s ++ [(id, key_type k, v)] | _ => false_positives s end).

(** [for key in expected_spans]. *)
Definition count_expected (found : list (span_key * pystr)) (s : score) (k : span_key) : score :=
  if dict_mem k found then s else mkScore (tp s) (fp s) (incr (key_type k) (fn s)) (false_positives s).

(** One case. *)
Definition score_case (s : score) (c : case) (found : list PIIEntity) : score :=
  let found := found_spans found in
  let expected := spans_dict (case_expected c) in
  let s := fold_left (count_found (case_id c) expected) found s in
  fold_left (count_expected found) expected.*1 s.

(** [_score]: the engine on every case. *)
Section Run.
Context {W : Type} (detectors : list (PIIDetector W)).

Fixpoint score_all (cases : list case) (s : score) : stateM W exn score :=
  match cases with
  | [] => sret s
  | c :: cases =>
      found <-- engine_detect detectors (case_text c) (default_context (u8 "default"));
      score_all cases (score_case s c (dr_entities found))
  end.
End Run.

(** ** Metrics *)

Definition ratio (a b : Z) : Q := if b =? 0 then 0%Q else (inject_Z a / inject_Z b)%Q.
Definition precision (t f : Z) : Q := ratio t (t + f).
Definition recall (t n : Z) : Q := ratio t (t + n).
Definition f1 (p r : Q) : Q := if Qeq_bool (p + r) 0 then 0%Q else (2 * p * r / (p + r))%Q.

Definition total (d : tallies) : Z := foldr (λ kv z, kv.2 + z) 0 d.

Inductive violation :=
  | ZeroRecall (t : pystr)
  | LowRecall (t : pystr)
  | LowOverallRecall
  | LowOverallF1.

Definition type_violations (s : score) (t : pystr) : list violation :=
  let n_tp := tally_of t (tp s) in
  let n_fn := tally_of t (fn s) in
  let r := recall n_tp n_fn in
  if n_tp + n_fn =? 0 then []
  else if Qeq_bool r 0 then [ZeroRecall t]
  else if Qltb r MIN_RECALL then [LowRecall t]
  else [].

Definition violations (s : score) : list violation :=
  let t := total (tp s) in
  let p := precision t (total (fp s)) in
  let r := recall t (total (fn s)) in
  concat (type_violations s <$> REQUIRED_TYPES)
  ++ (if Qltb r MIN_OVERALL_RECALL then [LowOverallRecall] else [])
  ++ (if Qltb (f1 p r) MIN_OVERALL_F1 then [LowOverallF1] else []).

(** The exit code of [_main]. *)
Definition main_code (s : score) : Z := match violations s with [] => 0 | _ => 1 end.

(** ** What is printed *)

(** [_fmt_metric]. *)
Definition fmt_metric (value : Q) : pystr := fixed 3 value.

Definition table_line (name : pystr) (t f n : Z) : pystr :=
  let p := precision t f in
  let r := recall t n in
  pad_right 22 name ++ pad_left 4 (int_repr t) ++ pad_left 4 (int_repr f) ++ pad_left 4 (int_repr n)
  ++ pad_left 11 (fmt_metric p) ++ pad_left 9 (fmt_metric r) ++ pad_left 8 (fmt_metric (f1 p r)).

Definition header_line : pystr :=
  pad_right 22 (u8 "тип") ++ pad_left 4 (u8 "TP") ++ pad_left 4 (u8 "FP") ++ pad_left 4 (u8 "FN")
  ++ pad_left 11 (u8 "precision") ++ pad_left 9 (u8 "recall") ++ pad_left 8 (u8 "F1").

(** [sorted(set(tp) | set(fp) | set(fn))]. *)
Definition scored_types (s : score) : list pystr :=
  sorted_by str_leb (remove_dups ((tp s).*1 ++ (fp s).*1 ++ (fn s).*1)).

Definition table (s : score) : list pystr :=
  [header_line]
  ++ ((λ t, table_line t (tally_of t (tp s)) (tally_of t (fp s)) (tally_of t (fn s))) <$> scored_types s)
  ++ [table_line (u8 "TOTAL") (total (tp s)) (total (fp s)) (total (fn s))].

Definition false_positive_lines (s : score) : list pystr :=
  match false_positives s with
  | [] => []
  | l => (10 :: u8 "False positives на негативных кейсах:")
         :: ((λ '(id, t, v), u8 "  " ++ id ++ u8 ": " ++ t ++ u8 " = " ++ v) <$> l)
  end.

Definition violation_text (s : score) (v : violation) : pystr :=
  let r := recall (total (tp s)) (total (fn s)) in
  match v with
  | ZeroRecall t => t ++ u8 ": recall is zero"
  | LowRecall t =>
      t ++ u8 ": recall " ++ fixed 3 (recall (tally_of t (tp s)) (tally_of t (fn s))) ++ u8 " < " ++ fixed 3 MIN_RECALL
  | LowOverallRecall => u8 "overall recall " ++ fixed 3 r ++ u8 " < " ++ fixed 3 MIN_OVERALL_RECALL
  | LowOverallF1 =>
      u8 "overall F1 " ++ fixed 3 (f1 (precision (total (tp s)) (total (fp s))) r) ++ u8 " < " ++ fixed 3 MIN_OVERALL_F1
  end.

Definition gate_lines (s : score) : list pystr :=
  match violations s with
  | [] => [10 :: u8 "Quality gate passed."]
  | l => (10 :: u8 "Quality gate FAILED:") :: ((λ v, u8 "  - " ++ violation_text s v) <$> l)
  end.

(** [_main] after [_score]: the lines printed and the exit code. *)
Definition score_main (s : score) : list pystr * Z :=
  (table s ++ false_positive_lines s ++ gate_lines s, main_code s).

(** ** Counting *)

(** How many keys of [l] have type [t] and satisfy [f]. *)
Fixpoint of_type (t : pystr) (f : span_key → bool) (l : list span_key) : Z :=
  match l with
  | [] => 0
  | k :: l => (if bool_decide (key_type k = t) && f k then 1 else 0) + of_type t f l
  end.

Lemma tally_incr t t' d : tally_of t (incr t' d) = tally_of t d + (if bool_decide (t' = t) then 1 else 0).
Proof.
  unfold incr, tally_of at 1. case_bool_decide as Ht.
  - subst. by rewrite dict_get_set_eq.
  - rewrite dict_get_set_ne by done. fold (tally_of t d). lia.
Qed.

Lemma count_found_spec id expected l s t :
  let s' := fold_left (count_found id expected) l s in
  tally_of t (tp s') = tally_of t (tp s) + of_type t (λ k, dict_mem k expected) l.*1 ∧
  tally_of t (fp s') = tally_of t (fp s) + of_type t (λ k, negb (dict_mem k expected)) l.*1 ∧
  fn s' = fn s.
Proof.
  cbv zeta. revert s. induction l as [|[k v] l IH]; intros s; cbn [fold_left]; [cbn; rewrite ?Z.add_0_r; done|].
  rewrite fmap_cons. cbn [of_type fst]. destruct (IH (count_found id expected s (k, v))) as (-> & -> & ->).
  unfold count_found. destruct (dict_mem k expected); cbn [tp fp fn negb]; rewrite tally_incr; case_bool_decide;
    cbn [andb]; split_and!; try done; lia.
Qed.

Lemma count_expected_spec found l s t :
  let s' := fold_left (count_expected found) l s in
  tally_of t (fn s') = tally_of t (fn s) + of_type t (λ k, negb (dict_mem k found)) l ∧
  tp s' = tp s ∧ fp s' = fp s.
Proof.
  cbv zeta. revert s. induction l as [|k l IH]; intros s; cbn [fold_left]; [cbn; rewrite ?Z.add_0_r; done|].
  cbn [of_type]. destruct (IH (count_expected found s k)) as (-> & -> & ->).
  unfold count_expected. destruct (dict_mem k found); cbn [tp fp fn negb].
  - rewrite andb_false_r. split_and!; try done; lia.
  - rewrite tally_incr, andb_true_r. case_bool_decide; split_and!; try done; lia.
Qed.

Lemma of_type_split t f l : of_type t f l + of_type t (λ k, negb (f k)) l = of_type t (λ _, true) l.
Proof.
  induction l as [|k l IH]; [done|]. cbn [of_type]. destruct (bool_decide _), (f k); cbn [andb negb]; lia.
Qed.

Lemma of_type_filter t f l :
  of_type t f l = slen (filter (λ k, key_type k = t ∧ f k = true) l).
Proof.
  induction l as [|k l IH]; [done|]. cbn [of_type]. rewrite filter_cons, IH. unfold slen.
  destruct (bool_decide_reflect (key_type k = t)), (f k) eqn:Hf; cbn [andb];
    try (rewrite decide_True by done; cbn [length]; lia); rewrite decide_False by naive_solver; lia.
Qed.

(** The matched keys are the same from either side. *)
Lemma of_type_common t (a b : list (span_key * pystr)) :
  NoDup a.*1 → NoDup b.*1 → of_type t (λ k, dict_mem k b) a.*1 = of_type t (λ k, dict_mem k a) b.*1.
Proof.
  intros Ha Hb. rewrite !of_type_filter. unfold slen. f_equal. apply Permutation_length, NoDup_Permutation.
  - by apply NoDup_filter.
  - by apply NoDup_filter.
  - intros k. rewrite !list_elem_of_filter. unfold dict_mem. rewrite !bool_decide_eq_true.
    assert (Hmem : ∀ (d : list (span_key * pystr)), is_Some (dict_get k d) ↔ k ∈ d.*1).
    { intros d. rewrite <-not_eq_None_Some, dict_get_None. split; [apply dec_stable|]. tauto. }
    rewrite !Hmem. tauto.
Qed.

Lemma spans_dict_NoDup l : NoDup (spans_dict l).*1.
Proof.
  unfold spans_dict. assert (∀ d : list (span_key * pystr), NoDup d.*1 →
    NoDup (fold_left (λ d '(k, v), dict_set k v d) l d).*1) as Hall; [|apply Hall; constructor].
  induction l as [|[k v] l IH]; intros d Hd; [done|]. cbn [fold_left]. apply IH. by apply dict_NoDup_set.
Qed.

(** What the cases and their findings add up to. *)
Fixpoint sum_of_type (t : pystr) (ls : list (list (span_key * pystr))) : Z :=
  match ls with [] => 0 | l :: ls => of_type t (λ _, true) l.*1 + sum_of_type t ls end.

Definition score_run (runs : list (case * list PIIEntity)) (s : score) : score :=
  fold_left (λ s '(c, found), score_case s c found) runs s.

(** The score partitions both sides: for every type, true and false
    positives are together the distinct spans found, and true positives and
    false negatives together the distinct spans expected, over all cases. *)
Theorem score_partition (runs : list (case * list PIIEntity)) t :
  let s := score_run runs no_score in
  tally_of t (tp s) + tally_of t (fp s) = sum_of_type t ((λ r, found_spans r.2) <$> runs) ∧
  tally_of t (tp s) + tally_of t (fn s) = sum_of_type t ((λ r, spans_dict (case_expected r.1)) <$> runs).
Proof.
  cbv zeta. assert (Hall : ∀ s,
    tally_of t (tp (score_run runs s)) + tally_of t (fp (score_run runs s)) =
      tally_of t (tp s) + tally_of t (fp s) + sum_of_type t ((λ r, found_spans r.2) <$> runs) ∧
    tally_of t (tp (score_run runs s)) + tally_of t (fn (score_run runs s)) =
      tally_of t (tp s) + tally_of t (fn s) + sum_of_type t ((λ r, spans_dict (case_expected r.1)) <$> runs));
    [|apply (Hall no_score)].
  induction runs as [|[c found] runs IH]; intros s; [cbn; rewrite ?Z.add_0_r; done|].
  unfold score_run. cbn [fold_left]. fold (score_run runs (score_case s c found)).
  rewrite !fmap_cons. cbn [sum_of_type fst snd].
  destruct (IH (score_case s c found)) as [-> ->]. unfold score_case.
  set (F := found_spans found). set (E := spans_dict (case_expected c)).
  destruct (count_found_spec (case_id c) E F s t) as (Htp & Hfp & Hfn).
  set (s1 := fold_left _ F s) in *.
  destruct (count_expected_spec F E.*1 s1 t) as (Hfn' & Htp' & Hfp').
  rewrite Htp', Hfp', Hfn', Hfn, Htp, Hfp.
  rewrite <-(of_type_split t (λ k, dict_mem k E) F.*1), <-(of_type_split t (λ k, dict_mem k F) E.*1).
  rewrite (of_type_common t F E); [lia|apply spans_dict_NoDup|apply spans_dict_NoDup].
Qed.

(** ** The metrics and the gate *)

Lemma ratio_eq a b : b ≠ 0 → (ratio a b == inject_Z a / inject_Z b)%Q.
Proof. intros Hb. unfold ratio. by rewrite (proj2 (Z.eqb_neq b 0)). Qed.

Lemma ratio_bounds a b : 0 <= a <= b → (0 <= ratio a b <= 1)%Q.
Proof.
  intros [Ha Hb]. unfold ratio. destruct (Z.eqb_spec b 0) as [|Hne]; [split; discriminate|].
  assert (0 < inject_Z b)%Q as Hpos by (change 0%Q with (inject_Z 0); rewrite <-Zlt_Qlt; lia).
  split.
  - apply Qle_shift_div_l; [done|]. rewrite Qmult_0_l. change 0%Q with (inject_Z 0). by rewrite <-Zle_Qle.
  - apply Qle_shift_div_r; [done|]. rewrite Qmult_1_l. by rewrite <-Zle_Qle.
Qed.

(** Precision, recall and F1 lie between 0 and 1, and F1 is the share of
    true positives counted twice among all findings and expectations counted
    once. *)
Theorem f1_is_dice t f n :
  0 <= t → 0 <= f → 0 <= n →
  (0 <= precision t f <= 1)%Q ∧ (0 <= recall t n <= 1)%Q ∧
  (f1 (precision t f) (recall t n) == ratio (2 * t) (2 * t + f + n))%Q.
Proof.
  intros Ht Hf Hn. split; [apply ratio_bounds; lia|]. split; [apply ratio_bounds; lia|].
  unfold f1, precision, recall. destruct (decide (t = 0)) as [->|Hpos].
  - assert (Hz : ∀ b, (ratio 0 b == 0)%Q).
    { intros b. unfold ratio. case_match; [reflexivity|]. unfold Qdiv. by rewrite Qmult_0_l. }
    rewrite Z.mul_0_r. destruct (Qeq_bool _ 0) eqn:He; [by rewrite Hz|].
    exfalso. apply Qeq_bool_neq in He. apply He. rewrite !Hz. reflexivity.
  - assert (Hq : ∀ z, 0 < z → ¬ (inject_Z z == 0)%Q).
    { intros z Hz H. change 0%Q with (inject_Z 0) in H. apply (proj1 (inject_Z_injective z 0)) in H. lia. }
    assert (Hp : ∀ b, 0 < b → (0 < ratio t b)%Q).
    { intros b Hb. rewrite ratio_eq by lia. apply Qlt_shift_div_l.
      - change 0%Q with (inject_Z 0). by rewrite <-Zlt_Qlt.
      - rewrite Qmult_0_l. change 0%Q with (inject_Z 0). rewrite <-Zlt_Qlt. lia. }
    assert (Hne : ¬ (ratio t (t + f) + ratio t (t + n) == 0)%Q).
    { pose proof (Hp (t + f) ltac:(lia)). pose proof (Hp (t + n) ltac:(lia)). lra. }
    destruct (Qeq_bool _ 0) eqn:He; [by apply Qeq_bool_iff in He|].
    rewrite !ratio_eq by lia. rewrite !ratio_eq in Hne by lia.
    rewrite (inject_Z_mult 2 t), !inject_Z_plus, (inject_Z_mult 2 t) in *. change (inject_Z 2) with 2%Q.
    assert (0 < inject_Z t)%Q by (change 0%Q with (inject_Z 0); rewrite <-Zlt_Qlt; lia).
    assert (0 <= inject_Z f)%Q by (change 0%Q with (inject_Z 0); by rewrite <-Zle_Qle).
    assert (0 <= inject_Z n)%Q by (change 0%Q with (inject_Z 0); by rewrite <-Zle_Qle).
    field. refine (conj _ (conj _ (conj _ _))); [lra..|]. intros Hz. rewrite <-Qmult_plus_distr_r in Hz.
    apply Qmult_integral in Hz as [Hz|Hz]; lra.
Qed.


(** The quality gate passes exactly when no required type that occurs in
    the dataset has a recall below one half, and overall recall and F1 reach
    0.8. *)
Theorem quality_gate s :
  main_code s = 0 ↔
    (∀ t, t ∈ REQUIRED_TYPES → tally_of t (tp s) + tally_of t (fn s) ≠ 0 →
       (MIN_RECALL <= recall (tally_of t (tp s)) (tally_of t (fn s)))%Q) ∧
    (MIN_OVERALL_RECALL <= recall (total (tp s)) (total (fn s)))%Q ∧
    (MIN_OVERALL_F1 <= f1 (precision (total (tp s)) (total (fp s))) (recall (total (tp s)) (total (fn s))))%Q.
Proof.
  assert (Htype : ∀ t, type_violations s t = [] ↔ (tally_of t (tp s) + tally_of t (fn s) ≠ 0 →
    (MIN_RECALL <= recall (tally_of t (tp s)) (tally_of t (fn s)))%Q)).
  { intros t. unfold type_violations. destruct (Z.eqb_spec (tally_of t (tp s) + tally_of t (fn s)) 0); [naive_solver|].
    destruct (Qeq_bool _ 0) eqn:Hz.
    - apply Qeq_bool_iff in Hz. split; [done|]. intros H. specialize (H n). rewrite Hz in H. by destruct H.
    - destruct (Qltb _ MIN_RECALL) eqn:Hl; [|apply Qltb_false in Hl; naive_solver].
      split; [done|]. intros H. specialize (H n). apply Qltb_false in H. congruence. }
  assert (Hcode : main_code s = 0 ↔ violations s = []) by (unfold main_code; by destruct (violations s)).
  rewrite Hcode. unfold violations. rewrite !app_nil.
  assert (Hall : concat (type_violations s <$> REQUIRED_TYPES) = [] ↔
    ∀ t, t ∈ REQUIRED_TYPES → type_violations s t = []).
  { induction REQUIRED_TYPES as [|t l IH]; [split; [intros _ t ?%elem_of_nil; done|done]|].
    rewrite fmap_cons. cbn [concat]. rewrite app_nil, IH. setoid_rewrite elem_of_cons. naive_solver. }
  rewrite Hall. setoid_rewrite Htype.
  assert (Hif : ∀ (b : bool) (v : violation), (if b then [v] else []) = [] ↔ b = false) by (by intros [] v).
  by rewrite !Hif, !Qltb_false.
Qed.

(** ** The table is aligned *)

Lemma fixed_unit_width n q : (0 <= q <= 1)%Q → length (fixed (S n) q) = (3 + n)%nat.
Proof.
  intros [H0 H1]. unfold fixed. set (unit := 10 ^ Z.of_nat (S n)). set (m := round_half_even _ _).
  assert (Hu : 0 < unit) by (unfold unit; lia).
  destruct q as [a b]. unfold Qle in H0, H1. cbn in H0, H1. cbn [Qnum Qden] in *.
  assert (Hm : 0 <= m <= unit).
  { pose proof (round_half_even_close (Z.abs a * unit) (Z.pos b) eq_refl) as Hc. fold m in Hc.
    split; [apply round_half_even_nonneg; lia|]. apply Z.nlt_ge. intros Hlt. nia. }
  rewrite (proj2 (Z.ltb_ge a 0)) by lia. cbn [app]. rewrite length_app. cbn [length].
  pose proof (Z.mod_pos_bound m unit Hu).
  rewrite zero_pad_length by (apply (digits_length (m mod unit)); [apply int_repr_nonneg; lia|exact (proj2 H)|lia]).
  assert (m / unit = 0 ∨ m / unit = 1) as [-> | ->];
    [|change (length (int_repr 0)) with 1%nat; change (length (int_repr 1)) with 1%nat; lia..].
  assert (0 <= m / unit <= 1); [|lia]. split; [by apply Z.div_pos; lia|].
  apply Z.div_le_upper_bound; lia.
Qed.

Lemma pad_left_width w s : (length s ≤ w)%nat → length (pad_left w s) = w.
Proof. intros Hs. unfold pad_left. rewrite length_app, length_replicate. lia. Qed.
Lemma pad_right_width w s : (length s ≤ w)%nat → length (pad_right w s) = w.
Proof. intros Hs. unfold pad_right. rewrite length_app, length_replicate. lia. Qed.

Lemma f1_bounds p r : (0 <= p <= 1)%Q → (0 <= r <= 1)%Q → (0 <= f1 p r <= 1)%Q.
Proof.
  intros Hp Hr. unfold f1. destruct (Qeq_bool (p + r) 0) eqn:He; [lra|].
  assert (Hpos : (0 < p + r)%Q).
  { destruct (Qlt_le_dec 0 (p + r)); [done|]. apply Qeq_bool_neq in He. exfalso. apply He. lra. }
  split; [apply Qle_shift_div_l; nra|apply Qle_shift_div_r; nra].
Qed.

(** Every line of the table has the width of its header, for counts of up to
    four digits and names of up to 22 characters. *)
Lemma table_line_width name t f n :
  (length name ≤ 22)%nat → 0 <= t < 10000 → 0 <= f < 10000 → 0 <= n < 10000 →
  length (table_line name t f n) = length header_line.
Proof.
  intros Hname Ht Hf Hn.
  assert (Hcount : ∀ z, 0 <= z < 10000 → (length (int_repr z) ≤ 4)%nat).
  { intros z [Hz Hlt]. apply (digits_length z); [by apply int_repr_nonneg|exact Hlt|lia]. }
  assert (Hp : (0 <= precision t f <= 1)%Q) by (apply ratio_bounds; lia).
  assert (Hr : (0 <= recall t n <= 1)%Q) by (apply ratio_bounds; lia).
  pose proof (f1_bounds _ _ Hp Hr) as Hf1.
  assert (Hmetric : ∀ q, (0 <= q <= 1)%Q → length (fmt_metric q) = 5%nat) by (intros; by apply (fixed_unit_width 2)).
  unfold table_line. rewrite !length_app, pad_right_width, !pad_left_width
    by (rewrite ?Hmetric by done; try lia; by apply Hcount).
  vm_compute. reflexivity.
Qed.

Lemma f1_is_dice_witness :
  (f1 (precision 3 1) (recall 3 2) == ratio 6 9)%Q.
Proof. exact (proj2 (proj2 (f1_is_dice 3 1 2 ltac:(lia) ltac:(lia) ltac:(lia)))). Defined.
