(* ===== verification/Report.v ===== *)
(** * The report of a load run ([scripts/run_performance.py], [write_reports])

    What [write_reports] writes for a list of results: the texts of the
    violations, the two tables of [summary.md], and the fields of the results
    in [summary.json].  [summary_reads_back]: every row of the first table has as many
    cells as its header and its last cell is the verdict; the delimiter row has
    two cells too few ([report_delimiter_short]), so that GitHub's Markdown
    does not take it for a table. *)

From Stdlib Require Import QArith.Qabs.
From S2P Require Import Prelude Domain PyStr Utf8 Json Format Performance.

(** ** The texts of violations *)

(** [str] of a list of plain ASCII strings. *)
Definition list_repr (l : list pystr) : pystr :=
  u8 "[" ++ join (u8 ", ") ((λ k, [39] ++ k ++ [39]) <$> l) ++ u8 "]".

Definition violation_text (a : step_args) (v : violation) : pystr :=
  match v with
  | LocustExit code => u8 "locust exit code " ++ int_repr code
  | ErrorRate rate => u8 "error rate " ++ fixed 2 rate ++ u8 "% > " ++ fixed 2 (max_error_rate a) ++ u8 "%"
  | SlowP95 ms => u8 "p95 " ++ fixed 1 ms ++ u8 "ms > " ++ fixed 1 (max_p95_ms a) ++ u8 "ms"
  | SlowP99 ms => u8 "p99 " ++ fixed 1 ms ++ u8 "ms > " ++ fixed 1 (max_p99_ms a) ++ u8 "ms"
  | LowRatio ratio => u8 "achieved ratio " ++ fixed 3 ratio ++ u8 " < " ++ fixed 3 (min_achieved_ratio a)
  | NoCustomMetrics => u8 "custom metrics missing or unparseable"
  | MissingKeys keys => u8 "custom metrics missing required keys: " ++ list_repr keys
  | HttpTotalMismatch total requests =>
      u8 "counter mismatch: custom http total " ++ int_repr total ++ u8 " != locust request count " ++ int_repr requests
  | MaskDemaskMismatch mask_demask http_2xx =>
      u8 "counter mismatch: mask+demask " ++ int_repr mask_demask ++ u8 " != http_2xx " ++ int_repr http_2xx
  | FailureMismatch failures custom =>
      u8 "counter mismatch: locust failure count " ++ int_repr failures
      ++ u8 " != custom functional+transport errors " ++ int_repr custom
  | NoSuccess => u8 "no successful 2xx responses: all requests were 429/errors"
  | NoMask => u8 "no successful mask operations recorded"
  | RoundtripEmpty => u8 "roundtrip: no MASK or DEMASK operations recorded"
  | RoundtripMismatch mask demask incomplete =>
      u8 "roundtrip reconciliation: MASK " ++ int_repr mask ++ u8 " != DEMASK " ++ int_repr demask
      ++ u8 " + incomplete " ++ int_repr incomplete
  | RoundtripIncomplete incomplete mask =>
      u8 "roundtrip incomplete pairs " ++ int_repr incomplete ++ u8 " > " ++ percent (max_incomplete_ratio a)
      ++ u8 " of MASK " ++ int_repr mask
  | FewUsers observed =>
      u8 "observed max users " ++ fixed 0 observed ++ u8 " < required " ++ int_repr (required_concurrent_users a)
  | LowPeak observed =>
      u8 "observed peak RPS " ++ fixed 1 observed ++ u8 " < target peak " ++ fixed 0 (target_peak_rps a)
      ++ u8 " * " ++ fixed 2 (min_peak_ratio a)
  | ConnectionsUnverified =>
      u8 "required concurrent connections gate cannot be verified: connection sampling unavailable"
  | FewConnections observed =>
      u8 "observed peak connections " ++ fixed 0 observed ++ u8 " < required "
      ++ int_repr (required_concurrent_connections a)
  | ShortDuration seconds =>
      u8 "duration " ++ int_repr seconds ++ u8 "s < " ++ int_repr (min_duration_for_stable a)
      ++ u8 "s: percentiles are not stable"
  | ShortElapsed seconds =>
      u8 "measured elapsed " ++ fixed 1 seconds ++ u8 "s < required " ++ fixed 1 (min_elapsed_duration a)
      ++ u8 "s: run too short to be a valid throughput measurement"
  end.

(** [result.violations]. *)
Definition violation_texts (r : StepResult) : list pystr := violation_text (step r) <$> violations r.

(** ** [summary.md] *)

(** [f"| {c1} | ... | {cn} |"]. *)
Definition table_row (cells : list pystr) : pystr := 124 :: concat ((λ c, 32 :: c ++ [32; 124]) <$> cells).

Definition or_na (n : nat) (o : option Q) : pystr := match o with Some q => fixed n q | None => u8 "n/a" end.

Definition HEADER : pystr :=
  u8 "| Target RPS | Actual RPS | Ratio | avg | p50 | p95 | p99 | "
  ++ u8 "MASK | DEMASK | Incomplete | 2xx | 429 | 422 | other | func-err | t-err | "
  ++ u8 "CPU% | RAM MB | peak CPU% | peak RAM MB | peak conn | dur(meas/cfg) | Errors | Result |".
Definition DELIMITER : pystr :=
  u8 "| ---: | ---: | ---: | ---: | ---: | ---: | ---: | ---: | ---: | ---: | "
  ++ u8 "---: | ---: | ---: | ---: | ---: | ---: | ---: | ---: | ---: | ---: | ---: | :--- |".

Definition status_cell (r : StepResult) : pystr :=
  if passed r then u8 "PASS" else u8 "FAIL: " ++ join (u8 "; ") (violation_texts r).

Definition result_cells (r : StepResult) : list pystr :=
  let a := step r in
  let m := figures r in
  let g := generator a in
  [fixed 0 (target_rps a); fixed 1 (result_rps r); fixed 2 (result_ratio r); fixed 1 (avg_ms m) ++ u8 " ms";
   fixed 1 (p50_ms m) ++ u8 " ms"; fixed 1 (p95_ms m) ++ u8 " ms"; fixed 1 (p99_ms m) ++ u8 " ms";
   int_repr (mask_requests r); int_repr (demask_requests r); int_repr (incomplete_roundtrips r);
   int_repr (http_2xx r); int_repr (http_429 r); int_repr (http_422 r); int_repr (http_other r);
   int_repr (functional_errors r); int_repr (transport_errors r);
   or_na 1 (cpu_percent g); or_na 1 (memory_mb g); or_na 1 (peak_cpu_percent g); or_na 1 (peak_memory_mb g);
   or_na 0 (observed_peak_connections a);
   or_na 1 (measured_duration a) ++ u8 "/" ++ int_repr (duration_seconds a) ++ u8 "s";
   fixed 2 (error_rate_percent r) ++ u8 "%"; status_cell r].

Definition PEAK_HEADER : pystr :=
  u8 "| configured_max_users | observed_max_users | target_peak_rps | "
  ++ u8 "observed_peak_rps | observed_peak_connections |".
Definition PEAK_DELIMITER : pystr := u8 "| ---: | ---: | ---: | ---: | ---: |".

Definition peak_cells (r : StepResult) : list pystr :=
  let a := step r in
  [int_repr (users a); fixed 0 (observed_max_users a); fixed 0 (target_peak_rps a); fixed 1 (observed_peak_rps a);
   or_na 0 (observed_peak_connections a)].

Definition summary_lines (scenario : pystr) (results : list StepResult) : list pystr :=
  [u8 "# Performance report: " ++ scenario; []; HEADER; DELIMITER]
  ++ (table_row ∘ result_cells <$> results)
  ++ [[]; u8 "## Concurrency and peak"; []; PEAK_HEADER; PEAK_DELIMITER]
  ++ (table_row ∘ peak_cells <$> results).

Definition summary_md (scenario : pystr) (results : list StepResult) : pystr :=
  join [10] (summary_lines scenario results) ++ [10].

(** ** [summary.json] *)

(** The values of the fields; a float is kept exact. *)
Inductive field :=
  | FInt (z : Z)
  | FFloat (q : option Q)                  (* [None] for None *)
  | FBool (b : bool)
  | FTexts (l : list pystr).

(** [asdict(result)], in the order of the dataclass. *)
Definition asdict (r : StepResult) : list (pystr * field) :=
  let a := step r in
  let m := figures r in
  let g := generator a in
  let float q := FFloat (Some q) in
  [(u8 "target_rps", float (target_rps a)); (u8 "achieved_rps", float (result_rps r));
   (u8 "achieved_ratio", float (result_ratio r)); (u8 "requests", FInt (requests m));
   (u8 "failures", FInt (failures m)); (u8 "error_rate_percent", float (error_rate_percent r));
   (u8 "avg_ms", float (avg_ms m)); (u8 "p50_ms", float (p50_ms m)); (u8 "p95_ms", float (p95_ms m));
   (u8 "p99_ms", float (p99_ms m)); (u8 "users", FInt (users a));
   (u8 "observed_max_users", float (observed_max_users a)); (u8 "observed_peak_rps", float (observed_peak_rps a));
   (u8 "target_peak_rps", float (target_peak_rps a)); (u8 "duration_seconds", FInt (duration_seconds a));
   (u8 "measured_duration", FFloat (measured_duration a)); (u8 "mask_requests", FInt (mask_requests r));
   (u8 "demask_requests", FInt (demask_requests r)); (u8 "incomplete_roundtrips", FInt (incomplete_roundtrips r));
   (u8 "incomplete_ratio", float (incomplete_ratio r)); (u8 "http_2xx", FInt (http_2xx r));
   (u8 "http_429", FInt (http_429 r)); (u8 "http_422", FInt (http_422 r)); (u8 "http_other", FInt (http_other r));
   (u8 "functional_errors", FInt (functional_errors r)); (u8 "transport_errors", FInt (transport_errors r));
   (u8 "custom_metrics_present", FBool (custom_metrics_present r)); (u8 "cpu_measured", FBool (cpu_measured g));
   (u8 "memory_measured", FBool (memory_measured g)); (u8 "cpu_percent", FFloat (cpu_percent g));
   (u8 "memory_mb", FFloat (memory_mb g)); (u8 "peak_cpu_percent", FFloat (peak_cpu_percent g));
   (u8 "peak_memory_mb", FFloat (peak_memory_mb g)); (u8 "connections_measured", FBool (connections_measured a));
   (u8 "observed_peak_connections", FFloat (observed_peak_connections a));
   (u8 "locust_exit_code", FInt (locust_exit_code a)); (u8 "passed", FBool (passed r));
   (u8 "violations", FTexts (violation_texts r))].

(** ** Cells *)

(** The cells of a table row: what stands between its bars. *)
Definition cells_of (line : pystr) : list pystr := removelast (tail (split_char line 124)).

(** A text that stays in its cell. *)
Definition in_cell (s : pystr) : Prop := Forall (λ c, negb (c =? 124) && negb (c =? 10) = true) s.

Lemma in_cell_bar s : in_cell s → 124 ∉ s ∧ 10 ∉ s.
Proof. unfold in_cell. rewrite Forall_forall. intros Hs. split; intros Hin; by specialize (Hs _ Hin). Qed.

Lemma in_cell_app s t : in_cell s → in_cell t → in_cell (s ++ t).
Proof. intros. by apply Forall_app. Qed.

Lemma in_cell_numerals s : Forall (λ c, is_numeral c = true) s → in_cell s.
Proof.
  intros Hs. eapply Forall_impl; [exact Hs|]. intros c. unfold is_numeral, is_ascii_digit.
  intros [[[? ?]%andb_true_iff| ->%Z.eqb_eq]%orb_true_iff| ->%Z.eqb_eq]%orb_true_iff; [|done..].
  apply andb_true_iff. rewrite !negb_true_iff. lia.
Qed.

Lemma in_cell_fixed n q : in_cell (fixed n q).
Proof. apply in_cell_numerals, fixed_numerals. Qed.

Lemma in_cell_int z : in_cell (int_repr z).
Proof. apply in_cell_numerals, int_repr_numerals. Qed.

Lemma in_cell_join sep l : in_cell sep → Forall in_cell l → in_cell (join sep l).
Proof.
  intros Hsep. induction 1 as [|s l Hs Hl IH]; [constructor|]. destruct l as [|t l]; [done|].
  by repeat apply in_cell_app.
Qed.

Lemma in_cell_literal s : forallb (λ c, negb (c =? 124) && negb (c =? 10)) s = true → in_cell s.
Proof. intros Hs. by apply forallb_Forall. Qed.

Create HintDb cells.
#[local] Hint Resolve in_cell_app in_cell_fixed in_cell_int in_cell_join : cells.
#[local] Hint Extern 5 (in_cell (u8 _)) => apply in_cell_literal; vm_compute; reflexivity : cells.
#[local] Hint Extern 5 (in_cell [_]) => apply in_cell_literal; vm_compute; reflexivity : cells.

Lemma in_cell_percent q : in_cell (percent q).
Proof. unfold percent. auto with cells. Qed.
#[local] Hint Resolve in_cell_percent : cells.

Lemma in_cell_or_na n o : in_cell (or_na n o).
Proof. destruct o; simpl; auto with cells. Qed.
#[local] Hint Resolve in_cell_or_na : cells.

(** The keys a violation names are those that are required. *)
Definition names_required (a : step_args) (v : violation) : Prop :=
  match v with MissingKeys keys => keys ⊆ required_keys a | _ => True end.

Lemma Forall_when (P : violation → Prop) b v : P v → Forall P (when b v).
Proof. intros Hv. destruct b; by repeat constructor. Qed.

Lemma violations_name_required a m : Forall (names_required a) (violations_of a m).
Proof.
  unfold violations_of, row_violations, counter_violations, roundtrip_violations, gate_violations.
  repeat first
    [ apply Forall_app_2 | apply Forall_when | case_match | apply Forall_nil_2 | apply Forall_cons_2
    | exact Logic.I ].
  cbn [names_required]. intros k [_ Hk]%list_elem_of_filter. exact Hk.
Qed.

Lemma in_cell_violation a v : names_required a v → in_cell (violation_text a v).
Proof.
  destruct v; cbn [names_required violation_text]; intros Hkeys; auto 20 with cells.
  apply in_cell_app; [auto with cells|]. unfold list_repr. apply in_cell_app; [auto with cells|].
  apply in_cell_app; [|auto with cells]. apply in_cell_join; [auto with cells|].
  rewrite Forall_fmap, Forall_forall. intros k Hk%Hkeys. cbn.
  assert (Hall : Forall in_cell (required_keys a)).
  { unfold required_keys. destruct (roundtrip a); repeat (apply Forall_cons_2; [auto with cells|]); apply Forall_nil_2. }
  rewrite Forall_forall in Hall. specialize (Hall k Hk). change (in_cell ([39] ++ k ++ [39])). auto with cells.
Qed.

Definition padded (c : pystr) : pystr := 32 :: c ++ [32].

Lemma table_row_join cells : table_row cells = join [124] ([] :: (padded <$> cells) ++ [[]]).
Proof.
  unfold table_row. change (join [124] ([] :: ?l ++ [[]])) with (join [124] ([[]] ++ l ++ [[]])).
  assert (Hl : ∀ l : list pystr, join [124] ((padded <$> l) ++ [[]]) = concat ((λ c, 32 :: c ++ [32; 124]) <$> l)).
  { induction l as [|c l IH]; [done|]. rewrite !fmap_cons. cbn [app concat]. rewrite <-IH.
    destruct ((padded <$> l) ++ [[]]) eqn:Hnil; [by destruct l|]. unfold padded at 1. cbn [join].
    cbn [app]. f_equal. by rewrite <-!app_assoc. }
  rewrite <-Hl. cbn [app join]. by destruct ((padded <$> cells) ++ [[]]) eqn:Hnil; [destruct cells|].
Qed.

Lemma cells_of_row cells : Forall (λ c, 124 ∉ c) cells → cells_of (table_row cells) = padded <$> cells.
Proof.
  intros Hc. unfold cells_of. rewrite table_row_join, split_join; [|done|].
  - cbn [tail]. apply removelast_last.
  - constructor; [set_solver|]. apply Forall_app. split; [|by repeat constructor; set_solver].
    apply Forall_fmap. eapply Forall_impl; [exact Hc|]. intros c Hc'. unfold padded, compose. set_solver.
Qed.

Lemma in_cell_row cells : Forall in_cell cells → 10 ∉ table_row cells.
Proof.
  intros Hc. unfold table_row. intros [|Hin]%elem_of_cons; [done|].
  apply list_elem_of_In, in_concat in Hin as (s & Hs & Hin%list_elem_of_In).
  apply list_elem_of_In, list_elem_of_fmap in Hs as (c & -> & Hcin).
  rewrite Forall_forall in Hc. destruct (in_cell_bar _ (Hc c Hcin)) as [_ Hnl]. set_solver.
Qed.

(** The results a step reports. *)
Definition built (r : StepResult) : Prop := r = result_of (step r) (figures r).

Lemma status_cell_ok r : built r → in_cell (status_cell r).
Proof.
  intros Hr. unfold status_cell. destruct (passed r); [auto with cells|]. apply in_cell_app; [auto with cells|].
  apply in_cell_join; [auto with cells|]. unfold violation_texts. apply Forall_fmap.
  rewrite Hr. cbn [violations step result_of]. eapply Forall_impl; [apply violations_name_required|].
  intros v Hv. by apply in_cell_violation.
Qed.

Lemma result_cells_ok r : built r → Forall in_cell (result_cells r).
Proof.
  intros Hr. pose proof (status_cell_ok r Hr) as Hs. unfold result_cells. generalize dependent (status_cell r).
  intros cell Hs. repeat (apply Forall_cons_2; [auto 10 with cells|]). apply Forall_nil_2.
Qed.

Lemma peak_cells_ok r : Forall in_cell (peak_cells r).
Proof. unfold peak_cells. repeat (apply Forall_cons_2; [auto with cells|]). apply Forall_nil_2. Qed.

(** Cell [k] of a row is [q] to [n] decimals. *)
Definition reads_as (row : pystr) (k n : nat) (q : Q) : Prop :=
  ∃ x, cells_of row !! k = Some (padded x) ∧ (2 * Qabs (fixed_value x - q) * inject_Z (10 ^ Z.of_nat n) <= 1)%Q.

Lemma no_newline s : forallb (λ c, negb (c =? 10)) s = true → 10 ∉ s.
Proof. intros Hs Hin. apply forallb_Forall in Hs. rewrite Forall_forall in Hs. by specialize (Hs _ Hin). Qed.

Lemma summary_lines_ok scenario results :
  10 ∉ scenario → Forall built results → Forall (λ l, 10 ∉ l) (summary_lines scenario results).
Proof.
  intros Hs Hr. unfold summary_lines.
  apply Forall_app_2; [|apply Forall_app_2; [|apply Forall_app_2]].
  - apply Forall_cons_2; [|by repeat (apply Forall_cons_2; [apply no_newline; vm_compute; reflexivity|])].
    intros [Hin|Hin]%elem_of_app; [|done]. revert Hin. apply no_newline. vm_compute. reflexivity.
  - apply Forall_fmap. eapply Forall_impl; [exact Hr|]. intros r Hb. by apply in_cell_row, result_cells_ok.
  - by repeat (apply Forall_cons_2; [apply no_newline; vm_compute; reflexivity|]).
  - apply Forall_fmap, Forall_forall. intros r _. by apply in_cell_row, peak_cells_ok.
Qed.

(** The report can be read back.  Split into lines and cells,
    [summary.md] has a row for every result, in order, with as many cells as
    the header; the row says PASS exactly when the result passed, and its
    rates are those of the result up to the decimals shown. *)
Lemma summary_reads_back scenario results :
  10 ∉ scenario → Forall built results →
  ∃ lines, split_char (summary_md scenario results) 10 = lines ++ [[]] ∧
    ∀ i r, results !! i = Some r →
      ∃ row, lines !! (4 + i)%nat = Some row ∧
        length (cells_of row) = length (cells_of HEADER) ∧
        (passed r = true ↔ last (cells_of row) = Some (u8 " PASS ")) ∧
        reads_as row 0 0 (target_rps (step r)) ∧ reads_as row 1 1 (result_rps r) ∧ reads_as row 2 2 (result_ratio r).
Proof.
  intros Hs Hr. exists (summary_lines scenario results). split.
  - unfold summary_md. assert (Hj : ∀ l : list pystr, l ≠ [] → join [10] l ++ [10] = join [10] (l ++ [[]])).
    { induction l as [|s l IH]; [done|intros _]. destruct l as [|t l]; [by cbn; rewrite ?app_nil_r|].
      cbn [app join] in *. rewrite <-IH by done. by rewrite <-!app_assoc. }
    rewrite Hj by done. apply split_join; [done|]. apply Forall_app.
    split; [by apply summary_lines_ok|]. by repeat constructor; set_solver.
  - intros i r Hi. exists (table_row (result_cells r)).
    assert (Hcells : cells_of (table_row (result_cells r)) = padded <$> result_cells r).
    { apply cells_of_row. eapply Forall_impl; [apply result_cells_ok; by eapply Forall_lookup_1|].
      by intros c [? _]%in_cell_bar. }
    unfold reads_as. rewrite Hcells. split_and!.
    + change ((table_row ∘ result_cells <$> results) ++
        [[]; u8 "## Concurrency and peak"; []; PEAK_HEADER; PEAK_DELIMITER] ++ (table_row ∘ peak_cells <$> results))
        with (drop 4 (summary_lines scenario results)).
      rewrite <-lookup_drop. unfold summary_lines. cbn [app drop].
      apply lookup_app_l_Some. by rewrite list_lookup_fmap, Hi.
    + rewrite length_fmap. vm_compute. reflexivity.
    + unfold result_cells. cbn [fmap list_fmap last]. unfold status_cell. destruct (passed r); [done|].
      split; [done|]. by intros [= ?].
    + eexists. split; [reflexivity|apply fixed_close].
    + eexists. split; [reflexivity|apply fixed_close].
    + eexists. split; [reflexivity|apply fixed_close].
Qed.

(** The delimiter row of the first table is two cells short. *)
Lemma report_delimiter_short :
  length (cells_of HEADER) = 24%nat ∧ length (cells_of DELIMITER) = 22%nat ∧
  length (cells_of PEAK_HEADER) = 5%nat ∧ length (cells_of PEAK_DELIMITER) = 5%nat.
Proof. vm_compute. done. Qed.

(** Both reports give the same verdict: a result in [summary.json] is passed
    exactly when it lists no violation, which is when its row says PASS. *)
Lemma reports_agree a m :
  let r := result_of a m in
  dict_get (u8 "passed") (asdict r) = Some (FBool (bool_decide (violation_texts r = []))) ∧
  (status_cell r = u8 "PASS" ↔ dict_get (u8 "violations") (asdict r) = Some (FTexts [])).
Proof.
  cbv zeta. assert (Hp : passed (result_of a m) = bool_decide (violation_texts (result_of a m) = [])).
  { unfold violation_texts. cbn [passed violations step result_of]. by destruct (violations_of a m). }
  assert (Hv : dict_get (u8 "violations") (asdict (result_of a m)) = Some (FTexts (violation_texts (result_of a m))))
    by reflexivity.
  split; [rewrite <-Hp; reflexivity|]. rewrite Hv. unfold status_cell. rewrite Hp. split.
  - case_bool_decide as Hn; [by rewrite Hn|]. done.
  - intros [= Hn]. by rewrite bool_decide_eq_true_2.
Qed.

Example sample_row :
  cells_of (table_row (result_cells (result_of (sample_step 599) sample_figures))) !! 23%nat =
    Some (u8 " FAIL: counter mismatch: custom http total 599 != locust request count 600; counter mismatch: mask+demask 600 != http_2xx 599 ").
Proof. vm_compute. reflexivity. Qed.
