(* ===== verification/LoadTools.v ===== *)
(** * What the load runner reads ([scripts/run_performance.py])

    The readings [run_performance.py] takes from other programs: Docker's
    statistics of the compose project, the stage histograms of the service's
    [/metrics], the connections of the load generator, and Locust's tables.
    [py_float] is [float] on finite numbers, [py_le] its reading of a bucket
    bound ("+Inf" included); the rows of a CSV file are taken as parsed and
    complete; the processes themselves are inputs. *)

From Stdlib Require Import QArith.Qround QArith.Qreduction.
From S2P Require Import Prelude Unicode Domain PyStr Utf8 Json Restoration Performance.

#[export] Instance Q_eq_dec : EqDecision Q.
Proof. solve_decision. Defined.
#[export] Instance bound_eq_dec : EqDecision bound.
Proof. solve_decision. Defined.

(** ** Reading what tools print *)

Section Reading.
Context `{U : UnicodeDB} (py_float : pystr → result exn Q) (py_le : pystr → result exn bound).

(** [value[:-n]] of a value at least that long. *)
Definition drop_end (n : nat) (s : pystr) : pystr := take (length s - n) s.

Definition parse_mem (value : pystr) : result exn Q :=
  let value := strip value in
  if endswith value (u8 "MiB") then py_float (drop_end 3 value)
  else if endswith value (u8 "GiB") then (λ q, (q * 1024)%Q) <$> py_float (drop_end 3 value)
  else if endswith value (u8 "KiB") then (λ q, (q / 1024)%Q) <$> py_float (drop_end 3 value)
  else if endswith value (u8 "B") then (λ q, (q / (1024 * 1024))%Q) <$> py_float (drop_end 1 value)
  else py_float value.

Definition parse_cpu (value : pystr) : result exn (option Q) :=
  match py_float (str_replace value (u8 "%") []) with
  | Ok q => Ok (Some q)
  | Err e => if is_value_error e then Ok None else Err e
  end.

(** [s.find(needle, i)] for an [i] within [s]. *)
Definition str_find_from (s needle : pystr) (i : Z) : Z :=
  let j := str_find (slice_from s i) needle in
  if j =? -1 then -1 else i + j.

Definition extract_label (line label : pystr) : option pystr :=
  let start := str_find line (label ++ [61; 34]) in
  if start =? -1 then None
  else
    let start := start + slen label + 2 in
    let end_ := str_find_from line [34] start in
    if end_ =? -1 then None else Some (slice line start end_).

(** The four dicts of [collect_stage_timings]. *)
Record stage_tables := mkTables {
  buckets : list (pystr * list (bound * Z));
  counts : list (pystr * Z);
  sums : list (pystr * Q);
  maxima : list (pystr * Q)
}.

(** [with contextlib.suppress(ValueError, IndexError)]: the state reached when
    the body raises is [dflt]. *)
Definition suppress {A} (dflt : A) (r : result exn A) : result exn A :=
  match r with
  | Err e => if is_value_error e || bool_decide (e = EIndexError) then Ok dflt else Err e
  | _ => r
  end.

(** [float(line.rsplit(" ", 1)[1])]. *)
Definition sample_value (line : pystr) : result exn Q :=
  match rsplit1 line [32] with _ :: v :: _ => py_float v | _ => Err EIndexError end.

(** Equal floats are one dict key. *)
Definition float_key (b : bound) : bound := match b with Le q => Le (Qred q) | PlusInf => PlusInf end.

Definition with_bucket (stage : pystr) (b : list (bound * Z)) (t : stage_tables) : stage_tables :=
  mkTables (dict_set stage b (buckets t)) (counts t) (sums t) (maxima t).

(** One line: Python evaluates the value, then [setdefault], then the bound. *)
Definition read_line (t : stage_tables) (line : pystr) : result exn stage_tables :=
  if startswith line (u8 "pii_proxy_stage_max_seconds{") then
    match extract_label line (u8 "stage") with
    | None => Ok t
    | Some stage =>
        suppress t (v ← sample_value line; Ok (mkTables (buckets t) (counts t) (sums t) (dict_set stage v (maxima t))))
    end
  else if negb (startswith line (u8 "pii_proxy_stage_duration_seconds_")) then Ok t
  else if str_in (u8 "_bucket{") line then
    match extract_label line (u8 "stage"), extract_label line (u8 "le") with
    | Some stage, Some le =>
        suppress t (v ← sample_value line;
          let b := default [] (dict_get stage (buckets t)) in
          suppress (with_bucket stage b t)
            (le ← py_le le; Ok (with_bucket stage (dict_set (float_key le) (truncate v) b) t)))
    | _, _ => Ok t
    end
  else if str_in (u8 "_count{") line then
    match extract_label line (u8 "stage") with
    | None => Ok t
    | Some stage =>
        suppress t (v ← sample_value line;
          Ok (mkTables (buckets t) (dict_set stage (truncate v) (counts t)) (sums t) (maxima t)))
    end
  else if str_in (u8 "_sum{") line then
    match extract_label line (u8 "stage") with
    | None => Ok t
    | Some stage =>
        suppress t (v ← sample_value line; Ok (mkTables (buckets t) (counts t) (dict_set stage v (sums t)) (maxima t)))
    end
  else Ok t.

Fixpoint read_lines (t : stage_tables) (lines : list pystr) : result exn stage_tables :=
  match lines with
  | [] => Ok t
  | line :: lines => t ← read_line t line; read_lines t lines
  end.

Record stage_stats := mkStage {
  st_count : Z;
  avg_seconds : Q;
  p50_seconds : bound;
  p95_seconds : bound;
  p99_seconds : bound;
  max_seconds : option Q
}.

(** The entry of a stage; [None] when it counted nothing. *)
Definition stage_entry (t : stage_tables) (stage : pystr) (b : list (bound * Z)) : option stage_stats :=
  let count := default 0 (dict_get stage (counts t)) in
  if count =? 0 then None
  else Some (mkStage count (default 0 (dict_get stage (sums t)) / inject_Z count)%Q
               (hist_percentile b count (1 # 2)) (hist_percentile b count (95 # 100)) (hist_percentile b count (99 # 100))
               (dict_get stage (maxima t))).

(** [collect_stage_timings] on what fetching [/metrics] gave. *)
Definition collect_stage_timings (fetched : result exn bytes) : result exn (list (pystr * option stage_stats)) :=
  match raw ← fetched; utf8_decode raw with
  | Err _ => Ok []
  | Ok text =>
      t ← read_lines (mkTables [] [] [] []) (splitlines text);
      Ok ((λ '(stage, b), (stage, stage_entry t stage b)) <$> buckets t)
  end.

(** ** Docker ([_sample_docker]) *)

(** [str(o)] of a decoded JSON value; a string is itself. *)
Context (py_str : pyobj → pystr).

(** The containers of this compose project, from [docker compose ps -q]. *)
Record container_ids := mkIds { app_id : pystr; redis_id : pystr }.

(** The first line of a finished [docker compose ps -q]: exit code, output. *)
Definition compose_id (proc : Z * pystr) : option pystr :=
  let '(returncode, stdout) := proc in
  if negb (returncode =? 0) then None
  else
    match splitlines (strip stdout) with
    | line :: _ => match strip line with [] => None | id => Some id end
    | [] => None
    end.

(** [_resolve_compose_container_ids]; [None] for a process that could not be
    run.  The second one only runs when the first gave an id. *)
Definition resolve_compose_container_ids (api redis : option (Z * pystr)) : option container_ids :=
  app ← api ≫= compose_id;
  redis ← redis ≫= compose_id;
  Some (mkIds app redis).

Definition unavailable : docker_sample := mkDocker true None None.

Definition json_field (o : pyobj) (key dflt : pystr) : result exn pystr :=
  match o with
  | ODict d => Ok (py_str (default (OStr dflt) (dict_get key d)))
  | _ => Err EAttributeError
  end.

(** One line of [docker stats]. *)
Definition docker_line (limit : nat) (ids : container_ids) (entry : docker_sample) (line : pystr)
    : result exn docker_sample :=
  match strip line with
  | [] => Ok entry
  | line =>
      match json_loads limit line with
      | Err e => if is_value_error e then Ok entry else Err e
      | Ok parsed =>
          container_id ← str_lower <$> json_field parsed (u8 "ID") [];
          cpu ← (s ← json_field parsed (u8 "CPUPerc") (u8 "0%"); parse_cpu s);
          usage ← json_field parsed (u8 "MemUsage") (u8 "0 / 0");
          mem ← match parse_mem (strip (default [] (head (split_char usage 47)))) with
                | Ok q => Ok (Some q)
                | Err e => if is_value_error e then Ok None else Err e
                end;
          let entry := if container_id_matches container_id (app_id ids)
                       then mkDocker (ds_unavailable entry) (Some (cpu, mem)) (ds_redis entry) else entry in
          Ok (if container_id_matches container_id (redis_id ids)
              then mkDocker (ds_unavailable entry) (ds_app entry) (Some (cpu, mem)) else entry)
      end
  end.

Fixpoint docker_lines (limit : nat) (ids : container_ids) (entry : docker_sample) (lines : list pystr)
    : result exn docker_sample :=
  match lines with
  | [] => Ok entry
  | line :: lines => entry ← docker_line limit ids entry line; docker_lines limit ids entry lines
  end.

(** The samples of the thread: one per [docker stats], until it is stopped;
    a failure ends it with the marker. *)
Fixpoint docker_samples (limit : nat) (ids : container_ids) (procs : list (result exn (Z * pystr)))
    : list docker_sample :=
  match procs with
  | [] => []
  | proc :: procs =>
      match proc with
      | Err _ => [unavailable]
      | Ok (returncode, stdout) =>
          if negb (returncode =? 0) then [unavailable]
          else
            match docker_lines limit ids (mkDocker false None None) (splitlines stdout) with
            | Ok entry => entry :: docker_samples limit ids procs
            | Err _ => [unavailable]
            end
      end
  end.

Definition sample_docker (limit : nat) (ids : option container_ids) (procs : list (result exn (Z * pystr)))
    : list docker_sample :=
  match ids with
  | None => [unavailable]
  | Some ids => docker_samples limit ids procs
  end.

(** ** The load generator's process ([_sample_process]) *)

(** The readings until the process is gone: CPU in percent, memory in MB. *)
Fixpoint sample_loop (readings : list (option (Q * Z))) : list (Q * Q) :=
  match readings with
  | Some (cpu, rss) :: readings => (cpu, (inject_Z rss / inject_Z (1024 * 1024))%Q) :: sample_loop readings
  | _ => []
  end.

(** [None]: [psutil] is missing, or there is no such process to begin with. *)
Definition sample_process (readings : option (list (option (Q * Z)))) : bool * list (Q * Q) :=
  match readings with
  | None => (false, [])
  | Some readings => let samples := sample_loop readings in (negb (bool_decide (samples = [])), samples)
  end.

(** ** Connections ([_sample_connections]) *)

(** A connection as [psutil] lists it: status, remote address if any. *)
Definition connection : Type := pystr * option (pystr * Z).

Definition counted (host : pystr) (port : Z) (conn : connection) : bool :=
  match conn with
  | (status, Some (ip, p)) =>
      bool_decide (status = u8 "ESTABLISHED") && (p =? port) &&
      (bool_decide (ip = host) || (is_loopback_host host && bool_decide (ip ∈ [u8 "127.0.0.1"; u8 "::1"])))
  | (_, None) => false
  end.

(** One reading per second; [None] when the connections cannot be listed. *)
Definition sample_connections (target : option (pystr * Z)) (readings : list (option (list connection)))
    : list (option Z) :=
  match target with
  | None => []
  | Some (host, port) =>
      (λ r : option (list connection), (λ conns, slen (filter (λ c, counted host port c = true) conns)) <$> r) <$> readings
  end.

(** ** Locust's files *)

(** [float(row.get(key, "0") or 0)]. *)
Definition history_number (r : row) (key : pystr) : result exn Q :=
  match default (u8 "0") (dict_get key r) with
  | [] => Ok 0%Q
  | value => py_float value
  end.

Definition Qmax (a b : Q) : Q := if Qltb a b then b else a.

(** The loop of [read_history_metrics]. *)
Fixpoint history_loop (max_users peak_rps : Q) (rows : list row) : result exn (Q * Q) :=
  match rows with
  | [] => Ok (max_users, peak_rps)
  | r :: rows =>
      if negb (bool_decide (dict_get (u8 "Name") r = Some (u8 "Aggregated"))) then history_loop max_users peak_rps rows
      else
        match users ← history_number r (u8 "User Count");
              rps ← history_number r (u8 "Requests/s");
              Ok (users, rps) with
        | Ok (users, rps) => history_loop (Qmax max_users users) (Qmax peak_rps rps) rows
        | Err e => if is_value_error e then history_loop max_users peak_rps rows else Err e
        end
  end.

(** [None] when the file is absent or cannot be read. *)
Definition read_history_metrics (history : option (list row)) : result exn (Q * Q) :=
  match history with
  | None => Ok (0%Q, 0%Q)
  | Some rows => history_loop 0 0 rows
  end.

(** [read_authoritative_aggregate]. *)
Definition read_authoritative_aggregate (final : option (list row)) : result exn row :=
  match final with
  | None => Err ERuntimeError
  | Some rows => read_aggregate rows
  end.
End Reading.

(** ** Labels *)

Lemma slice_from_app {A} (p q : list A) : slice_from (p ++ q) (slen p) = q.
Proof.
  unfold slice_from. rewrite slen_app. pose proof (slice_app_mid p q []) as H. by rewrite app_nil_r in H.
Qed.

(** The value of a label is the text between its quotes, wherever the line has
    the label first. *)
Theorem extract_label_found pre label v post :
  34 ∉ v → str_find (pre ++ label ++ [61; 34] ++ v ++ 34 :: post) (label ++ [61; 34]) = slen pre →
  extract_label (pre ++ label ++ [61; 34] ++ v ++ 34 :: post) label = Some v.
Proof.
  intros Hv Hfind. set (line := pre ++ label ++ [61; 34] ++ v ++ 34 :: post) in *.
  assert (Hline : line = (pre ++ label ++ [61; 34]) ++ v ++ 34 :: post) by (unfold line; by rewrite <-!app_assoc).
  unfold extract_label. rewrite Hfind. pose proof (slen_nonneg pre). rewrite (proj2 (Z.eqb_neq _ _)) by lia.
  replace (slen pre + slen label + 2) with (slen (pre ++ label ++ [61; 34])) by (rewrite !slen_app; unfold slen; simpl; lia).
  set (start := pre ++ label ++ [61; 34]) in *. unfold str_find_from. rewrite Hline, slice_from_app.
  unfold str_find. rewrite find_nat_char by done.
  rewrite (proj2 (Z.eqb_neq (Z.of_nat (length v)) (-1))) by lia. pose proof (slen_nonneg start).
  rewrite (proj2 (Z.eqb_neq _ _)) by (unfold slen in *; lia). f_equal. apply (slice_app_mid start v).
Qed.

Lemma extract_label_found_witness :
  extract_label (u8 "m{stage=" ++ [34] ++ u8 "prepare_ms" ++ [34] ++ u8 "} 3") (u8 "stage") = Some (u8 "prepare_ms").
Proof.
  pose proof (extract_label_found (u8 "m{") (u8 "stage") (u8 "prepare_ms") (u8 "} 3")
    ltac:(by apply (bool_decide_eq_true_1 _)) ltac:(vm_compute; reflexivity)) as H. exact H.
Defined.

(** A sample as [/metrics] shows it, an apostrophe standing for the quotation
    mark: the stage's percentiles and maximum; a bound that cannot be read and a
    line of another metric count for nothing. *)
Definition sample_metrics : pystr :=
  (λ c, if c =? 39 then 34 else c) <$>
  join [10] [u8 "# HELP pii_proxy_stage_duration_seconds Duration";
    u8 "pii_proxy_stage_duration_seconds_bucket{le='1',stage='prepare_ms'} 3";
    u8 "pii_proxy_stage_duration_seconds_bucket{le='2',stage='prepare_ms'} 9";
    u8 "pii_proxy_stage_duration_seconds_bucket{le='+Inf',stage='prepare_ms'} 10";
    u8 "pii_proxy_stage_duration_seconds_bucket{le='x',stage='other'} 10";
    u8 "pii_proxy_stage_duration_seconds_count{stage='prepare_ms'} 10";
    u8 "pii_proxy_stage_duration_seconds_sum{stage='prepare_ms'} 15";
    u8 "pii_proxy_stage_max_seconds{stage='prepare_ms'} 4";
    u8 "pii_proxy_errors_total{error_type='X'} 1"].

Definition sample_float (s : pystr) : result exn Q :=
  match py_int (U := unicode14) s with Some z => Ok (inject_Z z) | None => Err EValueError end.
Definition sample_bound (s : pystr) : result exn bound :=
  if bool_decide (s = u8 "+Inf") then Ok PlusInf else Le <$> sample_float s.

Example stage_timings_read :
  collect_stage_timings sample_float sample_bound (Ok sample_metrics)
  = Ok [(u8 "prepare_ms", Some (mkStage 10 (15 / 10) (Le 2) PlusInf PlusInf (Some 4%Q))); (u8 "other", None)].
Proof. vm_compute. reflexivity. Qed.
