(* ===== verification/LoadRun.v ===== *)
(** * Load runs ([scripts/run_performance.py], [main])

    How the load runner starts Locust, what it makes of a finished run, and
    its two profiles: [main] with a step per target rate, and
    [run_organizer].  Locust, its environment and the network are third
    parties: [LoadHost].  The state [runner] holds the files of every output
    directory the runner reads back and the reports it writes: the results of
    [summary.json] and the text of [summary.md].  The progress lines on the
    console and sleeping are left out.  Removing a stale file is assumed to
    succeed (a failure ends the run).  [load_run_verdict]: the exit code is
    that of the verdicts; [report_shows_verdict]: so is the Markdown report. *)

From Stdlib Require Import QArith.Qround.
From S2P Require Import Prelude Unicode Domain PyStr Utf8 Json Format Restoration Performance Report Urls LoadTools.

(** The files of an output directory: [final_stats.csv], what
    [custom_metrics.json] decodes to, [stats_stats_history.csv]; [None] where
    a file is absent or cannot be read. *)
Record step_files := mkFiles {
  final_stats : option (list row);
  custom_file : option pyobj;
  history : option (list row)
}.
Definition no_files : step_files := mkFiles None None None.

(** A finished Locust process and what the three samplers next to it read:
    CPU and memory of the process; the two [docker compose ps], the
    [docker stats], and whether that thread was still alive when it was
    joined; the connections and the same; the time the process took. *)
Record locust_run := mkLocust {
  returncode : Z;
  process_readings : option (list (option (Q * Z)));
  compose_api : option (Z * pystr);
  compose_redis : option (Z * pystr);
  docker_stats : list (result exn (Z * pystr));
  docker_alive : bool;
  connection_readings : list (option (list connection));
  connections_alive : bool;
  wall_seconds : Q
}.

Definition environment : Type := list (pystr * pystr).

Class LoadHost (W : Type) := {
  environ : W → environment;
  run_locust : list pystr → environment → step_files → stateM W exn (locust_run * step_files);
  urlopen : pystr → stateM W exn (Z * bytes);
  is_url_error : exn → bool                (* URLError or TimeoutError *)
}.

(** ** Constants *)

Definition ORGANIZER_DURATION : Z := 480.
Definition ORGANIZER_TARGET_AVERAGE : Q := 3309375 # 10000.
Definition ORGANIZER_HARD_MAX_USERS : Z := 200.
Definition DEFAULT_TARGETS : pystr := u8 "100,330,500,1000".
Definition SUPPORTED_SCENARIOS : list pystr :=
  [u8 "mask_only"; u8 "roundtrip"; u8 "mask_retry"; u8 "demask_retry"; u8 "duplicate_payload"; u8 "large_payload";
   u8 "mixed"].

(** [parser.error]. *)
Definition SystemExit : exn := EOther (u8 "SystemExit").

(** The parsed command line. *)
Record arguments := mkArguments {
  a_host : pystr;
  a_organizer : bool;                      (* --profile organizer *)
  a_targets : option pystr;
  a_scenario : pystr;
  a_duration : Z;
  a_min_duration_for_stable : Z;
  a_rps_per_user : Q;
  a_spawn_rate : Q;
  a_max_users : Z;
  a_max_error_rate : Q;
  a_max_p95_ms : Q;
  a_max_p99_ms : Q;
  a_min_achieved_ratio : Q;
  a_required_concurrent_users : Z;
  a_required_concurrent_connections : Z;
  a_min_peak_ratio : Q;
  a_max_incomplete_ratio : Q;
  a_server_config : option pystr;
  a_output_dir : pystr;
  a_argv : list pystr                      (* sys.argv *)
}.

Definition ratio_ok (q : Q) : bool := Qle_bool 0 q && Qle_bool q 1.

(** The checks after parsing, the choice of [--scenario] among them. *)
Definition arguments_ok (a : arguments) : bool :=
  bool_decide (a_scenario a ∈ SUPPORTED_SCENARIOS)
  && negb ((a_duration a <=? 0) || Qle_bool (a_rps_per_user a) 0 || Qle_bool (a_spawn_rate a) 0)
  && negb (a_max_users a <=? 0)
  && negb (a_required_concurrent_users a <? 0)
  && negb (a_required_concurrent_connections a <? 0)
  && ratio_ok (a_min_peak_ratio a)
  && ratio_ok (a_max_incomplete_ratio a)
  && negb (a_organizer a && bool_decide (is_Some (a_targets a)))
  && negb (a_organizer a && (ORGANIZER_HARD_MAX_USERS <? a_max_users a)).

(** [profile] of the organizer's report, without the constants and arguments
    it repeats; of the environment, the server's part. *)
Record profile := mkProfile {
  pr_measured_duration : Q;
  pr_observed_max_users : Q;
  pr_observed_peak_rps : Q;
  pr_observed_peak_connections : option Q;
  pr_actual_average_rps : Q;
  pr_server : server_configuration;
  pr_docker : option (option (option Q * option Q) * option (option Q * option Q));
  pr_stages : list (pystr * option stage_stats);
  pr_parameters : list (pystr * pystr)
}.

Section Runner.
Context `{U : UnicodeDB} {W : Type} `{!LoadHost W}.
Context (py_float : pystr → result exn Q) (py_le : pystr → result exn bound) (py_str : pyobj → pystr).
Context (netloc_allowed : pystr → bool) (limit : nat).
(** [str] of a float, [sys.executable] and [str(LOCUSTFILE)]. *)
Context (str_float : Q → pystr) (executable locustfile : pystr).

Record runner := mkRunner {
  dirs : list (pystr * step_files);
  reports : list StepResult;               (* results of summary.json *)
  report_profile : option profile;
  report_md : pystr;                       (* summary.md *)
  host_world : W
}.
Definition runM (A : Type) : Type := stateM runner exn A.

Definition in_host {A} (m : stateM W exn A) : runM A := λ st,
  let '(r, w) := m (host_world st) in (r, mkRunner (dirs st) (reports st) (report_profile st) (report_md st) w).
Definition files_of (dir : pystr) : runM step_files := λ st, (Ok (default no_files (dict_get dir (dirs st))), st).

(** [write_reports]. *)
Definition write_reports (scenario : pystr) (results : list StepResult) (p : option profile) : runM unit := λ st,
  (Ok tt, mkRunner (dirs st) results p (summary_md scenario results) (host_world st)).

(** ** One Locust process *)

(** [reset_step_outputs]: the history file stays. *)
Definition reset_step_outputs (fs : step_files) : step_files := mkFiles None None (history fs).

Definition join_path (dir name : pystr) : pystr := dir ++ u8 "/" ++ name.

Definition locust_command (host : pystr) (n spawn : pystr) (duration : Z) (dir : pystr) : list pystr :=
  [executable; u8 "-m"; u8 "locust"; u8 "-f"; locustfile; u8 "--host"; host; u8 "--headless"; u8 "-u"; n; u8 "-r"; spawn;
   u8 "-t"; int_repr duration ++ u8 "s"; u8 "--csv"; join_path dir (u8 "stats"); u8 "--csv-full-history";
   u8 "--only-summary"].

(** [environment.update(...)]. *)
Definition env_update (env new : environment) : environment := fold_left (λ e kv, dict_set kv.1 kv.2 e) new env.

Definition step_environment (env : environment) (scenario : pystr) (target : Q) (n : Z) (dir : pystr) : environment :=
  env_update (fold_left (λ e key, dict_del key e)
                [u8 "ORGANIZER_DURATION"; u8 "ORGANIZER_MAX_USERS"; u8 "ORGANIZER_RPS_PER_USER"] env)
    [(u8 "LOAD_SCENARIO", scenario); (u8 "LOAD_PROFILE", u8 "steps"); (u8 "TARGET_RPS", str_float target);
     (u8 "LOCUST_USERS", int_repr n); (u8 "CUSTOM_METRICS_PATH", join_path dir (u8 "custom_metrics.json"))].

Definition organizer_environment (env : environment) (a : arguments) : environment :=
  env_update env
    [(u8 "LOAD_SCENARIO", a_scenario a); (u8 "LOAD_PROFILE", u8 "organizer");
     (u8 "ORGANIZER_DURATION", int_repr ORGANIZER_DURATION);
     (u8 "ORGANIZER_RPS_PER_USER", str_float (a_rps_per_user a)); (u8 "ORGANIZER_MAX_USERS", int_repr (a_max_users a));
     (u8 "REQUIRED_CONCURRENT_USERS", int_repr (a_required_concurrent_users a));
     (u8 "CUSTOM_METRICS_PATH", join_path (a_output_dir a) (u8 "custom_metrics.json"))].

(** The process in [dir], whose outputs of earlier runs are removed first. *)
Definition launch (command : list pystr) (env_of : environment → environment) (dir : pystr) : runM locust_run := λ st,
  let fs := reset_step_outputs (default no_files (dict_get dir (dirs st))) in
  match run_locust command (env_of (environ (host_world st))) fs (host_world st) with
  | (Ok (run, fs'), w) => (Ok run, mkRunner (dict_set dir fs' (dirs st)) (reports st) (report_profile st) (report_md st) w)
  | (Err e, w) => (Err e, mkRunner (dict_set dir fs (dirs st)) (reports st) (report_profile st) (report_md st) w)
  end.

(** The tuple [run_step] returns. *)
Record run_stats := mkStats {
  rs_exit : Z;
  rs_avg_cpu : Q;
  rs_avg_mem : Q;
  rs_peak_cpu : Q;
  rs_peak_mem : Q;
  rs_measured : bool;
  rs_docker : option (option (option Q * option Q) * option (option Q * option Q));
  rs_connections_measured : bool;
  rs_peak_connections : option Q
}.

Definition average (l : list Q) : Q :=
  match l with [] => 0%Q | _ => (foldr Qplus 0 l / inject_Z (slen l))%Q end.
Definition maximum (l : list Q) : Q := match l with [] => 0%Q | x :: l => fold_left Qmax l x end.

(** Joining the samplers: what each left, or whether it can be used. *)
Definition finalize_docker_samples (is_alive : bool) (samples : list docker_sample) : list docker_sample :=
  samples ++ if is_alive then [unavailable] else [].
Definition finalize_connection_samples (is_alive : bool) : bool := negb is_alive.

(** What follows [process.wait()]: a sampler that is still running makes its
    samples worthless. *)
Definition stats_of (host : pystr) (r : locust_run) : run_stats :=
  let '(_, process_samples) := sample_process (process_readings r) in
  let cpu := process_samples.*1 in
  let mem := process_samples.*2 in
  let samples := sample_docker py_float py_str limit
                   (resolve_compose_container_ids (compose_api r) (compose_redis r)) (docker_stats r) in
  let samples := finalize_docker_samples (docker_alive r) samples in
  let '(measured, peak) :=
    if finalize_connection_samples (connections_alive r)
    then connection_peak (sample_connections (parse_host_port netloc_allowed host) (connection_readings r))
    else (false, None) in
  mkStats (returncode r) (average cpu) (average mem) (maximum cpu) (maximum mem)
    (match process_samples with [] => false | _ => true end) (docker_peak samples) measured (inject_Z <$> peak).

Definition run_step (host : pystr) (target : Q) (n : Z) (spawn : pystr) (duration : Z) (scenario dir : pystr)
    : runM run_stats :=
  r <-- launch (locust_command host (int_repr n) spawn duration dir)
          (λ env, step_environment env scenario target n dir) dir;
  sret (stats_of host r).

(** With the duration measured around the process. *)
Definition run_organizer_profile (a : arguments) : runM (run_stats * Q) :=
  r <-- launch (locust_command (a_host a) (u8 "1") (u8 "1") ORGANIZER_DURATION (a_output_dir a))
          (λ env, organizer_environment env a) (a_output_dir a);
  sret (stats_of (a_host a) r, wall_seconds r).

(** The [try] around [read_authoritative_aggregate]. *)
Definition aggregate_of (fs : step_files) (exit_code : Z) : row * Z :=
  match read_authoritative_aggregate (final_stats fs) with
  | Ok aggregate => (aggregate, exit_code)
  | Err _ => (empty_aggregate, if exit_code =? 0 then 2 else exit_code)
  end.

Definition usage_of (s : run_stats) : usage :=
  let when_measured (q : Q) := if rs_measured s then Some q else None in
  mkUsage (when_measured (rs_avg_cpu s)) (when_measured (rs_avg_mem s)) (when_measured (rs_peak_cpu s))
    (when_measured (rs_peak_mem s)) (rs_measured s) (rs_measured s).

(** ** The steps profile *)

(** [min(max_users, max(1, ceil(target / rps_per_user)))]. *)
Definition users_for (max_users : Z) (rps_per_user target : Q) : Z :=
  Z.min max_users (Z.max 1 (Qceiling (target / rps_per_user))).

(** [str(min(spawn_rate, users))]: the float unless the number of users is
    smaller. *)
Definition spawn_text (spawn_rate : Q) (n : Z) : pystr :=
  if Qltb (inject_Z n) spawn_rate then int_repr n else str_float spawn_rate.

Definition step_dir (a : arguments) (target : Q) : pystr := join_path (a_output_dir a) (u8 "rps-" ++ general target).

(** The arguments of [build_result] for a finished step. *)
Definition step_args_of (a : arguments) (target : Q) (n : Z) (exit_code : Z) (s : run_stats) (fs : step_files)
    (observed : Q * Q) : step_args :=
  mkStep target n (a_duration a) exit_code (a_max_error_rate a) (a_max_p95_ms a) (a_max_p99_ms a)
    (a_min_achieved_ratio a) (a_scenario a) (custom_metrics_of (custom_file fs))
    (rs_connections_measured s) (rs_peak_connections s) (a_required_concurrent_connections a)
    (a_min_duration_for_stable a) observed.1 observed.2 target (a_required_concurrent_users a) (a_min_peak_ratio a)
    (a_max_incomplete_ratio a) None 0 (usage_of s).

(** One turn of the loop up to [build_result]. *)
Definition run_target (a : arguments) (target : Q) : runM StepResult :=
  let n := users_for (a_max_users a) (a_rps_per_user a) target in
  let dir := step_dir a target in
  s <-- run_step (a_host a) target n (spawn_text (a_spawn_rate a) n) (a_duration a) (a_scenario a) dir;
  fs <-- files_of dir;
  let '(aggregate, exit_code) := aggregate_of fs (rs_exit s) in
  observed <-- slift (read_history_metrics py_float (history fs));
  slift (build_result py_float aggregate (step_args_of a target n exit_code s fs observed)).

Fixpoint run_targets (a : arguments) (results : list StepResult) (targets : list Q) : runM (list StepResult) :=
  match targets with
  | [] => sret results
  | target :: targets =>
      result <-- run_target a target;
      _ <-- write_reports (a_scenario a) (results ++ [result]) None;
      run_targets a (results ++ [result]) targets
  end.

(** ** The organizer profile *)

Definition organizer_args (a : arguments) (exit_code : Z) (s : run_stats) (fs : step_files) (observed : Q * Q)
    (measured : Q) : step_args :=
  mkStep ORGANIZER_TARGET_AVERAGE (a_max_users a) ORGANIZER_DURATION exit_code (a_max_error_rate a) (a_max_p95_ms a)
    (a_max_p99_ms a) (a_min_achieved_ratio a) (a_scenario a) (custom_metrics_of (custom_file fs))
    (rs_connections_measured s) (rs_peak_connections s) (a_required_concurrent_connections a)
    (a_min_duration_for_stable a) observed.1 observed.2 1000 (a_required_concurrent_users a) (a_min_peak_ratio a)
    (a_max_incomplete_ratio a) (Some measured) 475 (usage_of s).

(** [urlopen(f"{host}/metrics")]: any exception of the reading is caught. *)
Definition stage_timings (host : pystr) : runM (list (pystr * option stage_stats)) := λ st,
  match in_host (urlopen (host ++ u8 "/metrics")) st with
  | (r, st) => (collect_stage_timings py_float py_le (snd <$> r), st)
  end.

Definition run_organizer (a : arguments) : runM Z :=
  run <-- run_organizer_profile a;
  let '(s, measured) := run in
  fs <-- files_of (a_output_dir a);
  let '(aggregate, exit_code) := aggregate_of fs (rs_exit s) in
  observed <-- slift (read_history_metrics py_float (history fs));
  result <-- slift (build_result py_float aggregate (organizer_args a exit_code s fs observed measured));
  stages <-- stage_timings (a_host a);
  _ <-- write_reports (a_scenario a) [result]
          (Some (mkProfile measured observed.1 observed.2 (rs_peak_connections s) (result_rps result)
                   (apply_server_config undeclared (a_server_config a)) (rs_docker s) stages
                   (run_parameters (a_argv a))));
  sret (if passed result then 0 else 1).

(** ** [main] *)

(** [body.get("status") == "ready"] of a decoded body. *)
Definition is_ready (body : pyobj) : bool :=
  match body with
  | ODict d => match dict_get (u8 "status") d with Some (OStr s) => bool_decide (s = u8 "ready") | _ => false end
  | _ => false
  end.

Definition check_health (host : pystr) : stateM W exn unit := λ w,
  match urlopen (rstrip_char 47 host ++ u8 "/health/ready") w with
  | (Err e, w) => (Err (if is_url_error e then ERuntimeError else e), w)
  | (Ok (status, raw), w) =>
      (if negb (status =? 200) then Err ERuntimeError
       else
         match text ← utf8_decode raw; json_loads limit text with
         | Err e => Err (if is_value_error e then ERuntimeError else e)
         | Ok body => if is_ready body then Ok tt else Err ERuntimeError
         end, w)
  end.

Definition targets_of (a : arguments) : result exn (list Q) :=
  parse_targets py_float (match a_targets a with Some (c :: s) => c :: s | _ => DEFAULT_TARGETS end).

Definition main (a : arguments) : runM Z :=
  if negb (arguments_ok a) then sraise SystemExit
  else
    _ <-- in_host (check_health (a_host a));
    if a_organizer a then run_organizer a
    else
      targets <-- slift (targets_of a);
      results <-- run_targets a [] targets;
      sret (if forallb passed results then 0 else 1).

(** ** What a verdict rests on *)

(** The host's world moves by the runner's calls alone. *)
Definition host_step (w w' : W) : Prop :=
  (∃ url, (urlopen url w).2 = w') ∨ (∃ command env fs, (run_locust command env fs w).2 = w').

(** The Locust process a result is about: its command and environment. *)
Definition process_of (a : arguments) (r : StepResult) : list pystr * (environment → environment) :=
  if a_organizer a then
    (locust_command (a_host a) (u8 "1") (u8 "1") ORGANIZER_DURATION (a_output_dir a), λ env, organizer_environment env a)
  else
    let target := target_rps (step r) in
    let n := users (step r) in
    (locust_command (a_host a) (int_repr n) (spawn_text (a_spawn_rate a) n) (a_duration a) (step_dir a target),
     λ env, step_environment env (a_scenario a) target n (step_dir a target)).

(** Between the worlds [w0] and [w1] the process of [r] was run, on a
    directory that held neither table nor counters; it exited cleanly and
    left both, and they are what [r] measures and counts. *)
Definition rests_on (a : arguments) (w0 w1 : W) (r : StepResult) : Prop :=
  ∃ run fs old w w' aggregate,
    rtc host_step w0 w ∧ rtc host_step w' w1 ∧
    run_locust (process_of a r).1 ((process_of a r).2 (environ w)) (reset_step_outputs old) w = (Ok (run, fs), w') ∧
    returncode run = 0 ∧
    read_authoritative_aggregate (final_stats fs) = Ok aggregate ∧ measure py_float (step r) aggregate = Ok (figures r) ∧
    is_Some (custom_file fs) ∧ custom_metrics (step r) = custom_metrics_of (custom_file fs).

Lemma rests_on_within a w0 w1 w0' w1' r :
  rtc host_step w0 w0' → rtc host_step w1' w1 → rests_on a w0' w1' r → rests_on a w0 w1 r.
Proof.
  intros H0 H1 (run & fs & old & w & w' & row & Hw & Hw' & H). exists run, fs, old, w, w', row.
  split; [by etrans|]. split; [by etrans|exact H].
Qed.

(** [target] was asked of enough users, as far as [--max-users] allows. *)
Definition as_requested (a : arguments) (target : Q) (r : StepResult) : Prop :=
  (0 < target)%Q ∧ target_rps (step r) = target ∧ scenario (step r) = a_scenario a ∧
  1 <= users (step r) <= a_max_users a ∧
  (users (step r) < a_max_users a → (target <= inject_Z (users (step r)) * a_rps_per_user a)%Q).

Lemma launch_Ok command env_of dir st r st' :
  launch command env_of dir st = (Ok r, st') →
  ∃ fs old, dict_get dir (dirs st') = Some fs ∧ reports st' = reports st ∧
    run_locust command (env_of (environ (host_world st))) (reset_step_outputs old) (host_world st) =
      (Ok (r, fs), host_world st').
Proof.
  unfold launch. destruct (run_locust _ _ _ _) as [[[run fs]|e] w] eqn:Hrun; [|done].
  intros [= <- <-]. exists fs, (default no_files (dict_get dir (dirs st))). cbn [dirs reports host_world].
  by rewrite dict_get_set_eq.
Qed.

Lemma launch_host_step command env_of dir st r st' :
  launch command env_of dir st = (Ok r, st') → rtc host_step (host_world st) (host_world st').
Proof.
  intros (fs & old & _ & _ & Hrun)%launch_Ok. apply rtc_once. right. do 3 eexists. by rewrite Hrun.
Qed.

Lemma passed_exit_code a m : passed (result_of a m) = true → locust_exit_code a = 0 ∧ is_Some (custom_metrics a).
Proof.
  rewrite passed_nil. unfold violations_of. rewrite !app_nil, row_violations_nil. intros ((He & _) & Hc & _).
  split; [done|]. destruct (custom_metrics a); [by eexists|done].
Qed.

Lemma build_result_step r a res : build_result py_float r a = Ok res →
  ∃ m, measure py_float a r = Ok m ∧ res = result_of a m.
Proof. unfold build_result. intros (m & Hm & [= <-])%bind_Ok. by exists m. Qed.

Lemma step_of_result a m : step (result_of a m) = a.
Proof. done. Qed.

(** A result built on a process passes only on what that process wrote. *)
Lemma passed_fresh a fs dir st st0 host env_of command r aggregate code sa m :
  launch command env_of dir st = (Ok r, st0) → dict_get dir (dirs st0) = Some fs →
  aggregate_of fs (rs_exit (stats_of host r)) = (aggregate, code) → measure py_float sa aggregate = Ok m →
  process_of a (result_of sa m) = (command, env_of) →
  locust_exit_code sa = code → custom_metrics sa = custom_metrics_of (custom_file fs) →
  passed (result_of sa m) = true → rests_on a (host_world st) (host_world st0) (result_of sa m).
Proof.
  intros (fs' & old & Hfs & _ & Hrun)%launch_Ok Hget Hagg Hm Hproc Hcode Hcm (He & Hc)%passed_exit_code.
  rewrite Hget in Hfs. injection Hfs as <-. rewrite Hcode in He. subst code.
  unfold aggregate_of, stats_of in Hagg. destruct (sample_process _). destruct (if finalize_connection_samples (connections_alive r) then _ else _) as [? ?]. cbn [rs_exit] in Hagg.
  rewrite Hcm in Hc. rewrite He in Hagg.
  assert (Hrow : read_authoritative_aggregate (final_stats fs) = Ok aggregate ∧ returncode r = 0).
  { destruct (read_authoritative_aggregate _) as [row|e]; [by injection Hagg as -> ->|].
    destruct (Z.eqb_spec (returncode r) 0); injection Hagg as _ Hcode; [lia|congruence]. }
  destruct Hrow as [Hrow Hcode]. exists r, fs, old, (host_world st), (host_world st0), aggregate.
  rewrite Hproc. split_and!; try done. destruct (custom_file fs); [by eexists|by destruct Hc].
Qed.

Lemma users_for_bounds a target :
  (0 < a_rps_per_user a)%Q → 0 < a_max_users a →
  let n := users_for (a_max_users a) (a_rps_per_user a) target in
  1 <= n <= a_max_users a ∧ (n < a_max_users a → (target <= inject_Z n * a_rps_per_user a)%Q).
Proof.
  intros Hr Hm. cbn zeta. unfold users_for. split; [lia|]. intros Hlt.
  pose proof (Qle_ceiling (target / a_rps_per_user a)) as Hc.
  assert (Hn : (target / a_rps_per_user a <=
    inject_Z (Z.min (a_max_users a) (Z.max 1 (Qceiling (target / a_rps_per_user a)))))%Q).
  { eapply Qle_trans; [exact Hc|]. rewrite <-Zle_Qle. lia. }
  rewrite <-(Qmult_div_r target (a_rps_per_user a)) at 1 by (intros H; rewrite H in Hr; by apply Qlt_irrefl in Hr).
  rewrite Qmult_comm. by apply Qmult_le_compat_r; [|apply Qlt_le_weak].
Qed.

Lemma run_target_spec a target st r st' :
  (0 < a_rps_per_user a)%Q → 0 < a_max_users a → (0 < target)%Q →
  a_organizer a = false → run_target a target st = (Ok r, st') →
  as_requested a target r ∧ built r ∧ reports st' = reports st ∧ rtc host_step (host_world st) (host_world st') ∧
  (passed r = true → rests_on a (host_world st) (host_world st') r).
Proof.
  intros Hr Hm Ht Horg Hrun. unfold run_target in Hrun.
  apply sbind_Ok in Hrun as (s & st1 & Hs & Hrun). unfold run_step in Hs.
  apply sbind_Ok in Hs as (run & st0 & Hl & [= <- <-]).
  apply sbind_Ok in Hrun as (fs & st2 & [= Hfs <-] & Hrun).
  destruct (aggregate_of fs _) as [aggregate code] eqn:Hagg.
  apply sbind_Ok in Hrun as (observed & st3 & [= Hobs <-] & [= Hres <-]).
  apply build_result_step in Hres as (m & Hmeas & ->).
  destruct (launch_Ok _ _ _ _ _ _ Hl) as (fs' & old & Hget & Hrep & _). rewrite Hget in Hfs. cbn in Hfs. subst fs.
  split_and!; [|done|done|by eapply launch_host_step|].
  - unfold as_requested. rewrite step_of_result. cbn [target_rps scenario users step_args_of].
    destruct (users_for_bounds a target Hr Hm). split_and!; try done; lia.
  - refine (passed_fresh _ _ _ _ _ _ _ _ _ _ _ _ _ Hl Hget Hagg Hmeas _ _ _); try reflexivity.
    unfold process_of. by rewrite Horg.
Qed.

(** [summary.md] is the report of the results. *)
Definition written (a : arguments) (st : runner) : Prop := report_md st = summary_md (a_scenario a) (reports st).

Lemma run_targets_spec a results targets st res st' :
  (0 < a_rps_per_user a)%Q → 0 < a_max_users a → Forall (λ t, (0 < t)%Q) targets →
  a_organizer a = false → reports st = results → written a st → Forall built results →
  run_targets a results targets st = (Ok res, st') →
  rtc host_step (host_world st) (host_world st') ∧
  ∃ new, res = results ++ new ∧ reports st' = res ∧ written a st' ∧ Forall built res ∧ Forall2 (as_requested a) targets new ∧
    Forall (λ r, passed r = true → rests_on a (host_world st) (host_world st') r) new.
Proof.
  intros Hr Hm Ht Horg. revert results st. induction Ht as [|t targets Ht _ IH]; intros results st Hrep Hw Hb Hrun.
  - injection Hrun as <- <-. split; [done|]. exists []. rewrite app_nil_r. by split_and!.
  - cbn [run_targets] in Hrun. apply sbind_Ok in Hrun as (r & st1 & H1 & Hrun).
    apply sbind_Ok in Hrun as ([] & st2 & [= <-] & Hrun).
    destruct (run_target_spec a t st r st1 Hr Hm Ht Horg H1) as (Hreq & Hbr & _ & Hstep & Hfresh).
    apply IH in Hrun as (Hsteps & new & -> & Hrep' & Hw' & Hb' & Hall & Hnew); [|done|done|by apply Forall_app_2, Forall_singleton].
    cbn [host_world] in *. split; [by etrans|].
    exists (r :: new). rewrite <-app_assoc in *. split_and!; [done..|by constructor|]. constructor.
    + intros Hp. eapply rests_on_within; [|exact Hsteps|by apply Hfresh]. done.
    + eapply Forall_impl; [exact Hnew|]. intros x Hx Hp. by eapply rests_on_within; [exact Hstep| |by apply Hx].
Qed.

Lemma arguments_ok_spec a : arguments_ok a = true → (0 < a_rps_per_user a)%Q ∧ 0 < a_max_users a.
Proof.
  unfold arguments_ok. rewrite !andb_true_iff, !negb_true_iff, !orb_false_iff. intros H.
  destruct H as ((((((((_ & ((_ & Hr) & _)) & Hm) & _) & _) & _) & _) & _) & _). split; [|lia].
  apply Qnot_le_lt. intros Hle%Qle_bool_iff. congruence.
Qed.

Lemma parse_targets_positive spec ts :
  parse_targets py_float spec = Ok ts → ts ≠ [] ∧ Forall (λ t, (0 < t)%Q) ts.
Proof.
  unfold parse_targets. intros (l & _ & Hl)%bind_Ok. destruct l as [|t l]; [done|].
  destruct (existsb _ _) eqn:He; [done|]. injection Hl as <-. split; [done|].
  apply Forall_forall. intros x Hx. apply Qnot_le_lt. intros Hle%Qle_bool_iff.
  assert (existsb (λ target, Qle_bool target 0) (t :: l) = true); [|congruence].
  apply existsb_exists. exists x. by rewrite <-list_elem_of_In.
Qed.

Lemma stage_timings_step host st l st' :
  stage_timings host st = (Ok l, st') → rtc host_step (host_world st) (host_world st').
Proof.
  unfold stage_timings, in_host. destruct (urlopen _ _) as [r w] eqn:Hu. intros [= _ <-].
  apply rtc_once. left. eexists. by rewrite Hu.
Qed.

Lemma check_health_step host st st' :
  in_host (check_health host) st = (Ok tt, st') → rtc host_step (host_world st) (host_world st').
Proof.
  unfold in_host, check_health. destruct (urlopen _ _) as [r w] eqn:Hu. intros Hst.
  apply rtc_once. left. eexists. rewrite Hu. destruct r as [[status raw]|e]; by injection Hst as _ <-.
Qed.

Lemma run_organizer_spec a st code st' :
  a_organizer a = true → run_organizer a st = (Ok code, st') →
  ∃ r, reports st' = [r] ∧ written a st' ∧ built r ∧ code = (if passed r then 0 else 1) ∧ target_rps (step r) = ORGANIZER_TARGET_AVERAGE ∧
    is_Some (measured_duration (step r)) ∧ (passed r = true → rests_on a (host_world st) (host_world st') r).
Proof.
  intros Horg. unfold run_organizer. intros ([s measured] & st1 & Hs & Hrun)%sbind_Ok. unfold run_organizer_profile in Hs.
  apply sbind_Ok in Hs as (run & st0 & Hl & [= <- <- <-]).
  apply sbind_Ok in Hrun as (fs & st2 & [= Hfs <-] & Hrun).
  destruct (aggregate_of fs _) as [aggregate exit_code] eqn:Hagg.
  apply sbind_Ok in Hrun as (observed & st3 & [= Hobs <-] & Hrun).
  apply sbind_Ok in Hrun as (result & st4 & [= Hres <-] & Hrun).
  apply sbind_Ok in Hrun as (stages & st5 & Hst & Hrun).
  apply sbind_Ok in Hrun as ([] & st6 & [= <-] & [= <- <-]).
  apply build_result_step in Hres as (m & Hmeas & ->). exists (result_of (organizer_args a exit_code (stats_of (a_host a) run) fs observed (wall_seconds run)) m).
  destruct (launch_Ok _ _ _ _ _ _ Hl) as (fs' & old & Hget & _ & _). rewrite Hget in Hfs. cbn in Hfs. subst fs.
  split_and!; [done|done|done|done|done|by eexists|]. intros Hp.
  eapply rests_on_within; [reflexivity|exact (stage_timings_step _ _ _ _ Hst)|].
  refine (passed_fresh _ _ _ _ _ _ _ _ _ _ _ _ _ Hl Hget Hagg Hmeas _ _ _ Hp); try reflexivity.
  unfold process_of. by rewrite Horg.
Qed.

(** What a run leaves: a verdict of its results, and their report. *)
Lemma main_verdict a st code st' :
  main a st = (Ok code, st') →
  (code = 0 ∨ code = 1) ∧ (code = 0 ↔ Forall (λ r, passed r = true) (reports st')) ∧
  Forall (λ r, passed r = true → rests_on a (host_world st) (host_world st') r) (reports st') ∧
  written a st' ∧ Forall built (reports st') ∧
  (if a_organizer a
   then ∃ r, reports st' = [r] ∧ target_rps (step r) = ORGANIZER_TARGET_AVERAGE ∧ is_Some (measured_duration (step r))
   else ∃ targets, targets_of a = Ok targets ∧ targets ≠ [] ∧ Forall2 (as_requested a) targets (reports st')).
Proof.
  unfold main. destruct (arguments_ok a) eqn:Hok; [|done]. cbn [negb].
  apply arguments_ok_spec in Hok as [Hr Hm]. intros ([] & st1 & Hh%check_health_step & Hrun)%sbind_Ok.
  destruct (a_organizer a) eqn:Horg.
  - apply run_organizer_spec in Hrun as (r & Hrep & Hw & Hb & -> & ? & ? & Hfresh); [|done]. rewrite Hrep.
    split_and!; [by destruct (passed r); auto| | |done|by repeat constructor|eauto]; rewrite Forall_singleton;
      [|intros Hp; by eapply rests_on_within; [exact Hh| |by apply Hfresh]].
    by destruct (passed r).
  - apply sbind_Ok in Hrun as (targets & st2 & [= Ht <-] & Hrun).
    apply sbind_Ok in Hrun as (results & st3 & Hres & [= <- <-]).
    destruct (parse_targets_positive _ _ Ht) as [Hne Hpos]. destruct targets as [|t targets]; [done|].
    cbn [run_targets] in Hres. apply sbind_Ok in Hres as (r & st4 & H1 & Hres).
    apply sbind_Ok in Hres as ([] & st5 & [= <-] & Hres). cbn [app] in Hres.
    apply Forall_cons in Hpos as [Hpos1 Hpos].
    destruct (run_target_spec a t st1 r st4 Hr Hm Hpos1 Horg H1) as (Hreq & Hbr & _ & Hstep & Hfresh).
    apply run_targets_spec in Hres as (Hsteps & new & -> & Hrep & Hw & Hb & Hall & Hnew); [|done..|by apply Forall_singleton].
    cbn [host_world] in Hsteps, Hnew.
    rewrite Hrep. split_and!; [by case_match; auto| | |done|done|exists (t :: targets); split_and!; [done|done|by constructor]].
    { rewrite <-forallb_Forall. by destruct (forallb passed ([r] ++ new)). }
    constructor.
    + intros Hp. by eapply rests_on_within; [exact Hh|exact Hsteps|by apply Hfresh].
    + eapply Forall_impl; [exact Hnew|]. intros x Hx Hp.
      by eapply rests_on_within; [etrans; [exact Hh|exact Hstep]| |by apply Hx].
Qed.

(** C39: the exit code of a load run means what it says: 0 exactly when every
    result of the written report passed, 1 otherwise; a result that passed
    was measured on the table, and carries the counters, that its own Locust
    process (started during this run for its users, target and directory)
    left after exiting cleanly - stale files of an earlier run were removed,
    and a missing one fails the step; and the report has one result per
    target, in order, each asked of enough users within the limit, or the
    single result of the organizer's profile over its measured duration. *)
Theorem load_run_verdict a st code st' :
  main a st = (Ok code, st') →
  (code = 0 ∨ code = 1) ∧ (code = 0 ↔ Forall (λ r, passed r = true) (reports st')) ∧
  Forall (λ r, passed r = true → rests_on a (host_world st) (host_world st') r) (reports st') ∧
  (if a_organizer a
   then ∃ r, reports st' = [r] ∧ target_rps (step r) = ORGANIZER_TARGET_AVERAGE ∧ is_Some (measured_duration (step r))
   else ∃ targets, targets_of a = Ok targets ∧ targets ≠ [] ∧ Forall2 (as_requested a) targets (reports st')).
Proof. intros Hmain. destruct (main_verdict a st code st' Hmain) as (? & ? & ? & _ & _ & ?). by split_and!. Qed.

(** The scenario of a run that starts fits on a line. *)
Lemma scenario_on_line a : arguments_ok a = true → 10 ∉ a_scenario a.
Proof.
  unfold arguments_ok. rewrite !andb_true_iff. intros H.
  destruct H as ((((((((Hs%bool_decide_eq_true & _) & _) & _) & _) & _) & _) & _) & _).
  revert Hs. generalize (a_scenario a). apply Forall_forall.
  unfold SUPPORTED_SCENARIOS. by repeat (apply Forall_cons_2; [apply no_newline; vm_compute; reflexivity|]).
Qed.

(** C38: the verdict can be read off the report.  After a run, [summary.md]
    split into lines and cells has one row per result under its header, with
    the result's rates up to the decimals shown, which ends in PASS exactly
    when this result passed; and the run's exit code is 0 exactly when every
    one of these rows ends in PASS. *)
Theorem report_shows_verdict a st code st' :
  main a st = (Ok code, st') →
  ∃ lines, split_char (report_md st') 10 = lines ++ [[]] ∧
    (∀ i r, reports st' !! i = Some r → ∃ row, lines !! (4 + i)%nat = Some row ∧
       length (cells_of row) = length (cells_of HEADER) ∧
       (passed r = true ↔ last (cells_of row) = Some (u8 " PASS ")) ∧
       reads_as row 0 0 (target_rps (step r)) ∧ reads_as row 1 1 (result_rps r) ∧ reads_as row 2 2 (result_ratio r)) ∧
    (code = 0 ↔ ∀ i, (i < length (reports st'))%nat →
       ∃ row, lines !! (4 + i)%nat = Some row ∧ last (cells_of row) = Some (u8 " PASS ")).
Proof.
  intros Hmain. assert (Hs : 10 ∉ a_scenario a).
  { apply scenario_on_line. revert Hmain. unfold main. by destruct (arguments_ok a). }
  destruct (main_verdict a st code st' Hmain) as (_ & Hcode & _ & Hw & Hb & _).
  destruct (summary_reads_back (a_scenario a) (reports st') Hs Hb) as (lines & Hl & Hrows).
  exists lines. rewrite Hw. split; [exact Hl|]. split.
  - intros i r Hi. destruct (Hrows i r Hi) as (row & ? & ? & Hpass & ?). exists row.
    split; [done|]. split; [done|]. by split; [exact Hpass|].
  - rewrite Hcode, Forall_lookup. split.
    + intros Hp i [r Hi]%lookup_lt_is_Some_2. destruct (Hrows i r Hi) as (row & ? & _ & Hpass & _).
      exists row. split; [done|]. by apply Hpass, (Hp i).
    + intros Hp i r Hi. destruct (Hrows i r Hi) as (row & Hrow & _ & Hpass & _).
      destruct (Hp i) as (row' & Hrow' & Hlast); [by eapply lookup_lt_Some|]. rewrite Hrow in Hrow'. injection Hrow' as <-.
      by apply Hpass.
Qed.

(** ** The environment Locust is given *)

Lemma env_update_get new env k :
  k ∉ new.*1 → dict_get k (env_update env new) = dict_get k env.
Proof.
  revert env. induction new as [|[k' v] new IH]; intros env Hk; [done|]. cbn [env_update fold_left fst snd] in *.
  apply not_elem_of_cons in Hk as [Hne Hk]. unfold env_update in IH. rewrite IH by done. by apply dict_get_set_ne.
Qed.

Lemma env_update_set new env k v :
  NoDup new.*1 → (k, v) ∈ new → dict_get k (env_update env new) = Some v.
Proof.
  revert env. induction new as [|[k' v'] new IH]; intros env Hnd Hin; [by apply elem_of_nil in Hin|].
  apply NoDup_cons in Hnd as [Hk' Hnd]. apply elem_of_cons in Hin as [[= -> ->]|Hin]; [|by apply IH].
  cbn [env_update fold_left fst snd] in *. fold (env_update (dict_set k' v' env) new).
  rewrite env_update_get by done. apply dict_get_set_eq.
Qed.

(** Nothing of the surroundings leaks into the profile: whatever the ambient
    environment holds, a step runs as a step with no organizer variable, and
    the organizer profile runs its full duration. *)
Theorem environments_forced env a scenario target n dir :
  NoDup env.*1 →
  (∀ k, k ∈ [u8 "ORGANIZER_DURATION"; u8 "ORGANIZER_MAX_USERS"; u8 "ORGANIZER_RPS_PER_USER"] →
     dict_get k (step_environment env scenario target n dir) = None) ∧
  dict_get (u8 "LOAD_PROFILE") (step_environment env scenario target n dir) = Some (u8 "steps") ∧
  dict_get (u8 "LOAD_PROFILE") (organizer_environment env a) = Some (u8 "organizer") ∧
  dict_get (u8 "ORGANIZER_DURATION") (organizer_environment env a) = Some (u8 "480").
Proof.
  intros Hnd. split_and!.
  - intros k Hk. unfold step_environment. rewrite env_update_get.
    + cbn [fold_left]. rewrite !elem_of_cons in Hk.
      destruct Hk as [-> | [-> | [-> |[]%elem_of_nil]]]; repeat (rewrite dict_get_del_ne by done);
        apply dict_get_del_eq; repeat apply dict_NoDup_del; done.
    + rewrite !elem_of_cons in Hk. destruct Hk as [-> | [-> | [-> |[]%elem_of_nil]]]; by apply (bool_decide_eq_true_1 _).
  - apply env_update_set; [by apply (bool_decide_eq_true_1 _)|]. rewrite !elem_of_cons. auto.
  - apply env_update_set; [by apply (bool_decide_eq_true_1 _)|]. rewrite !elem_of_cons. auto.
  - apply env_update_set; [by apply (bool_decide_eq_true_1 _)|]. rewrite !elem_of_cons. auto 6.
Qed.
End Runner.

(** ** Runs on concrete hosts

    The service is ready; Locust, started on [fs], leaves [after fs]. *)

Definition sample_table : list row :=
  [[(u8 "Name", u8 "/process"); (u8 "Request Count", u8 "600")];
   [(u8 "Name", u8 "Aggregated"); (u8 "Request Count", u8 "600"); (u8 "Failure Count", u8 "0"); (u8 "Requests/s", u8 "10");
    (u8 "Average Response Time", u8 "12"); (u8 "50%", u8 "9"); (u8 "95%", u8 "40"); (u8 "99%", u8 "90")]].

Definition sample_counters : pyobj :=
  ODict [(u8 "http_2xx", OInt 600); (u8 "http_429", OInt 0); (u8 "http_422", OInt 0); (u8 "http_other", OInt 0);
         (u8 "transport_errors", OInt 0); (u8 "mask_requests", OInt 300); (u8 "demask_requests", OInt 300);
         (u8 "functional_errors", OInt 0); (u8 "incomplete_roundtrips", OInt 0)].

Definition sample_files : step_files :=
  mkFiles (Some sample_table) (Some sample_counters)
    (Some [[(u8 "Name", u8 "Aggregated"); (u8 "User Count", u8 "1"); (u8 "Requests/s", u8 "11")]]).

Definition sample_locust : locust_run :=
  mkLocust 0 (Some [Some (20%Q, 104857600); Some (40%Q, 125829120); None]) (Some (0, u8 "0123456789abcdef")) None [] false [Some []; None] false 481.

Definition host_leaving (after : step_files → step_files) : LoadHost unit := {|
  environ := λ _, [(u8 "ORGANIZER_DURATION", u8 "5")];
  run_locust := λ _ _ fs w, (Ok (sample_locust, after fs), w);
  urlopen := λ _ w, (Ok (200, default [] (json_dumps (ODict [(u8 "status", OStr (u8 "ready"))]))), w);
  is_url_error := λ _, false
|}.

Definition integer_float (s : pystr) : result exn Q :=
  match py_int (U := unicode14) s with Some z => Ok (inject_Z z) | None => Err EValueError end.

Definition sample_arguments : arguments :=
  mkArguments (u8 "http://localhost:8000") false (Some (u8 "10, 10")) (u8 "roundtrip") 60 30 10 100 200 1 200 500 (9 # 10)
    0 0 0 (1 # 100) None (u8 "out") [].

Definition run_main (after : step_files → step_files) (a : arguments) (st : runner (W := unit)) :=
  @main unicode14 unit (host_leaving after) integer_float (λ s, Le <$> integer_float s) (λ _, []) (λ _, true) 100
    (λ _, u8 "10") (u8 "python") (u8 "locustfile.py") a st.

Definition exit_code (o : result exn Z * runner (W := unit)) : option Z := match o.1 with Ok c => Some c | Err _ => None end.

(** A Locust that works; one that exits cleanly at once, in directories that
    still hold the passing files of an earlier run. *)
Example load_runs :
  exit_code (run_main (λ _, sample_files) sample_arguments (mkRunner [] [] None [] tt)) = Some 0 ∧
  exit_code (run_main (λ fs, fs) sample_arguments (mkRunner [(u8 "out/rps-10", sample_files)] [] None [] tt)) = Some 1.
Proof. vm_compute. split; reflexivity. Qed.

Lemma passing_run : ∃ st', run_main (λ _, sample_files) sample_arguments (mkRunner [] [] None [] tt) = (Ok 0, st').
Proof.
  eexists. rewrite (surjective_pairing (run_main _ _ _)). apply (f_equal2 pair); [|reflexivity].
  assert (H : exit_code (run_main (λ _, sample_files) sample_arguments (mkRunner [] [] None [] tt)) = Some 0) by (vm_compute; reflexivity).
  unfold exit_code in H. destruct (run_main _ _ _).1; [by injection H as ->|done].
Qed.

Lemma load_run_verdict_witness :
  ∃ st', run_main (λ _, sample_files) sample_arguments (mkRunner [] [] None [] tt) = (Ok 0, st') ∧
    Forall (λ r, passed r = true) (reports st').
Proof.
  destruct passing_run as [st' Hrun]. exists st'. split; [exact Hrun|].
  pose proof (@load_run_verdict unicode14 unit (host_leaving (λ _, sample_files)) integer_float (λ s, Le <$> integer_float s)
    (λ _, []) (λ _, true) 100 (λ _, u8 "10") (u8 "python") (u8 "locustfile.py")
    sample_arguments _ 0 st' Hrun) as (_ & H & _). apply H. reflexivity.
Defined.

Lemma report_shows_verdict_witness :
  ∃ st' lines, run_main (λ _, sample_files) sample_arguments (mkRunner [] [] None [] tt) = (Ok 0, st') ∧
    split_char (report_md st') 10 = lines ++ [[]] ∧
    ∀ i, (i < length (reports st'))%nat →
      ∃ row, lines !! (4 + i)%nat = Some row ∧ last (cells_of row) = Some (u8 " PASS ").
Proof.
  destruct passing_run as [st' Hrun].
  destruct (@report_shows_verdict unicode14 unit (host_leaving (λ _, sample_files)) integer_float (λ s, Le <$> integer_float s)
    (λ _, []) (λ _, true) 100 (λ _, u8 "10") (u8 "python") (u8 "locustfile.py")
    sample_arguments _ 0 st' Hrun) as (lines & Hl & _ & H).
  exists st', lines. split_and!; [exact Hrun|exact Hl|]. by apply H.
Defined.

Lemma environments_forced_witness :
  dict_get (u8 "ORGANIZER_DURATION")
    (step_environment (λ _, u8 "10") [(u8 "ORGANIZER_DURATION", u8 "5")] (u8 "mixed") 10 1 (u8 "out")) = None.
Proof.
  pose proof (environments_forced (λ _, u8 "10") [(u8 "ORGANIZER_DURATION", u8 "5")] sample_arguments (u8 "mixed") 10 1
    (u8 "out") (NoDup_singleton _)) as (H & _). apply H. rewrite !elem_of_cons. by left.
Defined.
