(* ===== verification/LoadShape.v ===== *)
(** * The organizers' load profile ([tests/performance/locustfile.py])

    When the load test starts its tasks: the target rate over time, its
    integral [cumulative_tasks], the time at which the [n]-th task is due
    (a bisection of the integral), the number of users, and the scheduler
    every user asks before a task.  Times and rates are exact rationals.
    [cumulative_is_integral] and [schedule_accurate] say that the schedule is
    the profile; [load_never_ahead] that no user ever runs ahead of it. *)

From Stdlib Require Import QArith.Qround QArith.Qabs QArith.Qminmax Lqa.
From S2P Require Import Prelude Domain PyStr.

#[local] Open Scope Q_scope.

(** [target_rps_at]. *)
Definition target_rps_at (t : Q) : Q :=
  if Qltb t 0 then 0
  else if Qltb t 180 then 330 * t / 180
  else if Qltb t 300 then 330
  else if Qltb t 330 then 1000
  else if Qltb t 360 then 1000 - (1000 - 330) * (t - 330) / 30
  else if Qltb t 480 then 330
  else 0.

(** [_MIXED_WEIGHTS] and [REQUESTS_PER_TASK]. *)
Definition MIXED_WEIGHTS : list (pystr * Z) :=
  [(u8 "roundtrip", 5%Z); (u8 "mask_retry", 1%Z); (u8 "demask_retry", 3%Z); (u8 "duplicate_payload", 1%Z);
   (u8 "large_payload", 1%Z)].

Definition weight (scenario : pystr) : Q := inject_Z (default 0%Z (dict_get scenario MIXED_WEIGHTS)).

Definition REQUESTS_PER_TASK : list (pystr * Q) :=
  [(u8 "mask_only", 1); (u8 "roundtrip", 2); (u8 "mask_retry", 2); (u8 "demask_retry", 3);
   (u8 "duplicate_payload", 4); (u8 "large_payload", 2);
   (u8 "mixed",
    (weight (u8 "roundtrip") * 2 + weight (u8 "mask_retry") * 2 + weight (u8 "demask_retry") * 3
     + weight (u8 "duplicate_payload") * 4 + weight (u8 "large_payload") * 2)
    / inject_Z (foldr (λ kv z, (kv.2 + z)%Z) 0%Z MIXED_WEIGHTS))].

Section LoadShape.
(** [ORGANIZER_DURATION], [REQUESTS_PER_TASK[SCENARIO]], [ORGANIZER_MAX_USERS],
    [ORGANIZER_RPS_PER_USER], [REQUIRED_CONCURRENT_USERS]. *)
Context (duration : Q) (per_task : Q) (max_users : Z) (rps_per_user : Q) (required_users : Z).

(** The requests due by [t], segment by segment. *)
Definition requests_due (t : Q) : Q :=
  let total := 330 / 180 * (Qmin t 180 * Qmin t 180) / 2 in
  if Qle_bool t 180 then total
  else
    let total := total + 330 * (Qmin t 300 - 180) in
    if Qle_bool t 300 then total
    else
      let total := total + 1000 * (Qmin t 330 - 300) in
      if Qle_bool t 330 then total
      else
        let seg_end := Qmin t 360 in
        let frac := (seg_end - 330) / 30 in
        let total := total + (1000 + (1000 - 670 * frac)) * (seg_end - 330) / 2 in
        if Qle_bool t 360 then total
        else total + 330 * (t - 360).

(** [_cumulative_tasks]. *)
Definition cumulative_tasks (t : Q) : Q :=
  if Qle_bool t 0 then 0 else requests_due (Qmin t duration) / per_task.

(** The loop of [_scheduled_time_for_ordinal]. *)
Fixpoint bisect (k : nat) (n lo hi : Q) : Q :=
  match k with
  | O => Qred ((lo + hi) / 2)
  | S k =>
      let mid := Qred ((lo + hi) / 2) in
      if Qltb (cumulative_tasks mid) n then bisect k n mid hi else bisect k n lo mid
  end.

Definition scheduled_time_for_ordinal (n : Q) : Q :=
  if Qle_bool n 0 then 0 else bisect 60 n 0 duration.

(** [_organizer_user_count]. *)
Definition organizer_user_count (target : Q) : Z :=
  let by_rate := Z.max 1 (Qceiling (target / rps_per_user)) in
  Z.min max_users (Z.max by_rate required_users).

(** [OrganizerShape.tick] at a run time: users and spawn rate, or the end. *)
Definition tick (t : Q) : option (Z * Q) :=
  if Qle_bool duration t then None
  else
    let users := organizer_user_count (target_rps_at t) in
    Some (users, if Qltb 1 (inject_Z users) then inject_Z users else 1).

(** [_current_per_user_rate] in organizer mode. *)
Definition current_per_user_rate (t : Q) : Q :=
  let target := target_rps_at t in
  let rate := target / inject_Z (organizer_user_count target) / per_task in
  if Qltb rate (1 # 1000) then 1 # 1000 else rate.

(** ** The scheduler *)

(** [_SCHED_NEXT_ORDINAL] and [_SCHED_TOTAL_SLOTS], shared by all users and
    only touched under [_SCHED_LOCK]. *)
Record scheduler := mkScheduler { next_ordinal : Z; total_slots : Q }.

(** [_reset_scheduler]. *)
Definition reset_scheduler : scheduler := mkScheduler 1 (cumulative_tasks duration).

(** The run's clock as a user reads it, and [gevent.sleep]. *)
Class RunClock (W : Type) := {
  get_run_time : W → Q * W;
  sleep : Q → W → W
}.

Context {W : Type} `{!RunClock W}.

(** [while get_run_time() < ORGANIZER_DURATION: sleep(1.0)]; [None] when the
    turns run out. *)
Fixpoint wait_for_end (turns : nat) (w : W) : option W :=
  match turns with
  | O => None
  | S turns =>
      let '(now, w) := get_run_time w in
      if Qltb now duration then wait_for_end turns (sleep 1 w) else Some w
  end.

(** [_organizer_pace]: reserving a slot, and waiting until it is due. *)
Definition reserve (st : scheduler) : Z * scheduler :=
  (next_ordinal st, mkScheduler (next_ordinal st + 1) (total_slots st)).

Definition wait_for_slot (turns : nat) (ordinal : Z) (slots : Q) (w : W) : option (bool * W) :=
  if Qltb slots (inject_Z ordinal) then (λ w, (false, w)) <$> wait_for_end turns w
  else
    let scheduled := scheduled_time_for_ordinal (inject_Z ordinal) in
    let '(now, w) := get_run_time w in
    let delay := scheduled - now in
    Some (true, if Qltb 0 delay then sleep delay w else w).

Definition organizer_pace (turns : nat) (st : scheduler) (w : W) : option (bool * W) * scheduler :=
  let '(ordinal, st) := reserve st in
  (wait_for_slot turns ordinal (total_slots st) w, st).

End LoadShape.

(** ** The integral of the profile *)

Lemma Qle_bool_false a b : Qle_bool a b = false → b < a.
Proof. intros H. apply Qnot_le_lt. intros Hle%Qle_bool_iff. congruence. Qed.

Lemma Qltb_true a b : Qltb a b = true ↔ a < b.
Proof.
  unfold Qltb. rewrite negb_true_iff. split; [apply Qle_bool_false|].
  intros Hlt. apply not_true_iff_false. intros Hle%Qle_bool_iff. by apply Qlt_not_le in Hlt.
Qed.

Ltac destruct_Qle :=
  match goal with
  | |- context [Qle_bool ?a ?b] =>
      destruct (Qle_bool a b) eqn:?;
      [match goal with H : Qle_bool _ _ = true |- _ => apply Qle_bool_iff in H end
      |match goal with H : Qle_bool _ _ = false |- _ => apply Qle_bool_false in H end]
  end.

(** The segments in closed form; they agree where they meet. *)
Lemma due_ramp t : t <= 180 → requests_due t == (11 # 12) * (t * t).
Proof.
  intros Ht. unfold requests_due. destruct_Qle; [|lra]. rewrite Q.min_l by done. field.
Qed.

Lemma due_steady t : 180 <= t → t <= 300 → requests_due t == 29700 + 330 * (t - 180).
Proof.
  intros H1 H2. unfold requests_due. destruct_Qle.
  - assert (t == 180) as -> by lra. reflexivity.
  - destruct_Qle; [|lra]. rewrite Q.min_r, Q.min_l by lra. field.
Qed.

Lemma due_peak t : 300 <= t → t <= 330 → requests_due t == 69300 + 1000 * (t - 300).
Proof.
  intros H1 H2. unfold requests_due. destruct_Qle; [lra|]. destruct_Qle.
  - rewrite Q.min_r, Q.min_l by lra. assert (t == 300) as -> by lra. reflexivity.
  - destruct_Qle; [|lra]. rewrite !(Q.min_r t), Q.min_l by lra. field.
Qed.

Lemma due_decay t :
  330 <= t → t <= 360 → requests_due t == 99300 + 1000 * (t - 330) - (67 # 6) * ((t - 330) * (t - 330)).
Proof.
  intros H1 H2. unfold requests_due. do 2 (destruct_Qle; [lra|]). destruct_Qle.
  - rewrite !(Q.min_r t) by lra. assert (t == 330) as -> by lra. reflexivity.
  - destruct_Qle; [|lra]. rewrite !(Q.min_r t), Q.min_l by lra. field.
Qed.

Lemma due_tail t : 360 <= t → requests_due t == 119250 + 330 * (t - 360).
Proof.
  intros H1. unfold requests_due. do 3 (destruct_Qle; [lra|]). destruct_Qle.
  - rewrite !(Q.min_r t) by lra. assert (t == 360) as -> by lra. reflexivity.
  - rewrite !(Q.min_r t) by lra. field.
Qed.

(** Between [s] and [t] at least nothing and at most the peak rate is due. *)
Definition due_between (s t : Q) : Prop := 0 <= requests_due t - requests_due s <= 1000 * (t - s).

Lemma due_between_glue a b c :
  (∀ s t, a <= s → s <= t → t <= b → due_between s t) → (∀ s t, b <= s → s <= t → t <= c → due_between s t) →
  ∀ s t, a <= s → s <= t → t <= c → due_between s t.
Proof.
  intros Hl Hr s t Ha Hst Hc. destruct (Qlt_le_dec b s) as [Hbs|Hsb]; [apply Hr; lra|].
  destruct (Qlt_le_dec t b) as [Htb|Hbt]; [apply Hl; lra|].
  pose proof (Hl s b Ha Hsb (Qle_refl b)). pose proof (Hr b t (Qle_refl b) Hbt Hc). unfold due_between in *. lra.
Qed.

Lemma due_between_profile s t : 0 <= s → s <= t → t <= 480 → due_between s t.
Proof.
  revert s t. apply due_between_glue with 360; [apply due_between_glue with 330;
    [apply due_between_glue with 300; [apply due_between_glue with 180|]|]|]; intros s t H1 H2 H3; unfold due_between.
  - rewrite !due_ramp by lra. nra.
  - rewrite !due_steady by lra. lra.
  - rewrite !due_peak by lra. lra.
  - rewrite !due_decay by lra. nra.
  - rewrite !due_tail by lra. lra.
Qed.

#[export] Instance requests_due_proper : Proper (Qeq ==> Qeq) requests_due.
Proof.
  intros s t Heq. unfold requests_due. assert (Hb : ∀ c, Qle_bool s c = Qle_bool t c) by (intros c; by rewrite Heq).
  rewrite !Hb. repeat case_match; by rewrite Heq.
Qed.

(** [ORGANIZER_PHASES]: start, end, target and kind. *)
Definition ORGANIZER_PHASES : list (Q * Q * Q * pystr) :=
  [(0, 180, 330, u8 "ramp_up"); (180, 300, 330, u8 "steady"); (300, 330, 1000, u8 "peak");
   (330, 360, 330, u8 "ramp_down"); (360, 480, 330, u8 "steady")].

Section Schedule.
Context (duration per_task : Q) (duration_pos : 0 < duration) (duration_480 : duration <= 480) (per_task_pos : 0 < per_task).

Abbreviation cumulative := (cumulative_tasks duration per_task).
Abbreviation scheduled := (scheduled_time_for_ordinal duration per_task).

Lemma cumulative_due t : 0 <= t → t <= duration → cumulative t == requests_due t / per_task.
Proof using Type.
  intros H0 Ht. unfold cumulative_tasks. destruct_Qle.
  - assert (t == 0) as -> by lra. change (requests_due 0) with (330 / 180 * (Qmin 0 180 * Qmin 0 180) / 2).
    rewrite Q.min_l by done. unfold Qdiv. ring.
  - by rewrite Q.min_l.
Qed.

#[local] Instance cumulative_proper : Proper (Qeq ==> Qeq) cumulative.
Proof using Type.
  intros s t Heq. unfold cumulative_tasks. assert (Hb : Qle_bool s 0 = Qle_bool t 0) by by rewrite Heq.
  rewrite Hb. case_match; by rewrite ?Heq.
Qed.

(** Tasks become due at most at the peak rate, and never less than none. *)
Lemma cumulative_between s t :
  0 <= s → s <= t → t <= duration → 0 <= cumulative t - cumulative s /\ (cumulative t - cumulative s) * per_task <= 1000 * (t - s).
Proof using duration_480 per_task_pos.
  intros H0 Hst Ht. rewrite !cumulative_due by lra. pose proof (due_between_profile s t H0 Hst ltac:(lra)) as Hb.
  unfold due_between in Hb.
  assert (Hmul : ∀ x, x / per_task * per_task == x) by (intros; field; lra).
  pose proof (Hmul (requests_due s)). pose proof (Hmul (requests_due t)).
  split; [apply (Qmult_le_r _ _ per_task per_task_pos)|]; lra.
Qed.

Lemma bisect_spec k n lo hi :
  0 <= lo → lo <= hi → hi <= duration → cumulative lo < n → n <= cumulative hi →
  ∃ lo' hi', bisect duration per_task k n lo hi == (lo' + hi') / 2 ∧ lo <= lo' ∧ lo' <= hi' ∧ hi' <= hi ∧
    (hi' - lo') * inject_Z (2 ^ Z.of_nat k) == hi - lo ∧ cumulative lo' < n ∧ n <= cumulative hi'.
Proof using Type.
  revert lo hi. induction k as [|k IH]; intros lo hi H0 Hle Hhi Hlo Hn; cbn [bisect].
  - exists lo, hi. rewrite Qred_correct. split_and!; try done; try lra. change (inject_Z (2 ^ Z.of_nat 0)) with 1. ring.
  - set (mid := Qred ((lo + hi) / 2)). assert (Hmid : mid == (lo + hi) * (1 # 2)) by (unfold mid; rewrite Qred_correct; field).
    assert (Hpow : inject_Z (2 ^ Z.of_nat (S k)) == 2 * inject_Z (2 ^ Z.of_nat k)).
    { rewrite Nat2Z.inj_succ, Z.pow_succ_r by lia. by rewrite inject_Z_mult. }
    destruct (Qltb (cumulative mid) n) eqn:Hlt.
    + apply Qltb_true in Hlt. destruct (IH mid hi) as (lo' & hi' & Hb & ? & ? & ? & Hw & ? & ?); [lra..|done|done|].
      exists lo', hi'. split_and!; try done; try lra. rewrite Hpow. lra.
    + apply Qltb_false in Hlt. destruct (IH lo mid) as (lo' & hi' & Hb & ? & ? & ? & Hw & ? & ?); [lra..|done|done|].
      exists lo', hi'. split_and!; try done; try lra. rewrite Hpow. lra.
Qed.

Lemma cumulative_zero : cumulative 0 == 0.
Proof using Type. reflexivity. Qed.

(** How far a scheduled time can be off, in requests. *)
Definition slack : Q := 1000 * duration / inject_Z (2 ^ 60).

(** The bisection inverts the integral. *)
Lemma schedule_inverts n :
  0 < n → n <= cumulative duration →
  0 <= scheduled n ∧ scheduled n <= duration ∧
  - slack <= (cumulative (scheduled n) - n) * per_task ∧ (cumulative (scheduled n) - n) * per_task <= slack.
Proof using duration_pos duration_480 per_task_pos.
  intros Hn Hle. unfold scheduled_time_for_ordinal. destruct_Qle; [lra|].
  destruct (bisect_spec 60 n 0 duration) as (lo & hi & Hb & H1 & H2 & H3 & Hw & Hlo & Hhi); try done; try lra.
  set (s := bisect _ _ _ _ _ _) in *. assert (Hs : s == (lo + hi) * (1 # 2)) by (rewrite Hb; field).
  change (2 ^ Z.of_nat 60)%Z with (2 ^ 60)%Z in Hw.
  assert (Hwidth : 1000 * (hi - lo) == slack).
  { unfold slack. assert (Hd : duration == (hi - lo) * inject_Z (2 ^ 60)) by lra. rewrite Hd. field. intros Hz. by apply (Qeq_bool_iff (inject_Z (2 ^ 60)) 0) in Hz. }
  destruct (cumulative_between lo s) as [Hls _]; [lra..|]. destruct (cumulative_between s hi) as [Hsh _]; [lra..|].
  destruct (cumulative_between lo hi) as [_ Hlh]; [lra..|]. split_and!; [lra..| |]; nra.
Qed.

Lemma bisect_range k n lo hi : lo <= hi → lo <= bisect duration per_task k n lo hi ∧ bisect duration per_task k n lo hi <= hi.
Proof using Type.
  revert lo hi. induction k as [|k IH]; intros lo hi Hle; cbn [bisect].
  - rewrite Qred_correct. unfold Qdiv. change (/ 2) with (1 # 2). lra.
  - set (mid := Qred ((lo + hi) / 2)). assert (Hmid : mid == (lo + hi) * (1 # 2)) by (unfold mid; rewrite Qred_correct; field).
    destruct (Qltb _ _); [destruct (IH mid hi)|destruct (IH lo mid)]; lra.
Qed.

(** A later task is not due earlier. *)
Lemma schedule_monotone n m : n <= m → scheduled n <= scheduled m.
Proof using duration_pos.
  intros Hnm. unfold scheduled_time_for_ordinal.
  destruct (Qle_bool n 0) eqn:Hn; [apply Qle_bool_iff in Hn|apply Qle_bool_false in Hn].
  { destruct_Qle; [lra|]. apply bisect_range. lra. }
  destruct_Qle; [lra|]. generalize 60%nat. intros k.
  assert (Hgen : ∀ lo hi, lo <= hi → bisect duration per_task k n lo hi <= bisect duration per_task k m lo hi); [|apply Hgen; lra].
  induction k as [|k IH]; intros lo hi Hle; cbn [bisect]; [lra|].
  set (mid := Qred ((lo + hi) / 2)). assert (Hmid : mid == (lo + hi) * (1 # 2)) by (unfold mid; rewrite Qred_correct; field).
  destruct (Qltb (cumulative mid) n) eqn:H1, (Qltb (cumulative mid) m) eqn:H2.
  - apply IH. lra.
  - apply Qltb_true in H1. apply Qltb_false in H2. lra.
  - destruct (bisect_range k n lo mid), (bisect_range k m mid hi); lra.
  - apply IH. lra.
Qed.
End Schedule.

(** ** The schedule is the profile *)

Ltac destruct_Qltb :=
  match goal with
  | |- context [Qltb ?a ?b] =>
      let H := fresh "H" in
      destruct (Qltb a b) eqn:H; [apply Qltb_true in H|apply Qltb_false in H]
  end.

(** Within a phase the rate is linear, and what is due is its integral. *)
Lemma phases_integrate :
  Forall (λ '(a, b, _, _), 0 <= a ∧ ∀ s t, a <= s → s <= t → t < b →
    requests_due t - requests_due s == (target_rps_at s + target_rps_at t) / 2 * (t - s)) ORGANIZER_PHASES.
Proof.
  assert (Hrate : ∀ t, 0 <= t → t < 480 → target_rps_at t ==
    if Qltb t 180 then (11 # 6) * t else if Qltb t 300 then 330 else if Qltb t 330 then 1000
    else if Qltb t 360 then 1000 - (67 # 3) * (t - 330) else 330).
  { intros t H0 H1. unfold target_rps_at. repeat (destruct_Qltb; try lra); field. }
  unfold ORGANIZER_PHASES. repeat (apply Forall_cons_2; [|]); [..|apply Forall_nil_2];
    (split; [lra|]; intros s t H1 H2 H3; rewrite !Hrate by lra; repeat (destruct_Qltb; try lra);
     unfold Qdiv; change (/ 2) with (1 # 2)).
  - rewrite !due_ramp by lra. ring.
  - rewrite !due_steady by lra. ring.
  - rewrite !due_peak by lra. ring.
  - rewrite !due_decay by lra. ring.
  - rewrite !due_tail by lra. ring.
Qed.

(** The tasks scheduled are the integral of the target rate: within a
    phase of the profile their number grows by the mean of the rates at both
    ends, per task; nothing is due at the start, they never decrease, they do
    not jump (at most the peak rate is added), and a full run makes the
    organizers' average of 330.9375 requests per second. *)
Theorem cumulative_is_integral duration per_task :
  0 < duration → duration <= 480 → 0 < per_task →
  let cumulative := cumulative_tasks duration per_task in
  cumulative 0 == 0 ∧
  (∀ a b rate kind s t, (a, b, rate, kind) ∈ ORGANIZER_PHASES → a <= s → s <= t → t < b → t <= duration →
     (cumulative t - cumulative s) * per_task == (target_rps_at s + target_rps_at t) / 2 * (t - s)) ∧
  (∀ s t, 0 <= s → s <= t → t <= duration →
     cumulative s <= cumulative t ∧ (cumulative t - cumulative s) * per_task <= 1000 * (t - s)) ∧
  (duration == 480 → cumulative duration * per_task == 480 * (3309375 # 10000)).
Proof.
  intros Hd Hd' Hp. cbv zeta.
  assert (Hmul : ∀ x, x / per_task * per_task == x) by (intros; field; lra).
  split_and!.
  - apply cumulative_zero.
  - intros a b rate kind s t Hin Ha Hst Htb Htd. pose proof phases_integrate as Hph. rewrite Forall_forall in Hph.
    destruct (Hph _ Hin) as [H0 Hint]. rewrite <-Hint, !cumulative_due by lra.
    pose proof (Hmul (requests_due s)). pose proof (Hmul (requests_due t)). lra.
  - intros s t H0 Hst Ht. destruct (cumulative_between duration per_task Hd' Hp s t H0 Hst Ht). split; [lra|done].
  - intros Heq. rewrite cumulative_due, Hmul, Heq by lra. vm_compute. reflexivity.
Qed.

Lemma slack_small duration : duration <= 480 → slack duration <= 1 # 1000000000.
Proof.
  intros Hd. unfold slack. apply Qle_shift_div_r; [reflexivity|].
  assert (480000 <= (1 # 1000000000) * inject_Z (2 ^ 60)) by (vm_compute; discriminate). lra.
Qed.

(** C37: the times tasks are due at invert that integral: the [n]-th task is
    due when the integral reaches [n], up to a billionth of a request, later
    tasks are not due earlier, and so between the due times of two tasks never
    more requests are asked for than the peak rate allows. *)
Theorem schedule_accurate duration per_task :
  0 < duration → duration <= 480 → 0 < per_task →
  let cumulative := cumulative_tasks duration per_task in
  let scheduled := scheduled_time_for_ordinal duration per_task in
  (∀ n, 0 < n → n <= cumulative duration →
     0 <= scheduled n ∧ scheduled n <= duration ∧
     Qabs (cumulative (scheduled n) - n) * per_task <= 1 # 1000000000) ∧
  (∀ n m, n <= m → scheduled n <= scheduled m) ∧
  (∀ n m, 0 < n → n <= m → m <= cumulative duration →
     (m - n) * per_task <= 1000 * (scheduled m - scheduled n) + (1 # 500000000)).
Proof.
  intros Hd Hd' Hp. cbv zeta.
  pose proof (slack_small duration Hd') as Hslack.
  assert (Hinv : ∀ n, 0 < n → n <= cumulative_tasks duration per_task duration →
    let s := scheduled_time_for_ordinal duration per_task n in
    0 <= s ∧ s <= duration ∧ Qabs (cumulative_tasks duration per_task s - n) * per_task <= 1 # 1000000000).
  { intros n Hn Hle. destruct (schedule_inverts duration per_task Hd Hd' Hp n Hn Hle) as (? & ? & ? & ?).
    split_and!; try done. apply Qabs_case; intros _; lra. }
  split_and!; [exact Hinv|by apply schedule_monotone|].
  intros n m Hn Hnm Hm. destruct (schedule_inverts duration per_task Hd Hd' Hp n) as (? & ? & ? & ?); [lra..|].
  destruct (schedule_inverts duration per_task Hd Hd' Hp m) as (? & ? & ? & ?); [lra..|].
  pose proof (schedule_monotone duration per_task Hd n m Hnm).
  set (s := scheduled_time_for_ordinal _ _ n) in *. set (t := scheduled_time_for_ordinal _ _ m) in *.
  destruct (cumulative_between duration per_task Hd' Hp s t) as [_ Hb]; [lra..|].
  lra.
Qed.

(** ** Users *)

(** The number of users is at least one and at most the cap, is what was
    required if the cap allows, and serves the target rate unless capped. *)
Lemma organizer_user_count_bounds max_users rps_per_user required target :
  (1 <= max_users)%Z → 0 < rps_per_user →
  let users := organizer_user_count max_users rps_per_user required target in
  (1 <= users <= max_users)%Z ∧ ((required <= max_users)%Z → (required <= users)%Z) ∧
  ((users < max_users)%Z → target <= inject_Z users * rps_per_user).
Proof.
  intros Hm Hr. cbv zeta. unfold organizer_user_count. split_and!; [lia|lia|lia|]. intros Hlt.
  set (users := Z.min _ _) in *. assert (Hc : (Qceiling (target / rps_per_user) <= users)%Z) by (unfold users in *; lia).
  rewrite Zle_Qle in Hc. pose proof (Qle_ceiling (target / rps_per_user)) as Hq.
  assert (Hmul : target / rps_per_user * rps_per_user == target) by (field; lra).
  rewrite <-Hmul. apply Qmult_le_compat_r; lra.
Qed.

(** The weights of the mixed scenario balance MASK and DEMASK, as the comment
    on [_MIXED_WEIGHTS] computes them; a task makes 27/11 requests. *)
Example mixed_weights_balance :
  let w name := weight (u8 name) in
  w "roundtrip" + 2 * w "mask_retry" + w "demask_retry" + 2 * w "duplicate_payload" + w "large_payload"
    == w "roundtrip" + 2 * w "demask_retry" + w "duplicate_payload" + w "large_payload" ∧
  dict_get (u8 "mixed") REQUESTS_PER_TASK = Some (27 # 11).
Proof. vm_compute. split; reflexivity. Qed.

(** With a duration beyond the profile's 480 seconds the count of tasks goes on
    after the target rate has dropped to zero. *)
Example cumulative_beyond_profile :
  target_rps_at 500 == 0 ∧ cumulative_tasks 600 1 500 - cumulative_tasks 600 1 480 == 6600.
Proof. vm_compute. split; reflexivity. Qed.

(** ** The scheduler *)

(** [time]: the run time of a world; reading it and sleeping let it pass. *)
Class RunClockLaws (W : Type) `{!RunClock W} := {
  time : W → Q;
  read_time : ∀ w, time w <= (get_run_time w).1 ∧ (get_run_time w).1 <= time (get_run_time w).2;
  sleep_time : ∀ d w, 0 <= d → time w + d <= time (sleep d w)
}.

Section Pace.
Context (duration per_task : Q) (duration_pos : 0 < duration) (duration_480 : duration <= 480) (per_task_pos : 0 < per_task).
Context {W : Type} `{!RunClock W, !RunClockLaws W}.

Abbreviation wait := (wait_for_slot duration per_task).
Abbreviation scheduled := (scheduled_time_for_ordinal duration per_task).

(** A user that may start its task starts it when it is due, or later. *)
Lemma wait_not_early turns n slots (w w' : W) :
  wait turns n slots w = Some (true, w') → inject_Z n <= slots ∧ scheduled (inject_Z n) <= time w'.
Proof using Type.
  unfold wait_for_slot. destruct_Qltb.
  { by intros (? & _ & [=])%fmap_Some. }
  pose proof (read_time w) as [_ Hr]. destruct (get_run_time w) as [now w1]. cbn [fst snd] in Hr.
  destruct_Qltb; intros [= <-]; split; try done; [|lra].
  pose proof (sleep_time (scheduled (inject_Z n) - now) w1). lra.
Qed.

(** Waiting for the end takes at most a turn per second that is left. *)
Lemma wait_for_end_total turns (w : W) :
  duration <= inject_Z (Z.of_nat turns) + time w → is_Some (wait_for_end duration (S turns) w).
Proof using Type.
  revert w. induction turns as [|turns IH]; intros w Hlt.
  - cbn [wait_for_end]. pose proof (read_time w) as [H1 H2]. destruct (get_run_time w) as [now w1]. cbn [fst snd] in *.
    change (inject_Z (Z.of_nat 0)) with 0 in Hlt. destruct_Qltb; [lra|by eexists].
  - cbn [wait_for_end] in *. pose proof (read_time w) as [H1 H2]. destruct (get_run_time w) as [now w1]. cbn [fst snd] in *.
    destruct_Qltb; [|by eexists]. pose proof (sleep_time 1 w1).
    apply IH. rewrite Nat2Z.inj_succ in Hlt. unfold Z.succ in Hlt. rewrite inject_Z_plus in Hlt.
    change (inject_Z 1) with 1 in Hlt. lra.
Qed.

Lemma wait_for_end_over turns (w w' : W) : wait_for_end duration turns w = Some w' → duration <= time w'.
Proof using Type.
  revert w. induction turns as [|turns IH]; intros w; cbn [wait_for_end]; [done|].
  pose proof (read_time w) as [H1 H2]. destruct (get_run_time w) as [now w1]. cbn [fst snd] in *.
  destruct_Qltb; [apply IH|]. intros [= <-]. lra.
Qed.

(** C33: every call of the organizer's pacing returns: however late or early it
    comes, [ceil(duration) + 1] readings of the run's clock are enough, given
    only that [sleep(d)] lasts [d] seconds or more and the clock does not go
    back.  A call that lets its user go on does so when its slot is due, or
    later, and holds one of the run's slots; a call that ends its user does
    so for want of a slot and after the run's duration. *)
Theorem organizer_pace_returns st (w : W) :
  0 <= time w →
  ∃ go w', organizer_pace duration per_task (S (Z.to_nat (Qceiling duration))) st w =
             (Some (go, w'), mkScheduler (next_ordinal st + 1) (total_slots st)) ∧
    if (go : bool)
    then inject_Z (next_ordinal st) <= total_slots st ∧ scheduled (inject_Z (next_ordinal st)) <= time w'
    else total_slots st < inject_Z (next_ordinal st) ∧ duration <= time w'.
Proof using duration_pos.
  intros H0. unfold organizer_pace. cbn [reserve fst snd total_slots next_ordinal].
  assert (Hret : is_Some (wait (S (Z.to_nat (Qceiling duration))) (next_ordinal st) (total_slots st) w)).
  { unfold wait_for_slot. destruct_Qltb; [|destruct (get_run_time w); by eexists].
    destruct (wait_for_end_total (Z.to_nat (Qceiling duration)) w) as [w' ->]; [|by eexists].
    pose proof (Qle_ceiling duration).
    assert (0 <= Qceiling duration)%Z by (rewrite Zle_Qle; change (inject_Z 0) with 0; lra).
    rewrite Z2Nat.id by done. lra. }
  destruct Hret as [[[] w'] Hw]; rewrite Hw; eexists _, w'; (split; [reflexivity|]); cbn.
  - by eapply wait_not_early.
  - unfold wait_for_slot in Hw. revert Hw. destruct_Qltb; [|by destruct (get_run_time w)].
    intros (w1 & Hw & [= ->])%fmap_Some. split; [done|]. by eapply wait_for_end_over.
Qed.

(** ** All users together

    A state of the run: the scheduler, the ordinals reserved by users that
    are still waiting, the tasks started, each with the time it was, and the
    world.  Users are greenlets: while one sleeps the others move, so that a
    user wakes in any world at least as late as the one its own wait ends
    in. *)
Record pacing := mkPacing {
  pc_sched : scheduler;
  pc_waiting : list Z;
  pc_started : list (Z * Q);
  pc_world : W
}.

Inductive pace_step : pacing → pacing → Prop :=
  | step_reserve st waiting started w :
      pace_step (mkPacing st waiting started w)
        (mkPacing (reserve st).2 ((reserve st).1 :: waiting) started w)
  | step_start st ws1 n ws2 started w turns w0 w1 :
      wait turns n (total_slots st) w0 = Some (true, w1) → time w1 <= time w →
      pace_step (mkPacing st (ws1 ++ n :: ws2) started w)
        (mkPacing st (ws1 ++ ws2) (started ++ [(n, time w)]) w)
  | step_refuse st ws1 n ws2 started w turns w0 w1 :
      wait turns n (total_slots st) w0 = Some (false, w1) → time w1 <= time w →
      pace_step (mkPacing st (ws1 ++ n :: ws2) started w) (mkPacing st (ws1 ++ ws2) started w)
  | step_elapse st waiting started w w' :
      time w <= time w' → pace_step (mkPacing st waiting started w) (mkPacing st waiting started w').

Definition pace_start (w : W) : pacing := mkPacing (reset_scheduler duration per_task) [] [] w.

(** Ordinals are handed out once, and started tasks are due. *)
Definition pace_ok (p : pacing) : Prop :=
  total_slots (pc_sched p) = cumulative_tasks duration per_task duration ∧
  (1 <= next_ordinal (pc_sched p))%Z ∧
  NoDup (pc_waiting p ++ (pc_started p).*1) ∧
  Forall (λ n, 1 <= n < next_ordinal (pc_sched p))%Z (pc_waiting p ++ (pc_started p).*1) ∧
  Forall (λ '(n, t), inject_Z n <= cumulative_tasks duration per_task duration ∧ scheduled (inject_Z n) <= t)
    (pc_started p).

Lemma pace_ok_step p p' : pace_ok p → pace_step p p' → pace_ok p'.
Proof using Type.
  intros (Htot & Hnext & Hnd & Hall & Hdue) Hstep. destruct Hstep; unfold pace_ok in *; cbn [pc_sched pc_waiting pc_started] in *.
  - cbn [reserve fst snd total_slots next_ordinal]. split_and!; [done|lia| | |done].
    + cbn [app]. apply NoDup_cons. split; [|done]. intros Hin. rewrite Forall_forall in Hall.
      specialize (Hall _ Hin). lia.
    + cbn [app]. apply Forall_cons. split; [lia|]. eapply Forall_impl; [exact Hall|]. intros n. cbn. lia.
  - assert (Hperm : (ws1 ++ ws2) ++ (started ++ [(n, time w)]).*1 ≡ₚ (ws1 ++ n :: ws2) ++ started.*1).
    { rewrite fmap_app. cbn. rewrite (Permutation_app_comm started.*1). rewrite <-!(assoc_L (++)). cbn.
      by rewrite Permutation_middle. }
    split_and!; [done|done|by rewrite Hperm|by rewrite Hperm|]. apply Forall_app. split; [done|].
    apply Forall_singleton. apply wait_not_early in H as [Hn Hs]. rewrite <-Htot. split; [done|lra].
  - assert (Hperm : (ws1 ++ n :: ws2) ++ started.*1 ≡ₚ n :: ((ws1 ++ ws2) ++ started.*1))
      by (rewrite <-Permutation_middle; reflexivity).
    rewrite Hperm in Hnd, Hall. apply NoDup_cons in Hnd as [_ Hnd]. apply Forall_cons in Hall as [_ Hall].
    by split_and!.
  - done.
Qed.

Lemma pace_ok_reachable w p : rtc pace_step (pace_start w) p → pace_ok p.
Proof using Type.
  intros Hrun. remember (pace_start w) as p0 eqn:Hp0. assert (Hok : pace_ok p0).
  { subst p0. unfold pace_ok. cbn. split_and!; [done|lia|constructor|constructor|constructor]. }
  clear Hp0. induction Hrun; [done|]. by eauto using pace_ok_step.
Qed.

(** Distinct positive numbers up to [x] are at most [x] many. *)
Lemma count_distinct (l : list Z) (x : Q) :
  NoDup l → Forall (λ n, (1 <= n)%Z ∧ inject_Z n <= x) l → 0 <= x → inject_Z (slen l) <= x.
Proof using Type.
  intros Hnd Hl Hx. eapply Qle_trans; [|apply Qfloor_le]. rewrite <-Zle_Qle.
  assert (H0 : (0 <= Qfloor x)%Z) by (rewrite <-(Qfloor_Z 0); by apply Qfloor_resp_le).
  assert (Hsub : l ⊆+ seqZ 1 (Qfloor x)).
  { apply NoDup_submseteq; [done|]. intros n Hn. rewrite Forall_forall in Hl. destruct (Hl n Hn) as [H1 Hle].
    apply elem_of_seqZ. apply Qfloor_resp_le in Hle. rewrite Qfloor_Z in Hle. lia. }
  apply submseteq_length in Hsub. rewrite length_seqZ in Hsub. unfold slen. lia.
Qed.

(** C36: no user runs ahead of the profile.  However the users are interleaved,
    every task is started once, and by any time of the run the tasks started
    so far are, up to a billionth of a request, no more than the integral of
    the target rate up to then. *)
Theorem load_never_ahead w p t :
  rtc pace_step (pace_start w) p → 0 <= t → t <= duration →
  NoDup (pc_started p).*1 ∧
  inject_Z (slen (filter (λ s, Qle_bool s.2 t = true) (pc_started p))) * per_task
    <= cumulative_tasks duration per_task t * per_task + (1 # 1000000000).
Proof using duration_pos duration_480 per_task_pos.
  intros Hrun H0 Ht. apply pace_ok_reachable in Hrun as (_ & _ & Hnd & Hall & Hdue).
  apply NoDup_app in Hnd as (_ & _ & Hnd). apply Forall_app in Hall as [_ Hall]. split; [done|].
  set (l := filter _ _). set (x := cumulative_tasks duration per_task t + slack duration / per_task).
  assert (Hslack : slack duration <= 1 # 1000000000) by by apply slack_small.
  assert (Hs0 : 0 <= slack duration).
  { unfold slack. apply Qle_shift_div_l; [reflexivity|]. lra. }
  destruct (cumulative_between duration per_task duration_480 per_task_pos 0 t) as [Hc0 _]; [lra..|].
  rewrite cumulative_zero in Hc0.
  assert (Hxp : x * per_task == cumulative_tasks duration per_task t * per_task + slack duration).
  { unfold x. field. lra. }
  assert (Hle : inject_Z (slen l.*1) <= x).
  { apply count_distinct.
    - eapply sublist_NoDup; [exact Hnd|]. apply fmap_sublist, sublist_filter.
    - apply Forall_fmap, Forall_forall. intros [n s] [Hs Hin]%list_elem_of_filter. cbn in *.
      apply Qle_bool_iff in Hs. rewrite !Forall_forall in *. destruct (Hdue _ Hin) as [Hn Hsched].
      assert (Hn1 : (1 <= n)%Z) by (apply (Hall n); by eapply list_elem_of_fmap_2').
      split; [done|]. assert (Hnpos : 0 < inject_Z n) by (unfold Qlt; cbn; lia).
      destruct (schedule_inverts duration per_task duration_pos duration_480 per_task_pos (inject_Z n) Hnpos Hn)
        as (? & ? & ? & ?).
      destruct (cumulative_between duration per_task duration_480 per_task_pos (scheduled (inject_Z n)) t)
        as [Hmono _]; [lra..|]. apply (Qmult_le_r _ _ per_task per_task_pos). rewrite Hxp. nra.
    - apply (Qmult_le_r _ _ per_task per_task_pos). rewrite Hxp. nra. }
  unfold slen in *. rewrite length_fmap in Hle. apply (Qmult_le_compat_r _ _ per_task) in Hle; [|lra]. lra.
Qed.
End Pace.

(** ** Runs *)

#[local] Instance rational_clock : RunClock Q := {| get_run_time := λ w, (w, w); sleep := λ d w, w + d |}.
#[local] Program Instance rational_clock_laws : RunClockLaws Q := {| time := λ w, w |}.
Next Obligation. cbn. intros. lra. Qed.
Next Obligation. cbn. intros. lra. Qed.

Lemma cumulative_is_integral_witness : cumulative_tasks 480 2 480 * 2 == 480 * (3309375 # 10000).
Proof.
  pose proof (cumulative_is_integral 480 2 eq_refl (Qle_refl 480) eq_refl) as (_ & _ & _ & H). exact (H (Qeq_refl 480)).
Defined.

Lemma schedule_accurate_witness :
  Qabs (cumulative_tasks 480 2 (scheduled_time_for_ordinal 480 2 1000) - 1000) * 2 <= 1 # 1000000000.
Proof.
  pose proof (schedule_accurate 480 2 eq_refl (Qle_refl 480) eq_refl) as (H & _).
  apply (H 1000); vm_compute; [reflexivity|discriminate].
Defined.

(** The first task of a run that makes two requests per task: its user waits
    for about a second and a half. *)
Definition first_due : Q := scheduled_time_for_ordinal 480 2 1.

Lemma first_started :
  rtc (pace_step 480 2) (pace_start 480 2 0) (mkPacing (mkScheduler 2 (cumulative_tasks 480 2 480)) [] [(1%Z, 2)] 2).
Proof.
  eapply rtc_l; [apply step_reserve|]. eapply rtc_l; [by apply (step_elapse _ _ _ _ _ _ 2)|].
  eapply rtc_l; [|apply rtc_refl].
  set (total := cumulative_tasks 480 2 480).
  change (mkPacing (mkScheduler 2 total) [] [(1%Z, 2)] 2)
    with (mkPacing (mkScheduler 2 total) ([] ++ []) ([] ++ [(1%Z, time (W := Q) 2)]) 2).
  change (mkPacing (reserve (reset_scheduler 480 2)).2 [(reserve (reset_scheduler 480 2)).1] [] 2)
    with (mkPacing (mkScheduler 2 total) ([] ++ 1%Z :: []) [] 2).
  apply (step_start 480 2 (mkScheduler 2 total) [] 1 [] [] 2 1 0 (0 + first_due)).
  - vm_compute. reflexivity.
  - vm_compute. discriminate.
Qed.

Lemma load_never_ahead_witness : inject_Z 1 * 2 <= cumulative_tasks 480 2 2 * 2 + (1 # 1000000000).
Proof.
  apply (load_never_ahead 480 2 eq_refl (Qle_refl 480) eq_refl 0 _ 2 first_started); vm_compute; discriminate.
Defined.

(** A user that comes for a slot after the last one waits for the end. *)
Lemma organizer_pace_returns_witness :
  ∃ w', organizer_pace 480 2 481 (mkScheduler 900000 (cumulative_tasks 480 2 480)) 470 = (Some (false, w'), mkScheduler 900001 (cumulative_tasks 480 2 480)) ∧
    480 <= time w'.
Proof.
  destruct (organizer_pace_returns 480 2 eq_refl (mkScheduler 900000 (cumulative_tasks 480 2 480)) (470 : Q))
    as (go & w' & Hrun & Hgo); [vm_compute; discriminate|].
  destruct go; [exfalso; apply (Qle_not_lt _ _ (proj1 Hgo)); vm_compute; reflexivity|].
  exists w'. split; [exact Hrun|exact (proj2 Hgo)].
Defined.
