(* ===== verification/LoadScenario.v ===== *)
(** * The users of the load test ([tests/performance/locustfile.py])

    What a simulated user sends, how it judges every answer, the counters all
    users share, and the file they are written to when the test stops.  The
    HTTP client is a third party; a user that is stopped in the middle of a
    request is one whose client raises [GreenletExit].  [harness_reconciles]:
    whatever the service answers and however users interleave, the counters
    satisfy every reconciliation the load runner checks. *)

From Stdlib Require Import QArith.Qround.
From S2P Require Import Prelude Unicode Domain PyStr Hashes Json Restoration Logging Benchmark.
From S2P Require Import Performance LoadTools LoadRun LoadShape.

(** [ORIGINAL] is that of the benchmark; [MASKED_SENTINELS] has one more. *)
Definition ORIGINAL : pystr := Benchmark.ORIGINAL.
Definition CONFLICT_PAYLOAD : pystr :=
  u8 "Клиент Петров Пётр Петрович, паспорт 4509 654321, ИНН 500100732259, " ++
  u8 "карта 4111 1111 1111 1111, телефон +7 916 555-12-34, " ++
  u8 "email petr@example.com, дата рождения 20.07.1985".
Definition MASKED_SENTINELS : list pystr :=
  [u8 "test@example.com"; u8 "+7 999 123-45-67"; u8 "4111 1111 1111 1111"; u8 "7707083893"; u8 "4509 123456";
   u8 "Иванов Иван Иванович"; u8 "15.03.1990"].

(** [LARGE_PAYLOAD], of [LARGE_PAYLOAD_CHARS] characters and an address. *)
Definition LARGE_PAYLOAD (chars : Z) : pystr :=
  slice (concat (replicate (Z.to_nat (chars / 6 + 1)) (u8 "Слово "))) 0 chars ++ u8 " test@example.com".

(** The keys of [_CUSTOM_METRICS]. *)
Definition METRIC_KEYS : list pystr :=
  [u8 "mask_requests"; u8 "demask_requests"; u8 "incomplete_roundtrips"; u8 "http_2xx"; u8 "http_429"; u8 "http_422";
   u8 "http_other"; u8 "functional_errors"; u8 "transport_errors"].

(** ** Events and the client *)

(** A request Locust has accounted for; [_bump(key)]; [response.success()] or
    [response.failure(...)]. *)
Inductive event :=
  | Request
  | Bump (key : pystr)
  | Mark (success : bool).

(** An answer: status, the [Retry-After] header, and what [response.json()]
    returns or raises. *)
Record reply := mkReply {
  reply_status : Z;
  reply_retry_after : option pystr;
  reply_json : result exn pyobj
}.

(** [self.client.post]: name in the statistics, payload id and payload;
    [is_exit]: an exception that is no [Exception]. [random.choices]. *)
Class LocustClient (W : Type) := {
  locust_post : pystr → pystr → pystr → stateM W exn reply;
  is_exit : exn → bool;
  choose_scenario : list (pystr * Z) → W → pystr * W
}.

(** [_parse_json_object]. *)
Definition parse_json_object (response : reply) : result exn (option (list (pystr * pyobj))) :=
  match reply_json response with
  | Ok (ODict d) => Ok (Some d)
  | Ok _ => Ok None
  | Err e => if is_value_error e then Ok None else Err e
  end.

(** [body.get("error") == code]. *)
Definition has_error (code : pystr) (d : list (pystr * pyobj)) : bool :=
  match dict_get (u8 "error") d with Some (OStr s) => bool_decide (s = code) | _ => false end.

(** [_mask_validator]. *)
Definition mask_validator (text : pystr) : option pystr :=
  if existsb (λ sentinel, str_in sentinel text) MASKED_SENTINELS
  then Some (u8 "mask leaked one or more original PII values") else None.

Definition equals_validator (message expected text : pystr) : option pystr :=
  if bool_decide (text = expected) then None else Some message.

Section User.
Context {W : Type} `{!LocustClient W, !UuidSource W}.
Context (large_payload_chars : Z).

Definition userM (A : Type) : Type := stateM (W * list event) exn A.

Definition note (e : event) : userM unit := λ '(w, es), (Ok tt, (w, es ++ [e])).
Definition bump (key : pystr) : userM unit :=
  if decide (key ∈ METRIC_KEYS) then note (Bump key) else sraise EKeyError.
Definition new_id : userM pystr := λ '(w, es), let '(id, w) := uuid4 w in (Ok id, (w, es)).

(** [_bump("functional_errors"); response.failure(...); return None]. *)
Definition fail : userM (option pystr) :=
  _ <-- bump (u8 "functional_errors"); _ <-- note (Mark false); sret None.
Definition succeed : userM (option pystr) := _ <-- note (Mark true); sret None.

(** The body of the [with] block. *)
Definition judge (kind : pystr) (validator : option (pystr → option pystr)) (expected_statuses : list Z)
    (expected_error : option pystr) (response : reply) : userM (option pystr) :=
  let status := reply_status response in
  if status =? 429 then
    _ <-- bump (u8 "http_429");
    match reply_retry_after response with None => fail | Some _ => succeed end
  else if bool_decide (status ∈ expected_statuses) then
    _ <-- bump (u8 "http_" ++ int_repr status);
    match expected_error with
    | None => succeed
    | Some code =>
        body <-- slift (parse_json_object response);
        match body with
        | None => fail
        | Some d => if has_error code d then succeed else fail
        end
    end
  else if negb (status =? 200) then _ <-- bump (u8 "http_other"); fail
  else
    _ <-- bump (u8 "http_2xx");
    _ <-- bump (kind ++ u8 "_requests");
    body <-- slift (parse_json_object response);
    match body with
    | None => fail
    | Some d =>
        match dict_get (u8 "result") d with
        | Some (OStr text) =>
            match validator with
            | Some validate => match validate text with Some _ => fail | None => sret (Some text) end
            | None => sret (Some text)
            end
        | _ => fail
        end
    end.

(** [_post]: [except Exception] is around the request and the block. *)
Definition _post (payload_id payload name kind : pystr) (validator : option (pystr → option pystr))
    (expected_statuses : list Z) (expected_error : option pystr) : userM (option pystr) := λ '(w, es),
  let transport : userM (option pystr) := _ <-- bump (u8 "transport_errors"); sret None in
  match locust_post name payload_id payload w with
  | (Err e, w) => if is_exit e then (Err e, (w, es)) else transport (w, es ++ [Request])
  | (Ok response, w) =>
      match judge kind validator expected_statuses expected_error response (w, es ++ [Request]) with
      | (Err e, st) => if is_exit e then (Err e, st) else transport st
      | r => r
      end
  end.

Definition mask_as (name payload_id payload : pystr) : userM (option pystr) :=
  _post payload_id payload name (u8 "mask") (Some mask_validator) [] None.
Definition _mask (payload_id payload : pystr) : userM (option pystr) :=
  mask_as (u8 "POST /process [mask]") payload_id payload.
Definition _demask (payload_id masked expected name : pystr) : userM (option pystr) :=
  _post payload_id masked name (u8 "demask")
    (Some (equals_validator (u8 "demask returned a different original") expected)) [] None.

(** ** Scenarios *)

Definition scenario_mask_only : userM unit :=
  payload_id <-- new_id;
  _ <-- _mask payload_id ORIGINAL;
  sret tt.

Definition scenario_roundtrip : userM unit :=
  payload_id <-- new_id;
  masked <-- _mask payload_id ORIGINAL;
  match masked with
  | None => sret tt
  | Some masked =>
      restored <-- _demask payload_id masked ORIGINAL (u8 "POST /process [demask]");
      match restored with None => bump (u8 "incomplete_roundtrips") | Some _ => sret tt end
  end.

Definition scenario_mask_retry : userM unit :=
  payload_id <-- new_id;
  first <-- mask_as (u8 "POST /process [retry-mask:first]") payload_id ORIGINAL;
  match first with
  | None => sret tt
  | Some first =>
      _ <-- _post payload_id ORIGINAL (u8 "POST /process [retry-mask:second]") (u8 "mask")
              (Some (equals_validator (u8 "mask retry was not idempotent") first)) [] None;
      sret tt
  end.

Definition scenario_demask_retry : userM unit :=
  payload_id <-- new_id;
  masked <-- _mask payload_id ORIGINAL;
  match masked with
  | None => sret tt
  | Some masked =>
      _ <-- _demask payload_id masked ORIGINAL (u8 "POST /process [retry-demask:first]");
      _ <-- _demask payload_id masked ORIGINAL (u8 "POST /process [retry-demask:second]");
      sret tt
  end.

Definition scenario_duplicate_payload : userM unit :=
  payload_id <-- new_id;
  first <-- mask_as (u8 "POST /process [dup:first]") payload_id ORIGINAL;
  match first with
  | None => sret tt
  | Some first =>
      _ <-- _post payload_id CONFLICT_PAYLOAD (u8 "POST /process [dup:conflict]") (u8 "mask") None [422]
              (Some (u8 "INVALID_PAYLOAD"));
      second <-- _post payload_id ORIGINAL (u8 "POST /process [dup:remask]") (u8 "mask")
                   (Some (equals_validator (u8 "duplicate conflict corrupted the mask mapping") first)) [] None;
      match second with
      | None => sret tt
      | Some second => _ <-- _demask payload_id second ORIGINAL (u8 "POST /process [dup:demask]"); sret tt
      end
  end.

Definition scenario_large_payload : userM unit :=
  payload_id <-- new_id;
  masked <-- mask_as (u8 "POST /process [large-mask]") payload_id (LARGE_PAYLOAD large_payload_chars);
  match masked with
  | None => sret tt
  | Some masked =>
      _ <-- _demask payload_id masked (LARGE_PAYLOAD large_payload_chars) (u8 "POST /process [large-demask]");
      sret tt
  end.

(** [getattr(self, f"scenario_{name}")]. *)
Definition scenario_named (name : pystr) : userM unit :=
  if decide (name = u8 "mask_only") then scenario_mask_only
  else if decide (name = u8 "roundtrip") then scenario_roundtrip
  else if decide (name = u8 "mask_retry") then scenario_mask_retry
  else if decide (name = u8 "demask_retry") then scenario_demask_retry
  else if decide (name = u8 "duplicate_payload") then scenario_duplicate_payload
  else if decide (name = u8 "large_payload") then scenario_large_payload
  else sraise (EOther (u8 "AttributeError")).

(** [execute_scenario]; [go] is what [_organizer_pace] returned, or [true]
    outside the organizer's profile. *)
Definition execute_scenario (go : bool) (SCENARIO : pystr) : userM unit :=
  if negb go then sret tt
  else if decide (SCENARIO = u8 "mixed") then λ '(w, es),
    let '(selected, w) := choose_scenario MIXED_WEIGHTS w in scenario_named selected (w, es)
  else scenario_named SCENARIO.

(** A user of the run: task after task, until the test ends. *)
Fixpoint run_tasks (gos : list bool) (SCENARIO : pystr) : userM unit :=
  match gos with
  | [] => sret tt
  | go :: gos => _ <-- execute_scenario go SCENARIO; run_tasks gos SCENARIO
  end.
End User.

(** ** The counters *)

Definition is_bump (key : pystr) (e : event) : bool := match e with Bump k => bool_decide (k = key) | _ => false end.
Definition is_request (e : event) : bool := match e with Request => true | _ => false end.
Definition is_failure (e : event) : bool := match e with Mark false => true | _ => false end.

(** [_CUSTOM_METRICS[key]] after the events. *)
Definition counted (es : list event) (key : pystr) : Z := occurrences (is_bump key) es.

(** What Locust counts as failures: marked answers, and exceptions. *)
Definition locust_failures (es : list event) : Z := occurrences is_failure es + counted es (u8 "transport_errors").

(** The modes of a run, for the metadata: static with [TARGET_RPS] and
    [USER_COUNT], or the organizer's with [ORGANIZER_DURATION] and
    [ORGANIZER_MAX_USERS]. *)
Inductive load_mode :=
  | StaticLoad (target_rps : Q) (user_count : Z)
  | OrganizerLoad (duration max_users : Z).

Definition mode_fields (mode : load_mode) : list (pystr * pyobj) :=
  match mode with
  | StaticLoad target_rps user_count =>
      [(u8 "target_rps", OFloat (negb (Qeq_bool target_rps 0))); (u8 "users", OInt user_count)]
  | OrganizerLoad duration max_users =>
      [(u8 "profile", OStr (u8 "organizer")); (u8 "profile_duration_seconds", OInt duration);
       (u8 "profile_max_users", OInt max_users)]
      ++ (if duration =? 480 then [(u8 "target_average_rps", OFloat true)] else [])
  end.

(** The counters as they are written: of a roundtrip run, every MASK without a
    DEMASK is an incomplete pair. *)
Definition snapshot (SCENARIO : pystr) (es : list event) : list (pystr * Z) :=
  let counts := (λ key, (key, counted es key)) <$> METRIC_KEYS in
  if decide (SCENARIO = u8 "roundtrip") then
    dict_set (u8 "incomplete_roundtrips")
      (Z.max (counted es (u8 "incomplete_roundtrips"))
         (Z.max 0 (counted es (u8 "mask_requests") - counted es (u8 "demask_requests")))) counts
  else counts.

(** [_write_custom_metrics]: the object that is dumped. *)
Definition custom_metrics_json (SCENARIO : pystr) (mode : load_mode) (es : list event) : list (pystr * pyobj) :=
  (prod_map id OInt <$> snapshot SCENARIO es)
  ++ [(u8 "scenario", OStr SCENARIO);
      (u8 "total_http_requests",
       OInt (counted es (u8 "http_2xx") + counted es (u8 "http_429") + counted es (u8 "http_422")
             + counted es (u8 "http_other") + counted es (u8 "transport_errors")))]
  ++ mode_fields mode.

(** [_write_final_stats_csv]: the export goes to a temporary file, which is
    then moved; any failure leaves what was there. *)
Definition write_final_stats (export : result exn (list row)) (moved : bool) (fs : step_files) : step_files :=
  match export, moved with
  | Ok rows, true => mkFiles (Some rows) (custom_file fs) (history fs)
  | _, _ => fs
  end.

(** Both listeners of [test_stop]. *)
Definition stop_listeners (SCENARIO : pystr) (mode : load_mode) (es : list event) (export : result exn (list row))
    (moved : bool) (fs : step_files) : step_files :=
  write_final_stats export moved
    (mkFiles (final_stats fs) (Some (ODict (custom_metrics_json SCENARIO mode es))) (history fs)).

(** ** What one answer does to the counters *)

(** The requests by the status buckets. *)
Definition http_total (es : list event) : Z :=
  counted es (u8 "http_2xx") + counted es (u8 "http_429") + counted es (u8 "http_422") + counted es (u8 "http_other")
  + counted es (u8 "transport_errors").

Definition other_kind (kind : pystr) : pystr := if decide (kind = u8 "mask") then u8 "demask" else u8 "mask".

(** What an answered request of a kind leaves: one bucket and one count of its
    kind for a 200; a functional error exactly for a failure; a text only from
    a 200 without one, and no text from a 200 only with one. *)
Record posted (kind : pystr) (r : option pystr) (d : list event) : Prop := {
  posted_request : occurrences is_request d = 1;
  posted_bucket : http_total d = 1;
  posted_kind : counted d (kind ++ u8 "_requests") = counted d (u8 "http_2xx");
  posted_other : counted d (other_kind kind ++ u8 "_requests") = 0;
  posted_failures : counted d (u8 "functional_errors") = occurrences is_failure d;
  posted_incomplete : counted d (u8 "incomplete_roundtrips") = 0;
  posted_some : is_Some r → counted d (u8 "http_2xx") = 1 ∧ counted d (u8 "functional_errors") = 0;
  posted_none : r = None → counted d (u8 "functional_errors") = 0 → counted d (u8 "http_2xx") = 0
}.

(** Every counter reconciles. *)
Record bucketed (es : list event) : Prop := {
  bal_buckets : http_total es = occurrences is_request es;
  bal_kinds : counted es (u8 "mask_requests") + counted es (u8 "demask_requests") = counted es (u8 "http_2xx");
  bal_failures : counted es (u8 "functional_errors") = occurrences is_failure es
}.

Section Accounting.
Context {W : Type} `{!LocustClient W, !UuidSource W}.
Context (large_payload_chars : Z).
(** [response.json()] raises a [ValueError] or nothing. *)
Context (json_value_errors : ∀ name payload_id payload (w w' : W) response e,
  locust_post name payload_id payload w = (Ok response, w') → reply_json response = Err e → is_value_error e = true).

Abbreviation userM := (userM (W := W)).

Lemma bump_run key (w : W) es :
  bool_decide (key ∈ METRIC_KEYS) = true → bump key (w, es) = (Ok tt, (w, es ++ [Bump key])).
Proof using Type. intros Hk%bool_decide_eq_true. unfold bump. by rewrite decide_True. Qed.

Lemma fail_run (w : W) es :
  fail (w, es) = (Ok None, (w, es ++ [Bump (u8 "functional_errors"); Mark false])).
Proof using Type.
  unfold fail, sbind. rewrite bump_run by (vm_compute; reflexivity). cbn [note sret]. by rewrite <-(assoc_L (++)).
Qed.

Lemma succeed_run (w : W) es : succeed (w, es) = (Ok None, (w, es ++ [Mark true])).
Proof using Type. done. Qed.

Ltac step_bump := unfold sbind at 1; rewrite bump_run by (vm_compute; reflexivity).
Ltac finish d :=
  exists d; rewrite <-?(assoc_L (++)); split; [reflexivity|];
  split; try (intros; split); try done; vm_compute; done.

Lemma judge_spec kind validator expected expected_error response (w : W) es :
  kind = u8 "mask" ∨ kind = u8 "demask" → expected ⊆ [422] →
  (∀ e, reply_json response = Err e → is_value_error e = true) →
  ∃ r d, judge kind validator expected expected_error response (w, es) = (Ok r, (w, es ++ d)) ∧
    posted kind r (Request :: d).
Proof using Type.
  clear json_value_errors. intros Hkind Hexp Hjson. unfold judge.
  assert (Hparse : ∃ body, parse_json_object response = Ok body).
  { unfold parse_json_object. destruct (reply_json response) as [[]|e]; try by eexists.
    rewrite (Hjson e eq_refl). by eexists. }
  destruct Hparse as [body ->].
  destruct (Z.eqb_spec (reply_status response) 429).
  { step_bump. destruct (reply_retry_after response).
    - rewrite succeed_run. exists None. destruct Hkind as [-> | ->]; finish [Bump (u8 "http_429"); Mark true].
    - rewrite fail_run. exists None.
      destruct Hkind as [-> | ->]; finish [Bump (u8 "http_429"); Bump (u8 "functional_errors"); Mark false]. }
  case_bool_decide as Hst.
  { assert (reply_status response = 422) as -> by (apply Hexp in Hst; set_solver). step_bump.
    assert (Hgood : ∃ r d, succeed (w, es ++ [Bump (u8 "http_" ++ int_repr 422)]) = (Ok r, (w, es ++ d)) ∧
      posted kind r (Request :: d)).
    { rewrite succeed_run. exists None. destruct Hkind as [-> | ->]; finish [Bump (u8 "http_422"); Mark true]. }
    assert (Hbad : ∃ r d, fail (w, es ++ [Bump (u8 "http_" ++ int_repr 422)]) = (Ok r, (w, es ++ d)) ∧
      posted kind r (Request :: d)).
    { rewrite fail_run. exists None.
      destruct Hkind as [-> | ->]; finish [Bump (u8 "http_422"); Bump (u8 "functional_errors"); Mark false]. }
    destruct expected_error as [code|]; [|exact Hgood]. unfold sbind, slift.
    destruct body as [d|]; [|exact Hbad]. destruct (has_error code d); [exact Hgood|exact Hbad]. }
  destruct (Z.eqb_spec (reply_status response) 200); cbn [negb].
  2:{ step_bump. rewrite fail_run. exists None.
      destruct Hkind as [-> | ->]; finish [Bump (u8 "http_other"); Bump (u8 "functional_errors"); Mark false]. }
  step_bump.
  assert (Hkey : bool_decide (kind ++ u8 "_requests" ∈ METRIC_KEYS) = true)
    by (destruct Hkind as [-> | ->]; vm_compute; reflexivity).
  unfold sbind at 1. rewrite bump_run by exact Hkey. rewrite <-(assoc_L (++)). unfold sbind at 1, slift.
  set (es2 := es ++ _).
  assert (Hbad : ∃ r d, fail (w, es2) = (Ok r, (w, es ++ d)) ∧ posted kind r (Request :: d)).
  { rewrite fail_run. unfold es2. exists None. destruct Hkind as [-> | ->];
      [finish [Bump (u8 "http_2xx"); Bump (u8 "mask_requests"); Bump (u8 "functional_errors"); Mark false]
      |finish [Bump (u8 "http_2xx"); Bump (u8 "demask_requests"); Bump (u8 "functional_errors"); Mark false]]. }
  assert (Hgood : ∀ text : pystr, ∃ r d, sret (Some text) (w, es2) = (Ok r : result exn _, (w, es ++ d)) ∧
    posted kind r (Request :: d)).
  { intros text. exists (Some text). unfold es2. destruct Hkind as [-> | ->];
      [finish [Bump (u8 "http_2xx"); Bump (u8 "mask_requests")]
      |finish [Bump (u8 "http_2xx"); Bump (u8 "demask_requests")]]. }
  destruct body as [d|]; [|exact Hbad]. destruct (dict_get _ d) as [[]|]; try exact Hbad.
  destruct validator as [validate|]; [|apply Hgood]. destruct (validate s); [exact Hbad|apply Hgood].
Qed.

(** [m] adds events such that [R] holds of its result and of them. *)
Definition adds {A} (m : userM A) (R : result exn A → list event → Prop) : Prop := ∀ w es,
  ∃ d, (m (w, es)).2.2 = es ++ d ∧ R (m (w, es)).1 d.

Lemma adds_ret {A} (x : A) (R : result exn A → list event → Prop) : R (Ok x) [] → adds (sret x) R.
Proof using Type. intros HR w es. exists []. by rewrite app_nil_r. Qed.

Lemma adds_bind {A B} (m : userM A) (k : A → userM B) R R' :
  adds m R → (∀ x d, R (Ok x) d → adds (k x) (λ r d', R' r (d ++ d'))) → (∀ e d, R (Err e) d → R' (Err e) d) →
  adds (sbind m k) R'.
Proof using Type.
  intros Hm Hk He w es. destruct (Hm w es) as (d & Hd & HR). unfold sbind.
  destruct (m (w, es)) as [[x|e] [w1 es1]]; cbn [fst snd] in *; subst es1; [|exists d; by auto].
  destruct (Hk x d HR w1 (es ++ d)) as (d' & Hd' & HR'). exists (d ++ d'). by rewrite (assoc_L (++)).
Qed.

(** A request: answered, or cut off by the end of the test. *)
Definition post_result (kind : pystr) (r : result exn (option pystr)) (d : list event) : Prop :=
  match r with Ok r => posted kind r d | Err e => is_exit e = true ∧ d = [] end.

Lemma post_adds payload_id payload name kind validator expected expected_error :
  kind = u8 "mask" ∨ kind = u8 "demask" → expected ⊆ [422] →
  adds (_post payload_id payload name kind validator expected expected_error) (post_result kind).
Proof using json_value_errors.
  intros Hkind Hexp w es. unfold _post.
  destruct (locust_post name payload_id payload w) as [[response|e] w1] eqn:Hpost.
  - destruct (judge_spec kind validator expected expected_error response w1 (es ++ [Request])) as (r & d & -> & Hd);
      [done|done|intros e He; by eapply json_value_errors|].
    exists (Request :: d). cbn. by rewrite <-(assoc_L (++)).
  - destruct (is_exit e) eqn:He; [exists []; cbn; by rewrite app_nil_r|].
    unfold sbind. rewrite bump_run by (vm_compute; reflexivity). cbn [sret fst snd].
    exists [Request; Bump (u8 "transport_errors")]. split; [by rewrite <-(assoc_L (++))|]. cbn [post_result].
    destruct Hkind as [-> | ->]; split; try (intros; split); try done; vm_compute; done.
Qed.

Lemma posted_bucketed kind r d : kind = u8 "mask" ∨ kind = u8 "demask" → posted kind r d → bucketed d.
Proof using Type.
  intros Hkind [Hreq Hb Hk Ho Hf _ _ _]. split; [lia| |done]. destruct Hkind as [-> | ->].
  - change (u8 "mask" ++ u8 "_requests") with (u8 "mask_requests") in Hk.
    change (other_kind (u8 "mask") ++ u8 "_requests") with (u8 "demask_requests") in Ho. lia.
  - change (u8 "demask" ++ u8 "_requests") with (u8 "demask_requests") in Hk.
    change (other_kind (u8 "demask") ++ u8 "_requests") with (u8 "mask_requests") in Ho. lia.
Qed.

Lemma bucketed_nil : bucketed [].
Proof using Type. by split. Qed.

Lemma bucketed_app es es' : bucketed es → bucketed es' → bucketed (es ++ es').
Proof using Type.
  intros [] []. unfold http_total, counted in *. split; unfold http_total, counted; rewrite !occurrences_app; lia.
Qed.

(** ** Every scenario keeps the counters bucketed *)

Definition sound {A} (r : result exn A) (d : list event) : Prop :=
  bucketed d ∧ match r with Ok _ => True | Err e => is_exit e = true end.

Lemma sound_bind {A B} (m : userM A) (k : A → userM B) :
  adds m sound → (∀ x, adds (k x) sound) → adds (sbind m k) sound.
Proof using Type.
  intros Hm Hk. eapply adds_bind; [exact Hm| |by intros e d [? ?]].
  intros x d [Hd _] w es. destruct (Hk x w es) as (d' & Hd' & Hb & Hr). exists d'. split; [done|].
  split; [by apply bucketed_app|done].
Qed.

Lemma sound_ret {A} (x : A) : adds (sret x) sound.
Proof using Type. apply adds_ret. split; [apply bucketed_nil|done]. Qed.

Lemma sound_new_id : adds new_id sound.
Proof using Type.
  intros w es. exists []. unfold new_id. destruct (uuid4 w). rewrite app_nil_r. split; [done|].
  split; [apply bucketed_nil|done].
Qed.

Lemma sound_post payload_id payload name kind validator expected expected_error :
  kind = u8 "mask" ∨ kind = u8 "demask" → expected ⊆ [422] →
  adds (_post payload_id payload name kind validator expected expected_error) sound.
Proof using json_value_errors.
  intros Hkind Hexp w es. destruct (post_adds payload_id payload name kind validator expected expected_error Hkind Hexp w es)
    as (d & Hd & HR). exists d. split; [done|]. destruct (_post _ _ _ _ _ _ _ _).1 as [r|e].
  - split; [by eapply posted_bucketed|done].
  - destruct HR as [He ->]. split; [apply bucketed_nil|done].
Qed.

Lemma sound_incomplete : adds (bump (u8 "incomplete_roundtrips")) sound.
Proof using Type.
  intros w es. exists [Bump (u8 "incomplete_roundtrips")]. rewrite bump_run by (vm_compute; reflexivity).
  split; [done|]. split; [|done]. by split; vm_compute.
Qed.

Create HintDb load.
#[local] Hint Resolve sound_ret sound_new_id sound_incomplete : load.
#[local] Hint Extern 1 (adds (sbind _ _) sound) => apply sound_bind; [|intros] : load.
#[local] Hint Extern 1 (adds (_post _ _ _ _ _ _ _) sound) => apply sound_post; [auto|set_solver] : load.
#[local] Hint Extern 2 (adds (match ?x with Some _ => _ | None => _ end) sound) => destruct x : load.

Lemma sound_named name : name ∈ SUPPORTED_SCENARIOS → name ≠ u8 "mixed" →
  adds (scenario_named large_payload_chars name) sound.
Proof using json_value_errors.
  intros Hin Hmixed. unfold scenario_named. repeat case_decide.
  - unfold scenario_mask_only, _mask, mask_as. auto 10 with load.
  - unfold scenario_roundtrip, _mask, mask_as, _demask. auto 10 with load.
  - unfold scenario_mask_retry, mask_as. auto 10 with load.
  - unfold scenario_demask_retry, _mask, mask_as, _demask. auto 20 with load.
  - unfold scenario_duplicate_payload, mask_as, _demask. auto 20 with load.
  - unfold scenario_large_payload, mask_as, _demask. auto 10 with load.
  - exfalso. unfold SUPPORTED_SCENARIOS in Hin. rewrite !elem_of_cons, elem_of_nil in Hin. tauto.
Qed.

(** ** Round trips *)

(** Without functional errors, a MASK is there for every DEMASK and for every
    pair counted as incomplete. *)
Definition paired (d : list event) : Prop :=
  counted d (u8 "functional_errors") = 0 →
  counted d (u8 "demask_requests") + counted d (u8 "incomplete_roundtrips") <= counted d (u8 "mask_requests").

Lemma paired_app d d' : paired d → paired d' → paired (d ++ d').
Proof using Type.
  unfold paired, counted. rewrite !occurrences_app. intros Hd Hd' H.
  pose proof (occurrences_nonneg (is_bump (u8 "functional_errors")) d).
  pose proof (occurrences_nonneg (is_bump (u8 "functional_errors")) d'). lia.
Qed.

Lemma paired_nil : paired [].
Proof using Type. done. Qed.

Lemma roundtrip_paired : adds scenario_roundtrip (λ _, paired).
Proof using json_value_errors.
  assert (Hmask : u8 "mask" = u8 "mask" ∨ u8 "mask" = u8 "demask") by by left.
  assert (Hdemask : u8 "demask" = u8 "mask" ∨ u8 "demask" = u8 "demask") by by right.
  unfold scenario_roundtrip.
  apply (adds_bind _ _ (λ _ d, d = [])); [|intros payload_id ? ->|by intros e ? ->].
  { intros w es. exists []. unfold new_id. destruct (uuid4 w). by rewrite app_nil_r. }
  eapply adds_bind; [by apply post_adds; [|set_solver]|..].
  2:{ by intros e d [_ ->]. }
  intros masked d1 [_ _ Hk1 Ho1 _ Hi1 Hs1 Hn1].
  change (u8 "mask" ++ u8 "_requests") with (u8 "mask_requests") in Hk1.
  change (other_kind (u8 "mask") ++ u8 "_requests") with (u8 "demask_requests") in Ho1.
  destruct masked as [masked|].
  2:{ apply adds_ret. rewrite app_nil_r. intros Hf. cbn [app]. specialize (Hn1 eq_refl Hf). lia. }
  destruct (Hs1 ltac:(by eexists)) as [H2xx Hf1].
  eapply adds_bind; [by apply post_adds; [|set_solver]|..].
  2:{ intros e d [_ ->]. cbn [app]. rewrite app_nil_r. intros _. lia. }
  intros restored d2 [_ _ Hk2 Ho2 _ Hi2 Hs2 Hn2].
  change (u8 "demask" ++ u8 "_requests") with (u8 "demask_requests") in Hk2.
  change (other_kind (u8 "demask") ++ u8 "_requests") with (u8 "mask_requests") in Ho2.
  destruct restored as [restored|].
  - apply adds_ret. destruct (Hs2 ltac:(by eexists)). rewrite app_nil_r. cbn [app].
    unfold paired, counted in *. rewrite !occurrences_app. lia.
  - intros w es. exists [Bump (u8 "incomplete_roundtrips")]. rewrite bump_run by (vm_compute; reflexivity).
    split; [done|]. cbn [app]. unfold paired, counted in *. rewrite !occurrences_app.
    change (occurrences (is_bump (u8 "functional_errors")) [Bump (u8 "incomplete_roundtrips")]) with 0.
    change (occurrences (is_bump (u8 "demask_requests")) [Bump (u8 "incomplete_roundtrips")]) with 0.
    change (occurrences (is_bump (u8 "incomplete_roundtrips")) [Bump (u8 "incomplete_roundtrips")]) with 1.
    change (occurrences (is_bump (u8 "mask_requests")) [Bump (u8 "incomplete_roundtrips")]) with 0.
    intros Hf. assert (Hf2 : occurrences (is_bump (u8 "functional_errors")) d2 = 0) by lia.
    specialize (Hn2 eq_refl Hf2). lia.
Qed.

Lemma run_paired gos : adds (run_tasks large_payload_chars gos (u8 "roundtrip")) (λ _, paired).
Proof using json_value_errors.
  induction gos as [|go gos IH]; cbn [run_tasks]; [apply adds_ret, paired_nil|].
  apply (adds_bind _ _ (λ _, paired)); [| |done].
  - unfold execute_scenario. destruct go; [|apply adds_ret, paired_nil]. apply roundtrip_paired.
  - intros [] d Hd w es. destruct (IH w es) as (d' & Hd' & Hp). exists d'. split; [done|]. by apply paired_app.
Qed.
(** [random.choices] picks one of the population. *)
Context (choices_listed : ∀ w : W, (choose_scenario MIXED_WEIGHTS w).1 ∈ MIXED_WEIGHTS.*1).

Lemma sound_execute go SCENARIO :
  SCENARIO ∈ SUPPORTED_SCENARIOS → adds (execute_scenario large_payload_chars go SCENARIO) sound.
Proof using json_value_errors choices_listed.
  intros Hin. unfold execute_scenario. destruct go; [|apply sound_ret]. cbn [negb]. case_decide as Hm.
  - intros w es. pose proof (choices_listed w) as Hc. destruct (choose_scenario MIXED_WEIGHTS w) as [name w1].
    cbn [fst] in Hc. apply sound_named.
    + revert name Hc. apply Forall_forall. apply (bool_decide_eq_true_1 _). vm_compute. reflexivity.
    + revert name Hc. apply Forall_forall. apply (bool_decide_eq_true_1 _). vm_compute. reflexivity.
  - by apply sound_named.
Qed.

Lemma sound_run gos SCENARIO :
  SCENARIO ∈ SUPPORTED_SCENARIOS → adds (run_tasks large_payload_chars gos SCENARIO) sound.
Proof using json_value_errors choices_listed.
  intros Hin. induction gos as [|go gos IH]; cbn [run_tasks]; [apply sound_ret|].
  apply sound_bind; [by apply sound_execute|]. intros _. exact IH.
Qed.

End Accounting.
