(* ===== verification/LoadHarness.v ===== *)
(** * Load runs against their verdict ([tests/performance/locustfile.py])

    What the counters of a whole run - many users, interleaved, cut off by the
    end of the test - look like to [scripts/run_performance.py]. *)

From S2P Require Import Prelude Unicode Domain PyStr Json Metrics Logging World Restoration.
From S2P Require Import Performance LoadRun LoadShape LoadScenario.

(** ** The whole run *)





(** *** The file *)



(** What is written under a key. *)
Definition written_count (SCENARIO : pystr) (es : list event) (key : pystr) : Z :=
  if decide (SCENARIO = u8 "roundtrip" ∧ key = u8 "incomplete_roundtrips") then
    Z.max (counted es (u8 "incomplete_roundtrips"))
      (Z.max 0 (counted es (u8 "mask_requests") - counted es (u8 "demask_requests")))
  else counted es key.



Section Run.
Context {W : Type} `{!LocustClient W, !UuidSource W} (chars : Z).
Context (json_value_errors : ∀ name payload_id payload (w w' : W) response e,
  locust_post name payload_id payload w = (Ok response, w') → reply_json response = Err e → is_value_error e = true).
Context (choices_listed : ∀ w : W, (choose_scenario MIXED_WEIGHTS w).1 ∈ MIXED_WEIGHTS.*1).



End Run.

(** The statistics file exists after a run that the runner reset exactly when
    the export and the move worked; a failing export leaves the file of an
    earlier run where there is one. *)
Lemma final_stats_after_run SCENARIO mode es export moved fs :
  (is_Some (final_stats (stop_listeners SCENARIO mode es export moved (reset_step_outputs fs)))
     ↔ is_ok export = true ∧ moved = true) ∧
  (∀ e, final_stats (stop_listeners SCENARIO mode es (Err e) moved fs) = final_stats fs).
Proof.
  unfold stop_listeners, write_final_stats, reset_step_outputs. split; [|done].
  destruct export as [rows|e], moved; cbn [final_stats is_ok]; (split; [|naive_solver]); try done;
    by intros [? [=]].
Qed.

(** ** Runs *)


#[local] Instance starred_ids : UuidSource Z := λ w, (u8 "id", w).







(** A DEMASK answered with 200 and a wrong text counts both as a DEMASK and as
    an incomplete pair, so that the counters do not reconcile. *)
Definition wrong_demask : list event :=
  [Request; Bump (u8 "http_2xx"); Bump (u8 "mask_requests"); Request; Bump (u8 "http_2xx"); Bump (u8 "demask_requests");
   Bump (u8 "functional_errors"); Mark false; Bump (u8 "incomplete_roundtrips")].

#[local] Instance forgetful : LocustClient bool := {|
  locust_post := λ _ _ _ w, (Ok (mkReply 200 None (Ok (ODict [(u8 "result", OStr (u8 "***"))]))), w);
  is_exit := λ _, false;
  choose_scenario := λ _ w, (u8 "roundtrip", w)
|}.
#[local] Instance forgetful_ids : UuidSource bool := λ w, (u8 "id", w).

Lemma wrong_demask_counted_twice :
  (scenario_roundtrip (W := bool) (true, [])).2.2 = wrong_demask ∧
  written_count (u8 "roundtrip") wrong_demask (u8 "mask_requests") = 1 ∧
  written_count (u8 "roundtrip") wrong_demask (u8 "demask_requests") = 1 ∧
  written_count (u8 "roundtrip") wrong_demask (u8 "incomplete_roundtrips") = 1.
Proof. vm_compute. done. Qed.
